(* ===== verification/_CoqProject ===== *)
-Q . S2P
Prelude.v
Cpp.v
Doubles.v
Common.v
Schema.v
Arena.v
BPTree.v
BPTreeRep.v
BPTreeInsert.v
Index.v
IndexMemory.v
Table.v
TableRep.v
TableSpec.v
Lexer.v
LexerSpec.v
Parser.v
ParserSpec.v
Cache.v
CacheSpec.v
Executor.v
JoinSpec.v
ExecutorSpec.v
SessionSpec.v
Crc.v
Wal.v
Snapshot.v
SnapshotSpec.v
Database.v
Logged.v
Wire.v
Network.v
NetworkSpec.v
Client.v
ClientSpec.v
Benchmark.v
BenchmarkClient.v
BenchmarkServer.v
BenchmarkSpec.v
DatabaseSpec.v
ThreadPool.v
LockManager.v
Ttl.v
Background.v
Concurrency.v
ConcurrencySpec.v
Sessions.v
SessionsSpec.v
Serving.v
ServingSpec.v
Main.v
Process.v
