(* ===== verification/Prelude.v ===== *)
(** * FlexQL: a verification of the database server and its client

    FlexQL is a small SQL server. A client sends statements over TCP in
    length-prefixed messages; a pool of threads serves the connections; each
    statement is tokenized, parsed and executed over tables that keep their rows
    as bytes in an arena and index them by primary key in a B+ tree; the results
    of queries are cached. A directory may hold a snapshot and a write-ahead log
    of the tables. A benchmark program is a client of it with tests of its own.
    This library translates the C++ of src/flexql/src and of
    src/benchmark_flexql.cpp into Rocq definitions that run ([vm_compute] executes whole sessions, crashes and
    interleavings in the examples) and proves the theorems that make them
    correct. A property is numbered C1, C2, ... at its theorem.

    ** Files, bottom up

    Each component has a file with its state and operations, which read like the
    code and keep its names, and, where the proofs are long, one whose name ends
    in Rep, Insert or Spec with its invariant and theorems. Sources are relative
    to src/flexql/src.

    - Prelude: outcomes of calls, machine integers, little-endian bytes, strings,
      the [flexql] hint database and [outcome_simpl], [width_lia].
    - Cpp: the parts of the C++ standard library the code calls ([stoi], [stod],
      [to_string], [isspace], ...).
    - Doubles: doubles made of integers: conversion, addition, the text of a
      stream, and that the digits of an integer below 2^53 read back as it.
    - Common (common.h): [DataType], [Value], comparisons and printing, and the
      class [KeyOrder] of order laws that the index asks of its keys.
    - Schema (server/storage/schema): the row layout, offsets and validation.
    - Arena (server/storage/arena): the bump allocator over byte maps.
    - BPTree, BPTreeRep, BPTreeInsert, Index (server/index/bptree): nodes in a
      pool named by index; the invariant [rep] ties them to a sorted list of
      entries; Index states what a client may assume as the class [OrderedIndex],
      which the B+ tree implements and the proofs about tables use; IndexMemory
      has what an insertion leaves when a split gets no memory.
    - Table, TableRep, TableSpec (server/storage/table): rows in arena bytes;
      [table_rep] says which rows the bytes and the index encode.
    - Lexer, LexerSpec, Parser, ParserSpec (server/parser): the tokenizer and the
      recursive-descent parser in a state and error monad.
    - Cache, CacheSpec (server/cache/lru_cache): list, map and table index.
    - Executor (server/executor), JoinSpec, ExecutorSpec, SessionSpec: statements;
      [abs_execute] is the same database on lists of rows; [db_rep] relates them.
    - Crc, Wal (server/storage/wal): checksums, records, the writer, the reader.
    - Snapshot, SnapshotSpec (server/storage/snapshot): the file format.
    - Database (server/database), Logged, DatabaseSpec: startup recovery, logging,
      snapshots; which statements are logged; crashes.
    - Wire, Network, NetworkSpec (server/network/tcp_server): messages over sockets
      that move any number of bytes per call; the loop of a connection.
    - Client, ClientSpec (client/flexql_api, client/main): the C API, the shell and
      its [main].
    - Benchmark (src/benchmark_flexql.cpp), BenchmarkClient, BenchmarkServer,
      BenchmarkSpec: the benchmark program over the C API and what it prints; what
      it says given the right responses; what the server responds; both together.
    - ThreadPool, LockManager (server/concurrency), Ttl (server/ttl): step
      relations and event lists of the concurrent objects; Background
      ([Database::start], [Database::stop]): the sweeper as a database runs it.
    - Concurrency, ConcurrencySpec: the executor's statements cut at their locks,
      interleaved in any order; an exception unwinds its thread.
    - Sessions, SessionsSpec ([TCPServer::handle_client]): connections served at
      the same time, each a thread over Concurrency's statements.
    - Serving, ServingSpec ([TCPServer::run], [TCPServer::stop]): the accept loop,
      the pool and the connections put together; a worker that finishes a task is
      one whose connection is over.
    - Main (server/main.cpp, [TCPServer::run]): the command line and a run of the
      process, from startup over the clients to its snapshots, one connection
      after the other.
    - Process (server/main.cpp): the same with the connections at the same time,
      as Serving runs them, between the startup and the snapshots of Main.

    Names from two files that clash are qualified ([BPTree.insert],
    [Table.insert], [ThreadPool.join]).

    ** How the code is modelled

    A call that may fail returns an [outcome]: a value, an exception, undefined
    behaviour ([Undef]: a null or wild read, an index out of range, a float cast
    that does not fit), or [Diverge] when the fuel of a loop runs out. Integers
    are [Z] with the wrap-around of their type written out ([u32], [s64], ...);
    doubles are their 64 bits, compared as IEEE binary64. Pointers are indices
    into pools, chunks or heaps. State is passed explicitly; an unordered map is
    a [gmap], and where its order shows, the order is a parameter. What lies
    outside the sources is a class: the [malloc] of an arena's chunk may refuse
    ([Malloc]; every other allocation is taken to succeed), the hash of
    the standard library ([StdHash], equal values having equal hashes), which
    paths open ([CanOpen]) and which renames work ([CanRename]), the iteration
    order of hash maps ([TableOrder], [PointerOrder]), the bytes a socket takes
    ([Kernel]), the connection of the client ([Network]), the durations the
    benchmark measures ([Timer]). Times are arguments: each reading of the clock
    may differ.

    ** Fuel

    Loops that are not structural take fuel, and each is shown to have enough:
    descents of the tree take the size of the node pool (a path has no
    repetition, [rep_depth_pool]), splits twice that and two; the tokenizer one
    more than the length of the text ([tokenize_loop_total]); the loops of the parser one more
    than the number of tokens ([parse_sql_total]: every text is answered, or
    [std::stoi] throws); the reader of the log one more than the length of the
    file; sends and receives one more than the bytes to move; a connection one
    more than the length of its stream; the insertion loop of the benchmark one
    more than the rows to insert, each round inserting one. Concurrent schedules are bounded by the work of their statements
    ([statements_finish]). The examples and [Diverge]-free statements rest on
    these, not on "if it returns".

    ** What is shown

    - Storage: the columns of a row are disjoint and in order ([schema_layout]);
      blocks of an arena are disjoint and aligned ([blocks_disjoint]); after any
      insertions the tree finds each key's last row, its scans are exact and its
      height is logarithmic ([insert_then_find], [range_scans_exact],
      [height_logarithmic]); a table is a list of rows, a WHERE its filter (on the
      key, of the last row under each), and a
      sweep of expired rows invisible to every reader ([table_scans_refine],
      [table_where_refines], [cleanup_invisible]).
    - Language: the parser is total and inverts printing, in any layout
      ([parse_sql_total], [parse_print], [parse_written]).
    - Execution: hash join equals nested loops ([hash_join_is_nested_loop]); a
      session gives the answers of the abstract database while no query is found
      in the cache ([executor_refines_database]), and also when queries are, where
      the cache is sound ([cache_transparent]); the cache is a bounded LRU map whose hits no
      invalidation has passed ([cache_is_lru], [cache_hit_fresh]).
    - Durability: CRC is the bitwise one ([crc32_is_reference]); a log that is cut, or has a short
      change outside the length of a record, yields exactly the records before
      it ([wal_crash_safe],
      [wal_detects_damage]); snapshots restore what was visible
      ([snapshot_roundtrip]); every changing statement is logged
      ([mutating_statements_logged]); a crash of the first [Database] on a
      directory loses nothing at any byte ([crash_recovery]), a crash of a later
      one may ([restart_loses_insert]); the server process as [main] composes it keeps
      what clients wrote only when it is shut down ([clean_shutdown_persists]),
      also when the clients are served at the same time ([served_rows_persist]).
    - Network: a connection answers its queries in order ([connection_serves]); a
      client session sees the rows the executor answered
      ([session_over_the_wire]); the benchmark program, run against the server,
      passes all its tests ([benchmark_passes]); options are parsed
      ([options_parse]).
    - Concurrency: the pool runs each task once, in order, and drains on shutdown
      ([tasks_in_order_once], [shutdown_drains], [shutdown_returns]), unless a
      wake-up is lost ([shutdown_can_hang]); per-table locks exclude
      ([write_lock_excludes], [lock_available]); sweeps are exact and invisible
      ([sweep_exact], [sweeper_invisible]), and those of a database do nothing
      ([sweeps_nothing]); statements take locks that exclude
      conflicting accesses ([locked_accesses_exclude]), never deadlock
      ([statements_finish]), run alone as [execute_sql] ([alone_is_execute_sql]),
      and one-row statements are linearizable ([linearizable]); connections at
      the same time lose no row, wherever they interleave and an arena is refused
      memory, and can all be served to their end ([clients_are_served]), by the
      workers of the pool as well, unless a client stays and says nothing
      ([pool_serves_clients], [silent_client_blocks_shutdown]).

    Examples beside the theorems show what happens outside their conditions:
    stale cached answers, duplicate keys, rows a restart loses, a race of the
    cache, a batch seen in part, a leaf left full by a failed allocation.

    ** Bounds in the statements

    Row counts stay below 2^63, rows below 4 GiB, logged statements below 10 MB
    (the reader's limit), messages below 10 MB (the receiver's), snapshots to
    2^32 tables and columns. Theorems about contents after a restart speak of one
    time to live, 3600 seconds, in each process, since rows expire. Keys are not
    NaN, which no order sorts.

    ** Not modelled

    Console output and banners of the server, the delivery of signals, the calls
    that open and configure sockets, [memory_usage], timers, the tests and the benchmarks under
    src/flexql/benchmark, which call the components directly. Memory
    is sequentially consistent between lock operations, and an index scan that
    races with an insertion is shown to be reachable, not given a meaning. Mutexes
    do not spuriously fail. Main serves the connections one after the other, and
    an exception there ends the run; Sessions, Serving and Process serve them at
    the same time, and an exception ends its connection. A client there may go,
    fall silent or stop taking answers at any message, but messages are whole
    (Network has the bytes). The theorems about such connections leave out
    SELECTs that go through the index. An accept that comes between
    [stop] and the end of the loop has its task refused by [submit], which
    throws out of [run] and ends the process: Serving has no such step. The
    text of a signal's handler is [TCPServer::stop]; when it comes is free.
    Of the allocations only those of arena chunks fail: an exception of
    [rows_.push_back] or of an index node, after which the row stays recorded, or
    of a string, is no step of the executor (IndexMemory shows the damage one
    does). C strings are taken to hold no NUL, and a schema to have fewer than
    2^31 columns. [strdup_c] and [flexql_free] are the allocation of C strings. *)

From Stdlib Require Import ZArith Lia.
From stdpp Require Import base strings gmap numbers list list_numbers.

Declare Scope flexql_scope.
Delimit Scope flexql_scope with flexql.

(** ** Outcomes of C++ calls

    A call returns a value, throws, does something the C++ standard leaves
    undefined (a null dereference, an out-of-range index, a float-to-integer
    cast that does not fit), or runs out of the fuel of a modelled loop. *)

Inductive exn :=
  | invalid_argument
  | out_of_range
  | bad_alloc
  | runtime_error (what : string)
  | terminate.                       (* [std::terminate]: nothing catches it *)

Inductive outcome (A : Type) :=
  | Ret (a : A)
  | Throw (e : exn)
  | Undef
  | Diverge.
Arguments Ret {A} a.
Arguments Throw {A} e.
Arguments Undef {A}.
Arguments Diverge {A}.

#[export] Instance outcome_ret : MRet outcome := fun A a => Ret a.
#[export] Instance outcome_bind : MBind outcome := fun A B f o =>
  match o with
  | Ret a => f a
  | Throw e => Throw e
  | Undef => Undef
  | Diverge => Diverge
  end.
#[export] Instance outcome_fmap : FMap outcome := fun A B f o =>
  match o with
  | Ret a => Ret (f a)
  | Throw e => Throw e
  | Undef => Undef
  | Diverge => Diverge
  end.

(** A read through an index or a pointer: undefined when there is nothing. *)
Definition deref {A} (o : option A) : outcome A :=
  match o with Some a => Ret a | None => Undef end.

(** [try { ... } catch (...)]: only exceptions are caught. *)
Definition catch_all {A} (o : outcome A) (handler : outcome A) : outcome A :=
  match o with Throw _ => handler | _ => o end.

Definition returns {A} (o : outcome A) : Prop := exists a, o = Ret a.

Lemma bind_Ret {A B} (a : A) (f : A -> outcome B) : (x ← Ret a; f x) = f a.
Proof. reflexivity. Qed.

Lemma bind_Ret_inv {A B} (o : outcome A) (f : A -> outcome B) b :
  (x ← o; f x) = Ret b -> exists a, o = Ret a /\ f a = Ret b.
Proof. destruct o; try discriminate. eauto. Qed.

(** Reduce the monad, and nothing else. *)
Ltac outcome_simpl := cbn [mbind outcome_bind mret outcome_ret deref].

Lemma deref_Some {A} (o : option A) a : deref o = Ret a <-> o = Some a.
Proof. destruct o; simpl; split; congruence. Qed.

Lemma mapM_Ret {A B} (f : A -> outcome B) (g : A -> B) l :
  (forall x, x ∈ l -> f x = Ret (g x)) -> mapM f l = Ret (g <$> l).
Proof.
  induction l as [|x l IH]; intros H; [done|].
  cbn [mapM fmap list_fmap]. rewrite (H x) by set_solver. cbn.
  rewrite IH by set_solver. done.
Qed.

(** ** Machine integers: values in [Z], the wrap-around written out *)

Open Scope Z_scope.

Definition u8 (z : Z) : Z := z mod 2 ^ 8.
Definition u16 (z : Z) : Z := z mod 2 ^ 16.
Definition u32 (z : Z) : Z := z mod 2 ^ 32.
Definition u64 (z : Z) : Z := z mod 2 ^ 64.
Definition s32 (z : Z) : Z := (z + 2 ^ 31) mod 2 ^ 32 - 2 ^ 31.
Definition s64 (z : Z) : Z := (z + 2 ^ 63) mod 2 ^ 64 - 2 ^ 63.

Definition is_s32 (z : Z) : Prop := - 2 ^ 31 <= z < 2 ^ 31.
Definition is_s64 (z : Z) : Prop := - 2 ^ 63 <= z < 2 ^ 63.
Definition is_u16 (z : Z) : Prop := 0 <= z < 2 ^ 16.
Definition is_u32 (z : Z) : Prop := 0 <= z < 2 ^ 32.
Definition is_u64 (z : Z) : Prop := 0 <= z < 2 ^ 64.

(** [lia] after unfolding the width functions and bounds. *)
Ltac unfold_widths := unfold u8, u16, u32, u64, s32, s64, is_s32, is_s64, is_u16, is_u32, is_u64 in *.
Ltac width_lia := unfold_widths; lia.

Lemma u32_small z : is_u32 z -> u32 z = z.
Proof. intros. unfold_widths. apply Z.mod_small. lia. Qed.
Lemma u64_small z : is_u64 z -> u64 z = z.
Proof. intros. unfold_widths. apply Z.mod_small. lia. Qed.
Lemma u16_small z : is_u16 z -> u16 z = z.
Proof. intros. unfold_widths. apply Z.mod_small. lia. Qed.
Lemma s32_small z : is_s32 z -> s32 z = z.
Proof. intros. unfold_widths. rewrite Z.mod_small; lia. Qed.
Lemma s64_small z : is_s64 z -> s64 z = z.
Proof. intros. unfold_widths. rewrite Z.mod_small; lia. Qed.
Lemma s32_mod z : s32 (z mod 2 ^ 32) = s32 z.
Proof. unfold_widths. by rewrite Zplus_mod_idemp_l. Qed.
Lemma s64_mod z : s64 (z mod 2 ^ 64) = s64 z.
Proof. unfold_widths. by rewrite Zplus_mod_idemp_l. Qed.
Lemma u32_is_u32 z : is_u32 (u32 z).
Proof. unfold_widths. apply Z.mod_pos_bound. lia. Qed.
Lemma u16_is_u16 z : is_u16 (u16 z).
Proof. unfold_widths. apply Z.mod_pos_bound. lia. Qed.
Lemma u64_is_u64 z : is_u64 (u64 z).
Proof. unfold_widths. apply Z.mod_pos_bound. lia. Qed.

Create HintDb flexql.
#[export] Hint Resolve u16_is_u16 u32_is_u32 u64_is_u64 : flexql.

(** ** Little-endian memory images

    A byte is a [Z] in [0, 256); [memcpy] of an [n]-byte object produces its
    little-endian image. *)

Definition is_byte (b : Z) : Prop := 0 <= b < 256.

Definition le_bytes (n : Z) (z : Z) : list Z := Z_to_little_endian n 8 z.
Definition le_val (bs : list Z) : Z := little_endian_to_Z 8 bs.

Lemma length_le_bytes (n : nat) z : length (le_bytes (Z.of_nat n) z) = n.
Proof.
  unfold le_bytes. pose proof (length_Z_to_little_endian (Z.of_nat n) 8 z). lia.
Qed.

Lemma le_bytes_is_byte n z : 0 <= n -> Forall is_byte (le_bytes n z).
Proof.
  intros. eapply Forall_impl; [apply (Z_to_little_endian_bound n 8 z); lia|].
  intros x. unfold is_byte. simpl. lia.
Qed.

Lemma le_val_bytes n z : 0 <= n -> le_val (le_bytes n z) = z mod 2 ^ (n * 8).
Proof. intros. apply little_endian_to_Z_to_little_endian; lia. Qed.

Lemma le_bytes_val (n : nat) bs :
  length bs = n -> Forall is_byte bs -> le_bytes (Z.of_nat n) (le_val bs) = bs.
Proof. intros Hl Hb. apply Z_to_little_endian_to_Z; [lia|lia|exact Hb]. Qed.

Lemma le_val_bound bs : Forall is_byte bs -> 0 <= le_val bs < 2 ^ (Z.of_nat (length bs) * 8).
Proof. intros. by apply little_endian_to_Z_bound. Qed.

(** ** Strings as byte sequences *)

Definition ascii_code (c : Ascii.ascii) : Z := Z.of_N (Ascii.N_of_ascii c).
Definition code_ascii (z : Z) : Ascii.ascii := Ascii.ascii_of_N (Z.to_N z).

Definition string_bytes (s : string) : list Z := ascii_code <$> String.list_ascii_of_string s.
Definition bytes_string (bs : list Z) : string := String.string_of_list_ascii (code_ascii <$> bs).

Definition str_size (s : string) : Z := Z.of_nat (String.length s).

Lemma ascii_code_bound c : is_byte (ascii_code c).
Proof. unfold is_byte, ascii_code. pose proof (Ascii.N_ascii_bounded c). lia. Qed.

Lemma code_ascii_code c : code_ascii (ascii_code c) = c.
Proof. unfold code_ascii, ascii_code. rewrite N2Z.id. apply Ascii.ascii_N_embedding. Qed.

Lemma ascii_code_code z : is_byte z -> ascii_code (code_ascii z) = z.
Proof.
  unfold is_byte, ascii_code, code_ascii. intros.
  rewrite Ascii.N_ascii_embedding by lia. lia.
Qed.

Lemma ascii_code_inj c d : ascii_code c = ascii_code d -> c = d.
Proof. intros H. rewrite <- (code_ascii_code c), H. apply code_ascii_code. Qed.

Lemma bytes_string_bytes s : bytes_string (string_bytes s) = s.
Proof.
  unfold bytes_string, string_bytes.
  rewrite <- (String.string_of_list_ascii_of_string s) at 2. f_equal.
  induction (String.list_ascii_of_string s) as [|c l IH]; [done|].
  cbn. by rewrite code_ascii_code, IH.
Qed.

Lemma string_bytes_string bs : Forall is_byte bs -> string_bytes (bytes_string bs) = bs.
Proof.
  intros H. unfold bytes_string, string_bytes.
  rewrite String.list_ascii_of_string_of_list_ascii.
  induction H; [done|]. cbn. rewrite ascii_code_code by done. f_equal. done.
Qed.

Lemma string_bytes_is_byte s : Forall is_byte (string_bytes s).
Proof.
  unfold string_bytes. apply Forall_fmap, Forall_true. intros. apply ascii_code_bound.
Qed.

Lemma length_string_bytes s : length (string_bytes s) = String.length s.
Proof. unfold string_bytes. rewrite length_fmap. induction s; simpl; auto. Qed.

#[export] Hint Resolve string_bytes_is_byte le_bytes_is_byte : flexql.

Lemma list_ascii_app s t :
  String.list_ascii_of_string (s +:+ t) = String.list_ascii_of_string s ++ String.list_ascii_of_string t.
Proof. induction s as [|c s IH]; [done|]. exact (f_equal (cons c) IH). Qed.

Lemma string_bytes_app s t : string_bytes (s +:+ t) = string_bytes s ++ string_bytes t.
Proof. unfold string_bytes. by rewrite list_ascii_app, fmap_app. Qed.

(** [s +:+ t] and its laws; [cbn] would otherwise unfold into characters. *)
Lemma app_cons c a b : String c a +:+ b = String c (a +:+ b).
Proof. done. Qed.

Lemma app_empty_l a : "" +:+ a = a.
Proof. done. Qed.

Lemma app_empty_r a : a +:+ "" = a.
Proof. induction a as [|c a IH]; [done|]. rewrite app_cons. by rewrite IH. Qed.

Lemma app_assoc_str a b c : (a +:+ b) +:+ c = a +:+ (b +:+ c).
Proof. induction a as [|x a IH]; [done|]. rewrite !app_cons. by rewrite IH. Qed.

Lemma app_snoc a c b : (a +:+ String c "") +:+ b = a +:+ String c b.
Proof. by rewrite app_assoc_str. Qed.

Lemma length_app_str a b : String.length (a +:+ b) = (String.length a + String.length b)%nat.
Proof. induction a as [|x a IH]; [done|]. rewrite app_cons. cbn. by rewrite IH. Qed.

(** ** Lists *)

Lemma filter_keeps_all {A} (P : A -> Prop) `{!forall x, Decision (P x)} (l : list A) : (forall x, x ∈ l -> P x) -> filter P l = l.
Proof.
  induction l as [|x l IH]; intros HP; [done|]. rewrite filter_cons_True by (apply HP; by left).
  f_equal. apply IH. intros y Hy. apply HP. by right.
Qed.
