(* ===== verification/Cpp.v ===== *)
(** * The C++ standard library functions the program calls

    [<cctype>] in the "C" locale (a byte above 127 belongs to no class, as in
    glibc), [std::stoi], [std::stoll], [std::atoi], [std::stod], [std::to_string],
    [snprintf("%.6f")], and the binary64 format that [memcpy] moves around.
    These are not definitions of src/; they are the meaning given to the calls
    made there. *)

From Stdlib Require Import ZArith Lia.
From Stdlib Require Import Ascii Floats.SpecFloat.
From stdpp Require Import base strings gmap numbers list list_numbers.
From S2P Require Import Prelude.
Open Scope string_scope.
Open Scope Z_scope.

(** ** Character classes *)

Definition isspace (c : Ascii.ascii) : bool :=
  let z := ascii_code c in (z =? 32) || ((9 <=? z) && (z <=? 13)).
Definition isdigit (c : Ascii.ascii) : bool :=
  let z := ascii_code c in (48 <=? z) && (z <=? 57).
Definition isupper (c : Ascii.ascii) : bool :=
  let z := ascii_code c in (65 <=? z) && (z <=? 90).
Definition islower (c : Ascii.ascii) : bool :=
  let z := ascii_code c in (97 <=? z) && (z <=? 122).
Definition isalpha (c : Ascii.ascii) : bool := isupper c || islower c.
Definition isalnum (c : Ascii.ascii) : bool := isalpha c || isdigit c.
Definition toupper (c : Ascii.ascii) : Ascii.ascii :=
  if islower c then code_ascii (ascii_code c - 32) else c.

(** [std::transform(s.begin(), s.end(), ..., f)]. *)
Fixpoint string_map (f : Ascii.ascii -> Ascii.ascii) (s : string) : string :=
  match s with
  | EmptyString => EmptyString
  | String c s => String (f c) (string_map f s)
  end.

(** The longest prefix of characters satisfying [f], and the rest. *)
Fixpoint span (f : Ascii.ascii -> bool) (s : string) : string * string :=
  match s with
  | EmptyString => (EmptyString, EmptyString)
  | String c s' => if f c then let (a, b) := span f s' in (String c a, b) else (EmptyString, s)
  end.

Definition string_forall (f : Ascii.ascii -> bool) (s : string) : bool :=
  forallb f (String.list_ascii_of_string s).

(** ** Decimal integers *)

Definition digit_val (c : Ascii.ascii) : Z := ascii_code c - 48.
Definition digit_char (d : Z) : Ascii.ascii := code_ascii (48 + d).

(** The value of a digit string, most significant first. *)
Fixpoint digits_val (acc : Z) (s : string) : Z :=
  match s with
  | EmptyString => acc
  | String c s => digits_val (acc * 10 + digit_val c) s
  end.

(** [strtol]/[strtoll] in base 10: skip white space, an optional sign, then
    digits; [None] when there is no digit. Trailing characters are ignored. *)
Definition strtol (s : string) : option Z :=
  let s := snd (span isspace s) in
  let '(neg, s) :=
    match s with
    | String "-"%char s' => (true, s')
    | String "+"%char s' => (false, s')
    | _ => (false, s)
    end in
  match fst (span isdigit s) with
  | EmptyString => None
  | ds => Some (if neg then - digits_val 0 ds else digits_val 0 ds)
  end.

Definition sto_integer (lo hi : Z) (s : string) : outcome Z :=
  match strtol s with
  | None => Throw invalid_argument
  | Some z => if (lo <=? z) && (z <=? hi) then Ret z else Throw out_of_range
  end.

Definition stoi : string -> outcome Z := sto_integer (- 2 ^ 31) (2 ^ 31 - 1).
Definition stoll : string -> outcome Z := sto_integer (- 2 ^ 63) (2 ^ 63 - 1).

(** [std::atoi]: zero without digits, undefined when the number does not fit. *)
Definition atoi (s : string) : outcome Z :=
  match strtol s with
  | None => Ret 0
  | Some z => if (- 2 ^ 31 <=? z) && (z <=? 2 ^ 31 - 1) then Ret z else Undef
  end.

(** [std::to_string] on integers. *)
Fixpoint dec_digits (fuel : nat) (n : Z) (acc : string) : string :=
  match fuel with
  | O => acc
  | S fuel =>
      let acc := String (digit_char (n mod 10)) acc in
      if n <? 10 then acc else dec_digits fuel (n / 10) acc
  end.

Definition to_string_nonneg (n : Z) : string := dec_digits (S (Z.to_nat (Z.log2 n))) n "".
Definition to_string_Z (z : Z) : string :=
  if z <? 0 then String "-"%char (to_string_nonneg (- z)) else to_string_nonneg z.

(** ** binary64

    A [double] is kept as its 64-bit image; [dec_of_bits] gives its value. *)


Definition sign_shift : Z := 2 ^ 63.
Definition inf_mag : Z := 2047 * 2 ^ 52.

Definition dec_of_bits (b : Z) : spec_float :=
  let s := 2 ^ 63 <=? b in
  let mag := b mod 2 ^ 63 in
  let ex := mag / 2 ^ 52 in
  let fr := mag mod 2 ^ 52 in
  if ex =? 2047 then (if fr =? 0 then S754_infinity s else S754_nan)
  else if ex =? 0 then
    match fr with Zpos m => S754_finite s m (-1074) | _ => S754_zero s end
  else
    match fr + 2 ^ 52 with Zpos m => S754_finite s m (ex - 1075) | _ => S754_zero s end.

Definition sign_bit (s : bool) : Z := if s then 2 ^ 63 else 0.

Definition bits_of_dec (x : spec_float) : Z :=
  match x with
  | S754_zero s => sign_bit s
  | S754_infinity s => sign_bit s + inf_mag
  | S754_nan => inf_mag + 2 ^ 51
  | S754_finite s m e =>
      if Zpos m <? 2 ^ 52 then sign_bit s + Zpos m
      else sign_bit s + (e + 1075) * 2 ^ 52 + (Zpos m - 2 ^ 52)
  end.

(** [a < b] and [a == b] on doubles. *)
Definition dec_ltb (a b : Z) : bool := SFltb (dec_of_bits a) (dec_of_bits b).
Definition dec_eqb (a b : Z) : bool := SFeqb (dec_of_bits a) (dec_of_bits b).

Definition is_nan (b : Z) : bool :=
  match dec_of_bits b with S754_nan => true | _ => false end.

(** ** [std::stod]

    [strtod] in the "C" locale, rounding to nearest even: the significand is
    an exact ratio of integers, rounded once. A NaN payload ([nan(...)]) is
    not kept. *)

Definition round_ratio (sign : bool) (num den : Z) : spec_float :=
  let '(q, e, l) := SFdiv_core_binary 53 1024 num 0 den 0 in
  binary_round_aux 53 1024 sign q e l.

(** Is the rounded magnitude equal to [num / den]? *)
Definition ratio_exact (x : spec_float) (num den : Z) : bool :=
  match x with
  | S754_zero _ => num =? 0
  | S754_finite _ m e =>
      if 0 <=? e then Zpos m * 2 ^ e * den =? num else Zpos m * den =? num * 2 ^ (- e)
  | _ => false
  end.

(** [ERANGE]: overflow, or an inexact result below the normal range; [stod]
    turns it into [std::out_of_range]. *)
Definition stod_ratio (sign : bool) (num den : Z) : outcome Z :=
  if num =? 0 then Ret (sign_bit sign) else
  let x := round_ratio sign num den in
  match x with
  | S754_infinity _ | S754_nan => Throw out_of_range
  | S754_zero _ => Throw out_of_range
  | S754_finite _ m _ =>
      if (Zpos m <? 2 ^ 52) && negb (ratio_exact x num den) then Throw out_of_range
      else Ret (u64 (bits_of_dec x))     (* the image has 64 bits *)
  end.

Definition ishexdigit (c : Ascii.ascii) : bool :=
  isdigit c || (let z := ascii_code (toupper c) in (65 <=? z) && (z <=? 70)).
Definition hex_val (c : Ascii.ascii) : Z :=
  if isdigit c then digit_val c else ascii_code (toupper c) - 55.
Fixpoint hex_digits_val (acc : Z) (s : string) : Z :=
  match s with
  | EmptyString => acc
  | String c s => hex_digits_val (acc * 16 + hex_val c) s
  end.

(** [digits [. digits]] with at least one digit: both digit strings and the
    rest. *)
Definition read_significand (isd : Ascii.ascii -> bool) (s : string) : option (string * string * string) :=
  let (ip, r) := span isd s in
  let '(fp, r) := match r with String "."%char r' => span isd r' | _ => (EmptyString, r) end in
  match ip, fp with
  | EmptyString, EmptyString => None
  | _, _ => Some (ip, fp, r)
  end.

(** The optional exponent, introduced by the letter [l] (upper case). *)
Definition read_exponent (l : Ascii.ascii) (s : string) : Z :=
  match s with
  | String c r =>
      if Ascii.eqb (toupper c) l then
        let '(neg, r) :=
          match r with
          | String "-"%char r' => (true, r')
          | String "+"%char r' => (false, r')
          | _ => (false, r)
          end in
        let v := digits_val 0 (fst (span isdigit r)) in if neg then - v else v
      else 0
  | EmptyString => 0
  end.

Definition scale (base : Z) (e num : Z) : Z * Z :=
  if 0 <=? e then (num * base ^ e, 1) else (num, base ^ (- e)).

Definition strtod_decimal (sign : bool) (s : string) : outcome Z :=
  match read_significand isdigit s with
  | None => Throw invalid_argument
  | Some (ip, fp, r) =>
      let m := digits_val (digits_val 0 ip) fp in
      let e := read_exponent "E"%char r - str_size fp in
      let (num, den) := scale 10 e m in
      stod_ratio sign num den
  end.

Definition strtod_hex (sign : bool) (s : string) : outcome Z :=
  match read_significand ishexdigit s with
  | None => Ret (sign_bit sign)      (* only the leading "0" converts *)
  | Some (ip, fp, r) =>
      let m := hex_digits_val (hex_digits_val 0 ip) fp in
      let e := read_exponent "P"%char r - 4 * str_size fp in
      let (num, den) := scale 2 e m in
      stod_ratio sign num den
  end.

Definition stod (s : string) : outcome Z :=
  let s := snd (span isspace s) in
  let '(sign, s) :=
    match s with
    | String "-"%char s' => (true, s')
    | String "+"%char s' => (false, s')
    | _ => (false, s)
    end in
  let up := string_map toupper s in
  if String.prefix "INF" up then Ret (sign_bit sign + inf_mag)
  else if String.prefix "NAN" up then Ret (sign_bit sign + (inf_mag + 2 ^ 51))
  else if String.prefix "0X" up then strtod_hex sign (String.substring 2 (String.length s - 2) s)
  else strtod_decimal sign s.

(** ** [snprintf(buf, n, "%.6f", x)] for a finite [x]: exact, ties to even *)

Definition div_half_even (n d : Z) : Z :=
  let q := n / d in
  let r := n mod d in
  match Z.compare (2 * r) d with
  | Lt => q
  | Gt => q + 1
  | Eq => if Z.even q then q else q + 1
  end.

Fixpoint pad_left (n : nat) (s : string) : string :=
  match n with O => s | S n => String "0"%char (pad_left n s) end.

Definition printf_6f (sign : bool) (m : positive) (e : Z) : string :=
  let n := if 0 <=? e then Zpos m * 10 ^ 6 * 2 ^ e else div_half_even (Zpos m * 10 ^ 6) (2 ^ (- e)) in
  let frac := to_string_nonneg (n mod 10 ^ 6) in
  (if sign then "-" else "") +:+ to_string_nonneg (n / 10 ^ 6) +:+ "." +:+
  pad_left (6 - String.length frac) frac.

(** [s.find_last_not_of('0')]. *)
Fixpoint find_last_not_of_0 (s : string) : option nat :=
  match s with
  | EmptyString => None
  | String c s =>
      match find_last_not_of_0 s with
      | Some i => Some (S i)
      | None => if Ascii.eqb c "0"%char then None else Some O
      end
  end.

(** ** Lemmas *)

Lemma ascii_code_digit_char d : 0 <= d < 10 -> ascii_code (digit_char d) = 48 + d.
Proof. intros. unfold digit_char. apply ascii_code_code. unfold is_byte. lia. Qed.

Lemma digit_val_char d : 0 <= d < 10 -> digit_val (digit_char d) = d.
Proof. intros. unfold digit_val. rewrite ascii_code_digit_char by done. lia. Qed.

Lemma isdigit_char d : 0 <= d < 10 -> isdigit (digit_char d) = true.
Proof.
  intros. unfold isdigit. rewrite ascii_code_digit_char by done.
  apply andb_true_iff. split; apply Z.leb_le; lia.
Qed.

Lemma isdigit_not_space c : isdigit c = true -> isspace c = false.
Proof.
  unfold isdigit, isspace. rewrite andb_true_iff, !Z.leb_le. intros.
  apply orb_false_iff. split; [apply Z.eqb_neq; lia|].
  apply andb_false_iff. right. apply Z.leb_gt. lia.
Qed.

(** [dec_digits] prepends the decimal expansion of [n]. *)
Lemma dec_digits_spec fuel : forall n acc,
  0 <= n < 10 ^ Z.of_nat fuel -> (0 < fuel)%nat ->
  exists c ds, dec_digits fuel n acc = (String c ds) +:+ acc /\
    string_forall isdigit (String c ds) = true /\ digits_val 0 (String c ds) = n.
Proof.
  induction fuel as [|fuel IH]; intros n acc Hn Hf; [lia|].
  cbn [dec_digits]. pose proof (Z.mod_pos_bound n 10 ltac:(lia)) as Hm.
  pose proof (Z.div_mod n 10 ltac:(lia)) as Hd.
  destruct (n <? 10) eqn:Hlt.
  - apply Z.ltb_lt in Hlt. exists (digit_char (n mod 10)), EmptyString.
    split; [done|]. split.
    + unfold string_forall. cbn. by rewrite isdigit_char.
    + cbn. rewrite digit_val_char by done. rewrite Z.mod_small; lia.
  - apply Z.ltb_ge in Hlt.
    assert (0 < fuel)%nat. { destruct fuel; [|lia]. simpl in Hn. lia. }
    assert (n / 10 < 10 ^ Z.of_nat fuel).
    { apply Z.div_lt_upper_bound; [lia|]. rewrite Nat2Z.inj_succ, Z.pow_succ_r in Hn by lia. lia. }
    assert (0 <= n / 10) by (apply Z.div_pos; lia).
    destruct (IH (n / 10) (String (digit_char (n mod 10)) acc) ltac:(lia) ltac:(lia))
      as (c & ds & -> & Hall & Hval).
    exists c, (ds +:+ String (digit_char (n mod 10)) EmptyString).
    assert (Happ : forall s t u, (s +:+ t) +:+ u = s +:+ (t +:+ u)).
    { intros s t u. induction s as [|x s IHs]; [done|]. exact (f_equal (String x) IHs). }
    assert (Hdv : forall s a t, digits_val a (s +:+ t) = digits_val (digits_val a s) t).
    { induction s as [|x s IHs]; intros a t; [done|]. apply IHs. }
    assert (Hc : forall s t, String c (s +:+ t) = String c s +:+ t) by done.
    rewrite !Hc. split; [by rewrite Happ|]. split.
    + unfold string_forall in *. rewrite list_ascii_app, forallb_app, Hall.
      cbn. by rewrite isdigit_char.
    + rewrite Hdv, Hval. cbn. rewrite digit_val_char by done. lia.
Qed.

Lemma to_string_nonneg_spec n : 0 <= n ->
  exists c ds, to_string_nonneg n = String c ds /\
    string_forall isdigit (String c ds) = true /\ digits_val 0 (String c ds) = n.
Proof.
  intros Hn. unfold to_string_nonneg.
  destruct (dec_digits_spec (S (Z.to_nat (Z.log2 n))) n "") as (c & ds & -> & H1 & H2); [|lia|].
  - split; [lia|]. destruct (decide (n = 0)) as [->|]; [done|].
    pose proof (Z.log2_spec n ltac:(lia)) as [_ Hl]. pose proof (Z.log2_nonneg n).
    eapply Z.lt_le_trans; [exact Hl|]. rewrite Nat2Z.inj_succ, Z2Nat.id by lia.
    apply Z.pow_le_mono_l. lia.
  - exists c, ds. split; [|done].
    clear. change (String c ds +:+ "") with (String c (ds +:+ "")). f_equal.
    induction ds as [|x s IH]; [done|]. exact (f_equal (String x) IH).
Qed.

Lemma span_all f s : string_forall f s = true -> span f s = (s, EmptyString).
Proof.
  unfold string_forall. induction s as [|c s IH]; [done|]. cbn.
  rewrite andb_true_iff. intros [-> H]. by rewrite IH.
Qed.

Lemma strtol_to_string z : strtol (to_string_Z z) = Some z.
Proof.
  unfold to_string_Z. destruct (z <? 0) eqn:Hz.
  - apply Z.ltb_lt in Hz. destruct (to_string_nonneg_spec (- z)) as (c & ds & -> & H1 & H2); [lia|].
    unfold strtol. cbn [span snd]. change (isspace "-"%char) with false. cbn [snd].
    rewrite (span_all _ _ H1). cbn [fst]. rewrite H2. f_equal. lia.
  - apply Z.ltb_ge in Hz. destruct (to_string_nonneg_spec z) as (c & ds & -> & H1 & H2); [lia|].
    assert (Hc : isdigit c = true).
    { unfold string_forall in H1. cbn in H1. by apply andb_true_iff in H1 as [? _]. }
    unfold strtol. cbn [span]. rewrite (isdigit_not_space c Hc). cbn [snd].
    assert (c <> "-"%char /\ c <> "+"%char) as [Hm Hp] by (split; intros ->; discriminate Hc).
    replace (match String c ds with
      | String "-"%char s' => (true, s') | String "+"%char s' => (false, s') | _ => (false, String c ds) end)
      with (false, String c ds)
      by (destruct c as [[] [] [] [] [] [] [] []]; try done; exfalso; auto).
    rewrite (span_all _ _ H1). cbn [fst]. by rewrite H2.
Qed.

Lemma stoi_to_string z : is_s32 z -> stoi (to_string_Z z) = Ret z.
Proof.
  intros Hz. unfold stoi, sto_integer. rewrite strtol_to_string.
  rewrite (proj2 (Z.leb_le _ _)), (proj2 (Z.leb_le _ _)) by width_lia. done.
Qed.

Lemma stoll_to_string z : is_s64 z -> stoll (to_string_Z z) = Ret z.
Proof.
  intros Hz. unfold stoll, sto_integer. rewrite strtol_to_string.
  rewrite (proj2 (Z.leb_le _ _)), (proj2 (Z.leb_le _ _)) by width_lia. done.
Qed.

Lemma stoi_range s z : stoi s = Ret z -> is_s32 z.
Proof.
  unfold stoi, sto_integer. destruct (strtol s) as [v|]; [|done].
  destruct (_ && _) eqn:E; [|done]. intros [= ->].
  apply andb_true_iff in E as [?%Z.leb_le ?%Z.leb_le]. width_lia.
Qed.

Lemma stoll_range s z : stoll s = Ret z -> is_s64 z.
Proof.
  unfold stoll, sto_integer. destruct (strtol s) as [v|]; [|done].
  destruct (_ && _) eqn:E; [|done]. intros [= ->].
  apply andb_true_iff in E as [?%Z.leb_le ?%Z.leb_le]. width_lia.
Qed.

(** A [std::sto*] call inside [try] ends in a value or one of two exceptions. *)
Definition converts {A} (o : outcome A) (P : A -> Prop) : Prop :=
  (exists a, o = Ret a /\ P a) \/ o = Throw invalid_argument \/ o = Throw out_of_range.

Lemma sto_integer_converts lo hi s : converts (sto_integer lo hi s) (fun z => lo <= z <= hi).
Proof.
  unfold converts, sto_integer. destruct (strtol s) as [v|]; [|auto]. destruct (_ && _) eqn:E; [|auto].
  apply andb_true_iff in E as [?%Z.leb_le ?%Z.leb_le]. left. by exists v.
Qed.

Lemma stod_ratio_converts sign num den : converts (stod_ratio sign num den) is_u64.
Proof.
  unfold converts, stod_ratio. destruct (num =? 0).
  - left. eexists. split; [done|]. destruct sign; unfold sign_bit; width_lia.
  - destruct (round_ratio sign num den); auto. destruct (_ && _); auto. left. eexists. split; [done|]. apply u64_is_u64.
Qed.

Lemma stod_converts s : converts (stod s) is_u64.
Proof.
  unfold stod. destruct (match snd (span isspace s) with String _ _ => _ | _ => _ end) as [sign r].
  assert (Hs : is_u64 (sign_bit sign)) by (destruct sign; unfold sign_bit; width_lia).
  destruct (String.prefix "INF" _); [left; eexists; split; [done|]; destruct sign; unfold sign_bit, inf_mag; width_lia|].
  destruct (String.prefix "NAN" _); [left; eexists; split; [done|]; destruct sign; unfold sign_bit, inf_mag; width_lia|].
  destruct (String.prefix "0X" _); [unfold strtod_hex|unfold strtod_decimal]; destruct (read_significand _ _) as [[[ip fp] t]|].
  - destruct (scale _ _ _). apply stod_ratio_converts.
  - left. eauto.
  - destruct (scale _ _ _). apply stod_ratio_converts.
  - unfold converts. auto.
Qed.
