(* ===== verification/Doubles.v ===== *)
(** * Doubles made of integers

    The arithmetic and the text of doubles that a program meets when it writes
    whole numbers into a stream and reads them back: conversion from integers,
    addition, [std::ostream << double], [std::atoll]; and the fact that the
    decimal text of an integer below 2^53 reads back as exactly that integer. *)

From Stdlib Require Import ZArith Lia.
From Stdlib Require Import Ascii Floats.SpecFloat.
From stdpp Require Import base strings gmap numbers list list_numbers.
From S2P Require Import Prelude Cpp.
Open Scope string_scope.
Open Scope Z_scope.

(** ** Conversion and addition *)

(** The conversion of an integer, and [+], both rounded to nearest even. *)
Definition double_of_Z (z : Z) : Z := u64 (bits_of_dec (binary_normalize 53 1024 z 0 false)).
Definition dec_add (a b : Z) : Z := u64 (bits_of_dec (SFadd 53 1024 (dec_of_bits a) (dec_of_bits b))).

(** [std::atoll]: zero without digits, undefined when the number does not fit. *)
Definition atoll (s : string) : outcome Z :=
  match strtol s with
  | None => Ret 0
  | Some z => if (- 2 ^ 63 <=? z) && (z <=? 2 ^ 63 - 1) then Ret z else Undef
  end.

(** ** [std::ostream << double]: the format [%g] with six significant digits *)

(** The least [j] from the given one on with [den <= num * 10 ^ j]. *)
Fixpoint scale_up (fuel : nat) (num den j : Z) : Z :=
  match fuel with
  | O => j
  | S fuel => if den <=? num * 10 ^ j then j else scale_up fuel num den (j + 1)
  end.

(** The decimal exponent of [num / den]; a double is at least 10^-324. *)
Definition floor_log10 (num den : Z) : Z :=
  if den <=? num then Z.of_nat (String.length (to_string_nonneg (num / den))) - 1 else - scale_up 330 num den 1.

(** Six digits and the exponent, rounding included. *)
Definition six_digits (num den : Z) : Z * Z :=
  let k := floor_log10 num den in
  let n := if k <=? 5 then div_half_even (num * 10 ^ (5 - k)) den else div_half_even num (den * 10 ^ (k - 5)) in
  if n =? 10 ^ 6 then (10 ^ 5, k + 1) else (n, k).

Definition strip_zeros (s : string) : string :=
  match find_last_not_of_0 s with None => "" | Some i => String.substring 0 (S i) s end.

Definition with_fraction (int_part frac : string) : string :=
  let frac := strip_zeros frac in if String.eqb frac "" then int_part else int_part +:+ "." +:+ frac.

Definition two_digits (n : Z) : string := let s := to_string_nonneg n in pad_left (2 - String.length s) s.

Definition printf_g (num den : Z) : string :=
  let (n, k) := six_digits num den in
  let d := to_string_nonneg n in
  if (- 4 <=? k) && (k <? 6) then
    if 0 <=? k then with_fraction (String.substring 0 (S (Z.to_nat k)) d) (String.substring (S (Z.to_nat k)) (5 - Z.to_nat k) d)
    else with_fraction "0" (pad_left (Z.to_nat (- k - 1)) d)
  else
    with_fraction (String.substring 0 1 d) (String.substring 1 5 d) +:+ "e" +:+ (if k <? 0 then "-" else "+") +:+ two_digits (Z.abs k).

Definition stream_double (b : Z) : string :=
  match dec_of_bits b with
  | S754_nan => "nan"
  | S754_infinity s => if s then "-inf" else "inf"
  | S754_zero s => if s then "-0" else "0"
  | S754_finite s m e =>
      (if s then "-" else "") +:+ (if 0 <=? e then printf_g (Zpos m * 2 ^ e) 1 else printf_g (Zpos m) (2 ^ (- e)))
  end.

Example stream_samples :
  stream_double (double_of_Z 1234567) = "1.23457e+06" /\ stream_double (double_of_Z 123450) = "123450" /\
  (b ← stod "0.0000123"; Ret (stream_double b)) = Ret "1.23e-05" /\ (b ← stod "-2.50"; Ret (stream_double b)) = Ret "-2.5".
Proof. repeat split; vm_compute; reflexivity. Qed.

(** ** An integer below 2^53 is a double *)

Lemma Zdigits2_log2 p : Zdigits2 (Zpos p) = Z.log2 (Zpos p) + 1.
Proof.
  assert (H : forall q, Zpos (digits2_pos q) = Zpos (Pos.size q)).
  { induction q as [q IH|q IH|]; cbn [digits2_pos Pos.size]; [lia|lia|done]. }
  cbn [Zdigits2]. rewrite H. destruct p; cbn [Z.log2 Pos.size]; lia.
Qed.

Lemma Zdigits2_bounds p d : Zdigits2 (Zpos p) = d <-> 2 ^ (d - 1) <= Zpos p < 2 ^ d /\ 0 < d.
Proof.
  rewrite Zdigits2_log2. pose proof (Z.log2_spec (Zpos p) ltac:(lia)) as Hs. pose proof (Z.log2_nonneg (Zpos p)) as Hn. split.
  - intros <-. replace (Z.log2 (Zpos p) + 1 - 1) with (Z.log2 (Zpos p)) by lia. change (Z.log2 (Zpos p) + 1) with (Z.succ (Z.log2 (Zpos p))). lia.
  - intros [H ?]. rewrite (Z.log2_unique (Zpos p) (d - 1)); [lia|lia|]. replace (Z.succ (d - 1)) with d by lia. lia.
Qed.

Lemma fexp_normal x : - 1021 <= x -> fexp 53 1024 x = x - 53.
Proof. intros H. unfold fexp, emin. lia. Qed.

Lemma shr_none mrs e : shr mrs e 0 = (mrs, e).
Proof. done. Qed.

(** Rounding leaves a mantissa of 53 bits as it is, and shifts out a last bit
    that is zero. *)
Lemma round_canonical s m e : Zdigits2 (Zpos m) = 53 -> - 1074 <= e <= 971 -> binary_round_aux 53 1024 s (Zpos m) e loc_Exact = S754_finite s m e.
Proof.
  intros Hd He. unfold binary_round_aux, shr_fexp. rewrite Hd, fexp_normal by lia. replace (53 + e - 53 - e) with 0 by lia. rewrite shr_none.
  cbn [shr_record_of_loc shr_m loc_of_shr_record round_nearest_even]. rewrite Hd, fexp_normal by lia. replace (53 + e - 53 - e) with 0 by lia.
  rewrite shr_none. cbn [shr_record_of_loc shr_m]. destruct (Z.leb_spec e (1024 - 53)); [done|lia].
Qed.

Definition shifted (m k : positive) : positive := Pos.iter xO m k.

Lemma shifted_value m k : Zpos (shifted m k) = Zpos m * 2 ^ Zpos k.
Proof.
  unfold shifted. induction k using Pos.peano_ind; [rewrite Z.pow_1_r; cbn; lia|].
  rewrite Pos.iter_succ, Pos2Z.inj_xO, IHk, Pos2Z.inj_succ, Z.pow_succ_r by lia. lia.
Qed.

Lemma shifted_digits m k : Zdigits2 (Zpos (shifted m k)) = Zdigits2 (Zpos m) + Zpos k.
Proof. rewrite !Zdigits2_log2, shifted_value, Z.log2_mul_pow2 by lia. lia. Qed.

Lemma iter_pos_iter {A} (f : A -> A) k : forall x, SpecFloat.iter_pos f k x = Pos.iter f x k.
Proof.
  induction k as [k IH|k IH|]; intros x; cbn [SpecFloat.iter_pos Pos.iter]; [|by rewrite !IH|done]. by rewrite !IH, <- !Pos.iter_swap.
Qed.

Lemma shr_shifted m k e : shr (Build_shr_record (Zpos (shifted m k)) false false) e (Zpos k) = (Build_shr_record (Zpos m) false false, e + Zpos k).
Proof.
  unfold shr. f_equal. rewrite iter_pos_iter. unfold shifted. induction k using Pos.peano_ind; [done|].
  rewrite Pos.iter_succ_r, Pos.iter_succ. exact IHk.
Qed.

(** Rounding shifts out low bits that are all zero. *)
Lemma round_shifted s m k e : Zdigits2 (Zpos m) = 53 -> - 1074 <= e -> e + Zpos k <= 971 ->
  binary_round_aux 53 1024 s (Zpos (shifted m k)) e loc_Exact = S754_finite s m (e + Zpos k).
Proof.
  intros Hd He1 He2. pose proof (round_canonical s m (e + Zpos k) Hd ltac:(lia)) as Hr. unfold binary_round_aux, shr_fexp in *.
  rewrite shifted_digits, Hd, fexp_normal by lia. replace (53 + Zpos k + e - 53 - e) with (Zpos k) by lia.
  rewrite Hd, fexp_normal in Hr by lia. replace (53 + (e + Zpos k) - 53 - (e + Zpos k)) with 0 in Hr by lia. rewrite shr_none in Hr.
  cbn [shr_record_of_loc]. rewrite shr_shifted. exact Hr.
Qed.

(** The mantissa and exponent of [z]. *)
Definition mantissa (z : Z) : positive := Z.to_pos (z * 2 ^ (52 - Z.log2 z)).
Definition integer_double (z : Z) : spec_float := S754_finite false (mantissa z) (Z.log2 z - 52).

Section below_2_53.
Context (z : Z) (Hz : 0 < z < 2 ^ 53).

Lemma log2_bounds : 0 <= Z.log2 z <= 52 /\ 2 ^ Z.log2 z <= z < 2 ^ (Z.log2 z + 1).
Proof.
  pose proof (Z.log2_spec z ltac:(lia)). pose proof (Z.log2_nonneg z). assert (Z.log2 z < 53) by (apply Z.log2_lt_pow2; lia).
  split; [lia|]. exact H.
Qed.

Lemma mantissa_value : Zpos (mantissa z) = z * 2 ^ (52 - Z.log2 z).
Proof. pose proof log2_bounds. unfold mantissa. apply Z2Pos.id. apply Z.mul_pos_pos; [lia|]. apply Z.pow_pos_nonneg; lia. Qed.

Lemma mantissa_bounds : 2 ^ 52 <= Zpos (mantissa z) < 2 ^ 53.
Proof.
  pose proof log2_bounds as [Hl Hb]. rewrite mantissa_value. pose proof (Z.pow_pos_nonneg 2 (52 - Z.log2 z) ltac:(lia) ltac:(lia)) as Hp.
  assert (E1 : 2 ^ 52 = 2 ^ Z.log2 z * 2 ^ (52 - Z.log2 z)) by (rewrite <- Z.pow_add_r by lia; f_equal; lia).
  assert (E2 : 2 ^ 53 = 2 ^ (Z.log2 z + 1) * 2 ^ (52 - Z.log2 z)) by (rewrite <- Z.pow_add_r by lia; f_equal; lia).
  rewrite E1, E2. split; [apply Z.mul_le_mono_nonneg_r; lia|apply Z.mul_lt_mono_pos_r; lia].
Qed.

Lemma mantissa_digits : Zdigits2 (Zpos (mantissa z)) = 53.
Proof. apply Zdigits2_bounds. split; [exact mantissa_bounds|lia]. Qed.

Lemma round_ratio_integer : round_ratio false z 1 = integer_double z.
Proof.
  pose proof log2_bounds as [Hl Hb]. assert (Hd : Zdigits2 z = Z.log2 z + 1) by (destruct z; try lia; apply Zdigits2_log2).
  unfold round_ratio, SFdiv_core_binary. rewrite Hd. change (Zdigits2 1) with 1.
  rewrite fexp_normal by lia. replace (Z.min (Z.log2 z + 1 + 0 - (1 + 0) - 53) (0 - 0)) with (Z.log2 z - 53) by lia.
  replace (0 - 0 - (Z.log2 z - 53)) with (53 - Z.log2 z) by lia.
  assert (Hs : match 53 - Z.log2 z with Z0 => z | Zpos _ => Z.shiftl z (53 - Z.log2 z) | Zneg _ => 0 end = Zpos (xO (mantissa z))).
  { rewrite Pos2Z.inj_xO, mantissa_value. destruct (53 - Z.log2 z) eqn:E; try lia. rewrite <- E, Z.shiftl_mul_pow2 by lia.
    replace (53 - Z.log2 z) with (1 + (52 - Z.log2 z)) by lia. rewrite Z.pow_add_r by lia. lia. }
  rewrite Hs. assert (Hq : Z.div_eucl (Zpos (xO (mantissa z))) 1 = (Zpos (xO (mantissa z)), 0)).
  { pose proof (Z.div_mod (Zpos (xO (mantissa z))) 1 ltac:(lia)) as H. pose proof (Z.mod_1_r (Zpos (xO (mantissa z)))). unfold Z.div, Z.modulo in *.
    destruct (Z.div_eucl _ 1). f_equal; lia. }
  rewrite Hq. change (new_location 1 0) with loc_Exact. change (xO (mantissa z)) with (shifted (mantissa z) 1). rewrite round_shifted; [|exact mantissa_digits|lia|lia].
  unfold integer_double. f_equal. lia.
Qed.

Lemma binary_normalize_integer : binary_normalize 53 1024 z 0 false = integer_double z.
Proof.
  pose proof log2_bounds as [Hl Hb]. assert (exists p, z = Zpos p) as [p Ez] by (exists (Z.to_pos z); lia).
  replace (binary_normalize 53 1024 z 0 false) with (binary_round 53 1024 false p 0) by (by rewrite Ez). unfold binary_round.
  change (Zpos (digits2_pos p)) with (Zdigits2 (Zpos p)). rewrite Zdigits2_log2, <- Ez. rewrite fexp_normal by lia.
  replace (Z.log2 z + 1 + 0 - 53) with (Z.log2 z - 52) by lia. unfold shl_align. rewrite Z.sub_0_r.
  destruct (Z.log2 z - 52) as [|k|k] eqn:E; [|lia|].
  - assert (Ep : p = mantissa z).
    { apply Pos2Z.inj. rewrite mantissa_value, <- Ez. replace (52 - Z.log2 z) with 0 by lia. lia. }
    rewrite Ep, round_canonical; [|exact mantissa_digits|lia]. unfold integer_double. by rewrite E.
  - assert (Ep : Pos.iter xO p k = mantissa z).
    { apply Pos2Z.inj. fold (shifted p k). rewrite mantissa_value, shifted_value, <- Ez. f_equal. f_equal. lia. }
    rewrite Ep, round_canonical; [|exact mantissa_digits|lia]. unfold integer_double. by rewrite E.
Qed.

Lemma integer_bits : bits_of_dec (integer_double z) = (Z.log2 z + 1023) * 2 ^ 52 + (Zpos (mantissa z) - 2 ^ 52).
Proof.
  pose proof mantissa_bounds. unfold integer_double, bits_of_dec. destruct (Z.ltb_spec (Zpos (mantissa z)) (2 ^ 52)); [lia|].
  cbn [sign_bit]. lia.
Qed.

Lemma double_not_nan : dec_of_bits (double_of_Z z) = integer_double z.
Proof.
  pose proof log2_bounds as [Hl _]. pose proof mantissa_bounds as Hm. unfold double_of_Z. rewrite binary_normalize_integer, integer_bits.
  set (m := Zpos (mantissa z)) in *. set (l := Z.log2 z) in *.
  rewrite u64_small by (unfold is_u64; lia). unfold dec_of_bits. set (b := _ + _).
  assert (Hb : 0 <= b < 2 ^ 63) by lia. destruct (Z.leb_spec (2 ^ 63) b); [lia|]. rewrite (Z.mod_small b) by lia.
  assert (Eb : b = (m - 2 ^ 52) + (l + 1023) * 2 ^ 52) by lia.
  assert (Hd : b / 2 ^ 52 = l + 1023) by (rewrite Eb, Z.div_add, Z.div_small by lia; lia).
  assert (Hr : b mod 2 ^ 52 = m - 2 ^ 52) by (rewrite Eb, Z.mod_add, Z.mod_small by lia; lia).
  rewrite Hd, Hr. destruct (Z.eqb_spec (l + 1023) 2047); [lia|]. destruct (Z.eqb_spec (l + 1023) 0); [lia|].
  replace (m - 2 ^ 52 + 2 ^ 52) with m by lia. unfold m, integer_double. f_equal. lia.
Qed.

Lemma stod_ratio_integer : stod_ratio false z 1 = Ret (double_of_Z z).
Proof.
  unfold stod_ratio, double_of_Z. destruct (Z.eqb_spec z 0); [lia|]. rewrite round_ratio_integer, binary_normalize_integer. pose proof mantissa_bounds.
  unfold integer_double at 1. destruct (Z.ltb_spec (Zpos (mantissa z)) (2 ^ 52)); [lia|]. done.
Qed.
End below_2_53.

(** ** Text that reads back *)

Lemma prefix_head a p c s : String.prefix (String a p) (String c s) = true -> a = c /\ String.prefix p s = true.
Proof. cbn [String.prefix]. destruct (ascii_dec a c); [by intros H|done]. Qed.

Lemma prefix_nil a p : String.prefix (String a p) "" = false.
Proof. done. Qed.

Lemma digit_head c : isdigit c = true -> c <> "-"%char /\ c <> "+"%char /\ c <> "I"%char /\ c <> "N"%char /\ c <> "X"%char /\ toupper c = c.
Proof.
  intros H. repeat split; try (intros ->; by vm_compute in H). unfold toupper. destruct (islower c) eqn:E; [|done].
  unfold isdigit, islower in *. apply andb_true_iff in H as [_ H2%Z.leb_le]. apply andb_true_iff in E as [E1%Z.leb_le _]. lia.
Qed.

Lemma digits_upper s : string_forall isdigit s = true -> string_map toupper s = s.
Proof.
  unfold string_forall. induction s as [|c s IH]; [done|]. cbn. rewrite andb_true_iff. intros [Hc Hs].
  destruct (digit_head c Hc) as (_ & _ & _ & _ & _ & ->). by rewrite IH.
Qed.

(** [std::stod] on digits alone. *)
Lemma stod_digits c ds : string_forall isdigit (String c ds) = true -> stod (String c ds) = stod_ratio false (digits_val 0 (String c ds)) 1.
Proof.
  intros H. pose proof H as Hd. unfold string_forall in Hd. cbn in Hd. apply andb_true_iff in Hd as [Hc Hds].
  destruct (digit_head c Hc) as (Hm & Hp & HI & HN & _ & _). unfold stod. cbn [span]. rewrite (isdigit_not_space c Hc). cbn [snd].
  replace (match String c ds with
    | String "-"%char s' => (true, s') | String "+"%char s' => (false, s') | _ => (false, String c ds) end)
    with (false, String c ds)
    by (destruct c as [[] [] [] [] [] [] [] []]; try done; exfalso; auto).
  rewrite (digits_upper _ H).
  destruct (String.prefix "INF" (String c ds)) eqn:E1; [by apply prefix_head in E1 as [? _]; subst|].
  destruct (String.prefix "NAN" (String c ds)) eqn:E2; [by apply prefix_head in E2 as [? _]; subst|].
  destruct (String.prefix "0X" (String c ds)) eqn:E3.
  { apply prefix_head in E3 as [_ E3]. destruct ds as [|d ds]; [done|]. apply prefix_head in E3 as [<- _]. cbn in Hds. done. }
  unfold strtod_decimal, read_significand. rewrite (span_all _ _ H). cbn [read_exponent digits_val]. unfold scale. change (0 - str_size "") with 0.
  change (0 <=? 0) with true. cbv iota. by rewrite Z.mul_1_r.
Qed.

Lemma stod_to_string z : 0 <= z < 2 ^ 53 -> stod (to_string_Z z) = Ret (double_of_Z z).
Proof.
  intros Hz. unfold to_string_Z. rewrite (proj2 (Z.ltb_ge z 0)) by lia. destruct (to_string_nonneg_spec z) as (c & ds & -> & Hd & Hv); [lia|].
  rewrite stod_digits, Hv by done. destruct (decide (z = 0)) as [->|]; [by vm_compute|]. apply stod_ratio_integer. lia.
Qed.

Lemma double_sane z : 0 <= z < 2 ^ 53 -> is_nan (double_of_Z z) = false.
Proof. intros Hz. unfold is_nan. destruct (decide (z = 0)) as [->|]; [by vm_compute|]. by rewrite double_not_nan by lia. Qed.

(** ** The decimal text of an integer *)

Lemma dec_digits_app fuel : forall n acc, dec_digits fuel n acc = dec_digits fuel n "" +:+ acc.
Proof.
  induction fuel as [|fuel IH]; intros n acc; cbn [dec_digits]; [done|]. destruct (n <? 10); [done|].
  rewrite (IH _ (String _ acc)), (IH _ (String _ "")), app_assoc_str. done.
Qed.

Lemma dec_digits_fuel f1 : forall f2 n acc, 0 <= n < 10 ^ Z.of_nat f1 -> n < 10 ^ Z.of_nat f2 -> (0 < f1)%nat -> (0 < f2)%nat -> dec_digits f1 n acc = dec_digits f2 n acc.
Proof.
  induction f1 as [|f1 IH]; intros [|f2] n acc H1 H2 P1 P2; try lia; cbn [dec_digits]. destruct (Z.ltb_spec n 10) as [|Hn]; [done|].
  assert (Hp : forall f, n < 10 ^ Z.of_nat (S f) -> n / 10 < 10 ^ Z.of_nat f /\ (0 < f)%nat).
  { intros f Hf. rewrite Nat2Z.inj_succ, Z.pow_succ_r in Hf by lia. split; [by apply Z.div_lt_upper_bound; lia|]. destruct f; [simpl in Hf; lia|lia]. }
  destruct (Hp f1) as [? ?], (Hp f2) as [? ?]; [lia..|]. apply IH; try lia. split; [apply Z.div_pos; lia|done].
Qed.

Lemma to_string_fuel n : 0 <= n -> n < 10 ^ Z.of_nat (S (Z.to_nat (Z.log2 n))).
Proof.
  intros Hn. destruct (decide (n = 0)) as [->|]; [done|]. pose proof (Z.log2_spec n ltac:(lia)) as [_ Hl]. pose proof (Z.log2_nonneg n).
  eapply Z.lt_le_trans; [exact Hl|]. rewrite Nat2Z.inj_succ, Z2Nat.id by lia. apply Z.pow_le_mono_l. lia.
Qed.

(** The last digit, and the ones before it. *)
Lemma to_string_last n d : 0 < n -> 0 <= d < 10 -> to_string_nonneg (10 * n + d) = to_string_nonneg n +:+ String (digit_char d) "".
Proof.
  intros Hn Hd. unfold to_string_nonneg at 1. cbn [dec_digits]. destruct (Z.ltb_spec (10 * n + d) 10); [lia|].
  assert (Hdiv : (10 * n + d) / 10 = n) by (rewrite (Z.mul_comm 10 n), Z.div_add_l by lia; rewrite Z.div_small by lia; lia).
  assert (Hmod : (10 * n + d) mod 10 = d) by (rewrite Z.add_comm, (Z.mul_comm 10 n), Z_mod_plus_full; by apply Z.mod_small).
  rewrite Hdiv, Hmod, dec_digits_app. f_equal. unfold to_string_nonneg. pose proof (Z.log2_le_mono (2 * n) (10 * n + d) ltac:(lia)) as Hl.
  rewrite Z.log2_double in Hl by lia. pose proof (Z.log2_nonneg n). pose proof (to_string_fuel n ltac:(lia)).
  apply dec_digits_fuel; [|done|lia|lia]. split; [lia|]. eapply Z.lt_le_trans; [exact H1|]. apply Z.pow_le_mono_r; lia.
Qed.

(** How many digits. *)
Lemma to_string_digit d : 0 <= d < 10 -> to_string_nonneg d = String (digit_char d) "".
Proof. intros Hd. unfold to_string_nonneg. cbn [dec_digits]. destruct (Z.ltb_spec d 10); [|lia]. by rewrite Z.mod_small. Qed.

Lemma to_string_length n : 0 < n -> let l := Z.of_nat (String.length (to_string_nonneg n)) in 1 <= l /\ 10 ^ (l - 1) <= n < 10 ^ l.
Proof.
  pattern n. apply (well_founded_ind (Z.lt_wf 0)). clear n. intros n IH Hn. cbn zeta. destruct (decide (n < 10)) as [Hs|Hs].
  { rewrite to_string_digit by lia. cbn. lia. }
  pose proof (Z.div_mod n 10 ltac:(lia)) as E. pose proof (Z.mod_pos_bound n 10 ltac:(lia)) as Hm.
  assert (Hq : 0 < n / 10 < n) by (split; [apply Z.div_str_pos; lia|apply Z.div_lt; lia]).
  specialize (IH (n / 10) ltac:(lia) ltac:(lia)). cbn zeta in IH. generalize dependent (n mod 10). intros d E Hd. generalize dependent (n / 10). intros q Hq IH E.
  subst n. rewrite to_string_last, length_app_str by lia. cbn [String.length].
  set (l := String.length (to_string_nonneg q)) in *. replace (Z.of_nat (l + 1)) with (Z.of_nat l + 1) by lia. split; [lia|].
  replace (Z.of_nat l + 1 - 1) with (1 + (Z.of_nat l - 1)) by lia. rewrite (Z.add_comm (Z.of_nat l) 1), !Z.pow_add_r, Z.pow_1_r by lia. lia.
Qed.

Lemma to_string_short n k : 0 < n < 10 ^ Z.of_nat k -> (String.length (to_string_Z n) <= k)%nat.
Proof.
  intros Hn. unfold to_string_Z. rewrite (proj2 (Z.ltb_ge n 0)) by lia. pose proof (to_string_length n ltac:(lia)) as (_ & Hl & _).
  destruct (decide (String.length (to_string_nonneg n) <= k)%nat) as [|Hk]; [done|].
  pose proof (Z.pow_le_mono_r 10 (Z.of_nat k) (Z.of_nat (String.length (to_string_nonneg n)) - 1) ltac:(lia) ltac:(lia)). lia.
Qed.

Definition zeros (j : nat) : string := pad_left j "".

Lemma to_string_zeros n j : 0 < n -> to_string_nonneg (n * 10 ^ Z.of_nat j) = to_string_nonneg n +:+ zeros j.
Proof.
  intros Hn. assert (Hz : forall k, zeros (S k) = zeros k +:+ "0") by (induction k as [|k IH]; [done|]; exact (f_equal (String "0"%char) IH)).
  induction j as [|j IH]; [cbn [Z.of_nat]; by rewrite Z.pow_0_r, Z.mul_1_r, app_empty_r|].
  rewrite Nat2Z.inj_succ, Z.pow_succ_r by lia. replace (n * (10 * 10 ^ Z.of_nat j)) with (10 * (n * 10 ^ Z.of_nat j) + 0) by lia.
  rewrite to_string_last by lia. by rewrite IH, Hz, app_assoc_str.
Qed.

(** ** Whole numbers in a stream *)

Lemma substring_prefix a b : String.substring 0 (String.length a) (a +:+ b) = a.
Proof. induction a as [|c a IH]; cbn [String.length]; [by destruct b|]. rewrite app_cons. cbn [String.substring]. by rewrite IH. Qed.

Lemma substring_rest a b n : String.substring (String.length a) n (a +:+ b) = String.substring 0 n b.
Proof. induction a as [|c a IH]; [done|]. rewrite app_cons. exact IH. Qed.

Lemma strip_all_zeros j : strip_zeros (zeros j) = "".
Proof. unfold strip_zeros. assert (E : find_last_not_of_0 (zeros j) = None) by (induction j as [|j IH]; [done|]; cbn; unfold zeros in *; by rewrite IH). by rewrite E. Qed.

Lemma substring_zeros j : String.substring 0 j (zeros j) = zeros j.
Proof. induction j as [|j IH]; [done|]. unfold zeros in *. cbn [pad_left String.substring]. by rewrite IH. Qed.

Lemma div_half_even_exact q d : 0 < d -> div_half_even (q * d) d = q.
Proof. intros Hd. unfold div_half_even. rewrite Z.div_mul, Z.mod_mul by lia. cbn [Z.mul]. destruct d; done. Qed.

(** A whole number of at most six digits is printed as such. *)
Lemma printf_g_integer z d : 0 < z < 10 ^ 6 -> 0 < d -> printf_g (z * d) d = to_string_Z z.
Proof.
  intros Hz Hd. pose proof (to_string_length z ltac:(lia)) as Hl. cbn zeta in Hl. set (s := to_string_nonneg z) in *. set (l := String.length s) in *.
  assert (Hl6 : (1 <= l <= 6)%nat).
  { split; [lia|]. destruct (decide (l <= 6)%nat) as [|Hn]; [done|]. pose proof (Z.pow_le_mono_r 10 6 (Z.of_nat l - 1) ltac:(lia) ltac:(lia)). lia. }
  assert (Hk : floor_log10 (z * d) d = Z.of_nat l - 1).
  { unfold floor_log10. destruct (Z.leb_spec d (z * d)); [|nia]. by rewrite Z.div_mul by lia. }
  assert (Hs : six_digits (z * d) d = (z * 10 ^ Z.of_nat (6 - l), Z.of_nat l - 1)).
  { unfold six_digits. rewrite Hk. destruct (Z.leb_spec (Z.of_nat l - 1) 5); [|lia]. replace (5 - (Z.of_nat l - 1)) with (Z.of_nat (6 - l)) by lia.
    rewrite <- Z.mul_assoc, (Z.mul_comm d), Z.mul_assoc, div_half_even_exact by done. destruct (Z.eqb_spec (z * 10 ^ Z.of_nat (6 - l)) (10 ^ 6)) as [E|]; [|done].
    exfalso. replace (10 ^ 6) with (10 ^ Z.of_nat l * 10 ^ Z.of_nat (6 - l)) in E by (rewrite <- Z.pow_add_r by lia; f_equal; lia). nia. }
  unfold printf_g. rewrite Hs, to_string_zeros by lia. fold s. destruct (Z.leb_spec (- 4) (Z.of_nat l - 1)); [|lia].
  destruct (Z.ltb_spec (Z.of_nat l - 1) 6); [|lia]. cbn [andb]. destruct (Z.leb_spec 0 (Z.of_nat l - 1)); [|lia].
  replace (S (Z.to_nat (Z.of_nat l - 1))) with l by lia. replace (5 - Z.to_nat (Z.of_nat l - 1))%nat with (6 - l)%nat by lia.
  unfold l. rewrite substring_prefix, substring_rest, substring_zeros. unfold with_fraction. rewrite strip_all_zeros. unfold to_string_Z. by rewrite (proj2 (Z.ltb_ge z 0)) by lia.
Qed.

Lemma stream_integer z : 0 < z < 10 ^ 6 -> stream_double (double_of_Z z) = to_string_Z z.
Proof.
  intros Hz. unfold stream_double. rewrite double_not_nan by lia. unfold integer_double. pose proof (log2_bounds z ltac:(lia)) as [Hl _].
  assert (Z.log2 z < 52) by (apply Z.log2_lt_pow2; lia). destruct (Z.leb_spec 0 (Z.log2 z - 52)); [lia|]. rewrite app_empty_l.
  rewrite mantissa_value by lia. replace (- (Z.log2 z - 52)) with (52 - Z.log2 z) by lia. apply printf_g_integer; [done|]. apply Z.pow_pos_nonneg; lia.
Qed.

(** ** The sum of whole numbers *)

(** A whole number whose low bits below the point are written out. *)
Lemma normalize_scaled z k : 0 < z < 2 ^ 53 -> 0 <= k <= 52 -> binary_normalize 53 1024 (z * 2 ^ k) (- k) false = integer_double z.
Proof.
  intros Hz Hk. pose proof (log2_bounds z Hz) as [Hl _]. pose proof (Z.pow_pos_nonneg 2 k ltac:(lia) ltac:(lia)).
  assert (exists p, z * 2 ^ k = Zpos p) as [p Ep] by (exists (Z.to_pos (z * 2 ^ k)); lia). rewrite Ep. cbn [binary_normalize]. unfold binary_round.
  change (Zpos (digits2_pos p)) with (Zdigits2 (Zpos p)). assert (Hd : Zdigits2 (Zpos p) = Z.log2 z + 1 + k) by (rewrite Zdigits2_log2, <- Ep, Z.log2_mul_pow2; lia).
  rewrite Hd, fexp_normal by lia. replace (Z.log2 z + 1 + k + - k - 53) with (Z.log2 z - 52) by lia. unfold shl_align.
  replace (Z.log2 z - 52 - - k) with (Z.log2 z + k - 52) by lia. destruct (Z.log2 z + k - 52) as [|d|d] eqn:E.
  - assert (Em : p = mantissa z) by (apply Pos2Z.inj; rewrite mantissa_value, <- Ep by done; do 2 f_equal; lia).
    rewrite Em, round_canonical; [|by apply mantissa_digits|lia]. unfold integer_double. f_equal. lia.
  - assert (Em : p = shifted (mantissa z) d).
    { apply Pos2Z.inj. rewrite shifted_value, mantissa_value, <- Ep, <- Z.mul_assoc, <- Z.pow_add_r by lia. do 2 f_equal. lia. }
    rewrite Em, round_shifted; [|by apply mantissa_digits|lia|lia]. unfold integer_double. f_equal. lia.
  - assert (Em : Pos.iter xO p d = mantissa z).
    { apply Pos2Z.inj. fold (shifted p d). rewrite shifted_value, mantissa_value, <- Ep, <- Z.mul_assoc, <- Z.pow_add_r by lia. do 2 f_equal. lia. }
    rewrite Em, round_canonical; [|by apply mantissa_digits|lia]. done.
Qed.

Lemma aligned_value a ez : 0 < a < 2 ^ 53 -> ez <= Z.log2 a - 52 -> Zpos (fst (shl_align (mantissa a) (Z.log2 a - 52) ez)) = a * 2 ^ (- ez).
Proof.
  intros Ha He. pose proof (log2_bounds a Ha) as [Hl _]. unfold shl_align. destruct (ez - (Z.log2 a - 52)) as [|d|d] eqn:E; [|lia|]; cbn [fst].
  - rewrite mantissa_value by done. do 2 f_equal. lia.
  - fold (shifted (mantissa a) d). rewrite shifted_value, mantissa_value, <- Z.mul_assoc, <- Z.pow_add_r by lia. do 2 f_equal. lia.
Qed.

Lemma dec_add_integer a b : 0 < a -> 0 <= b -> a + b < 2 ^ 53 -> dec_add (double_of_Z a) (double_of_Z b) = double_of_Z (a + b).
Proof.
  intros Ha Hb Hab. pose proof (log2_bounds a ltac:(lia)) as [Hla _]. pose proof (log2_bounds (a + b) ltac:(lia)) as [Hlab _].
  unfold dec_add. rewrite double_not_nan by lia. f_equal. change (double_of_Z (a + b)) with (u64 (bits_of_dec (binary_normalize 53 1024 (a + b) 0 false))).
  do 2 f_equal. rewrite binary_normalize_integer by lia.
  destruct (decide (b = 0)) as [->|Hb0]; [change (dec_of_bits (double_of_Z 0)) with (S754_zero false); rewrite Z.add_0_r; done|].
  pose proof (log2_bounds b ltac:(lia)) as [Hlb _]. rewrite double_not_nan by lia. unfold integer_double at 1 2. unfold SFadd.
  set (ez := Z.min _ _). cbn [cond_Zopp]. rewrite !aligned_value by lia. rewrite <- Z.mul_add_distr_r. replace ez with (- - ez) at 2 by lia.
  apply normalize_scaled; lia.
Qed.


