(* ===== verification/Common.v ===== *)
(** * common.h: data types, column definitions and values

    [DataType], [ColumnDef] and [Value] with its comparison operators and its
    text form, and the order laws the index relies on ([KeyOrder]). *)

From Stdlib Require Import ZArith Lia Ascii Floats.SpecFloat.
From stdpp Require Import base strings gmap numbers list list_numbers.
From S2P Require Import Prelude Cpp.
Open Scope string_scope.
Open Scope Z_scope.

(** ** Data types *)

(** [enum class DataType : uint8_t]. The underlying type is fixed, so a cast
    from a byte (the snapshot loader makes one) may yield a value that is no
    enumerator: [DT_raw b]. Every [switch] falls through on it. *)
Inductive DataType :=
  | INT
  | DECIMAL
  | VARCHAR
  | DATETIME
  | DT_raw (b : Z).

#[export] Instance DataType_eq_dec : EqDecision DataType.
Proof. solve_decision. Defined.

Definition dt_eqb (a b : DataType) : bool := bool_decide (a = b).

Definition byte_of_dt (dt : DataType) : Z :=
  match dt with
  | INT => 0
  | DECIMAL => 1
  | VARCHAR => 2
  | DATETIME => 3
  | DT_raw b => b
  end.

(** [static_cast<DataType>(byte)]. *)
Definition dt_of_byte (b : Z) : DataType :=
  if b =? 0 then INT
  else if b =? 1 then DECIMAL
  else if b =? 2 then VARCHAR
  else if b =? 3 then DATETIME
  else DT_raw b.

(** A value the enum itself names. *)
Definition dt_named (dt : DataType) : bool :=
  match dt with DT_raw _ => false | _ => true end.

Definition datatype_to_string (dt : DataType) : string :=
  match dt with
  | INT => "INT"
  | DECIMAL => "DECIMAL"
  | VARCHAR => "VARCHAR"
  | DATETIME => "DATETIME"
  | DT_raw _ => "UNKNOWN"
  end.

Definition string_to_datatype (s : string) : outcome DataType :=
  if String.eqb s "INT" then Ret INT
  else if String.eqb s "DECIMAL" then Ret DECIMAL
  else if String.eqb s "VARCHAR" then Ret VARCHAR
  else if String.eqb s "DATETIME" then Ret DATETIME
  else Throw (runtime_error ("Unknown data type: " +:+ s)).

(** ** Column definitions *)

Record ColumnDef := mkColumnDef {
  col_name : string;
  col_type : DataType;
  max_len : Z;           (* uint16_t *)
}.

Definition storage_size (c : ColumnDef) : Z :=
  match col_type c with
  | INT => 4
  | DECIMAL => 8
  | VARCHAR => 2 + max_len c
  | DATETIME => 8
  | DT_raw _ => 0
  end.

(** ** Values *)

(** The tagged union: the constructor is the tag [type], its argument the
    member that tag selects; a [DECIMAL] is the 64-bit image of the double. *)
Inductive Value :=
  | VInt (int_val : Z)
  | VDec (dec_bits : Z)
  | VStr (str_val : string)
  | VDt (dt_val : Z)
  | VRaw (tag : Z).

#[export] Instance Value_eq_dec : EqDecision Value.
Proof. solve_decision. Defined.

Abbreviation Row := (list Value).

(** [Value()]. *)
Definition Value_default : Value := VInt 0.
Definition make_int (v : Z) : Value := VInt v.
Definition make_decimal (v : Z) : Value := VDec v.
Definition make_varchar (v : string) : Value := VStr v.
Definition make_datetime (v : Z) : Value := VDt v.

Definition value_type (v : Value) : DataType :=
  match v with
  | VInt _ => INT
  | VDec _ => DECIMAL
  | VStr _ => VARCHAR
  | VDt _ => DATETIME
  | VRaw b => DT_raw b
  end.

(** The members, whatever the tag. The three numeric ones share storage: a
    member other than the one last written reads those bytes again (what GCC
    does; bytes never written read as zero here). [Value()] sets [int_val] to
    0 and [str_val] to the empty string. *)
Definition int_val (v : Value) : Z :=
  match v with VInt z => z | VDec b => s32 b | VDt z => s32 z | _ => 0 end.
Definition dec_val (v : Value) : Z :=
  match v with VDec b => b | VInt z => u32 z | VDt z => u64 z | _ => 0 end.
Definition dt_val (v : Value) : Z :=
  match v with VDt z => z | VInt z => u32 z | VDec b => s64 b | _ => 0 end.
Definition str_val (v : Value) : string :=
  match v with VStr s => s | _ => "" end.

(** [std::string::operator<]: bytes compared unsigned, a prefix first. *)
Fixpoint string_ltb (a b : string) : bool :=
  match a, b with
  | EmptyString, EmptyString => false
  | EmptyString, String _ _ => true
  | String _ _, EmptyString => false
  | String x a, String y b =>
      if ascii_code x <? ascii_code y then true
      else if ascii_code y <? ascii_code x then false
      else string_ltb a b
  end.

Definition value_eqb (a b : Value) : bool :=
  if negb (dt_eqb (value_type a) (value_type b)) then false
  else match a with
       | VInt _ => int_val a =? int_val b
       | VDec _ => dec_eqb (dec_val a) (dec_val b)
       | VStr _ => String.eqb (str_val a) (str_val b)
       | VDt _ => dt_val a =? dt_val b
       | VRaw _ => false
       end.

Definition value_ltb (a b : Value) : bool :=
  match a with
  | VInt _ => int_val a <? int_val b
  | VDec _ => dec_ltb (dec_val a) (dec_val b)
  | VStr _ => string_ltb (str_val a) (str_val b)
  | VDt _ => dt_val a <? dt_val b
  | VRaw _ => false
  end.

Definition value_neb (a b : Value) : bool := negb (value_eqb a b).
Definition value_gtb (a b : Value) : bool := value_ltb b a.
Definition value_leb (a b : Value) : bool := negb (value_ltb b a).
Definition value_geb (a b : Value) : bool := negb (value_ltb a b).

(** [Value::to_string]. The cast of a double that does not fit in [int64_t]
    (a NaN or an infinity included) is undefined behaviour. *)
Definition dec_to_string (x : spec_float) : outcome string :=
  match x with
  | S754_nan | S754_infinity _ => Undef
  | S754_zero _ => Ret "0"
  | S754_finite s m e =>
      let mag := if 0 <=? e then Zpos m * 2 ^ e else Zpos m / 2 ^ (- e) in
      let t := if s then - mag else mag in
      if negb ((- 2 ^ 63 <=? t) && (t <? 2 ^ 63)) then Undef
      else if (0 <=? e) || (Zpos m mod 2 ^ (- e) =? 0) then Ret (to_string_Z t)
      else
        let str := printf_6f s m e in
        match String.index 0 "." str with
        | None => Ret str
        | Some dot =>
            match find_last_not_of_0 str with
            | None => Ret ""
            | Some last =>
                let last := if Nat.eqb last dot then S last else last in
                Ret (String.substring 0 (S last) str)
            end
        end
  end.

Definition to_string (v : Value) : outcome string :=
  match v with
  | VInt z => Ret (to_string_Z z)
  | VDec b => dec_to_string (dec_of_bits b)
  | VStr s => Ret s
  | VDt z => Ret (to_string_Z z)
  | VRaw _ => Ret ""
  end.

(** ** Constants *)

Definition DEFAULT_VARCHAR_MAX : Z := 255.
Definition DEFAULT_TTL_SECONDS : Z := 3600.
Definition ARENA_CHUNK_SIZE : Z := 4 * 2 ^ 20.
Definition BPTREE_ORDER : nat := 256.
Definition LRU_CACHE_CAPACITY : Z := 1024.

(** Comparison operators, shared by [AstCmpOp] and [Table::CmpOp]. *)
Inductive CmpOp := EQ | NE | LT | GT | LE | GE.

#[export] Instance CmpOp_eq_dec : EqDecision CmpOp.
Proof. solve_decision. Defined.

(** The [switch] on an operator that filters rows. *)
Definition cmp_values (op : CmpOp) (a b : Value) : bool :=
  match op with
  | EQ => value_eqb a b
  | NE => value_neb a b
  | LT => value_ltb a b
  | GT => value_gtb a b
  | LE => value_leb a b
  | GE => value_geb a b
  end.

(** ** The order on keys *)

(** What an ordered index may assume of the keys in [P]: [<] is a strict weak
    order and [==] its equivalence. *)
Class KeyOrder (P : Value -> Prop) : Prop := {
  ko_irrefl a : P a -> value_ltb a a = false;
  ko_trans a b c : P a -> P b -> P c ->
    value_ltb a b = true -> value_ltb b c = true -> value_ltb a c = true;
  ko_cotrans a b c : P a -> P b -> P c ->
    value_ltb a c = true -> value_ltb a b = true \/ value_ltb b c = true;
  ko_eqb a b : P a -> P b -> value_eqb a b = negb (value_ltb a b) && negb (value_ltb b a);
}.

(** The keys a column of type [dt] may hold when [==] is to be reflexive: the
    tag is the column's and a [DECIMAL] is not a NaN. *)
Definition key_ok (dt : DataType) (v : Value) : Prop :=
  value_type v = dt /\ match v with VDec b => is_nan b = false | VRaw _ => False | _ => True end.

#[export] Instance key_ok_dec dt v : Decision (key_ok dt v).
Proof. unfold key_ok. destruct v; apply _. Defined.

(** *** Strings *)

Lemma string_ltb_irrefl a : string_ltb a a = false.
Proof. induction a as [|x a IH]; [done|]. cbn. by rewrite Z.ltb_irrefl. Qed.

Lemma string_ltb_trans a : forall b c,
  string_ltb a b = true -> string_ltb b c = true -> string_ltb a c = true.
Proof.
  induction a as [|x a IH]; intros [|y b] [|z c]; cbn; try done.
  destruct (Z.ltb_spec (ascii_code x) (ascii_code y)), (Z.ltb_spec (ascii_code y) (ascii_code z)),
    (Z.ltb_spec (ascii_code y) (ascii_code x)), (Z.ltb_spec (ascii_code z) (ascii_code y)),
    (Z.ltb_spec (ascii_code x) (ascii_code z)), (Z.ltb_spec (ascii_code z) (ascii_code x));
    try done; try lia. apply IH.
Qed.

Lemma string_ltb_cotrans a : forall b c,
  string_ltb a c = true -> string_ltb a b = true \/ string_ltb b c = true.
Proof.
  induction a as [|x a IH]; intros [|y b] [|z c]; cbn; try (by auto).
  destruct (Z.ltb_spec (ascii_code x) (ascii_code y)), (Z.ltb_spec (ascii_code y) (ascii_code z)),
    (Z.ltb_spec (ascii_code y) (ascii_code x)), (Z.ltb_spec (ascii_code z) (ascii_code y)),
    (Z.ltb_spec (ascii_code x) (ascii_code z)), (Z.ltb_spec (ascii_code z) (ascii_code x));
    try (by auto); try lia.
Qed.

Lemma string_eqb_ltb a : forall b,
  String.eqb a b = negb (string_ltb a b) && negb (string_ltb b a).
Proof.
  induction a as [|x a IH]; intros [|y b]; try done. cbn [string_ltb String.eqb].
  destruct (Ascii.eqb_spec x y) as [->|Hne].
  - rewrite Z.ltb_irrefl. apply IH.
  - destruct (Z.ltb_spec (ascii_code x) (ascii_code y)), (Z.ltb_spec (ascii_code y) (ascii_code x)); try done.
    exfalso. apply Hne, ascii_code_inj. lia.
Qed.

(** *** Doubles: the comparison is the one of a signed magnitude *)

Definition dec_rank (b : Z) : Z := if 2 ^ 63 <=? b then - (b mod 2 ^ 63) else b mod 2 ^ 63.

(** The shape of [dec_of_bits] on a number that is not a NaN. *)
Inductive dec_shape (s : bool) (mag : Z) : spec_float -> Prop :=
  | shape_zero : mag = 0 -> dec_shape s mag (S754_zero s)
  | shape_inf : mag = inf_mag -> dec_shape s mag (S754_infinity s)
  | shape_finite m e :
      mag = (e + 1074) * 2 ^ 52 + Zpos m -> -1074 <= e -> Zpos m < 2 ^ 53 ->
      e = -1074 \/ 2 ^ 52 <= Zpos m -> mag < inf_mag ->
      dec_shape s mag (S754_finite s m e).

Lemma dec_of_bits_shape b :
  is_nan b = false -> dec_shape (2 ^ 63 <=? b) (b mod 2 ^ 63) (dec_of_bits b).
Proof.
  unfold is_nan, dec_of_bits. set (mag := b mod 2 ^ 63). set (s := 2 ^ 63 <=? b).
  pose proof (Z.mod_pos_bound b (2 ^ 63) ltac:(lia)) as Hmag. fold mag in Hmag.
  pose proof (Z.div_mod mag (2 ^ 52) ltac:(lia)) as Hdm.
  pose proof (Z.mod_pos_bound mag (2 ^ 52) ltac:(lia)) as Hfr.
  assert (0 <= mag / 2 ^ 52) by (apply Z.div_pos; lia).
  assert (mag / 2 ^ 52 < 2048) by (apply Z.div_lt_upper_bound; lia).
  destruct (Z.eqb_spec (mag / 2 ^ 52) 2047) as [He|He].
  - destruct (Z.eqb_spec (mag mod 2 ^ 52) 0); [|done]. intros _.
    apply shape_inf. unfold inf_mag. lia.
  - intros _. destruct (Z.eqb_spec (mag / 2 ^ 52) 0) as [Hz|Hz].
    + destruct (mag mod 2 ^ 52) as [|m|m] eqn:Em; [|..|lia].
      * apply shape_zero. lia.
      * apply shape_finite; unfold inf_mag; lia.
    + destruct (mag mod 2 ^ 52 + 2 ^ 52) as [|m|m] eqn:Em; [lia|..|lia].
      apply shape_finite; unfold inf_mag; lia.
Qed.

Lemma SFcompare_shape s1 m1 x1 s2 m2 x2 :
  dec_shape s1 m1 x1 -> dec_shape s2 m2 x2 ->
  SFcompare x1 x2 = Some (Z.compare (if s1 then - m1 else m1) (if s2 then - m2 else m2)).
Proof.
  intros H1 H2. destruct H1 as [?|?|p1 e1 ?????], H2 as [?|?|p2 e2 ?????];
    destruct s1, s2; cbn; f_equal; unfold inf_mag in *; subst;
    try (symmetry; first [ apply Z.compare_eq_iff | apply Z.compare_lt_iff | apply Z.compare_gt_iff ]; lia).
  all: destruct (Z.compare_spec e1 e2); subst; cbn;
    change (Pos.compare_cont Eq p1 p2) with (Pos.compare p1 p2);
    try (symmetry; first [ apply Z.compare_lt_iff | apply Z.compare_gt_iff ]; lia).
  all: destruct (Pos.compare_spec p1 p2); subst; cbn; symmetry;
    first [ apply Z.compare_eq_iff | apply Z.compare_lt_iff | apply Z.compare_gt_iff ]; lia.
Qed.

Lemma dec_compare a b : is_nan a = false -> is_nan b = false ->
  SFcompare (dec_of_bits a) (dec_of_bits b) = Some (Z.compare (dec_rank a) (dec_rank b)).
Proof. intros Ha Hb. by apply SFcompare_shape; apply dec_of_bits_shape. Qed.

Lemma dec_ltb_rank a b : is_nan a = false -> is_nan b = false ->
  dec_ltb a b = (dec_rank a <? dec_rank b).
Proof.
  intros. unfold dec_ltb, SFltb. rewrite dec_compare by done.
  unfold Z.ltb. by destruct (dec_rank a ?= dec_rank b).
Qed.

Lemma dec_eqb_rank a b : is_nan a = false -> is_nan b = false ->
  dec_eqb a b = (dec_rank a =? dec_rank b).
Proof.
  intros. unfold dec_eqb, SFeqb. rewrite dec_compare by done.
  destruct (Z.compare_spec (dec_rank a) (dec_rank b)), (Z.eqb_spec (dec_rank a) (dec_rank b)); lia || done.
Qed.

(** *** All types *)

#[export] Instance key_ok_order dt : KeyOrder (key_ok dt).
Proof.
  assert (Hz : forall x y : Z, (x =? y) = negb (x <? y) && negb (y <? x)).
  { intros x y. destruct (Z.eqb_spec x y), (Z.ltb_spec x y), (Z.ltb_spec y x); lia || done. }
  split.
  - intros [] [_ ?]; cbn; rewrite ?dec_ltb_rank by done; auto using Z.ltb_irrefl, string_ltb_irrefl.
  - intros [] [] [] [<- ?] [? ?] [? ?]; try done; cbn; rewrite ?dec_ltb_rank by done;
      rewrite ?Z.ltb_lt; eauto using string_ltb_trans; lia.
  - intros [] [] [] [<- ?] [? ?] [? ?]; try done; cbn; rewrite ?dec_ltb_rank by done;
      rewrite ?Z.ltb_lt; auto using string_ltb_cotrans; lia.
  - intros [] [] [<- ?] [Ht ?]; try done; unfold value_eqb, dt_eqb; rewrite bool_decide_true by done; cbn;
      rewrite ?dec_ltb_rank, ?dec_eqb_rank by done; auto using string_eqb_ltb.
Qed.

Section key_order.
Context {P : Value -> Prop} `{!KeyOrder P}.

Lemma ltb_asym a b : P a -> P b -> value_ltb a b = true -> value_ltb b a = false.
Proof.
  intros Ha Hb H. destruct (value_ltb b a) eqn:E; [|done].
  pose proof (ko_trans a b a Ha Hb Ha H E). by rewrite ko_irrefl in H0.
Qed.

Lemma eqb_sym a b : P a -> P b -> value_eqb a b = value_eqb b a.
Proof. intros. rewrite !ko_eqb by done. apply andb_comm. Qed.

Lemma eqb_refl a : P a -> value_eqb a a = true.
Proof. intros. rewrite ko_eqb, ko_irrefl by done. done. Qed.

Lemma eqb_true a b : P a -> P b ->
  value_eqb a b = true <-> value_ltb a b = false /\ value_ltb b a = false.
Proof.
  intros. rewrite ko_eqb by done. by rewrite andb_true_iff, !negb_true_iff.
Qed.

(** [a <= b < c] and [a < b <= c]. *)
Lemma leb_ltb_trans a b c : P a -> P b -> P c ->
  value_ltb b a = false -> value_ltb b c = true -> value_ltb a c = true.
Proof. intros Ha Hb Hc H1 H2. destruct (ko_cotrans b a c) as [?|?]; try done. congruence. Qed.

Lemma ltb_leb_trans a b c : P a -> P b -> P c ->
  value_ltb a b = true -> value_ltb c b = false -> value_ltb a c = true.
Proof. intros Ha Hb Hc H1 H2. destruct (ko_cotrans a c b) as [?|?]; try done. congruence. Qed.

Lemma leb_trans a b c : P a -> P b -> P c ->
  value_ltb b a = false -> value_ltb c b = false -> value_ltb c a = false.
Proof.
  intros Ha Hb Hc H1 H2. destruct (value_ltb c a) eqn:E; [|done].
  destruct (ko_cotrans c b a) as [?|?]; congruence.
Qed.
End key_order.

Lemma dt_of_byte_of_dt dt : dt_named dt = true -> dt_of_byte (byte_of_dt dt) = dt.
Proof. by destruct dt. Qed.
