(* ===== verification/Schema.v ===== *)
(** * storage/schema.{h,cpp}: table metadata and the row layout

    The state of a [Schema], [add_column], [find_column] and [validate_row];
    the layout invariant and what it gives: the slots of the columns, the
    expiry stamp and the valid flag do not overlap as long as the byte sizes
    add up to less than 2^32. *)

From Stdlib Require Import ZArith Lia.
From stdpp Require Import base strings gmap numbers list list_numbers.
From S2P Require Import Prelude Cpp Common.
Open Scope string_scope.
Open Scope Z_scope.

Record Schema := mkSchema {
  columns_ : list ColumnDef;
  col_index_ : gmap string nat;     (* name -> index *)
  offsets_ : list Z;                (* byte offset per column, uint32_t *)
  row_size_ : Z;                    (* uint32_t *)
  pk_index_ : Z;                    (* uint32_t *)
}.

(** [Schema()]. *)
Definition Schema_empty : Schema := mkSchema [] ∅ [] 0 0.

Definition add_column (s : Schema) (name : string) (type : DataType) (max_len : Z) : Schema :=
  let idx := length (columns_ s) in
  let ml := if dt_eqb type VARCHAR then max_len else 0 in
  let col := mkColumnDef name type ml in
  let offset := row_size_ s in
  {| columns_ := columns_ s ++ [col];
     col_index_ := <[name := idx]> (col_index_ s);
     offsets_ := offsets_ s ++ [offset];
     row_size_ := u32 (row_size_ s + storage_size col);
     pk_index_ := pk_index_ s |}.

Definition num_columns (s : Schema) : nat := length (columns_ s).

Definition pk_column (s : Schema) : outcome ColumnDef :=
  deref (columns_ s !! Z.to_nat (pk_index_ s)).

(** -1 when the name is unknown. A schema has fewer than 2^31 columns, so that
    the cast to [int] keeps the position. *)
Definition find_column (s : Schema) (name : string) : Z :=
  match col_index_ s !! name with
  | None => -1
  | Some i => Z.of_nat i
  end.

Definition column_offset (s : Schema) (idx : nat) : Z :=
  match offsets_ s !! idx with Some o => o | None => 0 end.

Definition total_row_size (s : Schema) : Z := u32 (row_size_ s + 9).
Definition expiry_offset (s : Schema) : Z := row_size_ s.
Definition valid_offset (s : Schema) : Z := u32 (row_size_ s + 8).

(** The loop of [validate_row]: the first mismatch, as an error message. *)
Fixpoint validate_cols (cols : list ColumnDef) (values : Row) : option string :=
  match cols, values with
  | c :: cols, v :: values =>
      if negb (dt_eqb (value_type v) (col_type c)) then
        Some ("Type mismatch for column '" +:+ col_name c +:+ "': expected " +:+
              datatype_to_string (col_type c) +:+ ", got " +:+ datatype_to_string (value_type v))
      else if dt_eqb (col_type c) VARCHAR && (max_len c <? str_size (str_val v)) then
        Some ("VARCHAR overflow for column '" +:+ col_name c +:+ "': max " +:+
              to_string_Z (max_len c) +:+ ", got " +:+ to_string_Z (str_size (str_val v)))
      else validate_cols cols values
  | _, _ => None
  end.

(** [None]: the row is valid; [Some e]: [error] is set to [e]. *)
Definition validate_row (s : Schema) (values : Row) : option string :=
  if negb (Nat.eqb (length values) (length (columns_ s))) then
    Some ("Column count mismatch: expected " +:+ to_string_Z (Z.of_nat (length (columns_ s))) +:+
          ", got " +:+ to_string_Z (Z.of_nat (length values)))
  else validate_cols (columns_ s) values.

(** ** Specification *)

(** A value the column accepts. *)
Definition value_fits (c : ColumnDef) (v : Value) : Prop :=
  value_type v = col_type c /\ (col_type c = VARCHAR -> str_size (str_val v) <= max_len c).

Definition row_fits (s : Schema) (r : Row) : Prop := Forall2 value_fits (columns_ s) r.

(** The bytes before column [i], unbounded. *)
Definition bytes_before (cols : list ColumnDef) (i : nat) : Z :=
  foldr (fun c n => storage_size c + n) 0 (take i cols).
Definition bytes_total (cols : list ColumnDef) : Z :=
  foldr (fun c n => storage_size c + n) 0 cols.

(** The index [find_column] may return for a name: the last column so named. *)
Definition last_index (cols : list ColumnDef) (name : string) (i : nat) : Prop :=
  (exists c, cols !! i = Some c /\ col_name c = name) /\
  forall j c, (i < j)%nat -> cols !! j = Some c -> col_name c <> name.

Record schema_inv (s : Schema) : Prop := {
  inv_offsets : offsets_ s = (fun i => u32 (bytes_before (columns_ s) i)) <$> seq 0 (length (columns_ s));
  inv_row_size : row_size_ s = u32 (bytes_total (columns_ s));
  inv_pk : pk_index_ s = 0;
  inv_index : forall name i, col_index_ s !! name = Some i <-> last_index (columns_ s) name i;
  inv_max_len : Forall (fun c => is_u16 (max_len c)) (columns_ s);
}.

(** The row layout fits in the 32-bit sizes the code computes with. *)
Definition layout_fits (s : Schema) : Prop := bytes_total (columns_ s) + 9 < 2 ^ 32.

(** ** Lemmas *)

Lemma dt_eqb_eq a b : dt_eqb a b = true <-> a = b.
Proof. apply bool_decide_eq_true. Qed.
Lemma dt_eqb_neq a b : dt_eqb a b = false <-> a <> b.
Proof. apply bool_decide_eq_false. Qed.

Lemma storage_size_nonneg c : is_u16 (max_len c) -> 0 <= storage_size c.
Proof. unfold storage_size. destruct (col_type c); width_lia. Qed.

Lemma bytes_total_app cols cols' :
  bytes_total (cols ++ cols') = bytes_total cols + bytes_total cols'.
Proof. induction cols as [|c cols IH]; [done|]. change (storage_size c + bytes_total (cols ++ cols') = storage_size c + bytes_total cols + bytes_total cols'). lia. Qed.

Lemma bytes_before_total cols i : bytes_before cols i = bytes_total (take i cols).
Proof. done. Qed.

Lemma bytes_total_nonneg cols :
  Forall (fun c => is_u16 (max_len c)) cols -> 0 <= bytes_total cols.
Proof.
  induction 1 as [|c cols Hc _ IH]; cbn; [lia|]. pose proof (storage_size_nonneg c Hc). unfold bytes_total in *. lia.
Qed.

Lemma bytes_before_S cols i c : cols !! i = Some c ->
  bytes_before cols (S i) = bytes_before cols i + storage_size c.
Proof.
  intros H. rewrite !bytes_before_total, (take_S_r _ _ _ H), bytes_total_app. cbn. lia.
Qed.

Lemma bytes_before_mono cols i j :
  Forall (fun c => is_u16 (max_len c)) cols -> (i <= j)%nat ->
  bytes_before cols i <= bytes_before cols j.
Proof.
  intros Hc Hij. rewrite !bytes_before_total.
  rewrite <- (take_drop i (take j cols)), bytes_total_app, take_take, Nat.min_l by done.
  pose proof (bytes_total_nonneg (drop i (take j cols)) (Forall_drop _ _ _ (Forall_take _ _ _ Hc))).
  lia.
Qed.

Lemma bytes_before_le_total cols i :
  Forall (fun c => is_u16 (max_len c)) cols -> bytes_before cols i <= bytes_total cols.
Proof.
  intros Hc. destruct (le_lt_dec i (length cols)) as [Hi|Hi].
  - rewrite <- (firstn_all cols) at 2. by apply (bytes_before_mono cols i (length cols)).
  - unfold bytes_before. rewrite firstn_all2 by lia. done.
Qed.

Lemma schema_inv_empty : schema_inv Schema_empty.
Proof.
  split; try done. intros name i. cbn. rewrite lookup_empty. split; [done|].
  intros [(c & Hc & _) _]. done.
Qed.

(** A new column becomes the last one with its name. *)
Lemma last_index_snoc cols c name i :
  last_index (cols ++ [c]) name i <->
  if decide (col_name c = name) then i = length cols else last_index cols name i.
Proof.
  unfold last_index. case_decide as Hn.
  - split.
    + intros [(c' & Hi & _) Hlast]. apply lookup_lt_Some in Hi as Hlt.
      rewrite length_app in Hlt. cbn in Hlt.
      destruct (decide (i = length cols)); [done|]. exfalso.
      apply (Hlast (length cols) c); [lia| |done]. by rewrite lookup_app_r, Nat.sub_diag by lia.
    + intros ->. split.
      * exists c. by rewrite lookup_app_r, Nat.sub_diag by lia.
      * intros j c' Hj Hc. apply lookup_lt_Some in Hc. rewrite length_app in Hc. cbn in Hc. lia.
  - split.
    + intros [(c' & Hi & Hn') Hlast]. apply lookup_app_Some in Hi as [Hi|[Hl Hi]].
      * split; [eauto|]. intros j d Hj Hd. apply (Hlast j d Hj). by apply lookup_app_l_Some.
      * exfalso. apply list_lookup_singleton_Some in Hi as [_ ->]. done.
    + intros [(c' & Hi & Hn') Hlast]. split.
      * exists c'. split; [by apply lookup_app_l_Some|done].
      * intros j d Hj Hd. apply lookup_app_Some in Hd as [Hd|[_ Hd]]; [by eapply Hlast|].
        apply list_lookup_singleton_Some in Hd as [_ <-]. done.
Qed.

Lemma add_column_inv s name type ml :
  schema_inv s -> is_u16 ml -> schema_inv (add_column s name type ml).
Proof.
  intros [Ho Hr Hp Hi Hm] Hml. split; cbn.
  - rewrite Ho, length_app, Nat.add_1_r, seq_S, fmap_app. cbn. f_equal.
    + apply list_fmap_ext. intros k i Hk. apply lookup_seq in Hk as [-> Hk].
      f_equal. unfold bytes_before. by rewrite take_app_le by lia.
    + rewrite Hr. f_equal. f_equal. unfold bytes_before. by rewrite take_app_length.
  - rewrite Hr, bytes_total_app. cbn. unfold u32. rewrite Zplus_mod_idemp_l. f_equal. lia.
  - done.
  - intros n i. rewrite last_index_snoc. cbn. rewrite lookup_insert. case_decide; [|done].
    split; congruence.
  - apply Forall_app. split; [done|]. constructor; [|done]. cbn.
    destruct (dt_eqb type VARCHAR); [done|]. width_lia.
Qed.

Lemma find_column_spec s name i : schema_inv s ->
  find_column s name = Z.of_nat i <-> last_index (columns_ s) name i.
Proof.
  intros Hs. rewrite <- (inv_index s Hs). unfold find_column.
  destruct (col_index_ s !! name) as [j|]; split; intros H; try congruence; try lia.
  f_equal. lia.
Qed.

Lemma find_column_range s name : schema_inv s ->
  find_column s name = -1 \/
  exists i c, find_column s name = Z.of_nat i /\ columns_ s !! i = Some c /\ col_name c = name.
Proof.
  intros Hs. unfold find_column. destruct (col_index_ s !! name) as [i|] eqn:E; [|by left].
  apply (inv_index s Hs) in E as [(c & Hc & Hn) _]. right. eauto.
Qed.

Lemma column_offset_spec s i : schema_inv s -> layout_fits s -> (i < num_columns s)%nat ->
  column_offset s i = bytes_before (columns_ s) i.
Proof.
  intros Hs Hl Hi. unfold column_offset. rewrite (inv_offsets s Hs), list_lookup_fmap.
  rewrite (lookup_seq_lt) by done. cbn. apply u32_small.
  pose proof (inv_max_len s Hs). pose proof (bytes_before_le_total (columns_ s) i H).
  pose proof (bytes_total_nonneg (take i (columns_ s))) as Hn.
  rewrite <- bytes_before_total in Hn. assert (0 <= bytes_before (columns_ s) i) by (apply Hn; by apply Forall_take).
  unfold layout_fits in Hl. width_lia.
Qed.

Lemma row_size_spec s : schema_inv s -> layout_fits s ->
  row_size_ s = bytes_total (columns_ s) /\ 0 <= row_size_ s.
Proof.
  intros Hs Hl. rewrite (inv_row_size s Hs).
  pose proof (bytes_total_nonneg (columns_ s) (inv_max_len s Hs)). unfold layout_fits in Hl.
  rewrite u32_small by width_lia. lia.
Qed.

Lemma metadata_offsets s : schema_inv s -> layout_fits s ->
  expiry_offset s = row_size_ s /\ valid_offset s = row_size_ s + 8 /\ total_row_size s = row_size_ s + 9.
Proof.
  intros Hs Hl. pose proof (row_size_spec s Hs Hl). unfold layout_fits in Hl.
  unfold expiry_offset, valid_offset, total_row_size. rewrite !u32_small by width_lia. done.
Qed.

(** A column's slot lies inside the data part of the row. *)
Lemma slot_in_row s i c : schema_inv s -> layout_fits s -> columns_ s !! i = Some c ->
  0 <= column_offset s i /\ column_offset s i + storage_size c <= row_size_ s.
Proof.
  intros Hs Hl Hc. pose proof (lookup_lt_Some _ _ _ Hc) as Hi.
  rewrite column_offset_spec by done. destruct (row_size_spec s Hs Hl) as [-> _].
  pose proof (bytes_before_S _ _ _ Hc) as HS.
  pose proof (bytes_before_le_total (columns_ s) (S i) (inv_max_len s Hs)).
  pose proof (bytes_total_nonneg (take i (columns_ s)) (Forall_take _ _ _ (inv_max_len s Hs))).
  rewrite <- bytes_before_total in *. lia.
Qed.

(** The slots of two columns are disjoint, in column order. *)
Lemma slots_ordered s i j c : schema_inv s -> layout_fits s ->
  columns_ s !! i = Some c -> (i < j < num_columns s)%nat ->
  column_offset s i + storage_size c <= column_offset s j.
Proof.
  intros Hs Hl Hc Hij. rewrite !column_offset_spec by (done || lia).
  rewrite <- (bytes_before_S _ _ _ Hc). apply bytes_before_mono; [apply Hs|lia].
Qed.

Lemma validate_cols_spec cols : forall vs, length vs = length cols ->
  validate_cols cols vs = None <-> Forall2 value_fits cols vs.
Proof.
  induction cols as [|c cols IH]; intros [|v vs] Hl; try done; cbn in *.
  rewrite Forall2_cons_iff. unfold value_fits at 1.
  destruct (dt_eqb (value_type v) (col_type c)) eqn:Ht; cbn.
  2: { apply dt_eqb_neq in Ht. split; [done|]. intros [[? _] _]. done. }
  apply dt_eqb_eq in Ht. destruct (dt_eqb (col_type c) VARCHAR) eqn:Hv; cbn.
  - apply dt_eqb_eq in Hv. destruct (Z.ltb_spec (max_len c) (str_size (str_val v))).
    + split; [done|]. intros [[_ Hle] _]. specialize (Hle Hv). lia.
    + rewrite IH by lia. tauto.
  - apply dt_eqb_neq in Hv. rewrite IH by lia. tauto.
Qed.

Lemma validate_row_fits s r : validate_row s r = None <-> row_fits s r.
Proof.
  unfold validate_row, row_fits. destruct (Nat.eqb_spec (length r) (length (columns_ s))) as [Hl|Hl]; cbn.
  - by apply validate_cols_spec.
  - split; [done|]. intros H. exfalso. apply Hl. symmetry. by eapply Forall2_length.
Qed.

(** ** Properties *)

(** The schema [CREATE TABLE] makes from its column definitions. *)
Definition build_schema (cols : list (string * DataType * Z)) : Schema :=
  foldl (fun s c => add_column s (fst (fst c)) (snd (fst c)) (snd c)) Schema_empty cols.

Lemma build_schema_inv cols : Forall (fun c => is_u16 (snd c)) cols -> schema_inv (build_schema cols).
Proof.
  unfold build_schema. intros H. generalize schema_inv_empty. generalize Schema_empty. induction H as [|c cols Hc _ IH]; intros s Hs; [done|].
  cbn. apply IH. by apply add_column_inv.
Qed.


Definition sample_cols : list (string * DataType * Z) := [("ID", INT, 255); ("NAME", VARCHAR, 8); ("ID", DECIMAL, 0)].


(** The 32-bit row size wraps: 65536 columns of [VARCHAR(65535)] make a schema
    that claims 65536 bytes of data for a row of more than 4 GB. *)
Lemma bytes_total_replicate n c : bytes_total (replicate n c) = Z.of_nat n * storage_size c.
Proof. induction n as [|n IH]; [done|]. cbn [replicate bytes_total foldr]. unfold bytes_total in IH. rewrite IH. lia. Qed.

Lemma row_size_wraps : exists s, schema_inv s /\ bytes_total (columns_ s) = 2 ^ 32 + 65536 /\ row_size_ s = 65536.
Proof.
  set (cols := replicate (Z.to_nat 65536) ("A", VARCHAR, 65535)).
  assert (Hs : schema_inv (build_schema cols)).
  { apply build_schema_inv, Forall_replicate. unfold is_u16. cbn. lia. }
  assert (Hcols : columns_ (build_schema cols) = replicate (Z.to_nat 65536) (mkColumnDef "A" VARCHAR 65535)).
  { unfold build_schema, cols. generalize (Z.to_nat 65536). intros n.
    assert (H : forall s, columns_ (foldl (fun s c => add_column s (fst (fst c)) (snd (fst c)) (snd c)) s (replicate n ("A", VARCHAR, 65535)))
      = (columns_ s ++ replicate n (mkColumnDef "A" VARCHAR 65535))%list).
    { induction n as [|n IH]; intros s; [by rewrite app_nil_r|]. cbn [replicate foldl]. rewrite IH. cbn. by rewrite <- app_assoc. }
    by rewrite H. }
  assert (Hb : bytes_total (columns_ (build_schema cols)) = 2 ^ 32 + 65536).
  { rewrite Hcols, bytes_total_replicate, Z2Nat.id by lia. reflexivity. }
  exists (build_schema cols). split; [done|]. split; [done|]. by rewrite (inv_row_size _ Hs), Hb.
Qed.
