(* ===== verification/Arena.v ===== *)
(** * storage/arena.{h,cpp}: the bump allocator

    An [Arena] is the list of its chunks with their bytes and the three
    counters. [malloc] is the environment's: [malloc_ok n sz] says whether the
    request for [sz] bytes made when [n] chunks exist succeeds. Pointers are a
    chunk index and an offset; reading a byte never written, or leaving the
    chunk, is undefined. *)

From Stdlib Require Import ZArith Lia.
From stdpp Require Import base strings gmap numbers list list_numbers.
From S2P Require Import Prelude Cpp Common.
Open Scope Z_scope.

Class Malloc := malloc_ok : nat -> Z -> bool.

Record Chunk := mkChunk {
  data : gmap Z Z;       (* the bytes written so far, by offset *)
  capacity : Z;
}.

Record Arena := mkArena {
  chunk_size_ : Z;
  current_offset_ : Z;   (* offset within the current (last) chunk *)
  total_allocated_ : Z;
  chunks_ : list Chunk;
}.

Definition Ptr : Type := nat * Z.
Definition ptr_add (p : Ptr) (n : Z) : Ptr := (fst p, snd p + n).

(** ** Memory *)

Fixpoint write_bytes (m : gmap Z Z) (off : Z) (bs : list Z) : gmap Z Z :=
  match bs with
  | [] => m
  | b :: bs => <[off := b]> (write_bytes m (off + 1) bs)
  end.

Definition in_chunk (c : Chunk) (off len : Z) : bool :=
  (0 <=? off) && (off + len <=? capacity c).

(** [memcpy(p, bs, len)]. *)
Definition mem_write (a : Arena) (p : Ptr) (bs : list Z) : outcome Arena :=
  c ← deref (chunks_ a !! fst p);
  if in_chunk c (snd p) (Z.of_nat (length bs)) then
    Ret {| chunk_size_ := chunk_size_ a; current_offset_ := current_offset_ a;
           total_allocated_ := total_allocated_ a;
           chunks_ := <[fst p := mkChunk (write_bytes (data c) (snd p) bs) (capacity c)]> (chunks_ a) |}
  else Undef.

(** [memcpy(dst, p, n)]. *)
Definition mem_read (a : Arena) (p : Ptr) (n : nat) : outcome (list Z) :=
  c ← deref (chunks_ a !! fst p);
  if in_chunk c (snd p) (Z.of_nat n) then
    mapM (fun i => deref (data c !! (snd p + Z.of_nat i))) (seq 0 n)
  else Undef.

(** ** Operations *)

Section ops.
Context `{malloc : Malloc}.

Definition allocate_new_chunk (a : Arena) (min_size : Z) : outcome Arena :=
  let alloc_size := Z.max min_size (chunk_size_ a) in
  if malloc_ok (length (chunks_ a)) alloc_size then
    Ret {| chunk_size_ := chunk_size_ a; current_offset_ := 0;
           total_allocated_ := total_allocated_ a;
           chunks_ := chunks_ a ++ [mkChunk ∅ alloc_size] |}
  else Throw bad_alloc.

(** [Arena(chunk_size)]. *)
Definition Arena_new (chunk_size : Z) : outcome Arena :=
  allocate_new_chunk (mkArena chunk_size 0 0 []) chunk_size.

Definition align_up (off alignment : Z) : Z :=
  Z.land (u64 (off + alignment - 1)) (u64 (Z.lnot (alignment - 1))).

(** [allocate(size, alignment)]: [None] is the null pointer. *)
Definition allocate (a : Arena) (size alignment : Z) : outcome (option Ptr * Arena) :=
  if size =? 0 then Ret (None, a) else
  current ← deref (last (chunks_ a));
  let aligned_offset := align_up (current_offset_ a) alignment in
  r ← (if capacity current <? u64 (aligned_offset + size) then
         a' ← allocate_new_chunk a (u64 (size + alignment)); Ret (0, a')
       else Ret (aligned_offset, a));
  let '(aligned_offset, a) := (r : Z * Arena) in
  Ret (Some (pred (length (chunks_ a)), aligned_offset),
       {| chunk_size_ := chunk_size_ a;
          current_offset_ := u64 (aligned_offset + size);
          total_allocated_ := u64 (total_allocated_ a + size);
          chunks_ := chunks_ a |}).
End ops.

Definition reset (a : Arena) : Arena :=
  {| chunk_size_ := chunk_size_ a; current_offset_ := 0; total_allocated_ := 0;
     chunks_ := take 1 (chunks_ a) |}.

Definition total_capacity (a : Arena) : Z := u64 (Z.of_nat (length (chunks_ a)) * chunk_size_ a).
Definition num_chunks (a : Arena) : nat := length (chunks_ a).

(** ** Invariant *)

(** Sizes stay far from 2^64, so that offset arithmetic does not wrap. *)
Definition small_size (z : Z) : Prop := 0 <= z < 2 ^ 62.

Record arena_inv (a : Arena) : Prop := {
  inv_chunk_size : 0 < chunk_size_ a < 2 ^ 62;
  inv_last : exists c, last (chunks_ a) = Some c /\ 0 <= current_offset_ a <= capacity c;
  inv_caps : Forall (fun c => small_size (capacity c)) (chunks_ a);
}.

(** The address just past everything handed out so far, and the order on
    addresses: later chunks come after earlier ones. *)
Definition frontier (a : Arena) : Ptr := (pred (length (chunks_ a)), current_offset_ a).
Definition ptr_le (p q : Ptr) : Prop := (fst p < fst q)%nat \/ (fst p = fst q /\ snd p <= snd q).

(** The [size] bytes at [p] lie in a chunk. *)
Definition block_valid (a : Arena) (p : Ptr) (size : Z) : Prop :=
  exists c, chunks_ a !! fst p = Some c /\ 0 <= snd p /\ snd p + size <= capacity c.

(** The blocks at [p] ([n] bytes) and [q] ([m] bytes) share no byte. *)
Definition disjoint_blocks (p : Ptr) (n : Z) (q : Ptr) (m : Z) : Prop :=
  fst p <> fst q \/ snd p + n <= snd q \/ snd q + m <= snd p.

(** ** Lemmas on memory *)

Lemma lookup_write_bytes bs : forall m off i,
  write_bytes m off bs !! i =
  if decide (off <= i < off + Z.of_nat (length bs)) then bs !! Z.to_nat (i - off) else m !! i.
Proof.
  induction bs as [|b bs IH]; intros m off i; cbn [write_bytes length].
  - case_decide; [lia|done].
  - rewrite lookup_insert. destruct (decide (off = i)) as [->|Hne].
    + rewrite decide_True by lia. by rewrite Z.sub_diag.
    + rewrite IH. destruct (decide (off + 1 <= i < _)).
      * rewrite decide_True by lia. replace (Z.to_nat (i - off)) with (S (Z.to_nat (i - (off + 1)))) by lia. done.
      * by rewrite decide_False by lia.
Qed.

Lemma in_chunk_true c off len :
  in_chunk c off len = true <-> 0 <= off /\ off + len <= capacity c.
Proof. unfold in_chunk. by rewrite andb_true_iff, !Z.leb_le. Qed.

Lemma mapM_deref_lookup (m : gmap Z Z) off bs :
  (forall i b, bs !! i = Some b -> m !! (off + Z.of_nat i) = Some b) ->
  mapM (fun i => deref (m !! (off + Z.of_nat i))) (seq 0 (length bs)) = Ret bs.
Proof.
  revert off. induction bs as [|b bs IH]; intros off H; [done|].
  cbn [length seq mapM]. rewrite (H O b eq_refl). cbn.
  rewrite <- fmap_S_seq.
  assert (He : mapM (fun i => deref (m !! (off + Z.of_nat i))) (S <$> seq 0 (length bs))
             = mapM (fun i => deref (m !! (off + 1 + Z.of_nat i))) (seq 0 (length bs))).
  { generalize (seq 0 (length bs)). intros l. induction l as [|x l IHl]; [done|].
    cbn [fmap list_fmap mapM]. fold (fmap (M := list) S l). rewrite IHl.
    by replace (off + Z.of_nat (S x)) with (off + 1 + Z.of_nat x) by lia. }
  rewrite He, IH; [done|]. intros i c Hc. replace (off + 1 + Z.of_nat i) with (off + Z.of_nat (S i)) by lia.
  by apply H.
Qed.

(** Writing keeps every block valid and the frontier in place. *)
Lemma mem_write_spec a p bs : block_valid a p (Z.of_nat (length bs)) ->
  exists a', mem_write a p bs = Ret a' /\
    frontier a' = frontier a /\ (arena_inv a -> arena_inv a') /\
    (forall q n, block_valid a q n <-> block_valid a' q n).
Proof.
  intros (c & Hc & H1 & H2). unfold mem_write. rewrite Hc. cbn.
  rewrite (proj2 (in_chunk_true c _ _)) by done. eexists. split; [done|].
  split; [unfold frontier; cbn; by rewrite length_insert|]. split.
  - intros [Hs (cl & Hl & Ho) Hcap]. split; cbn; [done| |].
    + rewrite last_lookup, length_insert in *.
      destruct (decide (fst p = pred (length (chunks_ a)))) as [E|E].
      * rewrite <- E in *. rewrite list_lookup_insert_eq by (by eapply lookup_lt_Some).
        eexists. split; [done|]. cbn. rewrite Hc in Hl. by injection Hl as <-.
      * rewrite list_lookup_insert_ne by done. eauto.
    + apply Forall_insert; [done|]. cbn. by eapply (Forall_lookup_1 _ _ _ _ Hcap Hc).
  - intros q n. unfold block_valid. cbn. rewrite list_lookup_insert.
    case_decide as E; [|done]. destruct E as [<- ?]. rewrite Hc.
    split; intros (c' & [= <-] & ?); eexists; (split; [done|]); done.
Qed.

Lemma mem_read_written a p bs a' : mem_write a p bs = Ret a' ->
  mem_read a' p (length bs) = Ret bs.
Proof.
  unfold mem_write, mem_read. destruct (chunks_ a !! fst p) as [c|] eqn:Hc; [|done]. cbn.
  destruct (in_chunk c _ _) eqn:Hi; [|done]. intros [= <-]. cbn.
  rewrite list_lookup_insert_eq by (by eapply lookup_lt_Some). cbn.
  unfold in_chunk in *. cbn. rewrite Hi.
  apply mapM_deref_lookup. intros i b Hb. rewrite lookup_write_bytes.
  apply lookup_lt_Some in Hb as Hlt.
  rewrite decide_True by lia. by replace (Z.to_nat (snd p + Z.of_nat i - snd p)) with i by lia.
Qed.

(** A read of a block disjoint from the one written is unaffected. *)
Lemma mem_read_disjoint a p bs a' q n : mem_write a p bs = Ret a' ->
  disjoint_blocks p (Z.of_nat (length bs)) q (Z.of_nat n) ->
  mem_read a' q n = mem_read a q n.
Proof.
  unfold mem_write, mem_read. destruct (chunks_ a !! fst p) as [c|] eqn:Hc; [|done]. cbn.
  destruct (in_chunk c _ _) eqn:Hi; [|done]. intros [= <-] Hd. cbn.
  destruct (decide (fst p = fst q)) as [E|E]; [|rewrite list_lookup_insert_ne by done; reflexivity].
  rewrite <- E, list_lookup_insert_eq, Hc by (by eapply lookup_lt_Some). cbn.
  unfold in_chunk. cbn. destruct (_ && _); [|done].
  destruct Hd as [Hd|Hd]; [done|].
  assert (Hext : forall l : list nat, Forall (fun i => (i < n)%nat) l ->
    mapM (fun i => deref (write_bytes (data c) (snd p) bs !! (snd q + Z.of_nat i))) l =
    mapM (fun i => deref (data c !! (snd q + Z.of_nat i))) l).
  { intros l Hl. induction Hl as [|x l Hx Hl IH]; [done|]. cbn [mapM]. rewrite IH.
    rewrite lookup_write_bytes, decide_False by lia. done. }
  apply Hext, Forall_forall. intros x Hx%elem_of_seq. lia.
Qed.

(** ** Lemmas on allocation *)

Lemma align_up_spec off k : small_size off -> 0 <= k <= 32 ->
  align_up off (2 ^ k) = (off + 2 ^ k - 1) / 2 ^ k * 2 ^ k.
Proof.
  intros Ho Hk. unfold align_up, small_size in *.
  assert (2 ^ k <= 2 ^ 32) by (apply Z.pow_le_mono_r; lia).
  assert (0 < 2 ^ k) by (apply Z.pow_pos_nonneg; lia).
  rewrite (u64_small (off + 2 ^ k - 1)) by width_lia.
  unfold u64. rewrite <- (Z.land_ones _ 64) by lia.
  rewrite (Z.land_comm (Z.lnot _)), Z.land_assoc, Z.land_ones by lia.
  rewrite (Z.mod_small (off + 2 ^ k - 1)) by lia.
  rewrite <- Z.ldiff_land.
  replace (2 ^ k - 1) with (Z.ones k) by (rewrite Z.ones_equiv; lia).
  rewrite Z.ldiff_ones_r, Z.shiftl_mul_pow2, Z.shiftr_div_pow2 by lia. done.
Qed.

Lemma align_up_bounds off k : small_size off -> 0 <= k <= 32 ->
  off <= align_up off (2 ^ k) < off + 2 ^ k /\ (2 ^ k | align_up off (2 ^ k)).
Proof.
  intros Ho Hk. rewrite align_up_spec by done.
  pose proof (Z.pow_pos_nonneg 2 k ltac:(lia) ltac:(lia)).
  pose proof (Z.div_mod (off + 2 ^ k - 1) (2 ^ k) ltac:(lia)).
  pose proof (Z.mod_pos_bound (off + 2 ^ k - 1) (2 ^ k) ltac:(lia)).
  split; [nia|]. apply Z.divide_factor_r.
Qed.

Section alloc.
Context `{malloc : Malloc}.

Lemma Arena_new_inv sz a : 0 < sz < 2 ^ 62 -> Arena_new sz = Ret a -> arena_inv a.
Proof.
  intros Hs. unfold Arena_new, allocate_new_chunk. cbn. destruct (malloc_ok _ _); [|done].
  intros [= <-]. split; cbn; [done| |].
  - eexists. split; [done|]. cbn. lia.
  - repeat constructor; cbn; unfold small_size; lia.
Qed.

(** What [allocate] returns: an aligned block past the frontier, in bounds,
    the blocks that existed keep their place and their bytes. *)
Lemma allocate_spec a size k p a' :
  arena_inv a -> 0 < size < 2 ^ 61 -> 0 <= k <= 32 ->
  allocate a size (2 ^ k) = Ret (p, a') ->
  exists q, p = Some q /\ arena_inv a' /\ (2 ^ k | snd q) /\
    ptr_le (frontier a) q /\ frontier a' = ptr_add q size /\
    block_valid a' q size /\ (forall r n, block_valid a r n -> block_valid a' r n) /\
    (forall r n, (fst r < length (chunks_ a))%nat -> mem_read a' r n = mem_read a r n).
Proof.
  intros [Hcs (c & Hl & Ho) Hcaps] Hsz Hk. unfold allocate.
  rewrite (proj2 (Z.eqb_neq size 0)) by lia. rewrite Hl. cbn.
  assert (Hc : small_size (capacity c)).
  { rewrite last_lookup in Hl. exact (Forall_lookup_1 _ _ _ _ Hcaps Hl). }
  assert (Hoff : small_size (current_offset_ a)) by (unfold small_size in *; lia).
  destruct (align_up_bounds _ k Hoff Hk) as [Hb Hdiv].
  pose proof (Z.pow_le_mono_r 2 k 32 ltac:(lia) ltac:(lia)).
  pose proof (Z.pow_pos_nonneg 2 k ltac:(lia) ltac:(lia)).
  unfold small_size in *. rewrite (u64_small (_ + size)) by width_lia.
  destruct (Z.ltb_spec (capacity c) (align_up (current_offset_ a) (2 ^ k) + size)) as [Hfull|Hfit].
  - unfold allocate_new_chunk. destruct (malloc_ok _ _); [|done]. cbn. intros [= <- <-].
    rewrite (u64_small (size + 2 ^ k)) by width_lia. rewrite (u64_small (0 + size)) by width_lia.
    rewrite length_app. cbn. eexists. split; [done|].
    replace (pred (length (chunks_ a) + 1)) with (length (chunks_ a)) by lia.
    split; [split; cbn; [done| |]|].
    + rewrite last_snoc. eexists. split; [done|]. cbn. lia.
    + apply Forall_app. split; [done|]. repeat constructor; cbn; lia.
    + split; [apply Z.divide_0_r|]. split; [left; cbn; destruct (chunks_ a); [done|cbn; lia]|].
      split; [unfold frontier, ptr_add; cbn; rewrite length_app; cbn; f_equal; lia|]. split; [|split].
      * eexists. cbn. rewrite lookup_app_r, Nat.sub_diag by lia. split; [done|]. cbn. lia.
      * intros r n (d & Hd & ?). exists d. cbn. by rewrite lookup_app_l by (by eapply lookup_lt_Some).
      * intros r n Hr. unfold mem_read. cbn. by rewrite lookup_app_l by done.
  - intros [= <- <-]. cbn. eexists. split; [done|].
    split; [split; cbn; [done| |done]|].
    + exists c. split; [done|]. rewrite u64_small by width_lia. lia.
    + split; [done|]. split; [right; cbn; split; [done|lia]|].
      split; [unfold frontier, ptr_add; cbn; rewrite u64_small by width_lia; done|].
      split; [|done]. exists c. cbn. rewrite last_lookup in Hl. split; [done|]. lia.
Qed.
End alloc.

Lemma reset_inv a : arena_inv a -> arena_inv (reset a) /\ (num_chunks (reset a) = 1)%nat.
Proof.
  intros [Hcs (c & Hl & Ho) Hcaps]. destruct (chunks_ a) as [|d l] eqn:E; [done|].
  unfold reset, num_chunks. rewrite E. cbn. split; [|done]. split; cbn; rewrite ?E; [done| |].
  - eexists. split; [done|]. inversion Hcaps as [|? ? Hd]. unfold small_size in Hd. lia.
  - apply Forall_cons_1 in Hcaps as [? _]. constructor; [done|constructor].
Qed.

(** ** Properties *)

Section sequences.
Context `{malloc : Malloc}.

Lemma allocate_total a size alignment : arena_inv a ->
  allocate a size alignment = Throw bad_alloc \/ exists r, allocate a size alignment = Ret r.
Proof.
  intros [_ (c & Hl & _) _]. unfold allocate. destruct (size =? 0); [right; eauto|]. rewrite Hl. outcome_simpl.
  destruct (_ <? _); [|right; eauto]. unfold allocate_new_chunk. destruct (malloc_ok _ _); [right|left]; cbn; eauto.
Qed.

(** The blocks of a sequence of requests. *)
Fixpoint allocate_all (a : Arena) (sizes : list Z) (alignment : Z) : outcome (list Ptr * Arena) :=
  match sizes with
  | [] => Ret ([], a)
  | size :: sizes =>
      res ← allocate a size alignment;
      match fst res with
      | None => Throw bad_alloc
      | Some p => rest ← allocate_all (snd res) sizes alignment; Ret (p :: fst rest, snd rest)
      end
  end.

Lemma ptr_le_disjoint p n q m : ptr_le (ptr_add p n) q -> disjoint_blocks p n q m.
Proof. unfold ptr_le, disjoint_blocks, ptr_add. cbn. lia. Qed.

Lemma allocate_all_spec k sizes : 0 <= k <= 32 -> Forall (fun n => 0 < n < 2 ^ 61) sizes -> forall a, arena_inv a ->
  allocate_all a sizes (2 ^ k) = Throw bad_alloc \/
  exists ps a', allocate_all a sizes (2 ^ k) = Ret (ps, a') /\ arena_inv a' /\
    Forall2 (fun p n => block_valid a' p n /\ (2 ^ k | snd p) /\ ptr_le (frontier a) p) ps sizes /\
    ForallOrdPairs (fun b b' => ptr_le (ptr_add (fst b) (snd b)) (fst b')) (zip ps sizes) /\
    (forall p n, block_valid a p n -> block_valid a' p n).
Proof.
  intros Hk. induction sizes as [|n sizes IH]; intros Hs a Ha; cbn [allocate_all].
  { right. exists [], a. repeat (split; [done || constructor|]). done. }
  apply Forall_cons in Hs as [Hn Hs].
  destruct (allocate_total a n (2 ^ k) Ha) as [->|[[p a1] E]]; [by left|]. rewrite E. outcome_simpl. cbn [fst snd].
  destruct (allocate_spec a n k p a1 Ha Hn Hk E) as (q & -> & Ha1 & Hal & Hfr & Hfr1 & Hv & Hkeep & _).
  destruct (IH Hs a1 Ha1) as [->|(ps & a' & -> & Ha' & Hall & Hord & Hkeep')]; [by left|right]. outcome_simpl. cbn [fst snd].
  assert (Htrans : forall x, ptr_le (frontier a1) x -> ptr_le (ptr_add q n) x) by (rewrite Hfr1; done).
  exists (q :: ps), a'. split; [done|]. split; [done|]. split; [|split; [|auto]].
  - constructor; [auto|]. eapply Forall2_impl; [exact Hall|]. intros x m (? & ? & Hx). split; [done|]. split; [done|].
    apply Htrans in Hx. unfold ptr_le, ptr_add in *. cbn in *. lia.
  - constructor; [|done]. apply Forall_forall. intros [x m] Hx%elem_of_zip_l.
    apply list_elem_of_lookup in Hx as [i Hi]. destruct (Forall2_lookup_l _ _ _ _ _ Hall Hi) as (m' & _ & _ & _ & Hx).
    cbn. by apply Htrans.
Qed.

(** C30: Memory safety of the allocator: the blocks handed out by a new arena for
    any sequence of requests — of any sizes, across chunk boundaries, whatever
    [malloc] answers — are aligned, lie inside a chunk and share no byte;
    the only failure is [bad_alloc]. *)
Theorem blocks_disjoint csz k sizes a : 0 < csz < 2 ^ 62 -> Arena_new csz = Ret a -> 0 <= k <= 32 ->
  Forall (fun n => 0 < n < 2 ^ 61) sizes ->
  allocate_all a sizes (2 ^ k) = Throw bad_alloc \/
  exists ps a', allocate_all a sizes (2 ^ k) = Ret (ps, a') /\
    Forall2 (fun p n => block_valid a' p n /\ (2 ^ k | snd p)) ps sizes /\
    ForallOrdPairs (fun b b' => disjoint_blocks (fst b) (snd b) (fst b') (snd b')) (zip ps sizes).
Proof.
  intros Hc Hnew Hk Hs. pose proof (Arena_new_inv csz a Hc Hnew) as Ha.
  destruct (allocate_all_spec k sizes Hk Hs a Ha) as [?|(ps & a' & H & _ & Hall & Hord & _)]; [by left|right].
  exists ps, a'. split; [done|]. split.
  - eapply Forall2_impl; [exact Hall|]. by intros p n (? & ? & _).
  - clear -Hord. induction Hord as [|b l Hb Hord IH]; constructor; [|done].
    eapply Forall_impl; [exact Hb|]. intros b'. apply ptr_le_disjoint.
Qed.
End sequences.

Lemma blocks_disjoint_witness : let malloc_ok : Malloc := fun _ _ => true in
  exists a, Arena_new 64 = Ret a /\
  (allocate_all a [40; 30; 100] (2 ^ 3) = Throw bad_alloc \/
  exists ps a', allocate_all a [40; 30; 100] (2 ^ 3) = Ret (ps, a') /\
    Forall2 (fun p n => block_valid a' p n /\ (2 ^ 3 | snd p)) ps [40; 30; 100] /\
    ForallOrdPairs (fun b b' => disjoint_blocks (fst b) (snd b) (fst b') (snd b')) (zip ps [40; 30; 100])).
Proof.
  eexists. split; [reflexivity|].
  refine (@blocks_disjoint _ 64 3 [40; 30; 100] _ _ _ _ _); [lia|reflexivity|lia|repeat (constructor; [lia|]); constructor].
Defined.
