(* ===== verification/BPTree.v ===== *)
(** * index/bptree.{h,cpp}: the B+ tree, as the code builds it

    Nodes live in [node_pool_] and are named by their index there, so that
    [next], [prev], [parent] and the children are pointers as in the source;
    [keys], [children] and [row_ids] are arrays of the declared size whose
    first [num_keys] slots are live. This file holds the operations; the
    representation invariant and the proofs are in BPTreeRep and BPTreeInsert. *)

From Stdlib Require Import ZArith Lia.
From stdpp Require Import base strings gmap numbers list list_numbers.
From S2P Require Import Prelude Cpp Common.
Open Scope Z_scope.

Definition ORDER : nat := BPTREE_ORDER.
Definition MIN_KEYS : nat := (ORDER - 1) / 2.

Record Node := mkNode {
  is_leaf : bool;
  num_keys : nat;
  keys : list Value;              (* Value keys[ORDER] *)
  children : list (option nat);   (* Node* children[ORDER + 1] *)
  row_ids : list Z;               (* uint64_t row_ids[ORDER] *)
  next : option nat;
  prev : option nat;
  parent : option nat;
}.

Record BPTree := mkBPTree {
  key_type_ : DataType;
  root_ : option nat;
  leftmost_leaf_ : option nat;
  size_ : Z;                      (* uint64_t *)
  height_ : Z;                    (* uint32_t *)
  node_pool_ : list Node;
}.

(** [Node(leaf)]. *)
Definition Node_new (leaf : bool) : Node :=
  mkNode leaf 0 (replicate ORDER Value_default) (replicate (S ORDER) None) (replicate ORDER 0) None None None.

Definition with_num_keys (n : nat) (nd : Node) : Node :=
  mkNode (is_leaf nd) n (keys nd) (children nd) (row_ids nd) (next nd) (prev nd) (parent nd).
Definition with_keys (ks : list Value) (nd : Node) : Node :=
  mkNode (is_leaf nd) (num_keys nd) ks (children nd) (row_ids nd) (next nd) (prev nd) (parent nd).
Definition with_children (cs : list (option nat)) (nd : Node) : Node :=
  mkNode (is_leaf nd) (num_keys nd) (keys nd) cs (row_ids nd) (next nd) (prev nd) (parent nd).
Definition with_row_ids (rs : list Z) (nd : Node) : Node :=
  mkNode (is_leaf nd) (num_keys nd) (keys nd) (children nd) rs (next nd) (prev nd) (parent nd).
Definition with_next (p : option nat) (nd : Node) : Node :=
  mkNode (is_leaf nd) (num_keys nd) (keys nd) (children nd) (row_ids nd) p (prev nd) (parent nd).
Definition with_prev (p : option nat) (nd : Node) : Node :=
  mkNode (is_leaf nd) (num_keys nd) (keys nd) (children nd) (row_ids nd) (next nd) p (parent nd).
Definition with_parent (p : option nat) (nd : Node) : Node :=
  mkNode (is_leaf nd) (num_keys nd) (keys nd) (children nd) (row_ids nd) (next nd) (prev nd) p.

Definition with_pool (pool : list Node) (t : BPTree) : BPTree :=
  mkBPTree (key_type_ t) (root_ t) (leftmost_leaf_ t) (size_ t) (height_ t) pool.

(** ** Arrays and the pool: out-of-range accesses are undefined *)

Definition arr_set {A} (l : list A) (i : nat) (x : A) : outcome (list A) :=
  if (i <? length l)%nat then Ret (<[i := x]> l) else Undef.

(** [for (i = from; cnt times; i--) l[i] = l[i-1];] *)
Fixpoint shift_right {A} (cnt from : nat) (l : list A) : outcome (list A) :=
  match cnt with
  | O => Ret l
  | S cnt =>
      x ← deref (l !! (from - 1)%nat);
      l ← arr_set l from x;
      shift_right cnt (from - 1) l
  end.

(** [for (i = 0; i < cnt; i++) dst[i] = src[off + i];], from iteration [i]. *)
Fixpoint copy_from {A} (cnt i off : nat) (src dst : list A) : outcome (list A) :=
  match cnt with
  | O => Ret dst
  | S cnt =>
      x ← deref (src !! (off + i)%nat);
      dst ← arr_set dst i x;
      copy_from cnt (S i) off src dst
  end.

(** [p->f = ...] *)
Definition update_node (pool : list Node) (p : nat) (f : Node -> Node) : outcome (list Node) :=
  nd ← deref (pool !! p); Ret (<[p := f nd]> pool).

(** [for (c : cs) if (c) c->parent = p;] *)
Fixpoint set_parents (pool : list Node) (p : nat) (cs : list (option nat)) : outcome (list Node) :=
  match cs with
  | [] => Ret pool
  | None :: cs => set_parents pool p cs
  | Some c :: cs => pool ← update_node pool c (with_parent (Some p)); set_parents pool p cs
  end.

(** ** Operations *)

(** The node is taken to get its memory; IndexMemory has the case where it does
    not. *)
Definition alloc_node (t : BPTree) (leaf : bool) : BPTree * nat :=
  (with_pool (node_pool_ t ++ [Node_new leaf]) t, length (node_pool_ t)).

(** [BPTree(key_type)]. *)
Definition BPTree_new (key_type : DataType) : BPTree :=
  let t := mkBPTree key_type None None 0 0 [] in
  let '(t, root) := alloc_node t true in
  mkBPTree key_type (Some root) (Some root) 0 1 (node_pool_ t).

Fixpoint lower_bound_loop (fuel : nat) (nd : Node) (key : Value) (lo hi : nat) : outcome nat :=
  match fuel with
  | O => Diverge
  | S fuel =>
      if (lo <? hi)%nat then
        let mid := ((lo + hi) / 2)%nat in
        k ← deref (keys nd !! mid);
        if value_ltb k key then lower_bound_loop fuel nd key (mid + 1) hi
        else lower_bound_loop fuel nd key lo mid
      else Ret lo
  end.

Definition lower_bound (nd : Node) (key : Value) : outcome nat :=
  lower_bound_loop (S (num_keys nd)) nd key 0 (num_keys nd).

Fixpoint find_leaf_loop (fuel : nat) (pool : list Node) (key : Value) (cur : option nat) : outcome (option nat) :=
  match fuel with
  | O => Diverge
  | S fuel =>
      match cur with
      | None => Ret None
      | Some p =>
          nd ← deref (pool !! p);
          if is_leaf nd then Ret (Some p) else
          idx ← lower_bound nd key;
          if (idx =? num_keys nd)%nat then
            c ← deref (children nd !! idx); find_leaf_loop fuel pool key c
          else
            k ← deref (keys nd !! idx);
            if value_eqb k key then
              c ← deref (children nd !! (idx + 1)%nat); find_leaf_loop fuel pool key c
            else
              c ← deref (children nd !! idx); find_leaf_loop fuel pool key c
      end
  end.

Definition find_leaf (t : BPTree) (key : Value) : outcome (option nat) :=
  find_leaf_loop (S (length (node_pool_ t))) (node_pool_ t) key (root_ t).

(** The search for [left] among the children of its parent. *)
Fixpoint find_child (cnt : nat) (cs : list (option nat)) (left pos : nat) : outcome nat :=
  match cnt with
  | O => Ret pos
  | S cnt =>
      c ← deref (cs !! pos);
      if bool_decide (c = Some left) then Ret pos else find_child cnt cs left (S pos)
  end.

Fixpoint insert_into_parent (fuel : nat) (t : BPTree) (left : nat) (key : Value) (right : nat) : outcome BPTree :=
  match fuel with
  | O => Diverge
  | S fuel =>
      if bool_decide (Some left = root_ t) then
        let '(t, new_root) := alloc_node t false in
        r ← deref (node_pool_ t !! new_root);
        ks ← arr_set (keys r) 0 key;
        cs ← arr_set (children r) 0 (Some left);
        cs ← arr_set cs 1 (Some right);
        pool ← update_node (node_pool_ t) new_root
                 (fun nd => with_num_keys 1 (with_children cs (with_keys ks nd)));
        pool ← update_node pool left (with_parent (Some new_root));
        pool ← update_node pool right (with_parent (Some new_root));
        Ret (mkBPTree (key_type_ t) (Some new_root) (leftmost_leaf_ t) (size_ t) (u32 (height_ t + 1)) pool)
      else
        lnd ← deref (node_pool_ t !! left);
        par ← deref (parent lnd);
        pool ← update_node (node_pool_ t) right (with_parent (Some par));
        pnd ← deref (pool !! par);
        let n := num_keys pnd in
        pos ← find_child (S n) (children pnd) left 0;
        ks ← shift_right (n - pos) n (keys pnd);
        cs ← shift_right (n - pos) (S n) (children pnd);
        ks ← arr_set ks pos key;
        cs ← arr_set cs (S pos) (Some right);
        pool ← update_node pool par (fun nd => with_num_keys (S n) (with_children cs (with_keys ks nd)));
        let t := with_pool pool t in
        if (ORDER <=? S n)%nat then split_internal fuel t par else Ret t
  end
with split_internal (fuel : nat) (t : BPTree) (node : nat) : outcome BPTree :=
  match fuel with
  | O => Diverge
  | S fuel =>
      let '(t, new_node) := alloc_node t false in
      nd ← deref (node_pool_ t !! node);
      nn ← deref (node_pool_ t !! new_node);
      let mid := (num_keys nd / 2)%nat in
      promote_key ← deref (keys nd !! mid);
      let n' := (num_keys nd - mid - 1)%nat in
      ks ← copy_from n' 0 (mid + 1) (keys nd) (keys nn);
      cs ← copy_from (S n') 0 (mid + 1) (children nd) (children nn);
      pool ← update_node (node_pool_ t) new_node
               (fun nd => with_num_keys n' (with_children cs (with_keys ks nd)));
      pool ← set_parents pool new_node (take (S n') cs);
      pool ← update_node pool node (with_num_keys mid);
      insert_into_parent fuel (with_pool pool t) node promote_key new_node
  end.

(** Two calls per level of the tree. *)
Definition split_fuel (t : BPTree) : nat := 2 * length (node_pool_ t) + 2.

Definition split_leaf (t : BPTree) (leaf : nat) : outcome BPTree :=
  let '(t, new_leaf) := alloc_node t true in
  nd ← deref (node_pool_ t !! leaf);
  nn ← deref (node_pool_ t !! new_leaf);
  let mid := (num_keys nd / 2)%nat in
  let n' := (num_keys nd - mid)%nat in
  ks ← copy_from n' 0 mid (keys nd) (keys nn);
  rs ← copy_from n' 0 mid (row_ids nd) (row_ids nn);
  pool ← update_node (node_pool_ t) new_leaf
           (fun x => with_prev (Some leaf) (with_next (next nd)
              (with_num_keys n' (with_row_ids rs (with_keys ks x)))));
  pool ← (match next nd with
          | Some q => update_node pool q (with_prev (Some new_leaf))
          | None => Ret pool
          end);
  pool ← update_node pool leaf (fun x => with_next (Some new_leaf) (with_num_keys mid x));
  k0 ← deref (ks !! 0%nat);
  insert_into_parent (split_fuel t) (with_pool pool t) leaf k0 new_leaf.

(** [insert], once the leaf is known. *)
Definition leaf_insert (t : BPTree) (p : nat) (key : Value) (row_id : Z) : outcome (bool * BPTree) :=
  nd ← deref (node_pool_ t !! p);
  pos ← lower_bound nd key;
  let n := num_keys nd in
  dup ← (if (pos <? n)%nat then k ← deref (keys nd !! pos); Ret (value_eqb k key) else Ret false);
  if (dup : bool) then
    rs ← arr_set (row_ids nd) pos row_id;
    pool ← update_node (node_pool_ t) p (with_row_ids rs);
    Ret (true, with_pool pool t)
  else
    ks ← shift_right (n - pos) n (keys nd);
    rs ← shift_right (n - pos) n (row_ids nd);
    ks ← arr_set ks pos key;
    rs ← arr_set rs pos row_id;
    pool ← update_node (node_pool_ t) p (fun x => with_num_keys (S n) (with_row_ids rs (with_keys ks x)));
    let t := mkBPTree (key_type_ t) (root_ t) (leftmost_leaf_ t) (u64 (size_ t + 1)) (height_ t) pool in
    if (ORDER <=? S n)%nat then t ← split_leaf t p; Ret (true, t) else Ret (true, t).

(** [insert(key, row_id)]; the boolean is the return value. *)
Definition insert (t : BPTree) (key : Value) (row_id : Z) : outcome (bool * BPTree) :=
  leaf ← find_leaf t key;
  match leaf with
  | None => Ret (false, t)
  | Some p => leaf_insert t p key row_id
  end.

(** [find(key)]: the row id as [int64_t], or -1. *)
Definition find (t : BPTree) (key : Value) : outcome Z :=
  leaf ← find_leaf t key;
  match leaf with
  | None => Ret (-1)
  | Some p =>
      nd ← deref (node_pool_ t !! p);
      pos ← lower_bound nd key;
      if (pos <? num_keys nd)%nat then
        k ← deref (keys nd !! pos);
        if value_eqb k key then r ← deref (row_ids nd !! pos); Ret (s64 r) else Ret (-1)
      else Ret (-1)
  end.

(** ** Range scans

    A callback updates the caller's state and says whether to go on; the body
    of a scan loop does the same with the key and row id of a slot. *)

Section scans.
Context {S : Type}.
Implicit Type cb : S -> Z -> outcome (S * bool).
Implicit Type body : Value -> Z -> S -> outcome (S * bool).

(** [for (i = pos; i < num_keys; i++) body(i)], [cnt] iterations left. *)
Fixpoint leaf_loop body (cnt i : nat) (nd : Node) (s : S) : outcome (S * bool) :=
  match cnt with
  | O => Ret (s, true)
  | Datatypes.S cnt =>
      k ← deref (keys nd !! i);
      r ← deref (row_ids nd !! i);
      res ← body k r s;
      if snd res : bool then leaf_loop body cnt (Datatypes.S i) nd (fst res) else Ret (fst res, false)
  end.

(** [while (leaf) { ...; leaf = leaf->next; pos = 0; }] *)
Fixpoint chain_loop body (fuel : nat) (pool : list Node) (leaf : option nat) (pos : nat) (s : S) : outcome S :=
  match fuel with
  | O => Diverge
  | Datatypes.S fuel =>
      match leaf with
      | None => Ret s
      | Some p =>
          nd ← deref (pool !! p);
          res ← leaf_loop body (num_keys nd - pos) pos nd s;
          if snd res : bool then chain_loop body fuel pool (next nd) 0 (fst res) else Ret (fst res)
      end
  end.

Definition scan_from body (t : BPTree) (leaf : option nat) (pos : nat) (s : S) : outcome S :=
  chain_loop body (Datatypes.S (length (node_pool_ t))) (node_pool_ t) leaf pos s.

Definition range_eq cb (t : BPTree) (key : Value) (s : S) : outcome S :=
  leaf ← find_leaf t key;
  match leaf with
  | None => Ret s
  | Some p =>
      nd ← deref (node_pool_ t !! p);
      pos ← lower_bound nd key;
      if (pos <? num_keys nd)%nat then
        k ← deref (keys nd !! pos);
        if value_eqb k key then r ← deref (row_ids nd !! pos); res ← cb s r; Ret (fst res) else Ret s
      else Ret s
  end.

Definition range_gt cb (t : BPTree) (key : Value) (s : S) : outcome S :=
  leaf ← find_leaf t key;
  match leaf with
  | None => Ret s
  | Some p =>
      nd ← deref (node_pool_ t !! p);
      pos ← lower_bound nd key;
      scan_from (fun k r s => if value_gtb k key then cb s r else Ret (s, true)) t (Some p) pos s
  end.

Definition range_ge cb (t : BPTree) (key : Value) (s : S) : outcome S :=
  leaf ← find_leaf t key;
  match leaf with
  | None => Ret s
  | Some p =>
      nd ← deref (node_pool_ t !! p);
      pos ← lower_bound nd key;
      scan_from (fun k r s => cb s r) t (Some p) pos s
  end.

Definition range_lt cb (t : BPTree) (key : Value) (s : S) : outcome S :=
  scan_from (fun k r s => if value_geb k key then Ret (s, false) else cb s r) t (leftmost_leaf_ t) 0 s.

Definition range_le cb (t : BPTree) (key : Value) (s : S) : outcome S :=
  scan_from (fun k r s => if value_gtb k key then Ret (s, false) else cb s r) t (leftmost_leaf_ t) 0 s.

Definition range_ne cb (t : BPTree) (key : Value) (s : S) : outcome S :=
  scan_from (fun k r s => if negb (value_eqb k key) then cb s r else Ret (s, true)) t (leftmost_leaf_ t) 0 s.

Definition scan_all cb (t : BPTree) (s : S) : outcome S :=
  scan_from (fun k r s => cb s r) t (leftmost_leaf_ t) 0 s.
End scans.

#[global] Arguments lower_bound : simpl never.
#[global] Arguments find_leaf : simpl never.
#[global] Arguments split_leaf : simpl never.
#[global] Arguments scan_from : simpl never.
#[global] Arguments ORDER : simpl never.
#[global] Arguments MIN_KEYS : simpl never.
