(* ===== verification/BPTreeRep.v ===== *)
(** * The representation of a B+ tree, and the read-only operations

    Array loops as list operations, the representation predicate [rep] of a
    subtree (shape, occupancy, key ranges, parent pointers, disjoint
    footprint) and the leaf chain; then [lower_bound], [find_leaf], [find] and
    the range scans are proved to compute what the sorted list of entries
    says. *)

From Stdlib Require Import ZArith Lia Sorting.Sorted.
From stdpp Require Import base strings gmap numbers list list_numbers.
From S2P Require Import Prelude Cpp Common BPTree.

Local Open Scope list_scope.
Local Open Scope nat_scope.

Abbreviation entry := (Value * Z)%type.

(** Strict order on keys, as a relation. *)
Definition klt (a b : Value) : Prop := value_ltb a b = true.
Definition ent_lt (a b : entry) : Prop := klt a.1 b.1.

(** ** Arrays *)

Lemma arr_set_Ret {A} (l : list A) i x : i < length l -> arr_set l i x = Ret (<[i := x]> l).
Proof. intros. unfold arr_set. by rewrite (proj2 (Nat.ltb_lt _ _)). Qed.

Lemma shift_right_spec {A} cnt : forall from (l : list A), cnt <= from < length l ->
  exists l', shift_right cnt from l = Ret l' /\ length l' = length l /\
    forall i, l' !! i = if decide (from - cnt < i <= from) then l !! (i - 1) else l !! i.
Proof.
  induction cnt as [|cnt IH]; intros from l Hl; cbn [shift_right].
  - exists l. split; [done|]. split; [done|]. intros i. by rewrite decide_False by lia.
  - destruct (lookup_lt_is_Some_2 l (from - 1)) as [x Hx]; [lia|]. rewrite Hx. cbn.
    rewrite arr_set_Ret by lia. cbn.
    destruct (IH (from - 1) (<[from := x]> l)) as (l' & -> & Hlen & Hi); [rewrite length_insert; lia|].
    exists l'. split; [done|]. rewrite length_insert in Hlen. split; [done|].
    intros i. rewrite Hi. repeat case_decide; try lia.
    + rewrite list_lookup_insert_ne by lia. done.
    + destruct (decide (i = from)) as [->|].
      * rewrite list_lookup_insert_eq by lia. done.
      * lia.
    + rewrite list_lookup_insert_ne by lia. done.
Qed.

(** Insertion of [x] at [pos] into the live prefix of length [n]. *)
Lemma shift_insert {A} n pos (l : list A) x : pos <= n -> n < length l ->
  exists l1 l2, shift_right (n - pos) n l = Ret l1 /\ arr_set l1 pos x = Ret l2 /\
    length l2 = length l /\ take (S n) l2 = take pos (take n l) ++ x :: drop pos (take n l).
Proof.
  intros Hp Hn. destruct (shift_right_spec (n - pos) n l) as (l1 & H1 & Hlen & Hi); [lia|].
  exists l1, (<[pos := x]> l1). rewrite arr_set_Ret by lia. rewrite length_insert.
  split; [done|]. split; [done|]. split; [done|]. apply list_eq. intros i.
  destruct (decide (i < S n)) as [Hlt|Hge]; cycle 1.
  { rewrite !lookup_ge_None_2; [done|rewrite length_app, !length_take; cbn; rewrite length_drop, length_take; lia
      |rewrite length_take, length_insert; lia]. }
  rewrite lookup_take_lt by lia.
  destruct (decide (i = pos)) as [->|Hne].
  - rewrite list_lookup_insert_eq by lia. rewrite take_take, lookup_app_r by (rewrite length_take; lia).
    rewrite length_take. replace (pos - Nat.min (Nat.min pos n) (length l)) with 0 by lia. done.
  - rewrite list_lookup_insert_ne by done. rewrite Hi.
    destruct (decide (i < pos)).
    + rewrite decide_False by lia. rewrite take_take, lookup_app_l by (rewrite length_take; lia).
      by rewrite lookup_take_lt by lia.
    + rewrite decide_True by lia. rewrite take_take, lookup_app_r by (rewrite length_take; lia).
      rewrite length_take. rewrite lookup_cons_ne_0 by lia.
      rewrite lookup_drop, lookup_take_lt by lia. f_equal. lia.
Qed.

Lemma copy_from_spec {A} cnt : forall i off (src dst : list A),
  off + i + cnt <= length src -> i + cnt <= length dst ->
  exists dst', copy_from cnt i off src dst = Ret dst' /\ length dst' = length dst /\
    forall j, dst' !! j = if decide (i <= j < i + cnt) then src !! (off + j) else dst !! j.
Proof.
  induction cnt as [|cnt IH]; intros i off src dst Hs Hd; cbn [copy_from].
  - exists dst. split; [done|]. split; [done|]. intros j. by rewrite decide_False by lia.
  - destruct (lookup_lt_is_Some_2 src (off + i)) as [x Hx]; [lia|]. rewrite Hx. cbn.
    rewrite arr_set_Ret by lia. cbn.
    destruct (IH (S i) off src (<[i := x]> dst)) as (d & -> & Hlen & Hj);
      [lia|rewrite length_insert; lia|].
    exists d. rewrite length_insert in Hlen. split; [done|]. split; [done|]. intros j. rewrite Hj.
    destruct (decide (j = i)) as [->|].
    + rewrite decide_False, decide_True by lia. by rewrite list_lookup_insert_eq by lia.
    + repeat case_decide; try lia; [done|]. by rewrite list_lookup_insert_ne by lia.
Qed.

Lemma copy_from_take {A} cnt off (src dst : list A) :
  off + cnt <= length src -> cnt <= length dst ->
  exists dst', copy_from cnt 0 off src dst = Ret dst' /\ length dst' = length dst /\
    take cnt dst' = take cnt (drop off src).
Proof.
  intros Hs Hd. destruct (copy_from_spec cnt 0 off src dst) as (d & H & Hlen & Hj); [lia|lia|].
  exists d. split; [done|]. split; [done|]. apply list_eq. intros i.
  destruct (decide (i < cnt)).
  - rewrite !lookup_take_lt by lia. rewrite Hj, decide_True by lia. by rewrite lookup_drop.
  - rewrite !lookup_ge_None_2; [done|..]; rewrite length_take; rewrite ?length_drop; lia.
Qed.

Lemma find_child_spec (addrs : list nat) cs left i : forall cnt pos,
  take (length addrs) (drop pos cs) = Some <$> addrs -> NoDup addrs -> addrs !! i = Some left ->
  length addrs <= cnt -> find_child cnt cs left pos = Ret (pos + i).
Proof.
  revert i. induction addrs as [|a addrs IH]; intros i cnt pos Hcs Hnd Hi Hcnt; [done|].
  destruct cnt as [|cnt]; [cbn in Hcnt; lia|]. cbn [find_child].
  apply NoDup_cons in Hnd as [Ha Hnd].
  destruct (drop pos cs) as [|c cs'] eqn:E; [done|]. cbn in Hcs. injection Hcs as -> Hcs.
  assert (Hc : cs !! pos = Some (Some a)).
  { rewrite <- (Nat.add_0_r pos), <- lookup_drop, E. done. }
  assert (E' : drop (S pos) cs = cs') by (rewrite <- drop_drop, E || (replace (S pos) with (pos + 1) by lia; rewrite <- drop_drop, E); done).
  rewrite Hc. cbn. destruct i as [|i]; cbn in Hi.
  - injection Hi as ->. rewrite bool_decide_true by done. f_equal. lia.
  - rewrite bool_decide_false by (intros [= ->]; apply Ha, list_elem_of_lookup; eauto).
    rewrite (IH i); [f_equal; lia|by rewrite E'|done|done|cbn in Hcnt; lia].
Qed.

(** ** Nodes up to the [prev] link (no operation reads it) *)

Definition heq (h h' : list Node) (a : nat) : Prop :=
  exists nd nd', h !! a = Some nd /\ h' !! a = Some nd' /\ with_prev None nd' = with_prev None nd.

Lemma eqp_fields nd nd' : with_prev None nd' = with_prev None nd ->
  is_leaf nd' = is_leaf nd /\ num_keys nd' = num_keys nd /\ keys nd' = keys nd /\
  children nd' = children nd /\ row_ids nd' = row_ids nd /\ next nd' = next nd /\ parent nd' = parent nd.
Proof. unfold with_prev. intros [= -> -> -> -> -> -> ->]. done. Qed.

Lemma heq_refl h a : is_Some (h !! a) -> heq h h a.
Proof. intros [nd H]. by exists nd, nd. Qed.

Lemma heq_trans h1 h2 h3 a : heq h1 h2 a -> heq h2 h3 a -> heq h1 h3 a.
Proof.
  intros (n1 & n2 & H1 & H2 & E) (n2' & n3 & H2' & H3 & E').
  rewrite H2 in H2'. injection H2' as <-. exists n1, n3. split; [done|]. split; [done|]. by rewrite E'.
Qed.

(** ** Key ranges *)

Section rep.
Context {P : Value -> Prop} `{!KeyOrder P}.

Definition olt (lo hi : option Value) : Prop :=
  match lo, hi with Some a, Some b => klt a b | _, _ => True end.
Definition oP (o : option Value) : Prop := match o with Some k => P k | None => True end.

(** [lo <= k < hi] *)
Definition in_range (lo hi : option Value) (k : Value) : Prop :=
  match lo with Some l => value_ltb k l = false | None => True end /\
  match hi with Some h => klt k h | None => True end.

Definition key_in (lo hi : option Value) (e : entry) : Prop := P e.1 /\ in_range lo hi e.1.

Lemma in_range_widen_l lo lo' hi k : P k -> oP lo -> oP lo' ->
  olt lo' lo \/ lo' = lo -> in_range lo hi k -> lo <> None -> in_range lo' hi k.
Proof.
  intros Hk Hlo Hlo' Hlt [H1 H2] Hn. split; [|done]. destruct lo as [l|]; [|done].
  destruct lo' as [l'|]; [|done]. destruct Hlt as [Hlt|[= ->]]; [|done].
  cbn in *. destruct (value_ltb k l') eqn:E; [|done].
  pose proof (ko_trans k l' l Hk Hlo' Hlo E Hlt). congruence.
Qed.

(** ** Subtrees *)

(** What a subtree is to its parent: its root node, its entries and leaves in
    order, and all its nodes. *)
Record sub := mkSub {
  s_root : nat;
  s_entries : list entry;
  s_leaves : list nat;
  s_foot : list nat;
}.

(** The children of a node, with [ks] the separators between them: child [i]
    satisfies [R] on the range from separator [i - 1] to separator [i]. *)
Fixpoint reps (R : option Value -> option Value -> sub -> Prop) (lo : option Value)
    (ks : list Value) (ss : list sub) (hi : option Value) : Prop :=
  match ks, ss with
  | [], [s] => olt lo hi /\ R lo hi s
  | k :: ks, s :: ss => P k /\ olt lo (Some k) /\ R lo (Some k) s /\ reps R (Some k) ks ss hi
  | _, _ => False
  end.

Definition node_ok (nd : Node) : Prop :=
  length (keys nd) = ORDER /\ length (children nd) = S ORDER /\ length (row_ids nd) = ORDER.

Definition live_keys (nd : Node) : list Value := take (num_keys nd) (keys nd).
Definition node_entries (nd : Node) : list entry := zip (live_keys nd) (take (num_keys nd) (row_ids nd)).

(** The subtree [s] of height [n] in the heap [h]: its root node has the
    parent [par] and between [m] and [M] keys, every other node between
    [MIN_KEYS] and [ORDER - 1]; its keys lie in the range from [lo] to [hi]. *)
Fixpoint rep (n : nat) (h : list Node) (m M : nat) (par lo hi : option _) (s : sub) : Prop :=
  NoDup (s_foot s) /\ exists nd, h !! s_root s = Some nd /\ node_ok nd /\ parent nd = par /\
    m <= num_keys nd <= M /\ num_keys nd <= ORDER /\
    match n with
    | O =>
        is_leaf nd = true /\ s_entries s = node_entries nd /\
        StronglySorted ent_lt (s_entries s) /\ Forall (key_in lo hi) (s_entries s) /\
        s_leaves s = [s_root s] /\ s_foot s = [s_root s]
    | S n =>
        is_leaf nd = false /\ 1 <= num_keys nd /\
        exists ss, take (S (num_keys nd)) (children nd) = (Some ∘ s_root) <$> ss /\
          reps (rep n h MIN_KEYS (ORDER - 1) (Some (s_root s))) lo (live_keys nd) ss hi /\
          s_entries s = concat (s_entries <$> ss) /\
          s_leaves s = concat (s_leaves <$> ss) /\
          s_foot s = s_root s :: concat (s_foot <$> ss)
    end.

(** The leaves [ls] are linked by [next], the last one to [nx]. *)
Fixpoint chain (h : list Node) (ls : list nat) (nx : option nat) : Prop :=
  match ls with
  | [] => True
  | p :: ls => (exists nd, h !! p = Some nd /\ next nd = match ls with [] => nx | q :: _ => Some q end) /\
               chain h ls nx
  end.

(** The tree [t] holds the entries [es]. *)
Definition bptree_rep (t : BPTree) (es : list entry) : Prop :=
  exists n s, root_ t = Some (s_root s) /\
    rep n (node_pool_ t) 0 (ORDER - 1) None None None s /\
    s_entries s = es /\ chain (node_pool_ t) (s_leaves s) None /\
    leftmost_leaf_ t = head (s_leaves s) /\
    size_ t = u64 (Z.of_nat (length es)) /\ height_ t = u32 (Z.of_nat (S n)).

(** *** Structure of [reps] *)

Lemma reps_length R lo ks ss hi : reps R lo ks ss hi -> length ss = S (length ks).
Proof.
  revert lo ss. induction ks as [|k ks IH]; intros lo [|s [|s' ss]]; cbn; try done.
  - intros (_ & _ & _ & H). apply IH in H. done.
  - intros (_ & _ & _ & H). apply IH in H. cbn in H. lia.
Qed.

Lemma reps_olt R lo ks ss hi : reps R lo ks ss hi -> oP lo -> oP hi ->
  olt lo hi \/ lo = None \/ hi = None.
Proof.
  revert lo ss. induction ks as [|k ks IH]; intros lo [|s ss]; cbn; try done.
  - destruct ss; [|done]. intros [? _]. auto.
  - intros (Hk & Hlt & _ & H) Hlo Hhi. destruct (IH _ _ H Hk Hhi) as [H'|[H'|H']]; [|done|auto].
    destruct lo as [l|]; [|auto]. destruct hi as [u|]; [|auto]. left. cbn in *.
    by apply (ko_trans l k u).
Qed.

(** The separators are keys, sorted, inside the range. *)
Lemma reps_keys R lo ks ss hi : reps R lo ks ss hi -> oP lo -> oP hi ->
  StronglySorted klt ks /\ Forall P ks /\
  Forall (fun k => olt lo (Some k) /\ olt (Some k) hi) ks.
Proof.
  revert lo ss. induction ks as [|k ks IH]; intros lo [|s ss]; cbn; try done.
  - intros _ _ _. repeat constructor.
  - intros (Hk & Hlt & _ & H) Hlo Hhi. destruct (IH _ _ H Hk Hhi) as (Hs & HP & Hr).
    split; [|split].
    + constructor; [done|]. eapply Forall_impl; [exact Hr|]. by intros x [? _].
    + by constructor.
    + constructor.
      * split; [done|]. destruct (reps_olt _ _ _ _ _ H Hk Hhi) as [?|[?|Hn]]; [done|done|by rewrite Hn].
      * rewrite Forall_forall in *. intros x Hx. destruct (Hr x Hx) as [Hkx ?]. split; [|done].
        destruct lo as [l|]; [|done]. cbn in *. apply (ko_trans l k x); auto.
Qed.

Lemma reps_impl R (R' : _ -> _ -> sub -> Prop) lo ks ss hi :
  (forall a b s, s ∈ ss -> R a b s -> R' a b s) -> reps R lo ks ss hi -> reps R' lo ks ss hi.
Proof.
  revert lo ss. induction ks as [|k ks IH]; intros lo [|s ss] HR; cbn; try done.
  - destruct ss; [|done]. intros [? ?]. split; [done|]. apply HR; [set_solver|done].
  - intros (? & ? & ? & ?). split; [done|]. split; [done|]. split; [apply HR; [set_solver|done]|].
    apply IH; [|done]. intros. apply HR; [set_solver|done].
Qed.

Lemma reps_elem R lo ks ss hi s : reps R lo ks ss hi -> s ∈ ss -> exists a b, R a b s.
Proof.
  revert lo ss. induction ks as [|k ks IH]; intros lo [|s' ss]; cbn; try done.
  - destruct ss; [|done]. intros [_ H] Hs. assert (s = s') as -> by set_solver. eauto.
  - intros (_ & _ & H & Hr) Hs. assert (s = s' \/ s ∈ ss) as [Hs'|Hs'] by set_solver; subst; eauto.
Qed.

(** The range of the child between [ks1] and [ks2]. *)
Definition lo_of (lo : option Value) (ks1 : list Value) : option Value :=
  match last ks1 with Some k => Some k | None => lo end.
Definition hi_of (ks2 : list Value) (hi : option Value) : option Value :=
  match ks2 with k :: _ => Some k | [] => hi end.

Lemma lo_of_cons lo k ks : lo_of lo (k :: ks) = lo_of (Some k) ks.
Proof. unfold lo_of. rewrite last_cons. by destruct (last ks). Qed.

(** Taking the list of children apart at a child, and putting it back with
    that child replaced by one or by two. *)
Lemma reps_middle R lo ks1 ks2 ss1 s ss2 hi : length ks1 = length ss1 ->
  reps R lo (ks1 ++ ks2) (ss1 ++ s :: ss2) hi ->
  R (lo_of lo ks1) (hi_of ks2 hi) s /\ olt (lo_of lo ks1) (hi_of ks2 hi).
Proof.
  revert lo ss1. induction ks1 as [|k ks1 IH]; intros lo [|s1 ss1] Hl H; try done.
  - destruct ks2 as [|k2 ks2]; cbn in *; [destruct ss2; [|done]; naive_solver|naive_solver].
  - cbn in H. destruct H as (_ & _ & _ & H). rewrite lo_of_cons. apply (IH _ ss1); [cbn in Hl; lia|done].
Qed.

Lemma reps_replace R (R' : _ -> _ -> sub -> Prop) lo ks1 ks2 ss1 s s' ss2 hi : length ks1 = length ss1 ->
  reps R lo (ks1 ++ ks2) (ss1 ++ s :: ss2) hi ->
  (forall a b x, x ∈ ss1 ++ ss2 -> R a b x -> R' a b x) ->
  R' (lo_of lo ks1) (hi_of ks2 hi) s' ->
  reps R' lo (ks1 ++ ks2) (ss1 ++ s' :: ss2) hi.
Proof.
  revert lo ss1. induction ks1 as [|k ks1 IH]; intros lo [|s1 ss1] Hl H HR Hs'; try done.
  - destruct ks2 as [|k2 ks2]; cbn in *.
    + destruct ss2; [|done]. naive_solver.
    + destruct H as (? & ? & ? & H). split; [done|]. split; [done|]. split; [done|].
      eapply reps_impl; [|exact H]. intros. apply HR; [set_solver|done].
  - cbn in *. destruct H as (? & ? & ? & H). split; [done|]. split; [done|].
    split; [apply HR; [set_solver|done]|]. rewrite lo_of_cons in Hs'.
    apply IH; [lia|done|intros; apply HR; [set_solver|done]|done].
Qed.

Lemma reps_split2 R (R' : _ -> _ -> sub -> Prop) lo ks1 ks2 ss1 s k sl sr ss2 hi : length ks1 = length ss1 ->
  reps R lo (ks1 ++ ks2) (ss1 ++ s :: ss2) hi ->
  (forall a b x, x ∈ ss1 ++ ss2 -> R a b x -> R' a b x) ->
  P k -> olt (lo_of lo ks1) (Some k) -> olt (Some k) (hi_of ks2 hi) ->
  R' (lo_of lo ks1) (Some k) sl -> R' (Some k) (hi_of ks2 hi) sr ->
  reps R' lo (ks1 ++ k :: ks2) (ss1 ++ sl :: sr :: ss2) hi.
Proof.
  revert lo ss1. induction ks1 as [|k1 ks1 IH]; intros lo [|s1 ss1] Hl H HR Hk Hlo Hhi Hsl Hsr; try done.
  - cbn. split; [done|]. split; [done|]. split; [done|].
    destruct ks2 as [|k2 ks2]; cbn in *; [by destruct ss2|].
    destruct H as (? & ? & ? & H). split; [done|]. split; [done|]. split; [done|].
    eapply reps_impl; [|exact H]. intros. apply HR; [set_solver|done].
  - cbn in *. destruct H as (? & ? & ? & H). split; [done|]. split; [done|].
    split; [apply HR; [set_solver|done]|]. rewrite lo_of_cons in *.
    apply (IH (Some k1) ss1); try done; [lia|]. intros. apply HR; [set_solver|done].
Qed.

(** Splitting the children at the separator [k]. *)
Lemma reps_cut R lo ks1 k ks2 ss hi : reps R lo (ks1 ++ k :: ks2) ss hi ->
  exists ss1 ss2, ss = ss1 ++ ss2 /\ length ss1 = S (length ks1) /\
    reps R lo ks1 ss1 (Some k) /\ reps R (Some k) ks2 ss2 hi.
Proof.
  revert lo ss. induction ks1 as [|k1 ks1 IH]; intros lo [|s ss] H; try done.
  - cbn in H. destruct H as (? & ? & ? & H). exists [s], ss. done.
  - cbn in H. destruct H as (? & ? & ? & H). destruct (IH _ _ H) as (ss1 & ss2 & -> & Hl & ? & ?).
    exists (s :: ss1), ss2. split; [done|]. split; [cbn; lia|]. done.
Qed.

(** *** Entries are sorted and in range *)

Lemma reps_olt_Some R k ks ss hi : reps R (Some k) ks ss hi -> P k -> oP hi -> olt (Some k) hi.
Proof.
  intros H Hk Hhi. destruct (reps_olt _ _ _ _ _ H Hk Hhi) as [?|[?|Hn]]; [done|done|by rewrite Hn].
Qed.

Lemma key_in_widen_r lo k hi e : key_in lo (Some k) e -> P k -> oP hi -> olt (Some k) hi -> key_in lo hi e.
Proof.
  intros [He [H1 H2]] Hk Hhi Ho. split; [done|]. split; [done|]. destruct hi as [u|]; [|done].
  by apply (ko_trans e.1 k u).
Qed.

Lemma key_in_widen_l lo k hi e : key_in (Some k) hi e -> P k -> oP lo -> olt lo (Some k) -> key_in lo hi e.
Proof.
  intros [He Hr] Hk Hlo Ho. split; [done|]. apply (in_range_widen_l (Some k)); auto. 
Qed.

Lemma StronglySorted_ent_app (l1 l2 : list entry) :
  StronglySorted ent_lt l1 -> StronglySorted ent_lt l2 ->
  (forall x y, x ∈ l1 -> y ∈ l2 -> ent_lt x y) -> StronglySorted ent_lt (l1 ++ l2).
Proof.
  intros H1 H2 H. induction H1 as [|x l1 H1 IH Hx]; [done|]. cbn. constructor.
  - apply IH. intros. apply H; set_solver.
  - apply Forall_app. split; [done|]. apply Forall_forall. intros. apply H; set_solver.
Qed.

(** Keys below [k] come before keys from [k] on. *)
Lemma key_in_sep lo k hi x y : P k -> key_in lo (Some k) x -> key_in (Some k) hi y -> ent_lt x y.
Proof. intros Hk [Hx [_ H1]] [Hy [H2 _]]. by apply (ltb_leb_trans x.1 k y.1). Qed.

Lemma reps_entries (R : _ -> _ -> sub -> Prop) lo ks ss hi :
  (forall a b s, R a b s -> oP a -> oP b ->
     StronglySorted ent_lt (s_entries s) /\ Forall (key_in a b) (s_entries s)) ->
  reps R lo ks ss hi -> oP lo -> oP hi ->
  StronglySorted ent_lt (concat (s_entries <$> ss)) /\ Forall (key_in lo hi) (concat (s_entries <$> ss)).
Proof.
  intros HR. revert lo ss. induction ks as [|k ks IH]; intros lo [|s ss]; cbn; try done.
  - destruct ss; [|done]. intros [_ H] Hlo Hhi. cbn. rewrite app_nil_r. by apply HR.
  - intros (Hk & Hlt & H & Hr) Hlo Hhi.
    destruct (HR _ _ _ H Hlo Hk) as [Hs1 Hf1]. destruct (IH _ _ Hr Hk Hhi) as [Hs2 Hf2].
    pose proof (reps_olt_Some _ _ _ _ _ Hr Hk Hhi) as Ho.
    rewrite Forall_forall in Hf1, Hf2. split.
    + apply StronglySorted_ent_app; [done|done|]. intros x y Hx Hy. eapply key_in_sep; eauto.
    + apply Forall_app. split; apply Forall_forall; intros e He.
      * eapply key_in_widen_r; eauto.
      * eapply key_in_widen_l; eauto.
Qed.

Lemma rep_entries n : forall h m M par lo hi s, rep n h m M par lo hi s -> oP lo -> oP hi ->
  StronglySorted ent_lt (s_entries s) /\ Forall (key_in lo hi) (s_entries s).
Proof.
  induction n as [|n IH]; intros h m M par lo hi s (_ & nd & _ & _ & _ & _ & _ & H) Hlo Hhi.
  - destruct H as (_ & _ & ? & ? & _). done.
  - destruct H as (_ & _ & ss & _ & Hr & -> & _). eapply reps_entries; eauto.
Qed.

(** *** Footprints *)

Lemma rep_root_foot n h m M par lo hi s : rep n h m M par lo hi s -> s_root s ∈ s_foot s.
Proof.
  destruct n; intros (_ & nd & _ & _ & _ & _ & _ & H).
  - destruct H as (_ & _ & _ & _ & _ & ->). set_solver.
  - destruct H as (_ & _ & ss & _ & _ & _ & _ & ->). set_solver.
Qed.

Lemma elem_of_concat_fmap {A B} (f : A -> list B) (l : list A) (b : B) :
  b ∈ concat (f <$> l) <-> exists a, a ∈ l /\ b ∈ f a.
Proof. induction l as [|x l IH]; cbn; [set_solver|]. rewrite elem_of_app, IH. set_solver. Qed.

Lemma rep_foot_Some n : forall h m M par lo hi s a, rep n h m M par lo hi s ->
  a ∈ s_foot s -> is_Some (h !! a).
Proof.
  induction n as [|n IH]; intros h m M par lo hi s a (_ & nd & Hn & _ & _ & _ & _ & H) Ha.
  - destruct H as (_ & _ & _ & _ & _ & Hf). rewrite Hf in Ha. assert (a = s_root s) as -> by set_solver. eauto.
  - destruct H as (_ & _ & ss & _ & Hr & _ & _ & Hf). rewrite Hf in Ha.
    assert (a = s_root s \/ a ∈ concat (s_foot <$> ss)) as [->|Ha'] by set_solver; [eauto|].
    apply elem_of_concat_fmap in Ha' as (x & Hx & Hax).
    destruct (reps_elem _ _ _ _ _ _ Hr Hx) as (lo' & hi' & HR). eapply IH; eauto.
Qed.

Lemma rep_leaves_foot n : forall h m M par lo hi s a, rep n h m M par lo hi s ->
  a ∈ s_leaves s -> a ∈ s_foot s.
Proof.
  induction n as [|n IH]; intros h m M par lo hi s a (_ & nd & Hn & _ & _ & _ & _ & H) Ha.
  - destruct H as (_ & _ & _ & _ & Hl & Hf). by rewrite Hf, <- Hl.
  - destruct H as (_ & _ & ss & _ & Hr & _ & Hl & Hf). rewrite Hl in Ha. rewrite Hf.
    apply elem_of_concat_fmap in Ha as (x & Hx & Hax).
    destruct (reps_elem _ _ _ _ _ _ Hr Hx) as (lo' & hi' & HR).
    apply elem_of_cons. right. apply elem_of_concat_fmap. eauto.
Qed.

Lemma rep_leaves_cons n : forall h m M par lo hi s, rep n h m M par lo hi s ->
  exists p ls, s_leaves s = p :: ls.
Proof.
  induction n as [|n IH]; intros h m M par lo hi s (_ & nd & Hn & _ & _ & _ & _ & H).
  - destruct H as (_ & _ & _ & _ & Hl & _). eauto.
  - destruct H as (_ & _ & [|x ss] & _ & Hr & _ & Hl & _).
    { by apply reps_length in Hr. }
    destruct (reps_elem _ _ _ _ _ x Hr) as (lo' & hi' & HR); [set_solver|].
    destruct (IH _ _ _ _ _ _ _ HR) as (p & ls & Hp). rewrite Hl. cbn. rewrite Hp. eauto.
Qed.

Lemma concat_fmap_length {A B} (f : A -> list B) l x : x ∈ l -> length (f x) <= length (concat (f <$> l)).
Proof.
  induction l as [|y l IH]; intros Hx; [set_solver|]. cbn. rewrite length_app.
  assert (x = y \/ x ∈ l) as [->|Hx'] by set_solver; [lia|]. specialize (IH Hx'). unfold fmap in *. lia.
Qed.

Lemma rep_depth n : forall h m M par lo hi s, rep n h m M par lo hi s -> n < length (s_foot s).
Proof.
  induction n as [|n IH]; intros h m M par lo hi s (_ & nd & Hn & _ & _ & _ & _ & H).
  - destruct H as (_ & _ & _ & _ & _ & ->). cbn. lia.
  - destruct H as (_ & _ & [|x ss] & _ & Hr & _ & _ & ->).
    { by apply reps_length in Hr. }
    destruct (reps_elem _ _ _ _ _ x Hr) as (lo' & hi' & HR); [set_solver|].
    pose proof (concat_fmap_length s_foot (x :: ss) x ltac:(set_solver)). apply IH in HR.
    cbn [length]. lia.
Qed.

Lemma NoDup_bounded (l : list nat) (N : nat) : NoDup l -> (forall a, a ∈ l -> a < N) -> length l <= N.
Proof.
  intros Hnd Hb. replace N with (length (seq 0 N)) by apply length_seq.
  apply submseteq_length, NoDup_submseteq; [done|]. intros a Ha. apply elem_of_seq. specialize (Hb a Ha). lia.
Qed.

Lemma rep_depth_pool n h m M par lo hi s : rep n h m M par lo hi s -> n < length h.
Proof.
  intros H. pose proof (rep_depth _ _ _ _ _ _ _ _ H).
  assert (length (s_foot s) <= length h); [|lia]. apply NoDup_bounded.
  - destruct n; apply H.
  - intros a Ha. eapply lookup_lt_is_Some_1, rep_foot_Some; eauto.
Qed.

Lemma rep_weaken n h m m' M M' par lo hi s :
  m' <= m -> M <= M' -> rep n h m M par lo hi s -> rep n h m' M' par lo hi s.
Proof.
  intros Hm HM. destruct n; intros (Hnd & nd & ? & ? & ? & ? & ? & H);
    (split; [done|]; exists nd; repeat (split; [done || lia|]); done).
Qed.

(** *** Frame: a subtree is unaffected by changes elsewhere, and by a new
    parent for its root *)
Lemma rep_frame n : forall h h' m M par par' lo hi s, rep n h m M par lo hi s ->
  (forall a, a ∈ s_foot s -> a <> s_root s -> heq h h' a) ->
  (exists nd nd', h !! s_root s = Some nd /\ h' !! s_root s = Some nd' /\
     with_prev None nd' = with_prev None (with_parent par' nd)) ->
  rep n h' m M par' lo hi s.
Proof.
  induction n as [|n IH]; intros h h' m M par par' lo hi s (Hnd & nd & Hn & Hok & Hpar & Hm & HO & H) Hh (nd0 & nd' & Hn0 & Hn' & E);
    rewrite Hn in Hn0; injection Hn0 as <-;
    apply eqp_fields in E as (E1 & E2 & E3 & E4 & E5 & E6 & E7); cbn in *;
    split; [done| |done|]; exists nd'.
  - unfold node_ok, node_entries, live_keys in *. rewrite E1, E2, E3, E4, E5. repeat (split; [done|]). done.
  - unfold node_ok, live_keys in *. rewrite E1, E2, E3, E4, E5. repeat (split; [done|]).
    destruct H as (? & ? & ss & Hc & Hr & He & Hl & Hf). split; [done|]. split; [done|].
    exists ss. split; [done|]. split; [|done]. eapply reps_impl; [|exact Hr]. intros a b x Hx HR.
    rewrite Hf in Hnd. apply NoDup_cons in Hnd as [Hroot _].
    assert (Hall : forall c, c ∈ s_foot x -> heq h h' c).
    { intros c Hc'. assert (c ∈ concat (s_foot <$> ss)) by (apply elem_of_concat_fmap; eauto).
      apply Hh; [rewrite Hf; set_solver|intros ->; done]. }
    eapply IH; [exact HR|auto|].
    destruct (Hall (s_root x)) as (n1 & n2 & ? & ? & E); [by eapply rep_root_foot|].
    exists n1, n2. split; [done|]. split; [done|]. rewrite E.
    assert (parent n1 = Some (s_root s)) as <-.
    { destruct n; destruct HR as (_ & n3 & ? & _ & ? & _); congruence. }
    by destruct n1.
Qed.

Lemma rep_heq n h h' m M par lo hi s : rep n h m M par lo hi s ->
  (forall a, a ∈ s_foot s -> heq h h' a) -> rep n h' m M par lo hi s.
Proof.
  intros H Hh. eapply rep_frame; [exact H|auto|].
  destruct (Hh (s_root s)) as (n1 & n2 & ? & ? & E); [by eapply rep_root_foot|].
  exists n1, n2. split; [done|]. split; [done|]. rewrite E.
  assert (parent n1 = par) as <- by (destruct n; destruct H as (_ & n3 & ? & _ & ? & _); congruence).
  by destruct n1.
Qed.

(** *** Leaves *)

Definition leaf_entries (h : list Node) (p : nat) : list entry :=
  match h !! p with Some nd => node_entries nd | None => [] end.

Lemma leaf_entries_node h p nd : h !! p = Some nd -> leaf_entries h p = node_entries nd.
Proof. intros H. unfold leaf_entries. by rewrite H. Qed.

Lemma rep_leaf_entries n : forall h m M par lo hi s, rep n h m M par lo hi s ->
  s_entries s = concat (leaf_entries h <$> s_leaves s).
Proof.
  induction n as [|n IH]; intros h m M par lo hi s (_ & nd & Hn & _ & _ & _ & _ & H).
  - destruct H as (_ & -> & _ & _ & -> & _). cbn. unfold leaf_entries. by rewrite Hn, app_nil_r.
  - destruct H as (_ & _ & ss & _ & Hr & -> & -> & _).
    assert (Hx : forall x, x ∈ ss -> s_entries x = concat (leaf_entries h <$> s_leaves x)).
    { intros x Hx. destruct (reps_elem _ _ _ _ _ _ Hr Hx) as (a & b & HR). eauto. }
    clear Hr. induction ss as [|x ss IHs]; [done|]. cbn.
    rewrite fmap_app, concat_app, Hx by set_solver. f_equal. apply IHs. intros. apply Hx. set_solver.
Qed.

Lemma chain_app h l1 l2 nx : chain h (l1 ++ l2) nx <->
  chain h l1 (match l2 with [] => nx | q :: _ => Some q end) /\ chain h l2 nx.
Proof.
  induction l1 as [|p l1 IH]; cbn; [tauto|]. rewrite IH. destruct l1; cbn; tauto.
Qed.

Lemma chain_heq h h' ls nx : (forall a, a ∈ ls -> heq h h' a) -> chain h ls nx -> chain h' ls nx.
Proof.
  induction ls as [|p ls IH]; intros Hh; [done|]. intros [(nd & Hn & E) Hc]. split.
  - destruct (Hh p) as (n1 & n2 & H1 & H2 & E'); [set_solver|]. apply eqp_fields in E' as (_&_&_&_&_&E6&_).
    exists n2. split; [done|]. congruence.
  - apply IH; [|done]. intros. apply Hh. set_solver.
Qed.

(** ** Binary search *)

(** A sorted list of keys: those below [key], then the others. *)
Lemma sorted_partition key ks : StronglySorted klt ks -> Forall P ks -> P key ->
  exists A B, ks = A ++ B /\ Forall (fun k => klt k key) A /\ Forall (fun k => value_ltb k key = false) B.
Proof.
  intros Hs HP Hk. induction Hs as [|k ks Hs IH Hlt].
  - by exists [], [].
  - apply Forall_cons in HP as [HPk HP]. destruct (value_ltb k key) eqn:E.
    + destruct (IH HP) as (A & B & -> & HA & HB). exists (k :: A), B. split; [done|]. split; [by constructor|done].
    + exists [], (k :: ks). split; [done|]. split; [done|]. constructor; [done|].
      rewrite Forall_forall in *. intros x Hx. destruct (value_ltb x key) eqn:E'; [|done].
      pose proof (ko_trans k x key HPk (HP x Hx) Hk (Hlt x Hx) E'). congruence.
Qed.

Lemma lower_bound_loop_spec nd key A B : live_keys nd = A ++ B ->
  Forall (fun k => klt k key) A -> Forall (fun k => value_ltb k key = false) B ->
  forall fuel lo hi, lo <= length A <= hi -> hi <= num_keys nd -> hi - lo < fuel ->
  num_keys nd <= length (keys nd) ->
  lower_bound_loop fuel nd key lo hi = Ret (length A).
Proof.
  intros Hl HA HB. induction fuel as [|fuel IH]; intros lo hi Hlo Hhi Hf Hlen; [lia|].
  cbn [lower_bound_loop]. destruct (Nat.ltb_spec lo hi) as [Hlt|Hge]; [|f_equal; lia].
  pose proof (Nat.div_mod_eq (lo + hi) 2) as Hdm. pose proof (Nat.mod_upper_bound (lo + hi) 2).
  set (mid := (lo + hi) / 2) in *. assert (lo <= mid < hi) by lia. clearbody mid.
  destruct (lookup_lt_is_Some_2 (keys nd) mid) as [k Hk]; [lia|]. rewrite Hk. cbn.
  assert (Hk' : live_keys nd !! mid = Some k) by (unfold live_keys; rewrite lookup_take_lt by lia; done).
  rewrite Hl in Hk'. destruct (value_ltb k key) eqn:E.
  - apply IH; try lia. destruct (decide (mid < length A)); [lia|].
    rewrite lookup_app_r in Hk' by lia. rewrite Forall_forall in HB.
    rewrite HB in E; [done|]. by eapply list_elem_of_lookup_2.
  - apply IH; try lia. destruct (decide (mid < length A)) as [Hm|]; [|lia].
    rewrite lookup_app_l in Hk' by lia. rewrite Forall_forall in HA. unfold klt in HA.
    rewrite HA in E; [done|]. by eapply list_elem_of_lookup_2.
Qed.

Lemma lower_bound_spec nd key : node_ok nd -> num_keys nd <= ORDER ->
  StronglySorted klt (live_keys nd) -> Forall P (live_keys nd) -> P key ->
  exists A B, live_keys nd = A ++ B /\ Forall (fun k => klt k key) A /\
    Forall (fun k => value_ltb k key = false) B /\ lower_bound nd key = Ret (length A).
Proof.
  intros (Hk & _ & _) HO Hs HP Hkey. destruct (sorted_partition key _ Hs HP Hkey) as (A & B & E & HA & HB).
  exists A, B. split; [done|]. split; [done|]. split; [done|]. unfold lower_bound.
  apply (lower_bound_loop_spec nd key A B); try done; try lia.
  assert (length (live_keys nd) = num_keys nd) by (unfold live_keys; rewrite length_take; lia).
  rewrite E, length_app in H. lia.
Qed.

Lemma live_keys_length nd : node_ok nd -> num_keys nd <= ORDER -> length (live_keys nd) = num_keys nd.
Proof. intros (Hk & _ & _) HO. unfold live_keys. rewrite length_take. lia. Qed.

Lemma live_keys_lookup nd i k : live_keys nd !! i = Some k -> keys nd !! i = Some k.
Proof.
  unfold live_keys. intros H. apply lookup_lt_Some in H as Hl. rewrite length_take in Hl.
  by rewrite lookup_take_lt in H by lia.
Qed.

(** ** Descent *)

(** Where [find_leaf] parts the separators, and its step. *)
Lemma separator_split h s nd key : node_ok nd -> num_keys nd <= ORDER -> is_leaf nd = false -> h !! s_root s = Some nd ->
  StronglySorted klt (live_keys nd) -> Forall P (live_keys nd) -> P key ->
  exists ks1 ks2, live_keys nd = ks1 ++ ks2 /\
    Forall (fun k => value_ltb key k = false) ks1 /\ Forall (fun k => klt key k) ks2 /\
    forall fuel, find_leaf_loop (S fuel) h key (Some (s_root s)) =
      (c ← deref (children nd !! length ks1); find_leaf_loop fuel h key c).
Proof.
  intros Hok HO Hleaf Hn Hsort HP Hkey.
  destruct (lower_bound_spec nd key Hok HO Hsort HP Hkey) as (A & B & E & HA & HB & Hlb).
  pose proof (live_keys_length nd Hok HO) as Hlen.
  assert (HAP : Forall (fun k => value_ltb key k = false) A).
  { rewrite Forall_forall in *. intros k Hk. apply ltb_asym; [apply HP; rewrite E; set_solver|done|by apply HA]. }
  destruct B as [|k B].
  - exists A, []. split; [done|]. split; [done|]. split; [done|]. intros fuel.
    cbn [find_leaf_loop]. rewrite Hn. cbn. rewrite Hleaf, Hlb. cbn.
    rewrite app_nil_r in E. rewrite <- E, Hlen, Nat.eqb_refl. done.
  - assert (Hk : live_keys nd !! length A = Some k) by (rewrite E, lookup_app_r, Nat.sub_diag by lia; done).
    assert (HPk : P k) by (rewrite Forall_forall in HP; apply HP; rewrite E; set_solver).
    rewrite E in Hsort. 
    assert (HkB : Forall (klt k) B).
    { clear -Hsort. induction A as [|a A IH]; cbn in Hsort; [by apply StronglySorted_inv in Hsort as [_ ?]|].
      apply IH. by apply StronglySorted_inv in Hsort as [? _]. }
    assert (HPB : Forall P B).
    { rewrite Forall_forall in *. intros x Hx. apply HP. rewrite E. set_solver. }
    apply Forall_cons in HB as [Hkk _].
    assert (Hstep : forall fuel, find_leaf_loop (S fuel) h key (Some (s_root s)) =
      if value_eqb k key then (c ← deref (children nd !! (length A + 1)); find_leaf_loop fuel h key c)
      else (c ← deref (children nd !! length A); find_leaf_loop fuel h key c)).
    { intros fuel. cbn [find_leaf_loop]. rewrite Hn. cbn. rewrite Hleaf, Hlb. cbn.
      rewrite (proj2 (Nat.eqb_neq _ _)) by (apply lookup_lt_Some in Hk; lia).
      rewrite (live_keys_lookup _ _ _ Hk). done. }
    destruct (value_eqb k key) eqn:Eq.
    + apply (eqb_true k key HPk Hkey) in Eq as [_ Hkk'].
      exists (A ++ [k]), B. split; [by rewrite <- app_assoc|]. split; [apply Forall_app; auto|]. split.
      * rewrite Forall_forall in *. intros x Hx. unfold klt in *.
        apply (leb_ltb_trans key k x); auto.
      * intros fuel. rewrite Hstep, length_app. done.
    + assert (Hgt : klt key k).
      { unfold klt. destruct (value_ltb key k) eqn:E1; [done|].
        exfalso. assert (value_eqb k key = true) by (apply eqb_true; auto). congruence. }
      exists A, (k :: B). split; [done|]. split; [done|]. split; [|done]. constructor; [done|].
      rewrite Forall_forall in *. intros x Hx. unfold klt in *. eapply ko_trans; [..|exact Hgt|]; auto.
Qed.

(** The child [find_leaf] takes is the one whose range holds the key. *)
Lemma child_choice h n m M par lo hi s nd ss key : node_ok nd -> num_keys nd <= ORDER ->
  is_leaf nd = false -> h !! s_root s = Some nd ->
  take (S (num_keys nd)) (children nd) = (Some ∘ s_root) <$> ss ->
  reps (rep n h m M par) lo (live_keys nd) ss hi -> oP lo -> oP hi -> P key -> in_range lo hi key ->
  exists ks1 ks2 ss1 c ss2, live_keys nd = ks1 ++ ks2 /\ ss = ss1 ++ c :: ss2 /\
    length ks1 = length ss1 /\ in_range (lo_of lo ks1) (hi_of ks2 hi) key /\
    Forall (fun k => value_ltb key k = false) ks1 /\ Forall (fun k => klt key k) ks2 /\
    forall fuel, find_leaf_loop (S fuel) h key (Some (s_root s)) = find_leaf_loop fuel h key (Some (s_root c)).
Proof.
  intros Hok HO Hleaf Hn Hch Hr Hlo Hhi Hkey Hin.
  destruct (reps_keys _ _ _ _ _ Hr Hlo Hhi) as (Hsort & HP & _).
  pose proof (live_keys_length nd Hok HO) as Hlen. pose proof (reps_length _ _ _ _ _ Hr) as Hss.
  destruct (separator_split h s nd key Hok HO Hleaf Hn Hsort HP Hkey) as (ks1 & ks2 & E1 & Hks1 & Hks2 & Hstep).
  destruct (lookup_lt_is_Some_2 ss (length ks1)) as [c Hc].
  { rewrite Hss, E1, length_app. lia. }
  exists ks1, ks2, (take (length ks1) ss), c, (drop (S (length ks1)) ss).
  split; [done|]. split; [by rewrite take_drop_middle|].
  split; [rewrite length_take; apply lookup_lt_Some in Hc; lia|].
  split; [|split; [done|split; [done|]]].
  - destruct Hin as [Hin1 Hin2]. split.
    + unfold lo_of. destruct (last ks1) as [k|] eqn:El; [|done].
      rewrite Forall_forall in Hks1. apply Hks1. rewrite last_Some in El. destruct El as [l ->]. set_solver.
    + destruct ks2 as [|k ks2]; [done|]. by apply Forall_cons in Hks2 as [? _].
  - intros fuel. rewrite Hstep.
    assert (Hcc : children nd !! length ks1 = Some (Some (s_root c))).
    { rewrite <- (lookup_take_lt _ (S (num_keys nd))).
      - rewrite Hch, list_lookup_fmap, Hc. done.
      - rewrite <- Hlen, E1, length_app. lia. }
    rewrite Hcc. done.
Qed.

(** Entries under the children before (after) the chosen one are below
    (above) the key. *)
Lemma reps_before (R : _ -> _ -> sub -> Prop) lo ks1 ks2 ss1 c ss2 hi key : length ks1 = length ss1 ->
  (forall a b s, R a b s -> oP a -> oP b -> Forall (key_in a b) (s_entries s)) ->
  reps R lo (ks1 ++ ks2) (ss1 ++ c :: ss2) hi -> oP lo -> oP hi -> P key ->
  Forall (fun k => value_ltb key k = false) ks1 ->
  Forall (fun e => klt e.1 key) (concat (s_entries <$> ss1)).
Proof.
  intros Hl HR H Hlo Hhi Hkey. revert lo ss1 Hl H Hlo.
  induction ks1 as [|k ks1 IH]; intros lo [|s ss1] Hl H Hlo Hks; try done.
  cbn in H. destruct H as (Hk & _ & Hs & H). apply Forall_cons in Hks as [Hkk Hks].
  cbn. apply Forall_app. split.
  - eapply Forall_impl; [by eapply HR|]. intros e [He [_ Hek]]. cbn in Hek.
    by apply (ltb_leb_trans e.1 k key).
  - apply (IH (Some k)); auto.
Qed.

Lemma reps_after (R : _ -> _ -> sub -> Prop) lo ks1 ks2 ss1 c ss2 hi key : length ks1 = length ss1 ->
  (forall a b s, R a b s -> oP a -> oP b ->
     StronglySorted ent_lt (s_entries s) /\ Forall (key_in a b) (s_entries s)) ->
  reps R lo (ks1 ++ ks2) (ss1 ++ c :: ss2) hi -> oP lo -> oP hi -> P key ->
  Forall (fun k => klt key k) ks2 ->
  Forall (fun e => klt key e.1) (concat (s_entries <$> ss2)).
Proof.
  intros Hl HR H Hlo Hhi Hkey Hks. revert lo ss1 Hl H Hlo.
  induction ks1 as [|k ks1 IH]; intros lo [|s ss1] Hl H Hlo; try done.
  - cbn in H. destruct ks2 as [|k ks2]; [by destruct ss2|]. destruct H as (Hk & _ & _ & H).
    destruct (reps_entries R _ _ _ _ HR H Hk Hhi) as [_ Hall].
    apply Forall_cons in Hks as [Hkk _].
    eapply Forall_impl; [exact Hall|]. intros e [He [Hke _]]. cbn in Hke.
    by apply (ltb_leb_trans key k e.1).
  - cbn in H. destruct H as (Hk & _ & _ & H). apply (IH (Some k) ss1); auto.
Qed.

Lemma reps_leaf_entries h (R : _ -> _ -> sub -> Prop) lo ks ss hi :
  (forall a b s, R a b s -> s_entries s = concat (leaf_entries h <$> s_leaves s)) ->
  reps R lo ks ss hi ->
  forall ss', ss' ⊆ ss -> concat (leaf_entries h <$> concat (s_leaves <$> ss')) = concat (s_entries <$> ss').
Proof.
  intros HR Hr ss' Hsub. induction ss' as [|x ss' IH]; [done|]. cbn.
  rewrite fmap_app, concat_app, IH by set_solver. f_equal.
  destruct (reps_elem _ _ _ _ _ x Hr) as (a & b & Hx); [set_solver|]. symmetry. by eapply HR.
Qed.

(** A leaf found by a descent: where the key is, or would be. *)
Definition leaf_for (h : list Node) (ls : list nat) (key : Value) (p : nat) (nd : Node) : Prop :=
  h !! p = Some nd /\ is_leaf nd = true /\ node_ok nd /\ num_keys nd <= ORDER /\
  StronglySorted klt (live_keys nd) /\ Forall P (live_keys nd) /\
  exists L1 L2, ls = L1 ++ p :: L2 /\
    Forall (fun e => klt e.1 key) (concat (leaf_entries h <$> L1)) /\
    Forall (fun e => klt key e.1) (concat (leaf_entries h <$> L2)).

Lemma node_entries_keys nd : node_ok nd -> num_keys nd <= ORDER -> (node_entries nd).*1 = live_keys nd.
Proof.
  intros Hok HO. unfold node_entries. apply fst_zip.
  rewrite (live_keys_length nd Hok HO), length_take. destruct Hok as (_ & _ & ->). lia.
Qed.

Lemma sorted_fst (es : list entry) : StronglySorted ent_lt es -> StronglySorted klt es.*1.
Proof.
  induction 1 as [|e es H IH He]; [constructor|]. cbn. constructor; [done|].
  apply Forall_fmap. exact He.
Qed.

Lemma find_leaf_rep n : forall h m M par lo hi s key, rep n h m M par lo hi s ->
  oP lo -> oP hi -> P key -> in_range lo hi key -> forall fuel, n < fuel ->
  exists p nd, find_leaf_loop fuel h key (Some (s_root s)) = Ret (Some p) /\ leaf_for h (s_leaves s) key p nd.
Proof.
  induction n as [|n IH]; intros h m M par lo hi s key Hrep Hlo Hhi Hkey Hin [|fuel] Hf; try lia.
  - destruct Hrep as (_ & nd & Hn & Hok & _ & _ & HO & Hleaf & He & Hs & Hr & Hl & _).
    exists (s_root s), nd. split; [cbn; by rewrite Hn; cbn; rewrite Hleaf|].
    rewrite He in Hs, Hr. pose proof (node_entries_keys nd Hok HO) as Hk.
    repeat (split; [done|]). split; [|split].
    + rewrite <- Hk. by apply sorted_fst.
    + rewrite <- Hk. apply Forall_fmap. eapply Forall_impl; [exact Hr|]. by intros e [? _].
    + exists [], []. by rewrite Hl.
  - destruct Hrep as (_ & nd & Hn & Hok & _ & _ & HO & Hleaf & _ & ss & Hch & Hr & _ & Hl & _).
    destruct (child_choice _ _ _ _ _ _ _ s nd ss key Hok HO Hleaf Hn Hch Hr Hlo Hhi Hkey Hin)
      as (ks1 & ks2 & ss1 & c & ss2 & E & -> & Hlen & Hin' & Hk1 & Hk2 & Hstep).
    rewrite E in Hr. destruct (reps_middle _ _ _ _ _ _ _ _ Hlen Hr) as [Hc _].
    destruct (reps_keys _ _ _ _ _ Hr Hlo Hhi) as (_ & HP & _).
    assert (Hlo' : oP (lo_of lo ks1)).
    { unfold lo_of. destruct (last ks1) as [k|] eqn:El; [|done]. rewrite last_Some in El. destruct El as [l ->].
      rewrite Forall_forall in HP. apply HP. set_solver. }
    assert (Hhi' : oP (hi_of ks2 hi)).
    { destruct ks2; [done|]. rewrite Forall_forall in HP. apply HP. set_solver. }
    destruct (IH _ _ _ _ _ _ _ key Hc Hlo' Hhi' Hkey Hin' fuel ltac:(lia)) as (p & nd' & Hfind & Hleaf').
    exists p, nd'. rewrite Hstep. split; [done|].
    destruct Hleaf' as (? & ? & ? & ? & ? & ? & L1 & L2 & HL & HL1 & HL2).
    repeat (split; [done|]).
    exists (concat (s_leaves <$> ss1) ++ L1), (L2 ++ concat (s_leaves <$> ss2)).
    split; [|split].
    + rewrite Hl, fmap_app, concat_app. cbn. rewrite HL. by rewrite <- !app_assoc, <- !app_comm_cons.
    + rewrite fmap_app, concat_app, Forall_app. split; [|done].
      rewrite (reps_leaf_entries h _ _ _ _ _ (fun a b s => rep_leaf_entries n h _ _ _ a b s) Hr) by set_solver.
      eapply reps_before; [exact Hlen| |exact Hr|done..].
      intros a b x Hx Ha Hb. by apply (rep_entries n h _ _ _ a b x Hx).
    + rewrite fmap_app, concat_app, Forall_app. split; [done|].
      rewrite (reps_leaf_entries h _ _ _ _ _ (fun a b s => rep_leaf_entries n h _ _ _ a b s) Hr) by set_solver.
      eapply reps_after; [exact Hlen| |exact Hr|done..].
      intros a b x Hx Ha Hb. by apply (rep_entries n h _ _ _ a b x Hx).
Qed.

(** ** Point lookups *)

(** The entries as an association list: the row of the first equal key, and
    the entries an operator selects. *)
Fixpoint assoc_find (key : Value) (es : list entry) : option Z :=
  match es with
  | [] => None
  | (k, r) :: es => if value_eqb k key then Some r else assoc_find key es
  end.

Definition matching (op : CmpOp) (key : Value) (es : list entry) : list entry :=
  filter (fun e => cmp_values op e.1 key = true) es.

Lemma assoc_find_app key es1 es2 : assoc_find key es1 = None ->
  assoc_find key (es1 ++ es2) = assoc_find key es2.
Proof.
  induction es1 as [|[k r] es1 IH]; [done|]. cbn. by destruct (value_eqb k key).
Qed.

Definition keysP (es : list entry) : Prop := Forall (fun e => P e.1) es.

Lemma assoc_find_lt key es : P key -> keysP es -> Forall (fun e => klt e.1 key) es -> assoc_find key es = None.
Proof.
  intros Hkey HP H. induction es as [|[k r] es IH]; [done|].
  apply Forall_cons in HP as [Hk HP]. apply Forall_cons in H as [Hlt H]. cbn in *.
  destruct (value_eqb k key) eqn:E; [|auto]. apply (eqb_true k key Hk Hkey) in E as [E _]. unfold klt in Hlt. congruence.
Qed.

Lemma assoc_find_gt key es : P key -> keysP es -> Forall (fun e => klt key e.1) es -> assoc_find key es = None.
Proof.
  intros Hkey HP H. induction es as [|[k r] es IH]; [done|].
  apply Forall_cons in HP as [Hk HP]. apply Forall_cons in H as [Hlt H]. cbn in *.
  destruct (value_eqb k key) eqn:E; [|auto]. apply (eqb_true k key Hk Hkey) in E as [_ E]. unfold klt in Hlt. congruence.
Qed.

Lemma node_slot nd i e : node_entries nd !! i = Some e ->
  keys nd !! i = Some e.1 /\ row_ids nd !! i = Some e.2 /\ i < num_keys nd.
Proof.
  unfold node_entries. destruct e as [k r]. intros H. apply lookup_zip_Some in H as [H1 H2]. cbn.
  apply lookup_lt_Some in H2 as Hl. rewrite length_take in Hl.
  rewrite lookup_take_lt in H2 by lia. split; [by apply live_keys_lookup|]. split; [done|lia].
Qed.

Lemma node_entries_length nd : node_ok nd -> num_keys nd <= ORDER -> length (node_entries nd) = num_keys nd.
Proof. intros Hok HO. rewrite <- (length_fmap fst (node_entries nd)), node_entries_keys by done. by apply live_keys_length. Qed.

(** The slots of a node around the lower bound of a key. *)
Lemma lower_bound_entries nd key : node_ok nd -> num_keys nd <= ORDER ->
  StronglySorted klt (live_keys nd) -> Forall P (live_keys nd) -> P key ->
  exists EA EB, node_entries nd = EA ++ EB /\ Forall (fun e => klt e.1 key) EA /\
    Forall (fun e => value_ltb e.1 key = false) EB /\ lower_bound nd key = Ret (length EA).
Proof.
  intros Hok HO Hs HP Hkey. destruct (lower_bound_spec nd key Hok HO Hs HP Hkey) as (A & B & E & HA & HB & Hlb).
  pose proof (node_entries_keys nd Hok HO) as Hk. rewrite E in Hk.
  exists (take (length A) (node_entries nd)), (drop (length A) (node_entries nd)).
  assert (HEA : (take (length A) (node_entries nd)).*1 = A) by (by rewrite fmap_take, Hk, take_app_length).
  assert (HEB : (drop (length A) (node_entries nd)).*1 = B) by (by rewrite fmap_drop, Hk, drop_app_length).
  split; [by rewrite take_drop|]. split; [|split].
  - apply (Forall_fmap fst (fun k => klt k key)). by rewrite HEA.
  - apply (Forall_fmap fst (fun k => value_ltb k key = false)). by rewrite HEB.
  - rewrite Hlb. f_equal. rewrite <- HEA at 1. by rewrite length_fmap.
Qed.

(** The head of the second part decides a point lookup. *)
Lemma assoc_find_at key EA EB E2 : P key -> keysP (EA ++ EB ++ E2) -> StronglySorted ent_lt (EA ++ EB ++ E2) ->
  Forall (fun e => klt e.1 key) EA -> Forall (fun e => value_ltb e.1 key = false) (EB ++ E2) ->
  Forall (fun e => klt key e.1) E2 ->
  assoc_find key (EA ++ EB ++ E2) =
    match EB with (k, r) :: _ => if value_eqb k key then Some r else None | [] => None end.
Proof.
  intros Hkey HP Hs HA HB HE. apply Forall_app in HP as [HPA HPB].
  rewrite (assoc_find_app _ _ _ (assoc_find_lt key EA Hkey HPA HA)).
  destruct EB as [|[k r] EB]; [by apply assoc_find_gt|]. cbn. destruct (value_eqb k key) eqn:E; [done|].
  apply Forall_cons in HPB as [Hk HPB]. apply Forall_cons in HB as [Hkk HB]. cbn in *.
  apply assoc_find_gt; [done|done|].
  assert (klt key k).
  { unfold klt. destruct (value_ltb key k) eqn:E1; [done|].
    exfalso. assert (value_eqb k key = true) by (by apply eqb_true). congruence. }
  assert (Hs' : Forall (ent_lt (k, r)) (EB ++ E2)).
  { clear -Hs. induction EA as [|a A IH]; cbn in Hs; [by apply StronglySorted_inv in Hs as [_ ?]|].
    apply IH. by apply StronglySorted_inv in Hs as [? _]. }
  unfold keysP in HPB. rewrite Forall_forall in *. intros e He. specialize (Hs' e He). unfold ent_lt, klt in *. cbn in *.
  eapply ko_trans; [..|exact Hs']; auto.
Qed.

Lemma rep_leaves_ok n : forall h m M par lo hi s p, rep n h m M par lo hi s -> p ∈ s_leaves s ->
  exists nd, h !! p = Some nd /\ node_ok nd /\ num_keys nd <= ORDER.
Proof.
  induction n as [|n IH]; intros h m M par lo hi s p (_ & nd & Hn & Hok & _ & _ & HO & H) Hp.
  - destruct H as (_ & _ & _ & _ & Hl & _). rewrite Hl in Hp. assert (p = s_root s) as -> by set_solver. eauto.
  - destruct H as (_ & _ & ss & _ & Hr & _ & Hl & _). rewrite Hl in Hp.
    apply elem_of_concat_fmap in Hp as (x & Hx & Hpx).
    destruct (reps_elem _ _ _ _ _ _ Hr Hx) as (a & b & HR). eapply IH; eauto.
Qed.

Lemma rep_leaves_foot_length n : forall h m M par lo hi s, rep n h m M par lo hi s ->
  length (s_leaves s) <= length (s_foot s).
Proof.
  induction n as [|n IH]; intros h m M par lo hi s (_ & nd & Hn & Hok & _ & _ & HO & H).
  - destruct H as (_ & _ & _ & _ & -> & ->). done.
  - destruct H as (_ & _ & ss & _ & Hr & _ & -> & ->).
    assert (Hx : forall x, x ∈ ss -> length (s_leaves x) <= length (s_foot x)).
    { intros x Hx. destruct (reps_elem _ _ _ _ _ _ Hr Hx) as (a & b & HR). eauto. }
    clear Hr. induction ss as [|x ss IHs]; [cbn; lia|]. cbn in *. rewrite !length_app.
    pose proof (Hx x ltac:(set_solver)). specialize (IHs ltac:(intros; apply Hx; set_solver)). unfold fmap in *. lia.
Qed.

Lemma rep_leaves_pool n h m M par lo hi s : rep n h m M par lo hi s -> length (s_leaves s) <= length h.
Proof.
  intros H. pose proof (rep_leaves_foot_length _ _ _ _ _ _ _ _ H).
  assert (length (s_foot s) <= length h); [|lia]. apply NoDup_bounded.
  - destruct n; apply H.
  - intros a Ha. eapply lookup_lt_is_Some_1, rep_foot_Some; eauto.
Qed.

(** The leaf a lookup reaches, with the entries of the tree around it. *)
Lemma find_leaf_tree t es key : bptree_rep t es -> P key ->
  keysP es /\ StronglySorted ent_lt es /\
  exists p nd L1 L2 E1 E2 EA EB, find_leaf t key = Ret (Some p) /\ node_pool_ t !! p = Some nd /\
    lower_bound nd key = Ret (length EA) /\ node_entries nd = EA ++ EB /\ length (EA ++ EB) = num_keys nd /\
    es = (E1 ++ EA) ++ EB ++ E2 /\ E2 = concat (leaf_entries (node_pool_ t) <$> L2) /\
    chain (node_pool_ t) (p :: L2) None /\ length (p :: L2) <= length (node_pool_ t) /\
    (forall q, q ∈ p :: L2 -> exists nd, node_pool_ t !! q = Some nd /\ node_ok nd /\ num_keys nd <= ORDER) /\
    Forall (fun e => klt e.1 key) (E1 ++ EA) /\ Forall (fun e => value_ltb e.1 key = false) (EB ++ E2) /\
    Forall (fun e => klt key e.1) E2 /\ is_leaf nd = true /\
    (exists n s, root_ t = Some (s_root s) /\ s_leaves s = L1 ++ p :: L2 /\
       rep n (node_pool_ t) 0 (ORDER - 1) None None None s /\ s_entries s = es).
Proof.
  intros (n & s & Hroot & Hrep & Hes & Hch & _) Hkey. set (h := node_pool_ t) in *.
  destruct (rep_entries _ _ _ _ _ _ _ _ Hrep I I) as [Hs HF]. rewrite Hes in Hs, HF.
  assert (HP : keysP es) by (eapply Forall_impl; [exact HF|]; by intros e [? _]).
  split; [done|]. split; [done|].
  destruct (find_leaf_rep n h _ _ _ None None s key Hrep I I Hkey (conj I I) (S (length h)))
    as (p & nd & Hfind & Hn & Hleaf & Hok & HO & Hss & HPk & L1 & L2 & HL & HL1 & HL2).
  { pose proof (rep_depth_pool _ _ _ _ _ _ _ _ Hrep). lia. }
  destruct (lower_bound_entries nd key Hok HO Hss HPk Hkey) as (EA & EB & HE & HA & HB & Hlb).
  assert (Hes' : es = (concat (leaf_entries h <$> L1) ++ EA) ++ EB ++ concat (leaf_entries h <$> L2)).
  { rewrite <- Hes, (rep_leaf_entries _ _ _ _ _ _ _ _ Hrep), HL, fmap_app, concat_app. cbn.
    unfold leaf_entries at 2. rewrite Hn, HE. by rewrite <- !app_assoc. }
  exists p, nd, L1, L2, (concat (leaf_entries h <$> L1)), (concat (leaf_entries h <$> L2)), EA, EB.
  split; [unfold find_leaf; by rewrite Hroot|]. split; [done|]. split; [done|]. split; [done|].
  split; [rewrite <- HE; by apply node_entries_length|]. split; [done|]. split; [done|].
  rewrite HL in Hch. apply chain_app in Hch as [_ Hch]. split; [done|].
  pose proof (rep_leaves_pool _ _ _ _ _ _ _ _ Hrep) as Hlen. rewrite HL, length_app in Hlen.
  split; [lia|]. split.
  { intros q Hq. eapply rep_leaves_ok; [exact Hrep|]. rewrite HL. set_solver. }
  split; [by apply Forall_app|]. split; [apply Forall_app; split; [done|]|].
  - unfold keysP in HP. rewrite Hes' in HP. rewrite !Forall_app in HP. destruct HP as (_ & _ & HP2).
    rewrite Forall_forall in *. intros e He. apply ltb_asym; [done|by apply HP2|by apply HL2].
  - split; [done|]. split; [done|]. exists n, s. done.
Qed.

Lemma find_spec t es key : bptree_rep t es -> P key ->
  find t key = Ret (match assoc_find key es with Some r => s64 r | None => (-1)%Z end).
Proof.
  intros Ht Hkey.
  destruct (find_leaf_tree t es key Ht Hkey) as (HP & Hs & p & nd & L1 & L2 & E1 & E2 & EA & EB & Hfind &
    Hn & Hlb & HE & Hnum & Hes & _ & _ & _ & _ & HA & HB & HE2 & _).
  unfold find. rewrite Hfind. outcome_simpl. rewrite Hn. outcome_simpl. rewrite Hlb. outcome_simpl.
  rewrite Hes in HP, Hs |- *. rewrite (assoc_find_at key _ _ _ Hkey HP Hs HA HB HE2).
  destruct EB as [|[k r] EB]; rewrite length_app in Hnum; cbn in Hnum.
  - by rewrite (proj2 (Nat.ltb_ge _ _)) by lia.
  - rewrite (proj2 (Nat.ltb_lt _ _)) by lia.
    assert (Hslot : node_entries nd !! length EA = Some (k, r)) by (by rewrite HE, lookup_app_r, Nat.sub_diag).
    apply node_slot in Hslot as (-> & -> & _). outcome_simpl. cbn [fst snd]. by destruct (value_eqb k key).
Qed.

(** ** Range scans *)

Section scan.
Context {S : Type}.

(** A scan body over a list of entries, and a callback over row ids; both stop
    when told to. *)
Fixpoint run (body : Value -> Z -> S -> outcome (S * bool)) (es : list entry) (s : S) : outcome (S * bool) :=
  match es with
  | [] => Ret (s, true)
  | (k, r) :: es =>
      res ← body k r s;
      if snd res : bool then run body es (fst res) else Ret (fst res, false)
  end.

Fixpoint visit (cb : S -> Z -> outcome (S * bool)) (rs : list Z) (s : S) : outcome S :=
  match rs with
  | [] => Ret s
  | r :: rs =>
      res ← cb s r;
      if snd res : bool then visit cb rs (fst res) else Ret (fst res)
  end.

Lemma leaf_loop_run body cnt : forall i nd s, node_ok nd -> num_keys nd <= ORDER ->
  cnt = num_keys nd - i -> leaf_loop body cnt i nd s = run body (drop i (node_entries nd)) s.
Proof.
  induction cnt as [|cnt IH]; intros i nd s Hok HO Hc; pose proof (node_entries_length nd Hok HO).
  - by rewrite drop_ge by lia.
  - destruct (lookup_lt_is_Some_2 (node_entries nd) i) as [[k r] He]; [lia|].
    rewrite (drop_S _ _ _ He). destruct (node_slot _ _ _ He) as (Hk & Hr & _).
    cbn [leaf_loop run]. rewrite Hk, Hr. outcome_simpl. cbn [fst snd].
    destruct (body k r s) as [[s' []]| | |]; try done. cbn [snd fst]. outcome_simpl. cbn [snd fst].
    apply IH; [done|done|lia].
Qed.

Lemma run_app body es1 es2 s : run body (es1 ++ es2) s =
  (res ← run body es1 s; if snd res : bool then run body es2 (fst res) else Ret (fst res, false)).
Proof.
  revert s. induction es1 as [|[k r] es1 IH]; intros s; [done|]. cbn [run app].
  destruct (body k r s) as [[s' []]| | |]; try done. outcome_simpl. cbn [snd fst]. apply IH.
Qed.

Lemma chain_loop_run h body ls : forall fuel pos s p, chain h (p :: ls) None -> length (p :: ls) < fuel ->
  (forall q, q ∈ p :: ls -> exists nd, h !! q = Some nd /\ node_ok nd /\ num_keys nd <= ORDER) ->
  chain_loop body fuel h (Some p) pos s =
  (res ← run body (drop pos (leaf_entries h p) ++ concat (leaf_entries h <$> ls)) s; Ret (fst res)).
Proof.
  induction ls as [|q ls IH]; intros [|fuel] pos s p Hch Hf Hok; try (cbn in Hf; lia).
  - destruct (Hok p) as (nd & Hn & Ho & HO); [set_solver|]. destruct Hch as [(nd' & Hn' & Hx) _].
    rewrite Hn in Hn'. injection Hn' as <-. cbn [chain_loop]. rewrite Hn. outcome_simpl.
    rewrite leaf_loop_run by done. rewrite (leaf_entries_node _ _ _ Hn). cbn [fmap list_fmap concat]. rewrite app_nil_r.
    destruct (run body _ s) as [[s' []]| | |]; try done. outcome_simpl. cbn [snd fst]. rewrite Hx.
    destruct fuel; [cbn in Hf; lia|done].
  - destruct (Hok p) as (nd & Hn & Ho & HO); [set_solver|]. destruct Hch as [(nd' & Hn' & Hx) Hch].
    rewrite Hn in Hn'. injection Hn' as <-. cbn [chain_loop]. rewrite Hn. outcome_simpl.
    rewrite leaf_loop_run by done. rewrite run_app, (leaf_entries_node _ _ _ Hn).
    destruct (run body _ s) as [[s' []]| | |]; try done. outcome_simpl. cbn [snd fst]. rewrite Hx.
    rewrite IH; [by rewrite drop_0|done|cbn in *; lia|]. intros x Hx'. apply Hok. set_solver.
Qed.

(** Bodies that call the callback on the entries satisfying [f]. *)
Lemma run_filter (f : Value -> bool) cb es s :
  (res ← run (fun k r s => if f k then cb s r else Ret (s, true)) es s; Ret (fst res)) =
  visit cb (snd <$> filter (fun e => f e.1 = true) es) s.
Proof.
  revert s. induction es as [|[k r] es IH]; intros s; [done|]. rewrite filter_cons. cbn [run fst].
  destruct (f k) eqn:E.
  - rewrite decide_True by done. cbn [fmap list_fmap visit snd].
    destruct (cb s r) as [[s' []]| | |]; try done. outcome_simpl. cbn [fst snd]. apply IH.
  - rewrite decide_False by done. outcome_simpl. cbn [fst snd]. apply IH.
Qed.

(** Bodies that stop at the first entry satisfying [f], on a list where the
    entries that do not come first. *)
Lemma run_until (f : Value -> bool) cb es s :
  StronglySorted (fun a b => f a.1 = true -> f b.1 = true) es ->
  (res ← run (fun k r s => if f k then Ret (s, false) else cb s r) es s; Ret (fst res)) =
  visit cb (snd <$> filter (fun e => negb (f e.1) = true) es) s.
Proof.
  revert s. induction es as [|[k r] es IH]; intros s Hs; [done|]. apply StronglySorted_inv in Hs as [Hs Hf].
  rewrite filter_cons. cbn [run fst]. destruct (f k) eqn:E.
  - rewrite decide_False by done. outcome_simpl. cbn [fst snd].
    assert (Hnil : filter (fun e : entry => negb (f e.1) = true) es = []).
    { clear -Hf E. induction Hf as [|x l Hx _ IHl]; [done|]. rewrite filter_cons, decide_False; [done|].
      cbn in Hx. rewrite Hx by done. done. }
    by rewrite Hnil.
  - rewrite decide_True by done. cbn [fmap list_fmap visit snd].
    destruct (cb s r) as [[s' []]| | |]; try done. outcome_simpl. cbn [fst snd]. by apply IH.
Qed.

Lemma run_all cb es s :
  (res ← run (fun k r s => cb s r) es s; Ret (fst res)) = visit cb (snd <$> es) s.
Proof.
  revert s. induction es as [|[k r] es IH]; intros s; [done|]. cbn [run fmap list_fmap visit snd].
  destruct (cb s r) as [[s' []]| | |]; try done. outcome_simpl. cbn [fst snd]. apply IH.
Qed.

Lemma filter_none (f : entry -> Prop) `{!forall e, Decision (f e)} es : Forall (fun e => ~ f e) es -> filter f es = [].
Proof. induction 1; [done|]. by rewrite filter_cons, decide_False by done. Qed.
Lemma filter_all (f : entry -> Prop) `{!forall e, Decision (f e)} es : Forall f es -> filter f es = es.
Proof. induction 1 as [|e es He _ IH]; [done|]. by rewrite filter_cons, decide_True, IH by done. Qed.

(** *** The whole chain, from the leftmost leaf *)
Lemma scan_leftmost body t es s : bptree_rep t es ->
  scan_from body t (leftmost_leaf_ t) 0 s = (res ← run body es s; Ret (fst res)).
Proof.
  intros (n & st & _ & Hrep & Hes & Hch & Hlm & _). unfold scan_from. rewrite Hlm.
  destruct (rep_leaves_cons _ _ _ _ _ _ _ _ Hrep) as (p & ls & Hl). rewrite Hl in *. cbn [head].
  pose proof (rep_leaves_pool _ _ _ _ _ _ _ _ Hrep) as Hlen. rewrite Hl in Hlen.
  rewrite (chain_loop_run _ _ ls); [|done|lia|].
  - rewrite drop_0. rewrite <- Hes, (rep_leaf_entries _ _ _ _ _ _ _ _ Hrep), Hl. done.
  - intros q Hq. eapply rep_leaves_ok; [exact Hrep|]. by rewrite Hl.
Qed.

Lemma range_lt_spec cb t es key s : bptree_rep t es -> P key ->
  range_lt cb t key s = visit cb (snd <$> matching LT key es) s.
Proof.
  intros Ht Hkey. unfold range_lt. rewrite (scan_leftmost _ t es) by done.
  destruct (find_leaf_tree t es key Ht Hkey) as (HP & Hs & _).
  rewrite (run_until (fun k => value_geb k key)).
  - f_equal. f_equal. unfold matching. apply list_filter_iff. intros e. cbn. unfold value_geb. by rewrite negb_involutive.
  - unfold value_geb. clear -Hs HP Hkey KeyOrder0. induction Hs as [|e es Hs IH He]; [constructor|].
    apply Forall_cons in HP as [HPe HP]. constructor; [by apply IH|].
    unfold keysP in HP. rewrite Forall_forall in *. intros x Hx. rewrite !negb_true_iff. intros Hek.
    specialize (He x Hx). unfold ent_lt, klt in He. destruct (value_ltb x.1 key) eqn:E; [|done].
    rewrite (ko_trans e.1 x.1 key) in Hek; auto.
Qed.

Lemma range_le_spec cb t es key s : bptree_rep t es -> P key ->
  range_le cb t key s = visit cb (snd <$> matching LE key es) s.
Proof.
  intros Ht Hkey. unfold range_le. rewrite (scan_leftmost _ t es) by done.
  destruct (find_leaf_tree t es key Ht Hkey) as (HP & Hs & _).
  rewrite (run_until (fun k => value_gtb k key)).
  - f_equal.
  - unfold value_gtb. clear -Hs HP Hkey KeyOrder0. induction Hs as [|e es Hs IH He]; [constructor|].
    apply Forall_cons in HP as [HPe HP]. constructor; [by apply IH|].
    unfold keysP in HP. rewrite Forall_forall in *. intros x Hx Hek.
    apply (ko_trans key e.1 x.1); auto. by apply He.
Qed.

Lemma range_ne_spec cb t es key s : bptree_rep t es ->
  range_ne cb t key s = visit cb (snd <$> matching NE key es) s.
Proof.
  intros Ht. unfold range_ne. rewrite (scan_leftmost _ t es) by done.
  by rewrite (run_filter (fun k => negb (value_eqb k key))).
Qed.

Lemma scan_all_spec cb t es s : bptree_rep t es ->
  scan_all cb t s = visit cb (snd <$> es) s.
Proof. intros Ht. unfold scan_all. rewrite (scan_leftmost _ t es) by done. apply run_all. Qed.

(** *** From the leaf of the key on *)
Lemma scan_from_leaf body t es key s : bptree_rep t es -> P key ->
  exists p nd pos EA EB, find_leaf t key = Ret (Some p) /\ node_pool_ t !! p = Some nd /\
    lower_bound nd key = Ret pos /\ es = EA ++ EB /\
    Forall (fun e => klt e.1 key) EA /\ Forall (fun e => value_ltb e.1 key = false) EB /\
    scan_from body t (Some p) pos s = (res ← run body EB s; Ret (fst res)).
Proof.
  intros Ht Hkey.
  destruct (find_leaf_tree t es key Ht Hkey) as (_ & _ & p & nd & L1 & L2 & E1 & E2 & EA & EB & Hfind &
    Hn & Hlb & HE & Hnum & Hes & HE2 & Hch & Hlen & Hok & HA & HB & _).
  exists p, nd, (length EA), (E1 ++ EA), (EB ++ E2). repeat (split; [done|]).
  unfold scan_from. rewrite (chain_loop_run _ _ L2) by (done || lia).
  rewrite (leaf_entries_node _ _ _ Hn), HE, drop_app_length, HE2. done.
Qed.

Lemma range_gt_spec cb t es key s : bptree_rep t es -> P key ->
  range_gt cb t key s = visit cb (snd <$> matching GT key es) s.
Proof.
  intros Ht Hkey. unfold range_gt.
  destruct (scan_from_leaf (fun k r s => if value_gtb k key then cb s r else Ret (s, true)) t es key s Ht Hkey)
    as (p & nd & pos & EA & EB & Hfind & Hn & Hlb & Hes & HA & HB & Hscan).
  destruct (find_leaf_tree t es key Ht Hkey) as (HP & _).
  rewrite Hfind. outcome_simpl. rewrite Hn. outcome_simpl. rewrite Hlb. outcome_simpl.
  rewrite Hscan, (run_filter (fun k => value_gtb k key)). unfold matching. rewrite Hes, filter_app.
  rewrite (filter_none _ EA); [done|]. rewrite Hes in HP. apply Forall_app in HP as [HP _].
  rewrite Forall_forall in *. intros e He. cbn. unfold value_gtb.
  rewrite (ltb_asym e.1 key); auto. by apply HA.
Qed.

Lemma range_ge_spec cb t es key s : bptree_rep t es -> P key ->
  range_ge cb t key s = visit cb (snd <$> matching GE key es) s.
Proof.
  intros Ht Hkey. unfold range_ge.
  destruct (scan_from_leaf (fun k r s => cb s r) t es key s Ht Hkey)
    as (p & nd & pos & EA & EB & Hfind & Hn & Hlb & Hes & HA & HB & Hscan).
  rewrite Hfind. outcome_simpl. rewrite Hn. outcome_simpl. rewrite Hlb. outcome_simpl.
  rewrite Hscan, run_all. unfold matching. rewrite Hes, filter_app.
  rewrite (filter_none _ EA), (filter_all _ EB); [done|..].
  - eapply Forall_impl; [exact HB|]. intros e He. cbn. unfold value_geb. by rewrite He.
  - eapply Forall_impl; [exact HA|]. intros e He. cbn. unfold value_geb, klt in *. by rewrite He.
Qed.

(** At most one entry has a given key. *)
Lemma matching_eq es key : keysP es -> StronglySorted ent_lt es -> P key ->
  snd <$> matching EQ key es = match assoc_find key es with Some r => [r] | None => [] end.
Proof.
  intros HP Hs Hkey. induction Hs as [|[k r] es Hs IH He]; [done|].
  apply Forall_cons in HP as [Hk HP]. unfold matching in *. rewrite filter_cons. cbn [fst cmp_values assoc_find].
  destruct (value_eqb k key) eqn:E.
  - rewrite decide_True by done. cbn. rewrite filter_none; [done|].
    apply (eqb_true k key Hk Hkey) in E as [E1 E2].
    unfold keysP in HP. rewrite Forall_forall in *. intros x Hx Heq.
    apply eqb_true in Heq as [Hx1 Hx2]; auto. specialize (He x Hx). unfold ent_lt, klt in He. cbn in He.
    pose proof (leb_ltb_trans key k x.1 Hkey Hk (HP x Hx) E1 He). congruence.
  - rewrite decide_False by done. by apply IH.
Qed.

Lemma range_eq_spec cb t es key s : bptree_rep t es -> P key ->
  range_eq cb t key s = visit cb (snd <$> matching EQ key es) s.
Proof.
  intros Ht Hkey.
  destruct (find_leaf_tree t es key Ht Hkey) as (HP & Hs & p & nd & L1 & L2 & E1 & E2 & EA & EB & Hfind &
    Hn & Hlb & HE & Hnum & Hes & _ & _ & _ & _ & HA & HB & HE2 & _).
  rewrite (matching_eq es key HP Hs Hkey). unfold range_eq.
  rewrite Hfind. outcome_simpl. rewrite Hn. outcome_simpl. rewrite Hlb. outcome_simpl.
  rewrite Hes in HP, Hs |- *. rewrite (assoc_find_at key _ _ _ Hkey HP Hs HA HB HE2).
  destruct EB as [|[k r] EB]; rewrite length_app in Hnum; cbn in Hnum.
  - by rewrite (proj2 (Nat.ltb_ge _ _)) by lia.
  - rewrite (proj2 (Nat.ltb_lt _ _)) by lia.
    assert (Hslot : node_entries nd !! length EA = Some (k, r)) by (by rewrite HE, lookup_app_r, Nat.sub_diag).
    apply node_slot in Hslot as (-> & -> & _). outcome_simpl. cbn [fst snd]. destruct (value_eqb k key); [|done].
    cbn [visit]. destruct (cb s r) as [s'| | |] eqn:Ecb; [|done..]. outcome_simpl. by destruct (snd s').
Qed.
End scan.

End rep.
