(* ===== verification/BPTreeInsert.v ===== *)
(** * Insertion into the B+ tree keeps it a B+ tree

    [insert] returns, keeps the representation invariant and adds exactly the
    new entry. The proof follows the code from the leaf up: inserting into a
    leaf, splitting it, inserting the promoted key into the parent, splitting
    that one. At each level the subtree either has grown in place ([grown]) or
    has been cut in two, the second half waiting for its parent ([cut]). *)

From Stdlib Require Import ZArith Lia Sorting.Sorted.
From stdpp Require Import base strings gmap numbers list list_numbers.
From S2P Require Import Prelude Cpp Common BPTree BPTreeRep.

Local Open Scope list_scope.
Local Open Scope nat_scope.

(** ** Inserting into a sorted association list *)

(** An equal key keeps its slot and takes the new row. *)
Fixpoint assoc_insert (key : Value) (row : Z) (es : list entry) : list entry :=
  match es with
  | [] => [(key, row)]
  | (k, r) :: es =>
      if value_eqb k key then (k, row) :: es
      else if value_ltb key k then (key, row) :: (k, r) :: es
      else (k, r) :: assoc_insert key row es
  end.

(** The entries after an insertion. *)
Lemma assoc_insert_in key row es e : e ∈ assoc_insert key row es ->
  e ∈ es \/ e = (key, row) \/ exists k r, (k, r) ∈ es /\ e = (k, row).
Proof.
  induction es as [|[k r] es IH]; cbn; [set_solver|].
  destruct (value_eqb k key); [set_solver|]. destruct (value_ltb key k); [set_solver|].
  intros He. assert (e = (k, r) \/ e ∈ assoc_insert key row es) as [->|He'] by set_solver; [set_solver|].
  destruct (IH He') as [?|[?|(k' & r' & ? & ?)]]; [set_solver|set_solver|].
  right. right. exists k', r'. set_solver.
Qed.

Lemma assoc_insert_keys (Q : Value -> Prop) key row es : Q key ->
  Forall (fun e => Q e.1) es -> Forall (fun e => Q e.1) (assoc_insert key row es).
Proof.
  intros Hq H. rewrite Forall_forall in *. intros e He.
  destruct (assoc_insert_in _ _ _ _ He) as [?|[->|(k & r & Hkr & ->)]]; [auto|done|].
  exact (H _ Hkr).
Qed.

Section insert.
Context {P : Value -> Prop} `{!KeyOrder P}.
Local Abbreviation rep := (@BPTreeRep.rep P).
Local Abbreviation reps := (@BPTreeRep.reps P).
Local Abbreviation oP := (@BPTreeRep.oP P).
Local Abbreviation key_in := (@BPTreeRep.key_in P).
Local Abbreviation keysP := (@BPTreeRep.keysP P).
Local Abbreviation bptree_rep := (@BPTreeRep.bptree_rep P).

Lemma assoc_insert_app_l key row E1 es : P key -> keysP E1 -> Forall (fun e => klt e.1 key) E1 ->
  assoc_insert key row (E1 ++ es) = E1 ++ assoc_insert key row es.
Proof.
  intros Hkey HP H. induction E1 as [|[k r] E1 IH]; [done|].
  apply Forall_cons in HP as [Hk HP]. apply Forall_cons in H as [Hlt H]. cbn in *.
  destruct (value_eqb k key) eqn:E.
  { apply (eqb_true k key Hk Hkey) in E as [E _]. unfold klt in Hlt. congruence. }
  rewrite (ltb_asym k key Hk Hkey Hlt). by rewrite IH.
Qed.

Lemma assoc_insert_app_r key row es E2 : P key -> keysP E2 -> Forall (fun e => klt key e.1) E2 ->
  assoc_insert key row (es ++ E2) = assoc_insert key row es ++ E2.
Proof.
  intros Hkey HP H. induction es as [|[k r] es IH]; cbn.
  - destruct E2 as [|[k r] E2]; [done|]. apply Forall_cons in HP as [Hk _]. apply Forall_cons in H as [Hlt _].
    cbn in *. destruct (value_eqb k key) eqn:E.
    { apply (eqb_true k key Hk Hkey) in E as [_ E]. unfold klt in Hlt. congruence. }
    unfold klt in Hlt. by rewrite Hlt.
  - destruct (value_eqb k key); [done|]. destruct (value_ltb key k); [done|]. by rewrite IH.
Qed.

(** The case at the lower bound. *)
Lemma assoc_insert_at key row EA EB : P key -> keysP (EA ++ EB) -> Forall (fun e => klt e.1 key) EA ->
  Forall (fun e => value_ltb e.1 key = false) EB ->
  assoc_insert key row (EA ++ EB) =
    match EB with
    | (k, r) :: EB' => if value_eqb k key then EA ++ (k, row) :: EB' else EA ++ (key, row) :: EB
    | [] => EA ++ [(key, row)]
    end.
Proof.
  intros Hkey HP HA HB. apply Forall_app in HP as [HPA HPB]. rewrite assoc_insert_app_l by done.
  destruct EB as [|[k r] EB]; [done|]. cbn. destruct (value_eqb k key) eqn:E; [done|].
  apply Forall_cons in HPB as [Hk _]. apply Forall_cons in HB as [Hkk _]. cbn in *.
  destruct (value_ltb key k) eqn:E1; [done|].
  assert (value_eqb k key = true) by (by apply eqb_true). congruence.
Qed.

Lemma assoc_insert_sorted key row es : P key -> keysP es ->
  StronglySorted ent_lt es -> StronglySorted ent_lt (assoc_insert key row es).
Proof.
  intros Hkey HP Hs. induction Hs as [|[k r] es Hs IH He]; cbn.
  - repeat constructor.
  - apply Forall_cons in HP as [Hk HP]. cbn in Hk. destruct (value_eqb k key) eqn:E.
    { constructor; [done|]. exact He. }
    destruct (value_ltb key k) eqn:E1.
    + constructor; [by constructor|]. constructor; [done|].
      unfold BPTreeRep.keysP in HP. rewrite Forall_forall in *. intros x Hx. specialize (He x Hx).
      unfold ent_lt, klt in *. cbn in *. apply (ko_trans key k x.1); auto.
    + constructor; [by apply IH|].
      assert (Hkk : klt k key).
      { unfold klt. destruct (value_ltb k key) eqn:E2; [done|].
        assert (value_eqb k key = true) by (by apply eqb_true). congruence. }
      apply (assoc_insert_keys (klt k)); [done|exact He].
Qed.

(** A lookup after an insertion. *)
Lemma assoc_find_insert key row es key' : P key -> P key' -> keysP es ->
  assoc_find key' (assoc_insert key row es) =
    if value_eqb key key' then Some row else assoc_find key' es.
Proof.
  intros Hkey Hkey' HP. induction es as [|[k r] es IH]; cbn; [done|].
  apply Forall_cons in HP as [Hk HP]. cbn in Hk. specialize (IH HP).
  destruct (value_eqb k key) eqn:E; cbn.
  - assert (Hkk : value_eqb k key' = value_eqb key key').
    { apply (eqb_true k key Hk Hkey) in E as [E1 E2].
      destruct (value_eqb k key') eqn:F, (value_eqb key key') eqn:G; try done; exfalso.
      - apply (eqb_true k key' Hk Hkey') in F as [F1 F2].
        assert (value_eqb key key' = true); [|congruence]. apply eqb_true; [done|done|].
        split; [exact (leb_trans key' k key Hkey' Hk Hkey F1 E2)|exact (leb_trans key k key' Hkey Hk Hkey' E1 F2)].
      - apply (eqb_true key key' Hkey Hkey') in G as [G1 G2].
        assert (value_eqb k key' = true); [|congruence]. apply eqb_true; [done|done|].
        split; [exact (leb_trans key' key k Hkey' Hkey Hk G1 E1)|exact (leb_trans k key key' Hk Hkey Hkey' E2 G2)]. }
    rewrite Hkk. by destruct (value_eqb key key').
  - destruct (value_ltb key k) eqn:E1; cbn; [done|]. rewrite IH.
    destruct (value_eqb k key') eqn:F; [|done].
    destruct (value_eqb key key') eqn:G; [|done]. exfalso.
    apply (eqb_true k key' Hk Hkey') in F as [F1 F2]. apply (eqb_true key key' Hkey Hkey') in G as [G1 G2].
    assert (value_eqb k key = true); [|congruence]. apply eqb_true; [done|done|].
    split; [|done]. exact (leb_trans key key' k Hkey Hkey' Hk G2 F1).
Qed.

Lemma assoc_insert_length key row es : P key -> keysP es -> StronglySorted ent_lt es ->
  length (assoc_insert key row es) =
    match assoc_find key es with Some _ => length es | None => S (length es) end.
Proof.
  intros Hkey HP Hs. induction Hs as [|[k r] es Hs IH He]; cbn; [done|].
  apply Forall_cons in HP as [Hk HP]. cbn in Hk. destruct (value_eqb k key) eqn:E; [done|].
  destruct (value_ltb key k) eqn:E1; cbn.
  - rewrite assoc_find_gt; [done|done|done|].
    unfold BPTreeRep.keysP in HP. rewrite Forall_forall in *. intros x Hx. specialize (He x Hx).
    unfold ent_lt, klt in *. cbn in *. apply (ko_trans key k x.1); auto.
  - rewrite (IH HP). by destruct (assoc_find key es).
Qed.

(** ** How a heap changes around a subtree *)

(** From [h] to [h'], a subtree with nodes [F] and leaves [L] has become one
    with nodes [F'] and leaves [L']; nothing else has changed. *)
Definition upd (h h' : list Node) (F L F' L' : list nat) : Prop :=
  length h <= length h' /\
  (forall a, a < length h -> a ∉ F -> heq h h' a) /\
  (forall a, a ∈ F' -> a ∈ F \/ length h <= a) /\
  head L' = head L /\
  (forall nx, chain h L nx -> chain h' L' nx).

Lemma upd_trans h h1 h2 F L F1 L1 F2 L2 :
  upd h h1 F L F1 L1 -> upd h1 h2 F1 L1 F2 L2 -> upd h h2 F L F2 L2.
Proof.
  intros (Hl & Hf & Hn & Hh & Hc) (Hl' & Hf' & Hn' & Hh' & Hc'). split; [lia|]. split; [|split; [|split]].
  - intros a Ha HF. eapply heq_trans; [by apply Hf|]. apply Hf'; [lia|].
    intros HF1. destruct (Hn _ HF1); [done|lia].
  - intros a Ha. destruct (Hn' a Ha) as [H|H]; [|right; lia]. destruct (Hn a H); auto.
  - congruence.
  - auto.
Qed.

(** A change of some nodes of the subtree that leaves their links alone. *)
Lemma upd_links h h' F L F' : length h <= length h' ->
  (forall a, a < length h -> a ∉ F -> heq h h' a) ->
  (forall a, a ∈ F' -> a ∈ F \/ length h <= a) ->
  (forall a nd, a ∈ L -> h !! a = Some nd -> exists nd', h' !! a = Some nd' /\ next nd' = next nd) ->
  upd h h' F L F' L.
Proof.
  intros Hl Hf Hfr HL. split; [lia|]. split; [done|]. split; [done|]. split; [done|].
  intros nx. induction L as [|p L IH]; [done|]. intros [(nd & Hn & E) Hc]. split.
  - destruct (HL p nd) as (nd' & H1 & H2); [set_solver|done|]. exists nd'. split; [done|]. congruence.
  - apply IH; [|done]. intros. apply HL; [set_solver|done].
Qed.

Lemma upd_local h h' F L : length h' = length h ->
  (forall a, a < length h -> a ∉ F -> heq h h' a) ->
  (forall a nd, a ∈ L -> h !! a = Some nd -> exists nd', h' !! a = Some nd' /\ next nd' = next nd) ->
  upd h h' F L F L.
Proof. intros Hl Hf HL. apply upd_links; [lia|done|auto|done]. Qed.

(** The change of a child subtree, and perhaps of the root [r], as a change of
    the whole subtree. *)
Lemma upd_context h h' r F L F' L' FA FB LA LB :
  (forall a, a ∈ LA ++ LB -> a < length h /\ a ∉ r :: F) -> L <> [] -> L' <> [] ->
  upd h h' (r :: F) L (r :: F') L' ->
  upd h h' (r :: FA ++ F ++ FB) (LA ++ L ++ LB) (r :: FA ++ F' ++ FB) (LA ++ L' ++ LB).
Proof.
  intros HLL HL HL' (Hl & Hf & Hn & Hh & Hc). split; [done|]. split; [|split; [|split]].
  - intros a Ha HF. apply Hf; [done|]. intros Hin. apply HF.
    rewrite elem_of_cons in Hin. rewrite elem_of_cons, !elem_of_app. tauto.
  - intros a. rewrite !elem_of_cons, !elem_of_app. specialize (Hn a). rewrite !elem_of_cons in Hn. tauto.
  - destruct LA; [|done]. destruct L as [|x L], L' as [|y L']; done.
  - intros nx. rewrite !chain_app. intros (H1 & H2 & H3). split; [|split].
    + assert (E : forall l, match l ++ LB with [] => nx | q :: _ => Some q end =
                   match head l with Some q => Some q | None => match LB with [] => nx | q :: _ => Some q end end)
        by (intros []; done).
      rewrite E, Hh, <- E. eapply chain_heq; [|exact H1]. intros a Ha.
      apply Hf; apply HLL, elem_of_app; by left.
    + by apply Hc.
    + eapply chain_heq; [|exact H3]. intros a Ha. apply Hf; apply HLL, elem_of_app; by right.
Qed.

Lemma upd_cons h h' r F L F' L' : upd h h' F L F' L' -> upd h h' (r :: F) L (r :: F') L'.
Proof.
  intros (Hl & Hf & Hn & Hh & Hc). split; [done|]. split; [|split; [|done]].
  - intros a Ha HF. apply Hf; [done|]. intros ?. apply HF. by apply elem_of_cons; right.
  - intros a. rewrite !elem_of_cons. specialize (Hn a). tauto.
Qed.

(** The subtree has grown in place. *)
Definition grown n (h h' : list Node) m M par lo hi (s s' : sub) (es : list entry) : Prop :=
  rep n h' m M par lo hi s' /\ s_root s' = s_root s /\ s_entries s' = es /\
  upd h h' (s_foot s) (s_leaves s) (s_foot s') (s_leaves s').

(** The subtree has been cut at [k]; the right half has no parent yet. *)
Definition cut n (h h' : list Node) par lo hi (s : sub) k (sl sr : sub) (es : list entry) : Prop :=
  P k /\ olt lo (Some k) /\ olt (Some k) hi /\
  rep n h' MIN_KEYS (ORDER - 1) par lo (Some k) sl /\
  rep n h' MIN_KEYS (ORDER - 1) None (Some k) hi sr /\
  s_root sl = s_root s /\ s_entries sl ++ s_entries sr = es /\ NoDup (s_foot sl ++ s_foot sr) /\
  upd h h' (s_foot s) (s_leaves s) (s_foot sl ++ s_foot sr) (s_leaves sl ++ s_leaves sr).

Lemma grown_cut n h h1 h2 m M par lo hi s s1 k sl sr es :
  grown n h h1 m M par lo hi s s1 es -> cut n h1 h2 par lo hi s1 k sl sr (s_entries s1) ->
  cut n h h2 par lo hi s k sl sr es.
Proof.
  intros (_ & Er & Ee & Hu) (Hk & Hlo & Hhi & Hl & Hr & Er' & Ee' & Hnd & Hu').
  do 5 (split; [done|]). split; [congruence|]. split; [congruence|]. split; [done|].
  by eapply upd_trans.
Qed.

(** ** Inserting into a leaf *)

Definition sized (sz : Z) (h : list Node) (t : BPTree) : BPTree :=
  mkBPTree (key_type_ t) (root_ t) (leftmost_leaf_ t) sz (height_ t) h.

(** [size_] counts the new keys. *)
Definition size_step (t : BPTree) (es es' : list entry) : Z :=
  if length es' =? length es then size_ t else u64 (size_ t + 1).

Lemma zip_insert_at {A B} (ks : list A) (rs : list B) pos k r : length ks = length rs ->
  zip (take pos ks ++ k :: drop pos ks) (take pos rs ++ r :: drop pos rs) =
  take pos (zip ks rs) ++ (k, r) :: drop pos (zip ks rs).
Proof.
  revert ks rs. induction pos as [|pos IH]; intros [|x ks] [|y rs] Hl; try done.
  cbn [length] in Hl. cbn [take drop zip_with app]. f_equal. apply IH. lia.
Qed.

Lemma zip_update_at {A B} (ks : list A) (rs : list B) pos k r r0 E1 E2 :
  zip ks rs = E1 ++ (k, r0) :: E2 -> pos = length E1 ->
  zip ks (<[pos := r]> rs) = E1 ++ (k, r) :: E2.
Proof.
  intros H ->. revert ks rs H. induction E1 as [|e E1 IH]; intros [|x ks] [|y rs] H; try done; cbn in *.
  - by injection H as -> _ ->.
  - injection H as -> H. f_equal. by apply IH.
Qed.

(** A leaf node that keeps its links and receives new live slots. *)
Lemma leaf_update h m par lo hi s nd nd' es : rep 0 h m (ORDER - 1) par lo hi s ->
  h !! s_root s = Some nd -> node_ok nd' -> is_leaf nd' = true -> parent nd' = parent nd ->
  next nd' = next nd -> num_keys nd <= num_keys nd' <= ORDER -> node_entries nd' = es ->
  StronglySorted ent_lt es -> Forall (key_in lo hi) es ->
  grown 0 h (<[s_root s := nd']> h) m ORDER par lo hi s (mkSub (s_root s) es (s_leaves s) (s_foot s)) es.
Proof.
  intros (Hnd & nd0 & Hn & Hok & Hpar & Hm & HO & Hleaf & He & Hs & Hr & Hl & Hf) Hn0 Hok' Hleaf' Hpar' Hnx Hnum Hes Hs' Hr'.
  rewrite Hn in Hn0. injection Hn0 as ->. pose proof (lookup_lt_Some _ _ _ Hn) as Hlt.
  split; [|split; [done|split; [done|]]].
  - split; [done|]. exists nd'. cbn [s_root s_entries s_leaves s_foot].
    rewrite list_lookup_insert_eq by done. split; [done|]. split; [done|]. split; [congruence|].
    split; [lia|]. split; [lia|]. done.
  - apply upd_local; [by rewrite length_insert| |].
    + intros a Ha HF. exists (default nd (h !! a)), (default nd (h !! a)).
      assert (a <> s_root s) by (intros ->; apply HF; rewrite Hf; set_solver).
      rewrite list_lookup_insert_ne by done. apply lookup_lt_is_Some_2 in Ha as [x ->]. done.
    + intros a x Ha Hx. rewrite Hl in Ha. assert (a = s_root s) as -> by set_solver.
      exists nd'. rewrite list_lookup_insert_eq by done. split; [done|congruence].
Qed.

(** The two branches of [leaf_insert] up to the overflow test. *)
Lemma leaf_insert_dup t p nd key row EA k r EB : node_pool_ t !! p = Some nd -> node_ok nd -> num_keys nd <= ORDER ->
  node_entries nd = EA ++ (k, r) :: EB -> lower_bound nd key = Ret (length EA) -> value_eqb k key = true ->
  let nd' := with_row_ids (<[length EA := row]> (row_ids nd)) nd in
  leaf_insert t p key row = Ret (true, with_pool (<[p := nd']> (node_pool_ t)) t) /\
  node_ok nd' /\ node_entries nd' = EA ++ (k, row) :: EB.
Proof.
  intros Hn Hok HO E Hlb Hk nd'.
  destruct (node_slot nd (length EA) (k, r)) as (Hks & Hrs & Hlt); [by rewrite E, list_lookup_middle|].
  unfold leaf_insert. rewrite Hn. outcome_simpl. rewrite Hlb. outcome_simpl.
  rewrite (proj2 (Nat.ltb_lt _ _) Hlt), Hks. outcome_simpl. cbn [fst]. rewrite Hk.
  rewrite arr_set_Ret by (by eapply lookup_lt_Some). outcome_simpl.
  unfold update_node. rewrite Hn. outcome_simpl. split; [done|]. destruct Hok as (? & ? & ?). split.
  - unfold node_ok. cbn. by rewrite length_insert.
  - unfold node_entries, live_keys in *. cbn [nd' with_row_ids num_keys keys row_ids].
    rewrite take_insert_lt by done. by eapply zip_update_at.
Qed.

Lemma leaf_insert_new t p nd key row EA EB : node_pool_ t !! p = Some nd -> node_ok nd -> num_keys nd < ORDER ->
  node_entries nd = EA ++ EB -> lower_bound nd key = Ret (length EA) ->
  (forall k r EB', EB = (k, r) :: EB' -> value_eqb k key = false) ->
  exists ks rs,
  let nd' := with_num_keys (S (num_keys nd)) (with_row_ids rs (with_keys ks nd)) in
  leaf_insert t p key row =
    (let t' := sized (u64 (size_ t + 1)) (<[p := nd']> (node_pool_ t)) t in
     if ORDER <=? num_keys nd' then t ← split_leaf t' p; Ret (true, t) else Ret (true, t')) /\
  node_ok nd' /\ node_entries nd' = EA ++ (key, row) :: EB.
Proof.
  intros Hn Hok HO E Hlb Hk. pose proof Hok as (Hlk & Hlc & Hlr).
  pose proof (node_entries_length nd Hok ltac:(lia)) as Hlen. rewrite E, length_app in Hlen.
  destruct (shift_insert (num_keys nd) (length EA) (keys nd) key) as (k1 & ks & K1 & K2 & K3 & K4); [lia|lia|].
  destruct (shift_insert (num_keys nd) (length EA) (row_ids nd) row) as (r1 & rs & R1 & R2 & R3 & R4); [lia|lia|].
  exists ks, rs. intros nd'. split; [|split].
  - unfold leaf_insert. rewrite Hn. outcome_simpl. rewrite Hlb. outcome_simpl.
    destruct EB as [|[k r] EB].
    + rewrite (proj2 (Nat.ltb_ge _ _)) by (cbn in Hlen; lia). outcome_simpl.
      rewrite K1, R1. outcome_simpl. rewrite K2, R2. outcome_simpl.
      unfold update_node. rewrite Hn. outcome_simpl. done.
    + destruct (node_slot nd (length EA) (k, r)) as (Hks & Hrs & Hlt); [by rewrite E, list_lookup_middle|].
      rewrite (proj2 (Nat.ltb_lt _ _) Hlt), Hks. outcome_simpl. cbn [fst]. rewrite (Hk k r EB eq_refl).
      rewrite K1, R1. outcome_simpl. rewrite K2, R2. outcome_simpl.
      unfold update_node. rewrite Hn. outcome_simpl. done.
  - unfold node_ok. cbn. by rewrite K3, R3.
  - unfold node_entries, live_keys in *. cbn [nd' with_num_keys with_row_ids with_keys num_keys keys row_ids].
    rewrite K4, R4, zip_insert_at, E, take_app_length, drop_app_length; [done|].
    rewrite !length_take. lia.
Qed.

(** Inserting into a leaf grows it, up to the overflow test. *)
Lemma leaf_insert_grown t m par lo hi s key row :
  rep 0 (node_pool_ t) m (ORDER - 1) par lo hi s -> P key -> in_range lo hi key ->
  exists nd1 s1 h1, grown 0 (node_pool_ t) h1 m ORDER par lo hi s s1 (assoc_insert key row (s_entries s)) /\
    h1 !! s_root s = Some nd1 /\ length h1 = length (node_pool_ t) /\
    (exists nd, node_pool_ t !! s_root s = Some nd /\ next nd1 = next nd) /\
    leaf_insert t (s_root s) key row =
      (let t' := sized (size_step t (s_entries s) (assoc_insert key row (s_entries s))) h1 t in
       if ORDER <=? num_keys nd1 then t ← split_leaf t' (s_root s); Ret (true, t) else Ret (true, t')).
Proof.
  intros Hrep Hkey Hin. pose proof Hrep as (_ & nd & Hn & Hok & Hpar & Hm & HO & Hleaf & He & Hs & Hr & _).
  assert (HP : keysP (s_entries s)) by (eapply Forall_impl; [exact Hr|]; by intros e [? _]).
  pose proof (node_entries_keys nd Hok HO) as Hk. rewrite <- He in Hk.
  destruct (lower_bound_entries nd key) as (EA & EB & E & HA & HB & Hlb); [done|done| | |done|].
  { rewrite <- Hk. by apply sorted_fst. }
  { rewrite <- Hk. by apply Forall_fmap. }
  pose proof (assoc_insert_sorted key row _ Hkey HP Hs) as Hs'.
  assert (Hr' : Forall (key_in lo hi) (assoc_insert key row (s_entries s))).
  { rewrite Forall_forall in *. intros e Hx.
    destruct (assoc_insert_in _ _ _ _ Hx) as [?|[->|(k & r & Hkr & ->)]]; [auto|done|exact (Hr _ Hkr)]. }
  pose proof (lookup_lt_Some _ _ _ Hn) as Hlt.
  set (es' := assoc_insert key row (s_entries s)) in *.
  assert (Hdup : (exists k r EB', EB = (k, r) :: EB' /\ value_eqb k key = true /\ es' = EA ++ (k, row) :: EB') \/
     ((forall k r EB', EB = (k, r) :: EB' -> value_eqb k key = false) /\ es' = EA ++ (key, row) :: EB)).
  { subst es'. rewrite He, E in HP. rewrite He, E, assoc_insert_at by done.
    destruct EB as [|[k r] EB]; [by right|]. destruct (value_eqb k key) eqn:Ek; [left; eauto 6|right].
    split; [|done]. by intros ? ? ? [= -> -> ->]. }
  clearbody es'. unfold size_step. destruct Hdup as [(k & r & EB' & -> & Ek & Ees)|[Hk' Ees]].
  - destruct (leaf_insert_dup t _ nd key row EA k r EB' Hn Hok HO E Hlb Ek) as (-> & Hok' & He').
    eexists _, _, _. split; [eapply leaf_update; try done; try (cbn; lia); by rewrite Ees|].
    rewrite list_lookup_insert_eq by done. split; [done|]. split; [by rewrite length_insert|]. split; [by exists nd|].
    cbn [num_keys with_row_ids]. rewrite (proj2 (Nat.leb_gt _ _)) by (unfold ORDER, BPTREE_ORDER in *; lia).
    rewrite Ees, He, E, !length_app. cbn [length]. by rewrite Nat.eqb_refl.
  - destruct (leaf_insert_new t _ nd key row EA EB Hn Hok ltac:(unfold ORDER, BPTREE_ORDER in *; lia) E Hlb Hk') as (ks & rs & -> & Hok' & He').
    eexists _, _, _. split; [eapply leaf_update; try done; try (cbn; unfold ORDER, BPTREE_ORDER in *; lia); by rewrite Ees|].
    rewrite list_lookup_insert_eq by done. split; [done|]. split; [by rewrite length_insert|]. split; [by exists nd|].
    rewrite Ees, He, E, !length_app. cbn [length]. by rewrite (proj2 (Nat.eqb_neq _ _)) by lia.
Qed.

(** ** Splitting a leaf *)

Lemma node_entries_take nd nl mid : num_keys nl = mid -> keys nl = keys nd -> row_ids nl = row_ids nd ->
  mid <= num_keys nd -> node_entries nl = take mid (node_entries nd).
Proof.
  intros H1 H2 H3 Hm. unfold node_entries, live_keys. rewrite H1, H2, H3, zip_with_take, !take_take.
  by rewrite Nat.min_l by done.
Qed.

Lemma node_entries_drop nd nr mid n' : num_keys nr = n' -> mid + n' = num_keys nd ->
  take n' (keys nr) = take n' (drop mid (keys nd)) -> take n' (row_ids nr) = take n' (drop mid (row_ids nd)) ->
  node_entries nr = drop mid (node_entries nd).
Proof.
  intros H1 H2 H3 H4. unfold node_entries, live_keys. rewrite H1, H3, H4, zip_with_drop.
  by rewrite !take_drop_commute, H2.
Qed.

(** [if (next) next->prev = new_leaf], the new leaf [nr] being the last node of the pool. *)
Lemma set_next_prev h nr (nx : option nat) : (forall q, nx = Some q -> is_Some (h !! q)) ->
  exists h', match nx with Some q => update_node (h ++ [nr]) q (with_prev (Some (length h))) | None => Ret (h ++ [nr]) end = Ret h' /\
    length h' = S (length h) /\ h' !! length h = Some nr /\ forall a, a < length h -> heq h h' a.
Proof.
  intros Hnext.
  assert (Hnr : (h ++ [nr]) !! length h = Some nr) by (by rewrite lookup_app_r, Nat.sub_diag by lia).
  assert (Hl : length (h ++ [nr]) = S (length h)) by (rewrite length_app; cbn; lia).
  assert (H1 : forall a, a < length h -> (h ++ [nr]) !! a = h !! a) by (intros; by rewrite lookup_app_l).
  destruct nx as [q|].
  - destruct (Hnext q eq_refl) as [nq Hnq]. assert (q < length h) by (by eapply lookup_lt_Some).
    unfold update_node. rewrite H1, Hnq by done. outcome_simpl. eexists. split; [done|].
    split; [by rewrite length_insert|]. split; [by rewrite list_lookup_insert_ne by lia|].
    intros a Ha. destruct (decide (a = q)) as [->|].
    + eexists nq, _. rewrite list_lookup_insert_eq by lia. done.
    + destruct (lookup_lt_is_Some_2 h a Ha) as [x Hx]. exists x, x.
      rewrite list_lookup_insert_ne, H1 by done. done.
  - exists (h ++ [nr]). do 3 (split; [done|]).
    intros a Ha. destruct (lookup_lt_is_Some_2 h a Ha) as [x Hx]. exists x, x. by rewrite H1.
Qed.

Lemma update_node_Some h p f nd : h !! p = Some nd -> update_node h p f = Ret (<[p := f nd]> h).
Proof. intros H. unfold update_node. by rewrite H. Qed.

Lemma lookup_two {A} (l : list A) a b x y : a < length l -> b < length l -> a <> b ->
  let l2 := <[a := x]> (<[b := y]> l) in length l2 = length l /\ l2 !! a = Some x /\ l2 !! b = Some y /\
    (forall c, c <> a -> c <> b -> l2 !! c = l !! c).
Proof.
  intros Ha Hb Hab. cbn. split; [by rewrite !length_insert|]. split; [|split].
  - apply list_lookup_insert_eq. by rewrite length_insert.
  - rewrite list_lookup_insert_ne by done. by apply list_lookup_insert_eq.
  - intros c Hc1 Hc2. by rewrite !list_lookup_insert_ne by done.
Qed.

Lemma lookup_heq (h h2 : list Node) a : a < length h -> h2 !! a = h !! a -> heq h h2 a.
Proof. intros Ha E. destruct (lookup_lt_is_Some_2 h a Ha) as [x Hx]. exists x, x. by rewrite E. Qed.

Lemma lookup_new {A} (l : list A) x : (l ++ [x]) !! length l = Some x.
Proof. by rewrite lookup_app_r, Nat.sub_diag by lia. Qed.

Lemma insert_new {A} (l : list A) x y : <[length l := y]> (l ++ [x]) = l ++ [y].
Proof. rewrite insert_app_r_alt by lia. by rewrite Nat.sub_diag. Qed.

(** The heap after the split, before the parent is told. *)
Lemma split_leaf_heap t p nd : node_pool_ t !! p = Some nd -> node_ok nd -> num_keys nd = ORDER ->
  (forall q, next nd = Some q -> is_Some (node_pool_ t !! q)) ->
  let h := node_pool_ t in let mid := ORDER / 2 in
  exists h2 nl nr k0,
    split_leaf t p = insert_into_parent (2 * length h + 4) (with_pool h2 t) p k0 (length h) /\
    length h2 = S (length h) /\ (forall a, a < length h -> a <> p -> heq h h2 a) /\
    h2 !! p = Some nl /\ with_prev None nl = with_prev None (with_next (Some (length h)) (with_num_keys mid nd)) /\
    h2 !! length h = Some nr /\ node_ok nr /\ is_leaf nr = true /\ parent nr = None /\ num_keys nr = ORDER - mid /\
    next nr = next nd /\ node_entries nr = drop mid (node_entries nd) /\ (exists r, node_entries nr !! 0 = Some (k0, r)).
Proof.
  intros Hn (Hlk & Hlc & Hlr) Hnum Hnext h mid.
  assert (Hlt : p < length h) by (by eapply lookup_lt_Some).
  assert (Hmid : mid = 128) by reflexivity. assert (HO : ORDER = 256) by reflexivity.
  assert (Hdiv : ORDER / 2 = mid) by reflexivity. clearbody mid.
  destruct (copy_from_take (ORDER - mid) mid (keys nd) (keys (Node_new true))) as (ks & K1 & K2 & K3);
    [rewrite Hlk; lia|cbn; rewrite length_replicate; lia|].
  destruct (copy_from_take (ORDER - mid) mid (row_ids nd) (row_ids (Node_new true))) as (rs & R1 & R2 & R3);
    [rewrite Hlr; lia|cbn; rewrite length_replicate; lia|].
  cbn [Node_new keys row_ids] in K2, R2. rewrite length_replicate in K2. rewrite length_replicate in R2.
  set (nr := with_prev (Some p) (with_next (next nd)
              (with_num_keys (ORDER - mid) (with_row_ids rs (with_keys ks (Node_new true)))))).
  assert (Hents : node_entries nr = drop mid (node_entries nd)).
  { eapply node_entries_drop; [reflexivity|cbn; lia|done|done]. }
  assert (Hok : node_ok nr) by (unfold node_ok; cbn; rewrite K2, R2, length_replicate; done).
  destruct (lookup_lt_is_Some_2 (node_entries nr) 0) as [[k0 r0] Hk0].
  { rewrite node_entries_length; [cbn; lia|done|cbn; lia]. }
  destruct (node_slot _ _ _ Hk0) as (Hks0 & _ & _). cbn [nr with_prev with_next with_num_keys with_row_ids with_keys keys fst] in Hks0.
  destruct (set_next_prev h nr (next nd) Hnext) as (h1' & Hq & Hlen1 & Hnr & Hheq).
  destruct (Hheq p Hlt) as (ndp & np & Hndp & Hnp & Enp). fold h in Hn. rewrite Hn in Hndp. injection Hndp as <-.
  exists (<[p := with_next (Some (length h)) (with_num_keys mid np)]> h1'), (with_next (Some (length h)) (with_num_keys mid np)), nr, k0.
  split.
  { unfold split_leaf, alloc_node. cbn [with_pool node_pool_]. fold h. rewrite (lookup_app_l _ _ p), Hn by done. outcome_simpl.
    rewrite lookup_new. outcome_simpl. rewrite Hnum, Hdiv, K1, R1. outcome_simpl.
    rewrite (update_node_Some _ _ _ (Node_new true)) by apply lookup_new. outcome_simpl.
    fold nr. rewrite insert_new, Hq. outcome_simpl.
    rewrite (update_node_Some _ _ _ np Hnp). outcome_simpl. rewrite Hks0. outcome_simpl.
    unfold split_fuel. cbn [with_pool node_pool_]. rewrite length_app. cbn [length].
    by replace (2 * (length h + 1) + 2) with (2 * length h + 4) by lia. }
  split; [rewrite length_insert; lia|]. split; [|split; [|split; [|split]]].
  - intros a Ha Hap. destruct (Hheq a Ha) as (x & y & ? & ? & ?). exists x, y.
    by rewrite list_lookup_insert_ne by done.
  - by rewrite list_lookup_insert_eq by lia.
  - apply eqp_fields in Enp as (E1 & E2 & E3 & E4 & E5 & E6 & E7). unfold with_prev, with_next, with_num_keys. cbn. congruence.
  - by rewrite list_lookup_insert_ne by lia.
  - do 6 (split; [done|]). eauto.
Qed.

(** The two halves of a sorted list of entries, on either side of the first
    key of the second half. *)
Lemma sorted_halves lo hi E1 k r E2 : StronglySorted ent_lt (E1 ++ (k, r) :: E2) ->
  Forall (key_in lo hi) (E1 ++ (k, r) :: E2) -> E1 <> [] -> oP lo -> oP hi ->
  P k /\ olt lo (Some k) /\ olt (Some k) hi /\ StronglySorted ent_lt E1 /\ StronglySorted ent_lt ((k, r) :: E2) /\
  Forall (key_in lo (Some k)) E1 /\ Forall (key_in (Some k) hi) ((k, r) :: E2).
Proof.
  intros Hs Hin HE Hlo Hhi.
  assert (Hsub : StronglySorted ent_lt E1 /\ StronglySorted ent_lt ((k, r) :: E2) /\
                 forall x, x ∈ E1 -> ent_lt x (k, r)).
  { clear Hin HE. induction E1 as [|e E1 IH]; cbn in Hs; [split; [constructor|]; split; [done|set_solver]|].
    apply StronglySorted_inv in Hs as [Hs He]. destruct (IH Hs) as (H1 & H2 & H3).
    apply Forall_app in He as [He1 He2]. apply Forall_cons in He2 as [He2 _].
    split; [by constructor|]. split; [done|]. intros x Hx. assert (x = e \/ x ∈ E1) as [->|] by set_solver; auto. }
  destruct Hsub as (H1 & H2 & H3). apply Forall_app in Hin as [Hin1 Hin2].
  rewrite Forall_forall in Hin1. rewrite Forall_forall in Hin2.
  destruct (Hin2 (k, r)) as [Hk [_ Hkhi]]; [set_solver|]. cbn in Hk, Hkhi.
  split; [done|]. split; [|split; [|do 2 (split; [done|])]].
  - destruct lo as [l|]; [|done]. destruct E1 as [|e E1]; [done|].
    destruct (Hin1 e) as [He [Hle _]]; [set_solver|]. cbn in Hle. 
    apply (leb_ltb_trans l e.1 k); [done|done|done|done|]. apply (H3 e). set_solver.
  - destruct hi; [|done]. done.
  - split; apply Forall_forall; intros e He.
    + destruct (Hin1 e He) as [HP [Hle _]]. split; [done|]. split; [done|]. by apply (H3 e).
    + destruct (Hin2 e He) as [HP [_ Hlt]]. split; [done|]. split; [|done].
      assert (e = (k, r) \/ e ∈ E2) as [->|He'] by set_solver; [by apply ko_irrefl|].
      apply StronglySorted_inv in H2 as [_ H2]. rewrite Forall_forall in H2. apply ltb_asym; auto. exact (H2 e He').
Qed.

Lemma split_leaf_cut t m par lo hi s : rep 0 (node_pool_ t) m ORDER par lo hi s -> oP lo -> oP hi ->
  (exists nd, node_pool_ t !! s_root s = Some nd /\ ORDER <= num_keys nd /\
     forall q, next nd = Some q -> is_Some (node_pool_ t !! q)) ->
  exists h2 k sl sr,
    split_leaf t (s_root s) = insert_into_parent (2 * length (node_pool_ t) + 4) (with_pool h2 t) (s_root s) k (s_root sr) /\
    cut 0 (node_pool_ t) h2 par lo hi s k sl sr (s_entries s).
Proof.
  intros (Hnd & nd & Hn & Hok & Hpar & Hm & HO & Hleaf & He & Hs & Hr & Hl & Hf) Hlo Hhi (nd0 & Hn0 & Hge & Hnext).
  rewrite Hn in Hn0. injection Hn0 as <-. assert (Hnum : num_keys nd = ORDER) by lia.
  destruct (split_leaf_heap t (s_root s) nd Hn Hok Hnum Hnext) as
    (h2 & nl & nr & k0 & Hsplit & Hlen & Hheq & Hnl & Enl & Hnr & Hokr & Hleafr & Hparr & Hnumr & Hnxr & Her & r & Hk0).
  assert (HO' : ORDER = 256) by reflexivity. assert (Hmid : ORDER / 2 = 128) by reflexivity.
  assert (Hmin : MIN_KEYS = 127) by reflexivity. rewrite Hmid in *.
  apply eqp_fields in Enl as (Enl1 & Enl2 & Enl3 & Enl4 & Enl5 & Enl6 & Enl7). cbn in *.
  assert (Hel : node_entries nl = take 128 (node_entries nd)) by (apply node_entries_take; [done..|lia]).
  pose proof (take_drop 128 (node_entries nd)) as Etd. rewrite <- Her, <- Hel in Etd.
  destruct (node_entries nr) as [|e0 E2] eqn:Er; [done|]. cbn in Hk0. injection Hk0 as ->.
  rewrite He, <- Etd in Hs, Hr.
  assert (Hel0 : node_entries nl <> []).
  { rewrite Hel. intros E. apply (f_equal length) in E. rewrite length_take, node_entries_length in E by done. cbn [length] in E. lia. }
  destruct (sorted_halves lo hi _ k0 r E2 Hs Hr Hel0 Hlo Hhi) as (Hk & Hklo & Hkhi & Hs1 & Hs2 & Hin1 & Hin2).
  pose proof (lookup_lt_Some _ _ _ Hn) as Hlt.
  exists h2, k0, (mkSub (s_root s) (node_entries nl) [s_root s] [s_root s]),
    (mkSub (length (node_pool_ t)) (node_entries nr) [length (node_pool_ t)] [length (node_pool_ t)]).
  split; [exact Hsplit|]. do 3 (split; [done|]). split; [|split; [|split; [done|split; [|split]]]].
  - split; [apply NoDup_singleton|]. exists nl. cbn. split; [done|].
    split; [destruct Hok as (? & ? & ?); unfold node_ok; rewrite Enl3, Enl4, Enl5; done|].
    split; [congruence|]. split; [lia|]. split; [lia|]. split; [congruence|]. done.
  - split; [apply NoDup_singleton|]. exists nr. cbn. rewrite Er. split; [done|]. split; [done|]. split; [done|].
    split; [lia|]. split; [lia|]. done.
  - cbn. by rewrite He, Er, Etd.
  - apply NoDup_cons. split; [|apply NoDup_singleton]. cbn. rewrite list_elem_of_singleton. lia.
  - rewrite Hf, Hl. cbn. split; [lia|]. split; [|split; [|split; [done|]]].
    + intros a Ha HF. apply Hheq; [done|]. by intros ->; apply HF, list_elem_of_singleton.
    + intros a [->|Ha]%elem_of_cons; [left; by apply list_elem_of_singleton|].
      apply list_elem_of_singleton in Ha. right. lia.
    + intros nx [(nd0 & Hn0 & E) _]. rewrite Hn in Hn0. injection Hn0 as <-.
      split; [exists nl; split; [done|exact Enl6]|]. split; [exists nr; split; [done|congruence]|done].
Qed.

(** ** Replacing a child by one or two children *)

Definition join (r : nat) (ss : list sub) : sub :=
  mkSub r (concat (s_entries <$> ss)) (concat (s_leaves <$> ss)) (r :: concat (s_foot <$> ss)).

Lemma rep_join n h m M par lo hi s : rep (S n) h m M par lo hi s -> exists nd ss,
  s = join (s_root s) ss /\ h !! s_root s = Some nd /\ node_ok nd /\ parent nd = par /\
  m <= num_keys nd <= M /\ num_keys nd <= ORDER /\ is_leaf nd = false /\ 1 <= num_keys nd /\
  take (S (num_keys nd)) (children nd) = (Some ∘ s_root) <$> ss /\
  reps (rep n h MIN_KEYS (ORDER - 1) (Some (s_root s))) lo (live_keys nd) ss hi /\
  NoDup (s_foot s) /\ (forall a, a ∈ s_foot s -> a < length h) /\
  (forall x, x ∈ ss -> s_leaves x <> [] /\ s_leaves x ⊆ s_foot x).
Proof.
  intros Hrep. pose proof Hrep as (Hnd & nd & Hn & Hok & Hpar & Hm & HO & Hleaf & H1 & ss & Hch & Hr & He & Hl & Hf).
  exists nd, ss. split; [destruct s; unfold join; cbn in *; congruence|]. do 9 (split; [done|]). split; [done|]. split.
  - intros a Ha. eapply lookup_lt_is_Some_1, rep_foot_Some; eauto.
  - intros x Hx. destruct (reps_elem _ _ _ _ _ _ Hr Hx) as (a & b & HR). split.
    + destruct (rep_leaves_cons _ _ _ _ _ _ _ _ HR) as (p & ls & ->). done.
    + intros q Hq. by eapply rep_leaves_foot.
Qed.

Lemma foot_middle r ss1 c ss2 : s_foot (join r (ss1 ++ c :: ss2)) =
  r :: concat (s_foot <$> ss1) ++ s_foot c ++ concat (s_foot <$> ss2).
Proof. cbn. by rewrite fmap_app, concat_app. Qed.

Lemma join_replace h h2 r ss1 c ss2 cs' : let s := join r (ss1 ++ c :: ss2) in let s' := join r (ss1 ++ cs' ++ ss2) in
  NoDup (s_foot s) -> (forall a, a ∈ s_foot s -> a < length h) ->
  (forall x, x ∈ ss1 ++ c :: ss2 -> s_leaves x <> [] /\ s_leaves x ⊆ s_foot x) ->
  NoDup (concat (s_foot <$> cs')) -> concat (s_leaves <$> cs') <> [] ->
  (forall a, a ∈ concat (s_foot <$> cs') -> a ∈ s_foot c \/ length h <= a) ->
  upd h h2 (r :: s_foot c) (s_leaves c) (r :: concat (s_foot <$> cs')) (concat (s_leaves <$> cs')) ->
  NoDup (s_foot s') /\ upd h h2 (s_foot s) (s_leaves s) (s_foot s') (s_leaves s').
Proof.
  intros s s' Hnd Hlt HL Hnd' Hne Hfresh Hu. subst s s'. rewrite foot_middle in *. cbn [join s_foot s_leaves].
  rewrite !fmap_app, !concat_app, fmap_cons. cbn [concat].
  set (A := concat (s_foot <$> ss1)) in *. set (B := concat (s_foot <$> ss2)) in *.
  apply NoDup_cons in Hnd as [Hr Hnd]. rewrite !elem_of_app in Hr.
  apply NoDup_app in Hnd as (HA & HAB & Hnd). apply NoDup_app in Hnd as (HC & HCB & HB).
  assert (HltA : forall a, a ∈ A -> a < length h) by (intros; apply Hlt; rewrite elem_of_cons, !elem_of_app; tauto).
  assert (HltB : forall a, a ∈ B -> a < length h) by (intros; apply Hlt; rewrite elem_of_cons, !elem_of_app; tauto).
  assert (Hltr : r < length h) by (apply Hlt, elem_of_cons; by left).
  split.
  - apply NoDup_cons. split.
    { rewrite !elem_of_app. intros [?|[Hc|?]]; [tauto| |tauto]. destruct (Hfresh r Hc); [tauto|lia]. }
    apply NoDup_app. split; [done|]. split.
    { intros a Ha. rewrite elem_of_app. intros [Hc|Hb].
      - destruct (Hfresh a Hc) as [?|?]; [|specialize (HltA a Ha); lia].
        apply (HAB a Ha). rewrite elem_of_app. tauto.
      - apply (HAB a Ha). rewrite elem_of_app. tauto. }
    apply NoDup_app. split; [done|]. split; [|done].
    intros a Hc Hb. destruct (Hfresh a Hc) as [?|?]; [by apply (HCB a)|specialize (HltB a Hb); lia].
  - apply upd_context; [|by apply HL; set_solver|done|done].
    assert (Hsub : forall a ss, ss ⊆ ss1 ++ c :: ss2 -> a ∈ concat (s_leaves <$> ss) -> a ∈ concat (s_foot <$> ss)).
    { intros a ss Hss (x & Hx & Ha)%elem_of_concat_fmap. apply elem_of_concat_fmap. exists x. split; [done|].
      apply (HL x); auto. }
    intros a [Ha|Ha]%elem_of_app; (apply Hsub in Ha; [|set_solver]).
    + split; [auto|]. rewrite elem_of_cons. intros [->|Hc]; [tauto|]. apply (HAB a Ha). rewrite elem_of_app. tauto.
    + split; [auto|]. rewrite elem_of_cons. intros [->|Hc]; [tauto|]. by apply (HCB a).
Qed.

(** The roots and the footprints of a node's children. *)
Lemma roots_nodup ss : NoDup (concat (s_foot <$> ss)) -> (forall x, x ∈ ss -> s_root x ∈ s_foot x) ->
  NoDup (s_root <$> ss).
Proof.
  intros Hnd Hroots. induction ss as [|x ss IH]; [constructor|]. cbn in *.
  apply NoDup_app in Hnd as (_ & Hdis & Hnd). apply NoDup_cons. split.
  - intros (y & E & Hy)%list_elem_of_fmap. apply (Hdis (s_root x)); [apply Hroots; set_solver|].
    apply elem_of_concat_fmap. exists y. split; [done|]. rewrite E. apply Hroots. set_solver.
  - apply IH; [done|]. intros. apply Hroots. set_solver.
Qed.

(** An inner node, seen from its child [c]. *)
Record node_ctx (n : nat) (h : list Node) (m : nat) (par lo hi : option _) (r : nat) (nd : Node)
    (ks1 ks2 : list Value) (ss1 : list sub) (c : sub) (ss2 : list sub) : Prop := {
  nc_node : h !! r = Some nd;
  nc_ok : node_ok nd;
  nc_parent : parent nd = par;
  nc_num : m <= num_keys nd <= ORDER - 1;
  nc_inner : is_leaf nd = false;
  nc_one : 1 <= num_keys nd;
  nc_keys : live_keys nd = ks1 ++ ks2;
  nc_len : length ks1 = length ss1;
  nc_children : take (S (num_keys nd)) (children nd) = (Some ∘ s_root) <$> ss1 ++ c :: ss2;
  nc_reps : reps (rep n h MIN_KEYS (ORDER - 1) (Some r)) lo (ks1 ++ ks2) (ss1 ++ c :: ss2) hi;
  nc_nodup : NoDup (s_foot (join r (ss1 ++ c :: ss2)));
  nc_lt : forall a, a ∈ s_foot (join r (ss1 ++ c :: ss2)) -> a < length h;
  nc_leaves : forall x, x ∈ ss1 ++ c :: ss2 -> s_leaves x <> [] /\ s_leaves x ⊆ s_foot x;
}.

Section ctx.
Context {n h m par lo hi r nd ks1 ks2 ss1 c ss2} (C : node_ctx n h m par lo hi r nd ks1 ks2 ss1 c ss2).

Lemma nc_root : r < length h /\ r ∉ s_foot c.
Proof.
  pose proof (nc_nodup _ _ _ _ _ _ _ _ _ _ _ _ _ C) as Hnd. split.
  - apply (nc_lt _ _ _ _ _ _ _ _ _ _ _ _ _ C), elem_of_cons. by left.
  - rewrite foot_middle in Hnd. apply NoDup_cons in Hnd as [Hr _]. rewrite !elem_of_app in Hr. tauto.
Qed.

Lemma nc_sibling x a : x ∈ ss1 ++ ss2 -> a ∈ s_foot x -> a < length h /\ a ∉ s_foot c /\ a <> r.
Proof.
  intros Hx Ha. pose proof (nc_nodup _ _ _ _ _ _ _ _ _ _ _ _ _ C) as Hnd. rewrite foot_middle in Hnd.
  assert (Hin : a ∈ concat (s_foot <$> ss1) \/ a ∈ concat (s_foot <$> ss2)).
  { apply elem_of_app in Hx as [Hx|Hx]; [left|right]; apply elem_of_concat_fmap; eauto. }
  split.
  { apply (nc_lt _ _ _ _ _ _ _ _ _ _ _ _ _ C). rewrite foot_middle, elem_of_cons, !elem_of_app. tauto. }
  apply NoDup_cons in Hnd as [Hr Hnd]. rewrite !elem_of_app in Hr.
  apply NoDup_app in Hnd as (_ & HAB & Hnd). apply NoDup_app in Hnd as (_ & HCB & _).
  split; [|intros ->; tauto]. intros Hc. destruct Hin as [Hin|Hin].
  - apply (HAB a Hin). rewrite elem_of_app. tauto.
  - by apply (HCB a).
Qed.

(** The siblings are untouched by a change that spares them. *)
Lemma nc_sibling_rep h2 (F : list nat) a b x : x ∈ ss1 ++ ss2 -> (forall y, y ∈ F -> y ∈ s_foot c \/ y = r \/ length h <= y) ->
  (forall y, y < length h -> y ∉ F -> heq h h2 y) ->
  rep n h MIN_KEYS (ORDER - 1) (Some r) a b x -> rep n h2 MIN_KEYS (ORDER - 1) (Some r) a b x.
Proof.
  intros Hx HF Hheq HR. eapply rep_heq; [exact HR|]. intros y Hy.
  destruct (nc_sibling x y Hx Hy) as (? & ? & ?). apply Hheq; [done|].
  intros Hin. destruct (HF y Hin) as [?|[?|?]]; [tauto|tauto|lia].
Qed.

Lemma grown_child h' c' ec : grown n h h' MIN_KEYS (ORDER - 1) (Some r) (lo_of lo ks1) (hi_of ks2 hi) c c' ec ->
  grown (S n) h h' m (ORDER - 1) par lo hi (join r (ss1 ++ c :: ss2)) (join r (ss1 ++ c' :: ss2))
    (concat (s_entries <$> ss1) ++ ec ++ concat (s_entries <$> ss2)).
Proof.
  intros (Hc' & Hroot & Hec & Hu). destruct C as [Hn Hok Hpar Hm Hin H1 Hks Hlen Hch Hreps Hnd Hlt HL].
  pose proof nc_root as [Hr Hrc]. pose proof Hu as (Hlen' & Hheq & Hfresh & _).
  destruct (Hheq r Hr Hrc) as (nd0 & nd' & Hn0 & Hn' & E). rewrite Hn in Hn0. injection Hn0 as <-.
  apply eqp_fields in E as (E1 & E2 & E3 & E4 & E5 & E6 & E7).
  destruct (join_replace h h' r ss1 c ss2 [c']) as [Hnd' Hu']; try done.
  { cbn. rewrite app_nil_r. by destruct n; apply Hc'. }
  { cbn. rewrite app_nil_r. by destruct (rep_leaves_cons _ _ _ _ _ _ _ _ Hc') as (p & ls & ->). }
  { intros a. cbn. rewrite app_nil_r. apply Hfresh. }
  { cbn. rewrite !app_nil_r. by apply upd_cons. }
  split; [|split; [done|split; [|done]]].
  - split; [done|]. exists nd'. cbn [join s_root s_entries s_leaves s_foot]. unfold node_ok, live_keys in *.
    rewrite E1, E2, E3, E4, E5, E7. do 3 (split; [done|]). split; [lia|]. split; [lia|]. split; [done|].
    split; [done|]. exists (ss1 ++ c' :: ss2). split; [|split; [|done]].
    + rewrite Hch, !fmap_app, !fmap_cons. cbn. by rewrite Hroot.
    + rewrite Hks. eapply reps_replace; [exact Hlen|exact Hreps| |exact Hc'].
      intros a b x Hx. apply (nc_sibling_rep h' (s_foot c)); auto.
  - cbn [join s_entries]. rewrite fmap_app, concat_app, fmap_cons. cbn [concat]. by rewrite Hec.
Qed.

Lemma nc_roots_nodup : NoDup (s_root <$> ss1 ++ c :: ss2).
Proof.
  pose proof (nc_nodup _ _ _ _ _ _ _ _ _ _ _ _ _ C) as Hnd. pose proof (nc_reps _ _ _ _ _ _ _ _ _ _ _ _ _ C) as Hr.
  cbn in Hnd. apply NoDup_cons in Hnd as [_ Hnd]. apply roots_nodup; [done|].
  intros x Hx. destruct (reps_elem _ _ _ _ _ _ Hr Hx) as (a & b & HR). by eapply rep_root_foot.
Qed.

(** One step of [insert_into_parent] below the root. *)
Lemma insert_parent_heap fuel t k right nd1 lnd rnd : 
  Some (s_root c) <> root_ t -> node_pool_ t !! s_root c = Some lnd -> parent lnd = Some r ->
  node_pool_ t !! r = Some nd1 -> with_prev None nd1 = with_prev None nd ->
  node_pool_ t !! right = Some rnd -> right <> r ->
  exists ks cs, let nd2 := with_num_keys (S (num_keys nd)) (with_children cs (with_keys ks nd1)) in
    let t2 := with_pool (<[r := nd2]> (<[right := with_parent (Some r) rnd]> (node_pool_ t))) t in
    length ks = ORDER /\ length cs = S ORDER /\
    take (S (num_keys nd)) ks = ks1 ++ k :: ks2 /\
    take (S (S (num_keys nd))) cs = ((Some ∘ s_root) <$> ss1) ++ [Some (s_root c); Some right] ++ ((Some ∘ s_root) <$> ss2) /\
    insert_into_parent (S fuel) t (s_root c) k right =
      (if ORDER <=? S (num_keys nd) then split_internal fuel t2 r else Ret t2).
Proof.
  intros Hroot Hl Hlpar Hn1 E Hright Hne. destruct C as [Hn Hok Hpar Hm Hin H1 Hks Hlen Hch Hreps Hnd Hlt HL].
  apply eqp_fields in E as (E1 & E2 & E3 & E4 & E5 & E6 & E7). destruct Hok as (Hlk & Hlc & Hlr).
  assert (HO : ORDER = 256) by reflexivity. pose proof (reps_length _ _ _ _ _ Hreps) as Hss.
  assert (HN : length (ks1 ++ ks2) = num_keys nd) by (rewrite <- Hks; unfold live_keys; rewrite length_take; lia).
  assert (Hfc : find_child (S (num_keys nd)) (children nd) (s_root c) 0 = Ret (length ks1)).
  { rewrite (find_child_spec (s_root <$> ss1 ++ c :: ss2) (children nd) (s_root c) (length ks1)); [done|..].
    - rewrite length_fmap, Hss, drop_0, HN, Hch, <- list_fmap_compose. done.
    - apply nc_roots_nodup.
    - rewrite Hlen, fmap_app, fmap_cons. apply list_lookup_middle. by rewrite length_fmap.
    - rewrite length_fmap. lia. }
  assert (Hpos : length ks1 <= num_keys nd) by (rewrite <- HN, length_app; lia).
  destruct (shift_insert (num_keys nd) (length ks1) (keys nd) k) as (k1 & ks & K1 & K2 & K3 & K4); [done|lia|].
  destruct (shift_insert (S (num_keys nd)) (S (length ks1)) (children nd) (Some right)) as (c1 & cs & C1 & C2 & C3 & C4); [lia|lia|].
  exists ks, cs. intros nd2 t2. split; [congruence|]. split; [congruence|]. split; [|split].
  - rewrite K4. fold (live_keys nd). by rewrite Hks, take_app_length, drop_app_length.
  - rewrite C4, Hch, Hlen, fmap_app, fmap_cons. cbn [app].
    replace (S (length ss1)) with (length (((Some ∘ s_root) <$> ss1) ++ [(Some ∘ s_root) c]))
      by (rewrite length_app, length_fmap; cbn; lia).
    change ((Some ∘ s_root) c :: ((Some ∘ s_root) <$> ss2)) with ([(Some ∘ s_root) c] ++ ((Some ∘ s_root) <$> ss2)).
    rewrite app_assoc, take_app_length, drop_app_length, <- app_assoc. done.
  - cbn [insert_into_parent]. rewrite bool_decide_false by done. rewrite Hl. outcome_simpl. rewrite Hlpar. outcome_simpl.
    rewrite (update_node_Some _ _ _ _ Hright). outcome_simpl.
    rewrite list_lookup_insert_ne by done. rewrite Hn1. outcome_simpl. rewrite E2, E4, E3, Hfc. outcome_simpl.
    rewrite K1. outcome_simpl.
    replace (num_keys nd - length ks1) with (S (num_keys nd) - S (length ks1)) by lia. rewrite C1. outcome_simpl.
    rewrite K2. outcome_simpl. rewrite C2. outcome_simpl.
    rewrite (update_node_Some _ r _ nd1) by (by rewrite list_lookup_insert_ne). outcome_simpl. done.
Qed.

Lemma rep_root n' h' m' M' par' lo' hi' s : rep n' h' m' M' par' lo' hi' s ->
  exists nd', h' !! s_root s = Some nd' /\ parent nd' = par' /\ NoDup (s_foot s).
Proof. destruct n'; intros (? & nd' & ? & ? & ? & _); eauto. Qed.

(** The halves of a cut child once the right one hangs below [r]. *)
Lemma attach_halves h1 h2 k sl sr ec rnd : let F := s_foot sl ++ s_foot sr in let L := s_leaves sl ++ s_leaves sr in
  cut n h h1 (Some r) (lo_of lo ks1) (hi_of ks2 hi) c k sl sr ec -> r ∉ F -> length h2 = length h1 ->
  h1 !! s_root sr = Some rnd -> h2 !! s_root sr = Some (with_parent (Some r) rnd) ->
  (forall a, a <> r -> a <> s_root sr -> h2 !! a = h1 !! a) ->
  rep n h2 MIN_KEYS (ORDER - 1) (Some r) (lo_of lo ks1) (Some k) sl /\
  rep n h2 MIN_KEYS (ORDER - 1) (Some r) (Some k) (hi_of ks2 hi) sr /\
  upd h h2 (r :: s_foot c) (s_leaves c) (r :: F) L.
Proof.
  intros F L (Hk & Hklo & Hkhi & Hsl & Hsr & Hrl & Hec & Hndlr & Hu) Hfr Hl2 Hrnd Hr2 Ho2.
  pose proof (rep_root_foot _ _ _ _ _ _ _ _ Hsr) as Hrf.
  assert (Hq2 : forall a, a < length h1 -> a <> r -> a <> s_root sr -> heq h1 h2 a) by (intros; apply lookup_heq; auto).
  split; [|split].
  - eapply rep_heq; [exact Hsl|]. intros a Ha. apply Hq2.
    + eapply lookup_lt_is_Some_1, rep_foot_Some; [exact Hsl|done].
    + intros ->. apply Hfr, elem_of_app. by left.
    + intros ->. apply NoDup_app in Hndlr as (_ & Hdis & _). by apply (Hdis (s_root sr)).
  - eapply rep_frame; [exact Hsr| |].
    + intros a Ha Har. apply Hq2; [eapply lookup_lt_is_Some_1, rep_foot_Some; [exact Hsr|done]| |done].
      intros ->. apply Hfr, elem_of_app. by right.
    + eexists rnd, _. split; [done|]. by split.
  - eapply upd_trans; [by apply upd_cons|]. apply upd_local; [done| |].
    + intros a Ha Hna. rewrite elem_of_cons in Hna. apply Hq2; [done|tauto|].
      intros ->. apply Hna. right. apply elem_of_app. by right.
    + intros a x Ha Hx. assert (Haf : a ∈ F).
      { apply elem_of_app in Ha as [Ha|Ha]; apply elem_of_app; [left|right]; by eapply rep_leaves_foot. }
      assert (a <> r) by (by intros ->). destruct (decide (a = s_root sr)) as [->|Ha2].
      * rewrite Hrnd in Hx. injection Hx as <-. eauto.
      * exists x. by rewrite Ho2.
Qed.

Lemma insert_parent_step fuel t k sl sr ec : Some (s_root c) <> root_ t ->
  cut n h (node_pool_ t) (Some r) (lo_of lo ks1) (hi_of ks2 hi) c k sl sr ec ->
  exists h2 nd2 s', h2 !! r = Some nd2 /\
    insert_into_parent (S fuel) t (s_root c) k (s_root sr) =
      (if ORDER <=? num_keys nd2 then split_internal fuel (with_pool h2 t) r else Ret (with_pool h2 t)) /\
    s_root s' = r /\
    grown (S n) h h2 m ORDER par lo hi (join r (ss1 ++ c :: ss2)) s'
      (concat (s_entries <$> ss1) ++ ec ++ concat (s_entries <$> ss2)).
Proof.
  intros Hroot Hcut. pose proof Hcut as (Hk & Hklo & Hkhi & Hsl & Hsr & Hrl & Hec & Hndlr & Hu). set (h1 := node_pool_ t) in *.
  pose proof nc_root as [Hr Hrc]. pose proof Hu as (Hlen1 & Hheq & Hfresh & Hhead & Hch1).
  assert (Hfr : r ∉ s_foot sl ++ s_foot sr) by (intros Hx; destruct (Hfresh r Hx); [done|lia]).
  destruct (rep_root _ _ _ _ _ _ _ _ Hsl) as (lnd & Hlnd & Hlpar & _). rewrite Hrl in Hlnd.
  destruct (rep_root _ _ _ _ _ _ _ _ Hsr) as (rnd & Hrnd & Hrpar & Hndr).
  pose proof (rep_root_foot _ _ _ _ _ _ _ _ Hsr) as Hrf.
  assert (Hne : s_root sr <> r) by (intros <-; apply Hfr, elem_of_app; by right).
  destruct (Hheq r Hr Hrc) as (nd0 & nd1 & Hn0 & Hn1 & E). rewrite (nc_node _ _ _ _ _ _ _ _ _ _ _ _ _ C) in Hn0. injection Hn0 as <-.
  destruct (insert_parent_heap fuel t k (s_root sr) nd1 lnd rnd Hroot Hlnd Hlpar Hn1 E Hrnd Hne)
    as (ks & cs & Hlks & Hlcs & Hks' & Hcs' & Hstep). cbv zeta in Hstep. fold h1 in Hstep.
  set (nd2 := with_num_keys (S (num_keys nd)) (with_children cs (with_keys ks nd1))) in *.
  set (h2 := <[r := nd2]> (<[s_root sr := with_parent (Some r) rnd]> h1)) in *.
  assert (Hrl1 : r < length h1) by lia. pose proof (lookup_lt_Some _ _ _ Hrnd) as Hsrl.
  destruct (lookup_two h1 r (s_root sr) nd2 (with_parent (Some r) rnd) Hrl1 Hsrl (not_eq_sym Hne)) as (Hl2 & Hn2 & Hr2 & Ho2).
  fold h2 in Hl2, Hn2, Hr2, Ho2.
  assert (Hq2 : forall a, a < length h1 -> a <> r -> a <> s_root sr -> heq h1 h2 a) by (intros; apply lookup_heq; auto).
  destruct C as [Hn Hok Hpar Hm Hin H1 Hks Hlen Hch Hreps Hnd Hlt HL].
  apply eqp_fields in E as (E1 & E2 & E3 & E4 & E5 & E6 & E7).
  destruct (attach_halves h1 h2 k sl sr ec rnd Hcut Hfr Hl2 Hrnd Hr2 Ho2) as (Hsl2 & Hsr2 & Hu2).
  destruct (join_replace h h2 r ss1 c ss2 [sl; sr]) as [Hnd' Hu']; try done.
  { cbn. by rewrite app_nil_r. }
  { cbn. by destruct (rep_leaves_cons _ _ _ _ _ _ _ _ Hsl) as (p & ls & ->). }
  { intros a. cbn. rewrite app_nil_r. apply Hfresh. }
  { cbn. by rewrite !app_nil_r. }
  exists h2, nd2, (join r (ss1 ++ [sl; sr] ++ ss2)). split; [done|]. split; [exact Hstep|]. split; [done|].
  split; [|split; [done|split; [|done]]].
  - split; [done|]. exists nd2. cbn [join s_root s_entries s_leaves s_foot].
    destruct Hok as (? & ? & ?). split; [done|].
    split; [unfold node_ok; cbn; by rewrite Hlks, Hlcs, E5|]. split; [cbn; congruence|].
    split; [cbn; unfold ORDER, BPTREE_ORDER in *; lia|]. split; [cbn; unfold ORDER, BPTREE_ORDER in *; lia|].
    split; [cbn; congruence|]. split; [cbn; lia|]. exists (ss1 ++ [sl; sr] ++ ss2). split; [|split; [|done]].
    + cbn [nd2 with_num_keys with_children with_keys num_keys children]. rewrite Hcs', !fmap_app. cbn. by rewrite Hrl.
    + unfold live_keys. cbn [nd2 with_num_keys with_children with_keys num_keys keys]. rewrite Hks'.
      eapply reps_split2; [exact Hlen|exact Hreps| |exact Hk|exact Hklo|exact Hkhi|exact Hsl2|exact Hsr2].
      intros a b x Hx. apply (nc_sibling_rep h2 (r :: s_foot c ++ s_foot sr)).
      * done.
      * intros y. rewrite elem_of_cons, elem_of_app. intros [->|[?|Hy]]; [auto|auto|].
        destruct (Hfresh y); [apply elem_of_app; by right|auto|auto].
      * intros y Hy Hny. rewrite elem_of_cons, elem_of_app in Hny.
        eapply heq_trans; [apply Hheq; [done|tauto]|]. apply Hq2; [lia|tauto|]. intros ->. tauto.
  - cbn [join s_entries]. rewrite !fmap_app, !concat_app. cbn [fmap list_fmap concat]. by rewrite app_nil_r, Hec.
Qed.
End ctx.

(** ** Splitting an inner node *)

Lemma set_parents_spec p addrs : forall pool, NoDup addrs -> (forall a, a ∈ addrs -> a < length pool) ->
  exists pool', set_parents pool p (Some <$> addrs) = Ret pool' /\ length pool' = length pool /\
    (forall a, a ∈ addrs -> pool' !! a = with_parent (Some p) <$> pool !! a) /\
    (forall a, a ∉ addrs -> pool' !! a = pool !! a).
Proof.
  induction addrs as [|c addrs IH]; intros pool Hnd Hlt.
  { exists pool. do 2 (split; [done|]). split; [|done]. by intros a ?%not_elem_of_nil. }
  apply NoDup_cons in Hnd as [Hc Hnd]. cbn [fmap list_fmap set_parents].
  assert (Hcl : c < length pool) by (apply Hlt, elem_of_cons; by left).
  destruct (lookup_lt_is_Some_2 pool c) as [x Hx]; [done|].
  rewrite (update_node_Some _ _ _ x Hx). outcome_simpl.
  destruct (IH (<[c := with_parent (Some p) x]> pool) Hnd) as (pool' & -> & Hl & Hin & Hout).
  { intros a Ha. rewrite length_insert. apply Hlt, elem_of_cons. by right. }
  rewrite length_insert in Hl. exists pool'. split; [done|]. split; [done|]. split.
  - intros a [->|Ha]%elem_of_cons.
    + rewrite Hout by done. by rewrite list_lookup_insert_eq, Hx by done.
    + rewrite Hin by done. assert (a <> c) by (by intros ->). by rewrite list_lookup_insert_ne by done.
  - intros a Ha. rewrite elem_of_cons in Ha. rewrite Hout by tauto.
    rewrite list_lookup_insert_ne; [done|]. intros ->. tauto.
Qed.

(** The heap after the split of the node [r], whose moved children are [addrs]. *)
Lemma split_internal_heap fuel t r nd addrs : node_pool_ t !! r = Some nd -> node_ok nd -> num_keys nd = ORDER ->
  let h := node_pool_ t in let mid := ORDER / 2 in
  take (ORDER - mid) (drop (S mid) (children nd)) = Some <$> addrs -> NoDup addrs ->
  (forall a, a ∈ addrs -> a < length h /\ a <> r) ->
  exists h2 nr k,
    split_internal (S fuel) t r = insert_into_parent fuel (with_pool h2 t) r k (length h) /\
    length h2 = S (length h) /\ live_keys nd = take mid (live_keys nd) ++ k :: live_keys nr /\
    h2 !! r = Some (with_num_keys mid nd) /\
    h2 !! length h = Some nr /\ node_ok nr /\ is_leaf nr = false /\ parent nr = None /\ num_keys nr = ORDER - S mid /\
    take (S (num_keys nr)) (children nr) = Some <$> addrs /\
    (forall a, a ∈ addrs -> h2 !! a = with_parent (Some (length h)) <$> h !! a) /\
    (forall a, a < length h -> a ∉ addrs -> a <> r -> h2 !! a = h !! a).
Proof.
  intros Hn (Hlk & Hlc & Hlr) Hnum h mid Haddrs Hnd Hlt. fold h in Hn.
  assert (Hrl : r < length h) by (by eapply lookup_lt_Some).
  assert (Hmid : mid = 128) by reflexivity. assert (HO : ORDER = 256) by reflexivity.
  assert (Hdiv : ORDER / 2 = mid) by reflexivity. clearbody mid.
  destruct (lookup_lt_is_Some_2 (keys nd) mid) as [k Hk]; [lia|].
  destruct (copy_from_take (ORDER - S mid) (mid + 1) (keys nd) (keys (Node_new false))) as (ks & K1 & K2 & K3);
    [rewrite Hlk; lia|cbn; rewrite length_replicate; lia|].
  destruct (copy_from_take (S (ORDER - S mid)) (mid + 1) (children nd) (children (Node_new false))) as (cs & C1 & C2 & C3);
    [rewrite Hlc; lia|cbn [Node_new children]; rewrite length_replicate; lia|].
  cbn [Node_new keys children] in K2, C2. rewrite length_replicate in K2. rewrite length_replicate in C2.
  replace (mid + 1) with (S mid) in * by lia. replace (S (ORDER - S mid)) with (ORDER - mid) in * by lia.
  set (nr := with_num_keys (ORDER - S mid) (with_children cs (with_keys ks (Node_new false)))).
  destruct (set_parents_spec (length h) addrs (h ++ [nr]) Hnd) as (h1 & Hsp & Hl1 & Hin1 & Hout1).
  { intros a Ha. rewrite length_app. destruct (Hlt a Ha). lia. }
  rewrite length_app in Hl1. cbn [length] in Hl1.
  assert (Hr1 : h1 !! r = Some nd).
  { rewrite Hout1; [by rewrite lookup_app_l|]. intros Hr. by destruct (Hlt r Hr). }
  exists (<[r := with_num_keys mid nd]> h1), nr, k.
  split; [|split; [|split; [|split; [|split; [|split; [|split; [|split; [|split; [|split; [|split]]]]]]]]]].
  - cbn [split_internal]. unfold alloc_node. cbn [with_pool node_pool_]. fold h. rewrite (lookup_app_l _ _ r), Hn by done. outcome_simpl.
    rewrite lookup_new. outcome_simpl. rewrite Hnum, Hdiv, Hk. outcome_simpl.
    replace (ORDER - mid - 1) with (ORDER - S mid) by lia. replace (mid + 1) with (S mid) by lia.
    replace (S (ORDER - S mid)) with (ORDER - mid) by lia. rewrite K1, C1. outcome_simpl.
    rewrite (update_node_Some _ _ _ (Node_new false)) by apply lookup_new. outcome_simpl.
    fold nr. rewrite insert_new, C3, Haddrs, Hsp. outcome_simpl.
    rewrite (update_node_Some _ _ _ nd Hr1). outcome_simpl. done.
  - rewrite length_insert. lia.
  - unfold live_keys. cbn [nr with_num_keys with_children with_keys num_keys keys].
    rewrite K3, Hnum, (take_ge (keys nd)), (take_ge (drop _ _)) by (rewrite ?length_drop; lia).
    by rewrite take_drop_middle.
  - rewrite list_lookup_insert_eq; [done|lia].
  - rewrite list_lookup_insert_ne by lia. rewrite Hout1; [apply lookup_new|].
    intros Hx. destruct (Hlt _ Hx). lia.
  - unfold node_ok. cbn. by rewrite K2, C2, length_replicate.
  - done.
  - done.
  - done.
  - cbn [nr with_num_keys with_children with_keys num_keys children].
    replace (S (ORDER - S mid)) with (ORDER - mid) by lia. by rewrite C3.
  - intros a Ha. destruct (Hlt a Ha) as [? ?]. rewrite list_lookup_insert_ne by done.
    rewrite Hin1 by done. by rewrite lookup_app_l by done.
  - intros a Ha Hna Hne. rewrite list_lookup_insert_ne by done. rewrite Hout1 by done. by apply lookup_app_l.
Qed.

(** Two children never share a node. *)
Lemma foot_in_one ss1 ss2 x y a : NoDup (concat (s_foot <$> ss1 ++ ss2)) -> x ∈ ss1 -> y ∈ ss2 ->
  a ∈ s_foot x -> a ∈ s_foot y -> False.
Proof.
  intros Hnd Hx Hy Hax Hay. rewrite fmap_app, concat_app in Hnd. apply NoDup_app in Hnd as (_ & Hdis & _).
  apply (Hdis a); apply elem_of_concat_fmap; eauto.
Qed.

Lemma foot_root_in ss x y : NoDup (concat (s_foot <$> ss)) -> x ∈ ss -> y ∈ ss ->
  s_root y ∈ s_foot y -> s_root y ∈ s_foot x -> x = y.
Proof.
  intros Hnd Hx Hy Hry Hrx. apply list_elem_of_lookup in Hx as [i Hi]. apply list_elem_of_lookup in Hy as [j Hj].
  destruct (decide (i = j)) as [->|Hne]; [congruence|]. exfalso.
  assert (forall i j x y, i < j -> ss !! i = Some x -> ss !! j = Some y -> forall a, a ∈ s_foot x -> a ∈ s_foot y -> False) as H.
  { clear i j x y Hi Hj Hry Hrx Hne. intros i j x y Hij Hi Hj a Hax Hay.
    rewrite <- (take_drop j ss) in Hnd. apply (foot_in_one (take j ss) (drop j ss) x y a Hnd); [| |done|done].
    - eapply list_elem_of_lookup_2. by rewrite lookup_take_lt.
    - apply (list_elem_of_lookup_2 _ 0). by rewrite lookup_drop, Nat.add_0_r. }
  destruct (decide (i < j)); [exact (H i j x y ltac:(done) Hi Hj _ Hrx Hry)|].
  exact (H j i y x ltac:(lia) Hj Hi _ Hry Hrx).
Qed.

(** The children of a node that is split: those of [ss1] stay with [r], those
    of [ss2] move to the new node at the end of the pool. *)
Section moved.
Context (n : nat) (h h2 : list Node) (r : nat) (ss1 ss2 : list sub).
Hypothesis Hnd : NoDup (r :: concat (s_foot <$> ss1 ++ ss2)).
Hypothesis Hlt : forall a, a ∈ r :: concat (s_foot <$> ss1 ++ ss2) -> a < length h.
Hypothesis Hroots : forall x, x ∈ ss1 ++ ss2 -> s_root x ∈ s_foot x.
Hypothesis Hmoved : forall a, a ∈ s_root <$> ss2 -> h2 !! a = with_parent (Some (length h)) <$> h !! a.
Hypothesis Hsame : forall a, a < length h -> a ∉ s_root <$> ss2 -> a <> r -> h2 !! a = h !! a.

Lemma moved_foot x a : x ∈ ss1 ++ ss2 -> a ∈ s_foot x -> a < length h /\ a <> r.
Proof.
  intros Hx Ha. assert (Hin : a ∈ concat (s_foot <$> ss1 ++ ss2)) by (apply elem_of_concat_fmap; eauto).
  split; [apply Hlt, elem_of_cons; auto|]. apply NoDup_cons in Hnd as [Hr _]. by intros ->.
Qed.

Lemma moved_heq a : a < length h -> a ∉ s_root <$> ss2 -> a <> r -> heq h h2 a.
Proof. intros. apply lookup_heq; auto. Qed.

Lemma moved_left a b x : x ∈ ss1 -> rep n h MIN_KEYS (ORDER - 1) (Some r) a b x ->
  rep n h2 MIN_KEYS (ORDER - 1) (Some r) a b x.
Proof.
  intros Hx HR. eapply rep_heq; [exact HR|]. intros y Hy.
  destruct (moved_foot x y) as [? ?]; [apply elem_of_app; auto|done|].
  apply moved_heq; [done| |done]. intros (z & -> & Hz)%list_elem_of_fmap. apply NoDup_cons in Hnd as [_ Hnd'].
  apply (foot_in_one ss1 ss2 x z (s_root z) Hnd' Hx Hz Hy). apply Hroots, elem_of_app. by right.
Qed.

Lemma moved_right a b x : x ∈ ss2 -> rep n h MIN_KEYS (ORDER - 1) (Some r) a b x ->
  rep n h2 MIN_KEYS (ORDER - 1) (Some (length h)) a b x.
Proof.
  intros Hx HR. destruct (rep_root _ _ _ _ _ _ _ _ HR) as (xn & Hxn & _).
  assert (Hin : forall z, z ∈ ss2 -> z ∈ ss1 ++ ss2) by (intros; apply elem_of_app; auto).
  pose proof (NoDup_cons_1_2 _ _ Hnd) as Hnd'. eapply rep_frame; [exact HR| |].
  - intros y Hy Hne. destruct (moved_foot x y) as [? ?]; [auto|done|].
    apply moved_heq; [done| |done]. intros (z & -> & Hz)%list_elem_of_fmap.
    apply Hne. by rewrite (foot_root_in (ss1 ++ ss2) x z) by auto.
  - exists xn, (with_parent (Some (length h)) xn). split; [done|].
    rewrite Hmoved, Hxn; [done|]. apply list_elem_of_fmap. eauto.
Qed.

Lemma moved_nodup : NoDup (s_foot (join r ss1) ++ s_foot (join (length h) ss2)).
Proof.
  assert (Hnew : length h ∉ concat (s_foot <$> ss1 ++ ss2)).
  { intros Ha. assert (length h < length h) by (apply Hlt, elem_of_cons; auto). lia. }
  assert (length h <> r). { intros E. assert (r < length h) by (apply Hlt, elem_of_cons; auto). lia. }
  cbn. rewrite fmap_app, concat_app in Hnd, Hnew. rewrite elem_of_app in Hnew.
  apply NoDup_cons in Hnd as [Hr Hnd']. rewrite elem_of_app in Hr. apply NoDup_app in Hnd' as (Hnd1 & Hdis & Hnd2).
  apply (NoDup_app (r :: _)). split; [apply NoDup_cons; tauto|]. split; [|apply NoDup_cons; tauto].
  intros a [->|Ha]%elem_of_cons; rewrite elem_of_cons; intros [Ha'|Ha']; [congruence|tauto|subst a; tauto|by apply (Hdis a)].
Qed.

Lemma moved_upd : (forall x, x ∈ ss1 ++ ss2 -> s_leaves x ⊆ s_foot x) -> length h2 = S (length h) ->
  upd h h2 (s_foot (join r (ss1 ++ ss2))) (s_leaves (join r (ss1 ++ ss2)))
    (s_foot (join r ss1) ++ s_foot (join (length h) ss2)) (s_leaves (join r (ss1 ++ ss2))).
Proof.
  intros HL Hlen. apply upd_links; [lia| | |].
  - intros a Ha Hna. cbn in Hna. rewrite elem_of_cons in Hna. apply moved_heq; [done| |tauto].
    intros (z & -> & Hz)%list_elem_of_fmap. assert (z ∈ ss1 ++ ss2) by (apply elem_of_app; auto).
    apply Hna. right. apply elem_of_concat_fmap. exists z; auto.
  - cbn. rewrite fmap_app, concat_app. intros a. rewrite !elem_of_cons, !elem_of_app, !elem_of_cons.
    intros [?|[?|[?|?]]]; [tauto|tauto|right; lia|tauto].
  - intros a x Ha Hx. cbn in Ha. apply elem_of_concat_fmap in Ha as (y & Hy & Ha).
    apply (HL y Hy) in Ha. destruct (moved_foot y a Hy Ha) as [Hal Har].
    destruct (decide (a ∈ s_root <$> ss2)) as [Hm2|Hm2].
    + rewrite (Hmoved a Hm2), Hx. cbn. eauto.
    + rewrite (Hsame a Hal Hm2 Har), Hx. eauto.
Qed.
End moved.

Lemma split_internal_cut n fuel t m par lo hi s : rep (S n) (node_pool_ t) m ORDER par lo hi s -> oP lo -> oP hi ->
  (exists nd, node_pool_ t !! s_root s = Some nd /\ ORDER <= num_keys nd) ->
  exists h2 k sl sr,
    split_internal (S fuel) t (s_root s) = insert_into_parent fuel (with_pool h2 t) (s_root s) k (s_root sr) /\
    cut (S n) (node_pool_ t) h2 par lo hi s k sl sr (s_entries s).
Proof.
  intros Hrep Hlo Hhi (nd0 & Hn0 & Hge). set (h := node_pool_ t) in *.
  destruct (rep_join _ _ _ _ _ _ _ _ Hrep) as (nd & ss & Hs & Hn & Hok & Hpar & Hm & HO & Hleaf & H1 & Hch & Hr & Hnd & Hlt & HL).
  rewrite Hn in Hn0. injection Hn0 as <-. assert (Hnum : num_keys nd = ORDER) by lia.
  assert (HO' : ORDER = 256) by reflexivity. assert (Hmin : MIN_KEYS = 127) by reflexivity.
  assert (Hmid : ORDER / 2 = 128) by reflexivity.
  set (r := s_root s) in *. rewrite Hs in Hnd, Hlt. cbn [join s_foot] in Hnd, Hlt.
  pose proof (live_keys_length nd Hok HO) as Hlen. pose proof (reps_length _ _ _ _ _ Hr) as Hss.
  destruct (reps_keys _ _ _ _ _ Hr Hlo Hhi) as (_ & HP & Hrng).
  assert (Hroots : forall x, x ∈ ss -> s_root x ∈ s_foot x).
  { intros x Hx. destruct (reps_elem _ _ _ _ _ _ Hr Hx) as (a & b & HR). by eapply rep_root_foot. }
  set (ss1 := take 129 ss). set (ss2 := drop 129 ss).
  assert (Ess : ss = ss1 ++ ss2) by (unfold ss1, ss2; by rewrite take_drop).
  rewrite Ess in Hnd, Hlt, Hroots, HL.
  destruct (split_internal_heap fuel t r nd (s_root <$> ss2) Hn Hok Hnum) as
    (h2 & nr & k & Hsplit & Hlen2 & Hks & Hnl & Hnr & Hokr & Hleafr & Hparr & Hnumr & Hchr & Hmoved & Hsame).
  { rewrite Hmid, take_drop_commute. replace (129 + (ORDER - 128)) with (S (num_keys nd)) by lia.
    rewrite Hch, <- fmap_drop, <- list_fmap_compose. done. }
  { apply NoDup_cons in Hnd as [_ Hnd]. rewrite fmap_app, concat_app in Hnd. apply NoDup_app in Hnd as (_ & _ & Hnd).
    apply roots_nodup; [done|]. intros x Hx. apply Hroots, elem_of_app. by right. }
  { intros a (x & -> & Hx)%list_elem_of_fmap. assert (x ∈ ss1 ++ ss2) by (apply elem_of_app; auto).
    eapply (moved_foot h r ss1 ss2); eauto. }
  fold h in Hsplit, Hlen2, Hnr, Hmoved, Hsame. rewrite Hmid in Hks, Hnl. rewrite Hks in Hr, HP, Hrng.
  destruct (reps_cut _ _ _ _ _ _ _ Hr) as (ss1' & ss2' & Ess' & Hl1 & Hr1 & Hr2).
  assert (Hl1' : length ss1' = 129) by (rewrite Hl1, length_take; lia).
  assert (ss1' = ss1) as -> by (unfold ss1; rewrite Ess', <- Hl1'; by rewrite take_app_length).
  assert (ss2' = ss2) as -> by (unfold ss2; rewrite Ess', <- Hl1'; by rewrite drop_app_length).
  apply Forall_app in HP as [_ HP]. apply Forall_cons in HP as [HPk _].
  apply Forall_app in Hrng as [_ Hrng]. apply Forall_cons in Hrng as [[Hklo Hkhi] _].
  pose proof (moved_nodup h r ss1 ss2 Hnd Hlt) as Hndl.
  exists h2, k, (join r ss1), (join (length h) ss2). split; [exact Hsplit|]. do 3 (split; [done|]).
  split; [|split; [|split; [done|split; [|split; [done|]]]]].
  - apply NoDup_app in Hndl as (Hndl & _). split; [exact Hndl|]. exists (with_num_keys 128 nd).
    cbn [join s_root s_entries s_leaves s_foot with_num_keys num_keys]. do 3 (split; [done|]).
    split; [lia|]. split; [lia|]. split; [done|]. split; [lia|]. exists ss1. split; [|split; [|done]].
    + cbn [with_num_keys children]. unfold ss1. rewrite fmap_take, <- Hch, take_take. f_equal. lia.
    + unfold live_keys at 1. cbn [with_num_keys num_keys keys].
      assert (E : take 128 (live_keys nd) = take 128 (keys nd)) by (unfold live_keys; rewrite take_take; f_equal; lia).
      rewrite <- E. eapply reps_impl; [|exact Hr1]. intros a b x Hx. by apply (moved_left n h h2 r ss1 ss2 Hnd Hlt Hroots Hsame).
  - apply NoDup_app in Hndl as (_ & _ & Hndl). split; [exact Hndl|]. exists nr.
    cbn [join s_root s_entries s_leaves s_foot]. do 3 (split; [done|]).
    split; [lia|]. split; [lia|]. split; [done|]. split; [lia|]. exists ss2. split; [|split; [|done]].
    + rewrite Hchr, <- list_fmap_compose. done.
    + eapply reps_impl; [|exact Hr2]. intros a b x Hx. by apply (moved_right n h h2 r ss1 ss2 Hnd Hlt Hroots Hmoved Hsame).
  - cbn. rewrite Hs, Ess. cbn. by rewrite fmap_app, concat_app.
  - assert (El : s_leaves (join r ss1) ++ s_leaves (join (length h) ss2) = s_leaves (join r (ss1 ++ ss2)))
      by (cbn; by rewrite fmap_app, concat_app).
    rewrite El, Hs, Ess. apply (moved_upd h h2 r ss1 ss2 Hnd Hlt Hroots Hmoved Hsame); [|done].
    intros x Hx. by apply HL.
Qed.

(** ** From the leaf to the root of a subtree *)

Lemma rep_num n h m M M' par lo hi s nd : rep n h m M par lo hi s -> h !! s_root s = Some nd -> num_keys nd <= M' ->
  rep n h m M' par lo hi s.
Proof.
  intros H Hn Hle. destruct n; destruct H as (Hnd & nd0 & Hn0 & ? & ? & [? _] & ? & H); rewrite Hn in Hn0; injection Hn0 as <-;
    (split; [done|]; exists nd; repeat (split; [done || lia|]); done).
Qed.

Lemma grown_num n h h' m M M' par lo hi s s' es nd : grown n h h' m M par lo hi s s' es ->
  h' !! s_root s = Some nd -> num_keys nd <= M' -> grown n h h' m M' par lo hi s s' es.
Proof.
  intros (Hrep & Hr & He & Hu) Hn Hle. split; [|done]. eapply rep_num; [exact Hrep| |done]. by rewrite Hr.
Qed.

Lemma grown_root n h h' m M par lo hi s s' es : grown n h h' m M par lo hi s s' es -> s_root s' = s_root s.
Proof. intros (_ & Hr & _). exact Hr. Qed.

Lemma size_step_context t E1 es es' E2 : size_step t (E1 ++ es ++ E2) (E1 ++ es' ++ E2) = size_step t es es'.
Proof.
  unfold size_step. rewrite !length_app.
  destruct (Nat.eqb_spec (length es') (length es)) as [->|Hne]; [by rewrite Nat.eqb_refl|].
  by rewrite (proj2 (Nat.eqb_neq _ _)) by lia.
Qed.

(** What [leaf_insert] has done once the subtree [s] has been dealt with. *)
Definition inserted n (t : BPTree) m par lo hi s p key row : Prop :=
  exists h', let es' := assoc_insert key row (s_entries s) in let t' := sized (size_step t (s_entries s) es') h' t in
    (exists s', leaf_insert t p key row = Ret (true, t') /\ grown n (node_pool_ t) h' m (ORDER - 1) par lo hi s s' es') \/
    (exists f k sl sr, leaf_insert t p key row = (t2 ← insert_into_parent f t' (s_root s) k (s_root sr); Ret (true, t2)) /\
       2 * length (node_pool_ t) + 4 <= f + 2 * n /\ cut n (node_pool_ t) h' par lo hi s k sl sr es').

Lemma inserted_leaf t m par lo hi s key row : rep 0 (node_pool_ t) m (ORDER - 1) par lo hi s ->
  oP lo -> oP hi -> P key -> in_range lo hi key ->
  (forall p nd q, p ∈ s_leaves s -> node_pool_ t !! p = Some nd -> next nd = Some q -> is_Some (node_pool_ t !! q)) ->
  inserted 0 t m par lo hi s (s_root s) key row.
Proof.
  intros Hrep Hlo Hhi Hkey Hin Hnext.
  destruct (leaf_insert_grown t m par lo hi s key row Hrep Hkey Hin) as (nd1 & s1 & h1 & Hg & Hn1 & Hl1 & (nd & Hn & Hnx) & Heq).
  cbv zeta in Heq. destruct (Nat.leb_spec ORDER (num_keys nd1)) as [Hge|Hlt]; cycle 1.
  { exists h1. left. exists s1. split; [done|]. eapply grown_num; [exact Hg|exact Hn1|lia]. }
  pose proof Hg as (Hrep1 & Hr1 & He1 & Hu1).
  set (sz := size_step t (s_entries s) (assoc_insert key row (s_entries s))) in *.
  destruct (split_leaf_cut (sized sz h1 t) m par lo hi s1) as (h2 & k & sl & sr & Hsplit & Hcut); [done|done|done| |].
  { exists nd1. rewrite Hr1. split; [done|]. split; [done|]. intros q Hq. cbn [sized node_pool_].
    assert (Hleaf : s_leaves s = [s_root s]) by (destruct Hrep as (_ & ? & _ & _ & _ & _ & _ & _ & _ & _ & _ & ? & _); done).
    apply lookup_lt_is_Some_2. rewrite Hl1. eapply lookup_lt_is_Some_1, (Hnext (s_root s)); [|exact Hn|congruence].
    rewrite Hleaf. by apply list_elem_of_singleton. }
  cbn [sized node_pool_] in Hsplit, Hcut. rewrite Hr1 in Hsplit.
  exists h2. right. exists (2 * length h1 + 4), k, sl, sr. split; [by rewrite Heq, Hsplit|]. split; [lia|].
  eapply grown_cut; [exact Hg|]. exact Hcut.
Qed.

(** From the child to the node. *)
Lemma inserted_node n t m par lo hi r nd ks1 ks2 ss1 c ss2 p key row :
  node_ctx n (node_pool_ t) m par lo hi r nd ks1 ks2 ss1 c ss2 -> oP lo -> oP hi ->
  Some (s_root c) <> root_ t -> S n < length (node_pool_ t) ->
  assoc_insert key row (s_entries (join r (ss1 ++ c :: ss2))) =
    concat (s_entries <$> ss1) ++ assoc_insert key row (s_entries c) ++ concat (s_entries <$> ss2) ->
  inserted n t MIN_KEYS (Some r) (lo_of lo ks1) (hi_of ks2 hi) c p key row ->
  inserted (S n) t m par lo hi (join r (ss1 ++ c :: ss2)) p key row.
Proof.
  intros C Hlo Hhi Hroot Hn Hes (h' & H). cbv zeta in H. unfold inserted. cbv zeta. rewrite Hes.
  assert (Hents : s_entries (join r (ss1 ++ c :: ss2)) =
    concat (s_entries <$> ss1) ++ s_entries c ++ concat (s_entries <$> ss2)).
  { cbn. by rewrite fmap_app, concat_app. }
  rewrite Hents, size_step_context. set (ec := assoc_insert key row (s_entries c)) in *.
  set (sz := size_step t (s_entries c) ec) in *.
  destruct H as [(s' & Heq & Hg)|(f & k & sl & sr & Heq & Hf & Hcut)].
  { exists h'. left. exists (join r (ss1 ++ s' :: ss2)). split; [exact Heq|]. by eapply grown_child. }
  destruct f as [|[|f]]; [lia|lia|].
  destruct (insert_parent_step C (S f) (sized sz h' t) k sl sr ec Hroot Hcut) as (h2 & nd2 & s2 & Hn2 & Hstep & Hr2 & Hg).
  rewrite Hstep in Heq. destruct (Nat.leb_spec ORDER (num_keys nd2)) as [Hge|Hlt].
  - pose proof Hg as (Hrep2 & _ & He2 & _).
    destruct (split_internal_cut n f (sized sz h2 t) m par lo hi s2 Hrep2 Hlo Hhi) as (h3 & k' & sl' & sr' & Hsplit & Hcut').
    { exists nd2. by rewrite Hr2. }
    rewrite Hr2 in Hsplit. exists h3. right. exists f, k', sl', sr'. split; [|split; [lia|by eapply grown_cut]].
    change (with_pool h2 (sized sz h' t)) with (sized sz h2 t) in Heq. rewrite Heq, Hsplit. done.
  - exists h2. left. exists s2. split; [exact Heq|]. eapply grown_num; [exact Hg|exact Hn2|lia].
Qed.

Lemma oP_lo_of lo ks1 : oP lo -> Forall P ks1 -> oP (lo_of lo ks1).
Proof.
  intros Hlo HP. unfold lo_of. destruct (last ks1) as [k|] eqn:El; [|done].
  apply last_Some in El as [l ->]. apply Forall_app in HP as [_ HP]. by apply Forall_cons in HP as [? _].
Qed.

Lemma oP_hi_of hi ks2 : oP hi -> Forall P ks2 -> oP (hi_of ks2 hi).
Proof. intros Hhi HP. destruct ks2; [done|]. by apply Forall_cons in HP as [? _]. Qed.

Lemma assoc_insert_node n h m M par lo hi r ks1 ks2 ss1 c ss2 key row : length ks1 = length ss1 ->
  reps (rep n h m M par) lo (ks1 ++ ks2) (ss1 ++ c :: ss2) hi -> oP lo -> oP hi -> P key ->
  Forall (fun k => value_ltb key k = false) ks1 -> Forall (fun k => klt key k) ks2 ->
  assoc_insert key row (s_entries (join r (ss1 ++ c :: ss2))) =
    concat (s_entries <$> ss1) ++ assoc_insert key row (s_entries c) ++ concat (s_entries <$> ss2).
Proof.
  intros Hlen Hr Hlo Hhi Hkey Hk1 Hk2.
  assert (HR : forall a b s, rep n h m M par a b s -> oP a -> oP b ->
    StronglySorted ent_lt (s_entries s) /\ Forall (key_in a b) (s_entries s)) by (intros; by eapply rep_entries).
  destruct (reps_entries _ _ _ _ _ HR Hr Hlo Hhi) as [_ Hall]. cbn.
  rewrite fmap_app, concat_app in *. cbn [fmap list_fmap concat] in *.
  assert (HP : keysP (concat (s_entries <$> ss1) ++ s_entries c ++ concat (s_entries <$> ss2)))
    by (eapply Forall_impl; [exact Hall|]; by intros e [? _]).
  apply Forall_app in HP as [HP1 HP]. apply Forall_app in HP as [HPc HP2].
  rewrite assoc_insert_app_l; [|done|done|].
  - rewrite assoc_insert_app_r; [done|done|done|]. eapply reps_after; [exact Hlen|exact HR|exact Hr|done..].
  - eapply reps_before; [exact Hlen| |exact Hr|done..]. intros a b s Hs Ha Hb. by apply (HR a b s).
Qed.

Lemma insert_sub n : forall t m par lo hi s key row fuel, rep n (node_pool_ t) m (ORDER - 1) par lo hi s ->
  oP lo -> oP hi -> P key -> in_range lo hi key ->
  (forall a, a ∈ s_foot s -> a <> s_root s -> Some a <> root_ t) ->
  (forall p nd q, p ∈ s_leaves s -> node_pool_ t !! p = Some nd -> next nd = Some q -> is_Some (node_pool_ t !! q)) ->
  n < fuel ->
  exists p, find_leaf_loop fuel (node_pool_ t) key (Some (s_root s)) = Ret (Some p) /\
    inserted n t m par lo hi s p key row.
Proof.
  induction n as [|n IH]; intros t m par lo hi s key row [|fuel] Hrep Hlo Hhi Hkey Hin Hroot Hnext Hf; try lia.
  - exists (s_root s). split; [|by apply inserted_leaf].
    destruct Hrep as (_ & nd & Hn & _ & _ & _ & _ & Hleaf & _). cbn. rewrite Hn. cbn. by rewrite Hleaf.
  - pose proof (rep_depth_pool _ _ _ _ _ _ _ _ Hrep) as Hdepth.
    destruct (rep_join _ _ _ _ _ _ _ _ Hrep) as (nd & ss & Hs & Hn & Hok & Hpar & Hm & HO & Hleaf & H1 & Hch & Hr & Hnd & Hlt & HL).
    destruct (child_choice _ _ _ _ _ _ _ s nd ss key Hok HO Hleaf Hn Hch Hr Hlo Hhi Hkey Hin)
      as (ks1 & ks2 & ss1 & c & ss2 & E & -> & Hlen & Hin' & Hk1 & Hk2 & Hstep).
    remember (s_root s) as r eqn:Hsr. subst s. clear Hsr. rewrite E in Hr.
    assert (C : node_ctx n (node_pool_ t) m par lo hi r nd ks1 ks2 ss1 c ss2) by (by split).
    destruct (reps_middle _ _ _ _ _ _ _ _ Hlen Hr) as [Hc _].
    destruct (reps_keys _ _ _ _ _ Hr Hlo Hhi) as (_ & HP & _). apply Forall_app in HP as [HP1 HP2].
    destruct (nc_root C) as [Hrl Hrc]. rewrite foot_middle in Hroot, Hlt. cbn in Hnext.
    rewrite fmap_app, concat_app in Hnext.
    assert (Hroot' : forall a, a ∈ s_foot c -> Some a <> root_ t).
    { intros a Ha. apply Hroot; [rewrite elem_of_cons, !elem_of_app; tauto|]. by intros ->. }
    destruct (IH t MIN_KEYS (Some r) (lo_of lo ks1) (hi_of ks2 hi) c key row fuel) as (p & Hfind & Hins);
      [done|by apply oP_lo_of|by apply oP_hi_of|done|done|auto| |lia|].
    { intros p nd' q Hp. apply Hnext. rewrite elem_of_app. cbn. rewrite elem_of_app. tauto. }
    exists p. rewrite Hstep. split; [done|]. eapply inserted_node; [exact C|done|done| |lia| |exact Hins].
    + apply Hroot'. by eapply rep_root_foot.
    + by eapply assoc_insert_node.
Qed.

(** ** The whole tree *)

Lemma chain_next_ok h ls : (forall p, p ∈ ls -> is_Some (h !! p)) -> chain h ls None ->
  forall p nd q, p ∈ ls -> h !! p = Some nd -> next nd = Some q -> is_Some (h !! q).
Proof.
  induction ls as [|p0 ls IH]; intros Hls; [intros _ ? ? ? ?%not_elem_of_nil; done|].
  intros [(nd0 & Hn0 & E) Hc] p nd q [->|Hp]%elem_of_cons Hn Hq.
  - rewrite Hn0 in Hn. injection Hn as ->. rewrite Hq in E. destruct ls as [|q' ls]; [done|].
    injection E as ->. apply Hls. set_solver.
  - eapply IH; [|done|exact Hp|exact Hn|exact Hq]. intros. apply Hls. set_solver.
Qed.

(** The heap after a new root was put above the nodes [l] and [r]. *)
Definition new_root (l : nat) (k : Value) (r : nat) : Node :=
  with_num_keys 1 (with_children (<[1 := Some r]> (<[0 := Some l]> (replicate (S ORDER) None)))
    (with_keys (<[0 := k]> (replicate ORDER Value_default)) (Node_new false))).

Lemma new_root_heap fuel t l k r lnd rnd : root_ t = Some l -> l <> r ->
  node_pool_ t !! l = Some lnd -> node_pool_ t !! r = Some rnd ->
  let h := node_pool_ t in let nr := length h in exists h2,
    insert_into_parent (S fuel) t l k r =
      Ret (mkBPTree (key_type_ t) (Some nr) (leftmost_leaf_ t) (size_ t) (u32 (height_ t + 1)) h2) /\
    length h2 = S nr /\ h2 !! nr = Some (new_root l k r) /\
    h2 !! l = Some (with_parent (Some nr) lnd) /\ h2 !! r = Some (with_parent (Some nr) rnd) /\
    (forall a, a < nr -> a <> l -> a <> r -> h2 !! a = h !! a).
Proof.
  intros Hroot Hne Hl Hr h nr. fold h in Hl, Hr.
  pose proof (lookup_lt_Some _ _ _ Hl) as Hll. pose proof (lookup_lt_Some _ _ _ Hr) as Hrl.
  destruct (lookup_two (h ++ [new_root l k r]) r l (with_parent (Some nr) rnd) (with_parent (Some nr) lnd)) as (L1 & L2 & L3 & L4);
    [rewrite length_app; lia|rewrite length_app; lia|done|].
  eexists. split; [|split; [|split; [|split; [exact L3|split; [exact L2|]]]]].
  - cbn [insert_into_parent]. rewrite bool_decide_true by done. unfold alloc_node. cbn [with_pool node_pool_].
    fold h nr. assert (Hnew : forall x, (h ++ [x]) !! nr = Some x) by apply lookup_new.
    assert (HO : 1 < ORDER) by (unfold ORDER, BPTREE_ORDER; lia).
    rewrite Hnew. outcome_simpl.
    rewrite (arr_set_Ret (keys (Node_new false))) by (cbn [Node_new keys]; rewrite length_replicate; lia). outcome_simpl.
    rewrite (arr_set_Ret (children (Node_new false))) by (cbn [Node_new children]; rewrite length_replicate; lia). outcome_simpl.
    rewrite arr_set_Ret by (cbn [Node_new children]; rewrite length_insert, length_replicate; lia). outcome_simpl.
    rewrite (update_node_Some _ _ _ (Node_new false)) by apply Hnew. outcome_simpl.
    change (with_num_keys 1 _) with (new_root l k r).
    rewrite (insert_new h _ (new_root l k r) : <[nr := new_root l k r]> (h ++ [Node_new false]) = _).
    rewrite (update_node_Some _ _ _ lnd) by (by rewrite lookup_app_l). outcome_simpl.
    rewrite (update_node_Some _ _ _ rnd) by (rewrite list_lookup_insert_ne by done; by rewrite lookup_app_l). outcome_simpl.
    done.
  - rewrite L1, length_app. cbn. lia.
  - rewrite L4 by lia. apply lookup_new.
  - intros a Ha Ha1 Ha2. rewrite L4 by done. by apply lookup_app_l.
Qed.

(** The new root above the two halves of the old one. *)
Lemma insert_root_step fuel t n h k sl sr s es : root_ t = Some (s_root s) ->
  cut n h (node_pool_ t) None None None s k sl sr es -> 
  exists h2 s', insert_into_parent (S fuel) t (s_root s) k (s_root sr) =
      Ret (mkBPTree (key_type_ t) (Some (s_root s')) (leftmost_leaf_ t) (size_ t) (u32 (height_ t + 1)) h2) /\
    rep (S n) h2 0 (ORDER - 1) None None None s' /\ s_entries s' = es /\
    (chain h (s_leaves s) None -> chain h2 (s_leaves s') None) /\ head (s_leaves s') = head (s_leaves s).
Proof.
  intros Hroot (Hk & _ & _ & Hsl & Hsr & Hrl & Hec & Hnd & Hu). set (h1 := node_pool_ t) in *.
  destruct (rep_root _ _ _ _ _ _ _ _ Hsl) as (lnd & Hlnd & _). destruct (rep_root _ _ _ _ _ _ _ _ Hsr) as (rnd & Hrnd & _).
  rewrite Hrl in Hlnd. pose proof (lookup_lt_Some _ _ _ Hlnd) as Hll. pose proof (lookup_lt_Some _ _ _ Hrnd) as Hrl'.
  assert (Hlf : s_root s ∈ s_foot sl) by (rewrite <- Hrl; by eapply rep_root_foot).
  pose proof (rep_root_foot _ _ _ _ _ _ _ _ Hsr) as Hrf.
  assert (Hne : s_root s <> s_root sr).
  { intros E. apply NoDup_app in Hnd as (_ & Hdis & _). apply (Hdis (s_root s)); [done|by rewrite E]. }
  assert (Hfl : forall a, a ∈ s_foot sl ++ s_foot sr -> a < length h1).
  { intros a [Ha|Ha]%elem_of_app; eapply lookup_lt_is_Some_1, rep_foot_Some; [exact Hsl|done|exact Hsr|done]. }
  destruct (new_root_heap fuel t (s_root s) k (s_root sr) lnd rnd Hroot Hne Hlnd Hrnd)
    as (h2 & Hstep & Hl2 & Hn2 & Hs2 & Hr2 & Ho2). fold h1 in Hstep, Hl2, Hn2, Hs2, Hr2, Ho2.
  set (nr := length h1) in *. set (rn := new_root (s_root s) k (s_root sr)) in *.
  assert (Hq2 : forall a, a < nr -> a <> s_root s -> a <> s_root sr -> heq h1 h2 a) by (intros; apply lookup_heq; auto).
  exists h2, (join nr [sl; sr]). split; [exact Hstep|split; [|split; [|split]]].
  - assert (Hndj : NoDup (s_foot (join nr [sl; sr]))).
    { cbn. rewrite app_nil_r. apply NoDup_cons. split; [|done]. intros Ha. specialize (Hfl _ Ha). lia. }
    assert (Hlast : forall n' a b x xnd, rep n' h1 MIN_KEYS (ORDER - 1) None a b x -> h1 !! s_root x = Some xnd ->
              h2 !! s_root x = Some (with_parent (Some nr) xnd) ->
              (forall y, y ∈ s_foot x -> y <> s_root x -> y < nr /\ y <> s_root s /\ y <> s_root sr) ->
              rep n' h2 MIN_KEYS (ORDER - 1) (Some nr) a b x).
    { intros n' a b x xnd HR Hx1 Hx2 Hfx. eapply rep_frame; [exact HR| |eauto].
      intros y Hy Hny. destruct (Hfx y Hy Hny) as (? & ? & ?). by apply Hq2. }
    apply NoDup_app in Hnd as (Hnd1 & Hdis & Hnd2).
    split; [done|]. exists rn. cbn [join s_root s_entries s_leaves s_foot]. split; [done|].
    split; [unfold node_ok; cbn; by rewrite !length_insert, !length_replicate|]. split; [done|].
    split; [cbn; unfold ORDER, BPTREE_ORDER; lia|]. split; [cbn; unfold ORDER, BPTREE_ORDER; lia|]. split; [done|]. split; [cbn; lia|].
    exists [sl; sr]. split; [|split; [|done]].
    + cbn. by rewrite Hrl.
    + unfold live_keys. cbn.
      split; [done|]. split; [done|]. split; [|split; [done|]].
      * eapply Hlast; [exact Hsl|by rewrite Hrl|by rewrite Hrl|]. rewrite Hrl. intros y Hy Hny.
        split; [apply Hfl, elem_of_app; auto|]. split; [done|]. intros ->. by apply (Hdis (s_root sr)).
      * eapply Hlast; [exact Hsr|done|done|]. intros y Hy Hny.
        split; [apply Hfl, elem_of_app; auto|]. split; [|done]. intros ->. by apply (Hdis (s_root s)).
  - cbn. by rewrite app_nil_r.
  - intros Hc. destruct Hu as (_ & _ & _ & _ & Hcc). apply Hcc in Hc. cbn. rewrite app_nil_r.
    assert (Hu2 : upd h1 h2 (s_foot sl ++ s_foot sr) (s_leaves sl ++ s_leaves sr) (s_foot sl ++ s_foot sr) (s_leaves sl ++ s_leaves sr)).
    { apply upd_links; [lia| |auto|].
      - intros a Ha Hna. rewrite elem_of_app in Hna. apply Hq2; [done| |]; intros ->; tauto.
      - intros a x Ha Hx. destruct (decide (a = s_root s)) as [->|Ha1]; [rewrite Hlnd in Hx; injection Hx as <-; eauto|].
        destruct (decide (a = s_root sr)) as [->|Ha2]; [rewrite Hrnd in Hx; injection Hx as <-; eauto|].
        exists x. rewrite Ho2; [done|by eapply lookup_lt_Some|done|done]. }
    by apply Hu2.
  - destruct Hu as (_ & _ & _ & Hh & _). cbn. by rewrite app_nil_r.
Qed.

Lemma insert_rep t es key row : bptree_rep t es -> P key ->
  exists t', insert t key row = Ret (true, t') /\ bptree_rep t' (assoc_insert key row es) /\ key_type_ t' = key_type_ t.
Proof.
  intros (n & s & Hroot & Hrep & Hes & Hch & Hlm & Hsz & Hht) Hkey.
  destruct (insert_sub n t 0 None None None s key row (S (length (node_pool_ t)))) as (p & Hfind & h' & H);
    [done|done|done|done|done| | |pose proof (rep_depth_pool _ _ _ _ _ _ _ _ Hrep); lia|].
  { intros a Ha Hne. rewrite Hroot. congruence. }
  { apply chain_next_ok; [|done]. intros p Hp. eapply rep_foot_Some; [exact Hrep|]. by eapply rep_leaves_foot. }
  rewrite <- Hroot in Hfind. rewrite Hes in H. cbv zeta in H.
  assert (Hsz' : size_step t es (assoc_insert key row es) = u64 (Z.of_nat (length (assoc_insert key row es)))).
  { destruct (rep_entries _ _ _ _ _ _ _ _ Hrep I I) as [Hs Hin]. rewrite Hes in Hs, Hin.
    assert (HP : keysP es) by (eapply Forall_impl; [exact Hin|]; by intros e [? _]).
    unfold size_step. rewrite Hsz, (assoc_insert_length key row es Hkey HP Hs).
    destruct (assoc_find key es); [by rewrite Nat.eqb_refl|]. rewrite (proj2 (Nat.eqb_neq _ _)) by lia.
    unfold u64. rewrite Zplus_mod_idemp_l. f_equal. lia. }
  rewrite Hsz' in H. set (es' := assoc_insert key row es) in *. unfold insert, find_leaf. rewrite Hfind. outcome_simpl.
  destruct H as [(s' & -> & Hrep' & Hr' & He' & Hu)|(f & k & sl & sr & -> & Hf & Hcut)].
  - eexists. split; [done|]. split; [|done]. exists n, s'. cbn [sized root_ node_pool_ leftmost_leaf_ size_ height_].
    destruct Hu as (_ & _ & _ & Hh & Hc). rewrite Hr', Hh. do 3 (split; [done|]). split; [by apply Hc|]. done.
  - pose proof (rep_depth_pool _ _ _ _ _ _ _ _ Hrep). destruct f as [|f]; [lia|].
    destruct (insert_root_step f (sized (u64 (Z.of_nat (length es'))) h' t) n (node_pool_ t) k sl sr s es' Hroot Hcut)
      as (h2 & s' & -> & Hrep' & He' & Hc & Hh).
    outcome_simpl. eexists. split; [done|]. split; [|done]. exists (S n), s'.
    cbn [sized root_ node_pool_ leftmost_leaf_ size_ height_ key_type_]. rewrite Hh.
    do 3 (split; [done|]). split; [by apply Hc|]. split; [done|]. split; [done|].
    rewrite Hht. unfold u32. rewrite Zplus_mod_idemp_l. f_equal. lia.
Qed.

Lemma BPTree_new_rep kt : bptree_rep (BPTree_new kt) [].
Proof.
  exists 0, (mkSub 0 [] [0] [0]). split; [done|]. split.
  - split; [apply NoDup_singleton|]. exists (Node_new true). cbn [s_root s_entries s_leaves s_foot].
    split; [done|]. split; [unfold node_ok; cbn [Node_new keys children row_ids]; by rewrite !length_replicate|].
    split; [done|]. split; [cbn; lia|]. split; [cbn; lia|]. repeat (split; [done || constructor|]). done.
  - split; [done|]. split; [by split; [exists (Node_new true)|]|]. done.
Qed.

(** ** Occupancy: the height is logarithmic in the number of entries *)

Lemma concat_length_ge {A B} (f : A -> list B) l k : (forall x, x ∈ l -> k <= length (f x)) ->
  k * length l <= length (concat (f <$> l)).
Proof.
  induction l as [|x l IH]; intros H; [cbn; lia|]. cbn [fmap list_fmap concat length]. rewrite length_app.
  pose proof (H x ltac:(set_solver)). specialize (IH ltac:(set_solver)). unfold fmap in *. lia.
Qed.

Lemma rep_occupancy n : forall h M par lo hi s, rep n h MIN_KEYS M par lo hi s ->
  MIN_KEYS * S MIN_KEYS ^ n <= length (s_entries s).
Proof.
  induction n as [|n IH]; intros h M par lo hi s Hrep.
  - destruct Hrep as (_ & nd & Hn & Hok & _ & Hm & HO & Hl & -> & _). rewrite node_entries_length by done.
    cbn [Nat.pow]. lia.
  - destruct (rep_join _ _ _ _ _ _ _ _ Hrep) as (nd & ss & -> & Hn & Hok & Hpar & Hm & HO & Hleaf & H1 & Hch & Hr & _).
    pose proof (reps_length _ _ _ _ _ Hr) as Hlen. rewrite live_keys_length in Hlen by done. cbn [join s_entries].
    etrans; [|apply (concat_length_ge s_entries ss (MIN_KEYS * S MIN_KEYS ^ n))].
    + rewrite Nat.pow_succ_r', Hlen. nia.
    + intros x Hx. destruct (reps_elem _ _ _ _ _ _ Hr Hx) as (a & b & HR). eauto.
Qed.

Lemma tree_occupancy t es : bptree_rep t es -> exists n, height_ t = u32 (Z.of_nat (S n)) /\
  (n = 0 \/ 2 * MIN_KEYS * S MIN_KEYS ^ (n - 1) <= length es).
Proof.
  intros (n & s & _ & Hrep & <- & _ & _ & _ & Hht). exists n. split; [done|]. destruct n as [|n]; [by left|right].
  destruct (rep_join _ _ _ _ _ _ _ _ Hrep) as (nd & ss & -> & Hn & Hok & Hpar & Hm & HO & Hleaf & H1 & Hch & Hr & _).
  pose proof (reps_length _ _ _ _ _ Hr) as Hlen. rewrite live_keys_length in Hlen by done. cbn [join s_entries].
  etrans; [|apply (concat_length_ge s_entries ss (MIN_KEYS * S MIN_KEYS ^ n))].
  - rewrite Nat.sub_succ, Nat.sub_0_r, Hlen. nia.
  - intros x Hx. destruct (reps_elem _ _ _ _ _ _ Hr Hx) as (a & b & HR). by eapply rep_occupancy.
Qed.

End insert.
