(* ===== verification/Index.v ===== *)
(** * The primary-key index as its clients see it

    [OrderedIndex] is the contract of [BPTree]: a finite map from keys to row
    ids, kept in key order, whose range scans visit exactly the matching rows
    in that order. Table is proved against this class; the instance is the
    B+ tree of BPTree.v. The theorems at the end follow an index from the empty
    tree through any sequence of insertions. *)

From Stdlib Require Import ZArith Lia Sorting.Sorted.
From stdpp Require Import base strings gmap numbers list list_numbers.
From S2P Require Import Prelude Cpp Common BPTree BPTreeRep BPTreeInsert.

Local Open Scope list_scope.
Local Open Scope nat_scope.

(** ** The contract *)

(** The scan a comparison operator asks for. *)
Definition range_scan {S} (op : CmpOp) (cb : S -> Z -> outcome (S * bool)) (t : BPTree) (key : Value) (s : S) : outcome S :=
  match op with
  | EQ => range_eq cb t key s
  | NE => range_ne cb t key s
  | LT => range_lt cb t key s
  | GT => range_gt cb t key s
  | LE => range_le cb t key s
  | GE => range_ge cb t key s
  end.

(** [holds t es]: the index [t] maps the keys of [es], in order, to their rows. *)
Class OrderedIndex (P : Value -> Prop) (holds : BPTree -> list entry -> Prop) : Prop := {
  oi_new kt : holds (BPTree_new kt) [];
  oi_sorted t es : holds t es -> StronglySorted ent_lt es /\ Forall (fun e => P e.1) es;
  oi_insert t es key row : holds t es -> P key ->
    exists t', insert t key row = Ret (true, t') /\ holds t' (assoc_insert key row es) /\ key_type_ t' = key_type_ t;
  oi_find t es key : holds t es -> P key ->
    find t key = Ret (match assoc_find key es with Some r => s64 r | None => (-1)%Z end);
  oi_range {S} op (cb : S -> Z -> outcome (S * bool)) t es key s : holds t es -> P key ->
    range_scan op cb t key s = visit cb (snd <$> matching op key es) s;
  oi_all {S} (cb : S -> Z -> outcome (S * bool)) t es s : holds t es ->
    scan_all cb t s = visit cb (snd <$> es) s;
  oi_size t es : holds t es -> size_ t = u64 (Z.of_nat (length es));
}.

#[export] Instance BPTree_index (P : Value -> Prop) `{!KeyOrder P} : OrderedIndex P (@bptree_rep P).
Proof.
  split.
  - apply BPTree_new_rep.
  - intros t es (n & s & _ & Hrep & <- & _). destruct (rep_entries _ _ _ _ _ _ _ _ Hrep I I) as [Hs Hin].
    split; [done|]. eapply Forall_impl; [exact Hin|]. by intros e [? _].
  - intros. by apply insert_rep.
  - intros. by apply find_spec.
  - intros S op cb t es key s Ht Hkey. destruct op; cbn [range_scan].
    + by apply range_eq_spec.
    + by apply range_ne_spec.
    + by apply range_lt_spec.
    + by apply range_gt_spec.
    + by apply range_le_spec.
    + by apply range_ge_spec.
  - intros. by apply scan_all_spec.
  - by intros t es (n & s & _ & _ & _ & _ & _ & ? & _).
Qed.

(** ** Indexes built by insertions *)

(** The insertions [kvs], in order. *)
Fixpoint insert_all (t : BPTree) (kvs : list entry) : outcome BPTree :=
  match kvs with
  | [] => Ret t
  | (k, r) :: kvs => res ← insert t k r; insert_all (snd res) kvs
  end.

(** The row of the last insertion under [key]. *)
Fixpoint last_row (key : Value) (kvs : list entry) : option Z :=
  match kvs with
  | [] => None
  | (k, r) :: kvs =>
      match last_row key kvs with
      | Some r' => Some r'
      | None => if value_eqb k key then Some r else None
      end
  end.

(** The entries of the index after the insertions. *)
Fixpoint entries_after (es kvs : list entry) : list entry :=
  match kvs with
  | [] => es
  | (k, r) :: kvs => entries_after (assoc_insert k r es) kvs
  end.

Section built.
Context {P : Value -> Prop} `{!KeyOrder P} {holds : BPTree -> list entry -> Prop} `{!OrderedIndex P holds}.

Lemma insert_all_holds kvs : forall t es, holds t es -> Forall (fun e => P e.1) kvs ->
  exists t', insert_all t kvs = Ret t' /\ holds t' (entries_after es kvs).
Proof.
  induction kvs as [|[k r] kvs IH]; intros t es Ht HP; cbn [insert_all entries_after]; [eauto|].
  apply Forall_cons in HP as [Hk HP]. destruct (oi_insert t es k r Ht Hk) as (t1 & -> & Ht1 & _).
  outcome_simpl. cbn [snd]. by apply IH.
Qed.

Lemma entries_after_find kvs key : P key -> Forall (fun e => P e.1) kvs -> forall es, Forall (fun e => P e.1) es ->
  assoc_find key (entries_after es kvs) = match last_row key kvs with Some r => Some r | None => assoc_find key es end.
Proof.
  intros Hkey. induction kvs as [|[k r] kvs IH]; intros HP es Hes; cbn [entries_after last_row]; [done|].
  apply Forall_cons in HP as [Hk HP]. rewrite IH; [|done|by apply assoc_insert_keys].
  destruct (last_row key kvs); [done|]. rewrite assoc_find_insert by done. by destruct (value_eqb k key).
Qed.

Lemma built_index kt kvs : Forall (fun e => P e.1) kvs ->
  exists t es, insert_all (BPTree_new kt) kvs = Ret t /\ holds t es /\
    forall key, P key -> assoc_find key es = last_row key kvs.
Proof.
  intros HP. destruct (insert_all_holds kvs _ [] (oi_new kt) HP) as (t & Ht & Hh).
  exists t, (entries_after [] kvs). split; [done|]. split; [done|]. intros key Hkey.
  rewrite entries_after_find by done. by destruct (last_row key kvs).
Qed.
End built.

(** ** Which insertion an entry comes from *)

Section origins.
Context {P : Value -> Prop} `{!KeyOrder P}.

Lemma eqb_ltb a b c : P a -> P b -> P c -> value_eqb a b = true -> value_ltb a c = value_ltb b c /\ value_ltb c a = value_ltb c b.
Proof.
  intros Ha Hb Hc E. apply (eqb_true a b Ha Hb) in E as [E1 E2].
  split; destruct (value_ltb _ _) eqn:F1 at 1; destruct (value_ltb _ _) eqn:F2 at 1; try done; exfalso.
  - destruct (ko_cotrans a b c Ha Hb Hc F1); congruence.
  - destruct (ko_cotrans b a c Hb Ha Hc F2); congruence.
  - destruct (ko_cotrans c b a Hc Hb Ha F1); congruence.
  - destruct (ko_cotrans c a b Hc Ha Hb F2); congruence.
Qed.

(** Equal keys compare alike. *)
Lemma eqb_cmp op a b c : P a -> P b -> P c -> value_eqb a b = true -> cmp_values op a c = cmp_values op b c.
Proof.
  intros Ha Hb Hc E. destruct (eqb_ltb a b c Ha Hb Hc E) as [E1 E2].
  destruct op; cbn [cmp_values]; unfold value_neb, value_gtb, value_leb, value_geb; rewrite ?(ko_eqb a c), ?(ko_eqb b c) by done; by rewrite ?E1, ?E2.
Qed.

Lemma last_row_Some key kvs r : last_row key kvs = Some r -> exists k, (k, r) ∈ kvs /\ value_eqb k key = true.
Proof.
  induction kvs as [|[k s] kvs IH]; [done|]. cbn. destruct (last_row key kvs) as [s'|].
  - intros E. destruct (IH E) as (k' & Hin & Hk). exists k'. split; [by right|done].
  - destruct (value_eqb k key) eqn:Ek; [|done]. intros [= ->]. exists k. split; [by left|done].
Qed.

Lemma last_row_equal k k' kvs : Forall (fun e => P e.1) kvs -> P k -> P k' -> value_eqb k k' = true -> last_row k kvs = last_row k' kvs.
Proof.
  intros HP Hk Hk' E. induction HP as [|[x r] kvs Hx HP IH]; [done|]. cbn in *. rewrite IH.
  assert (value_eqb x k = value_eqb x k') as ->; [|done].
  rewrite (eqb_sym x k), (eqb_sym x k') by done. exact (eqb_cmp EQ k k' x Hk Hk' Hx E).
Qed.

Lemma last_row_app key kvs kvs' : last_row key (kvs ++ kvs') = match last_row key kvs' with Some r => Some r | None => last_row key kvs end.
Proof. induction kvs as [|[k r] kvs IH]; cbn; [by destruct (last_row key kvs')|]. rewrite IH. by destruct (last_row key kvs'). Qed.

Lemma assoc_find_Some key es r : assoc_find key es = Some r -> exists k, (k, r) ∈ es /\ value_eqb k key = true.
Proof.
  induction es as [|[k s] es IH]; [done|]. cbn. destruct (value_eqb k key) eqn:Ek.
  - intros [= ->]. exists k. split; [by left|done].
  - intros E. destruct (IH E) as (k' & Hin & Hk). exists k'. split; [by right|done].
Qed.

(** A sorted list of entries has each key once. *)
Lemma assoc_find_in es k r : StronglySorted ent_lt es -> Forall (fun e => P e.1) es -> (k, r) ∈ es -> assoc_find k es = Some r.
Proof.
  intros Hs HP. induction Hs as [|[k0 r0] es Hs IH Hlt]; intros Hin; [by apply elem_of_nil in Hin|].
  apply Forall_cons in HP as [Hk0 HP]. cbn in *. apply elem_of_cons in Hin as [[= <- <-]|Hin]; [by rewrite eqb_refl|].
  rewrite Forall_forall in Hlt, HP. specialize (Hlt _ Hin). specialize (HP _ Hin) as Hk. unfold ent_lt, klt in Hlt. cbn in Hlt, Hk.
  rewrite ko_eqb, Hlt by done. apply IH; [by apply Forall_forall|done].
Qed.

Lemma sorted_unique es : StronglySorted ent_lt es -> forall a b, a ∈ es -> b ∈ es ->
  value_ltb a.1 b.1 = false /\ value_ltb b.1 a.1 = false -> a = b.
Proof.
  induction 1 as [|e es Hs IH Hlt]; intros a b Ha Hb [H1 H2]; [by apply elem_of_nil in Ha|]. rewrite Forall_forall in Hlt. unfold ent_lt, klt in Hlt.
  apply elem_of_cons in Ha as [->|Ha], Hb as [->|Hb]; [done| | |by apply IH].
  - specialize (Hlt _ Hb). congruence.
  - specialize (Hlt _ Ha). congruence.
Qed.

Lemma sorted_NoDup es : StronglySorted ent_lt es -> Forall (fun e => P e.1) es -> NoDup es.
Proof.
  intros Hs HP. induction Hs as [|e es Hs IH Hlt]; [constructor|]. apply Forall_cons in HP as [He HP].
  constructor; [|by apply IH]. intros Hin. rewrite Forall_forall in Hlt. specialize (Hlt _ Hin). unfold ent_lt, klt in Hlt.
  by rewrite ko_irrefl in Hlt.
Qed.

Lemma entries_after_sorted kvs : Forall (fun e => P e.1) kvs -> forall es, StronglySorted ent_lt es -> Forall (fun e => P e.1) es ->
  StronglySorted ent_lt (entries_after es kvs) /\ Forall (fun e => P e.1) (entries_after es kvs).
Proof.
  induction 1 as [|[k r] kvs Hk HP IH]; intros es Hs Hes; cbn [entries_after]; [done|]. cbn in Hk.
  apply IH; [by apply assoc_insert_sorted|by apply assoc_insert_keys].
Qed.

(** The rows an index scan visits are those of the insertions that are the last
    under their key. *)
Lemma entries_last kvs op key : Forall (fun e => P e.1) kvs -> NoDup kvs.*2 -> P key ->
  snd <$> matching op key (entries_after [] kvs) ≡ₚ
  snd <$> filter (fun e => cmp_values op e.1 key = true /\ last_row e.1 kvs = Some e.2) kvs.
Proof.
  intros HP Hnd Hkey. destruct (entries_after_sorted kvs HP [] (SSorted_nil _) (List.Forall_nil _)) as [Hs HE].
  set (E := entries_after [] kvs) in *.
  assert (Hfind : forall k, P k -> assoc_find k E = last_row k kvs).
  { intros k Hk. unfold E. rewrite entries_after_find by done. by destruct (last_row k kvs). }
  rewrite Forall_forall in HP, HE.
  assert (Horig : forall k r, (k, r) ∈ E -> exists k', (k', r) ∈ kvs /\ value_eqb k' k = true /\ P k /\ P k').
  { intros k r Hin. pose proof (HE _ Hin) as Hk. pose proof (assoc_find_in E k r Hs ltac:(by apply Forall_forall) Hin) as Ef.
    rewrite (Hfind k Hk) in Ef. apply last_row_Some in Ef as (k' & Hin' & Ek). exists k'. do 3 (split; [done|]). by apply (HP _ Hin'). }
  assert (Huniq : forall k k' r, (k, r) ∈ kvs -> (k', r) ∈ kvs -> k = k').
  { intros k k' r [i Hi]%list_elem_of_lookup [j Hj]%list_elem_of_lookup.
    assert (i = j) as ->; [|by rewrite Hi in Hj; injection Hj].
    apply (NoDup_lookup kvs.*2 i j r); [done|by rewrite list_lookup_fmap, Hi|by rewrite list_lookup_fmap, Hj]. }
  apply NoDup_Permutation.
  - apply NoDup_fmap_2_strong; [|apply NoDup_filter, sorted_NoDup; [done|by apply Forall_forall]].
    intros [k r] [k2 r2] [_ Hin]%list_elem_of_filter [_ Hin2]%list_elem_of_filter. cbn. intros <-.
    destruct (Horig _ _ Hin) as (k' & Hk' & E1 & Hk & Pk'), (Horig _ _ Hin2) as (k2' & Hk2' & E2 & Hk2 & _).
    rewrite <- (Huniq _ _ _ Hk' Hk2') in E2.
    apply (sorted_unique E Hs _ _ Hin Hin2). rewrite (eqb_sym k' k) in E1 by done.
    assert (Ekk : cmp_values EQ k k2 = true) by (by rewrite (eqb_cmp EQ k k' k2)). by apply (eqb_true k k2 Hk Hk2) in Ekk.
  - apply (NoDup_fmap_2_strong snd); [|apply NoDup_filter; by eapply NoDup_fmap_1].
    intros [k r] [k2 r2] [_ Hin]%list_elem_of_filter [_ Hin2]%list_elem_of_filter. cbn. intros <-. f_equal. by eapply Huniq.
  - intros r. rewrite !list_elem_of_fmap. unfold matching. split.
    + intros ([k r'] & -> & [Hc Hin]%list_elem_of_filter). cbn in *. destruct (Horig _ _ Hin) as (k' & Hk' & Ek & Hk & Pk').
      exists (k', r'). split; [done|]. apply list_elem_of_filter. cbn. split; [|done]. split; [by rewrite (eqb_cmp op k' k key)|].
      rewrite (last_row_equal k' k kvs) by (try done; by apply Forall_forall). rewrite <- Hfind by done.
      apply assoc_find_in; [done|by apply Forall_forall|done].
    + intros ([k r'] & -> & [[Hc El] Hin]%list_elem_of_filter). cbn in *. pose proof (HP _ Hin) as Hk. cbn in Hk. rewrite <- Hfind in El by done.
      apply assoc_find_Some in El as (k' & Hin' & Ek). pose proof (HE _ Hin') as Hk'. cbn in Hk'. exists (k', r'). split; [done|].
      apply list_elem_of_filter. split; [|done]. cbn. by rewrite (eqb_cmp op k' k key).
Qed.
End origins.

(** ** Properties *)

(** C9: After any sequence of insertions into an empty tree — splits of leaves
    and inner nodes included — [find] returns the row of the last insertion
    under an equal key, and -1 when there is none; neither operation reads
    outside an array or follows a dangling pointer. *)
Theorem insert_then_find dt kvs key : Forall (fun e => key_ok dt e.1) kvs -> key_ok dt key ->
  exists t, insert_all (BPTree_new dt) kvs = Ret t /\
    find t key = Ret (match last_row key kvs with Some r => s64 r | None => (-1)%Z end).
Proof.
  intros HP Hkey. destruct (built_index (holds := @bptree_rep (key_ok dt)) dt kvs HP) as (t & es & Ht & Hh & Hf).
  exists t. split; [done|]. by rewrite (oi_find t es key Hh Hkey), Hf.
Qed.

Definition sample_kvs : list entry := [(VInt 7, 0%Z); (VInt 3, 1%Z); (VInt 7, 2%Z)].

Lemma sample_kvs_ok : Forall (fun e => key_ok INT e.1) sample_kvs.
Proof. repeat constructor. Qed.

Lemma insert_then_find_witness : exists t, insert_all (BPTree_new INT) sample_kvs = Ret t /\ find t (VInt 7) = Ret 2%Z.
Proof. apply (insert_then_find INT sample_kvs (VInt 7)); [exact sample_kvs_ok|by split]. Defined.

(** C10: Each of the six range scans of a built index visits exactly the rows
    whose key satisfies the comparison, each key once, in increasing key order,
    and stops when the callback asks; a scan of everything visits all rows. *)
Theorem range_scans_exact dt kvs : Forall (fun e => key_ok dt e.1) kvs ->
  exists t es, insert_all (BPTree_new dt) kvs = Ret t /\ StronglySorted ent_lt es /\
    (forall key, key_ok dt key -> assoc_find key es = last_row key kvs) /\
    forall (S : Type) (cb : S -> Z -> outcome (S * bool)) s,
      scan_all cb t s = visit cb (snd <$> es) s /\
      forall op key, key_ok dt key -> range_scan op cb t key s = visit cb (snd <$> matching op key es) s.
Proof.
  intros HP. destruct (built_index (holds := @bptree_rep (key_ok dt)) dt kvs HP) as (t & es & Ht & Hh & Hf).
  exists t, es. split; [done|]. split; [apply (oi_sorted t es Hh)|]. split; [done|]. intros S cb s.
  split; [by apply oi_all|]. intros op key Hkey. by apply oi_range.
Qed.

Lemma range_scans_exact_witness : exists t es, insert_all (BPTree_new INT) sample_kvs = Ret t /\ StronglySorted ent_lt es /\
    (forall key, key_ok INT key -> assoc_find key es = last_row key sample_kvs) /\
    forall (S : Type) (cb : S -> Z -> outcome (S * bool)) s,
      scan_all cb t s = visit cb (snd <$> es) s /\
      forall op key, key_ok INT key -> range_scan op cb t key s = visit cb (snd <$> matching op key es) s.
Proof. exact (range_scans_exact INT sample_kvs sample_kvs_ok). Defined.

(** C33: Balance: after any insertions the tree holds each key that was
    inserted once, however often it was inserted, and counts them in [size_];
    when it has more than one level these are at least
    [2 * 127 * 128 ^ (height - 2)] keys, so a descent reads a logarithmic number
    of nodes. *)
Theorem height_logarithmic dt kvs : Forall (fun e => key_ok dt e.1) kvs ->
  exists t n es, insert_all (BPTree_new dt) kvs = Ret t /\
    StronglySorted ent_lt es /\ Forall (fun e => key_ok dt e.1) es /\ (forall key, key_ok dt key -> assoc_find key es = last_row key kvs) /\
    size_ t = u64 (Z.of_nat (length es)) /\ height_ t = u32 (Z.of_nat (S n)) /\
    (n = 0 \/ 2 * MIN_KEYS * S MIN_KEYS ^ (n - 1) <= length es).
Proof.
  intros HP. destruct (built_index (holds := @bptree_rep (key_ok dt)) dt kvs HP) as (t & es & Ht & Hh & Hf).
  destruct (tree_occupancy t _ Hh) as (n & Hn & Hocc), (oi_sorted t es Hh) as [Hs Hk]. exists t, n, es.
  do 4 (split; [done|]). split; [by apply oi_size|]. by split.
Qed.

Lemma height_logarithmic_witness : exists t n es, insert_all (BPTree_new INT) sample_kvs = Ret t /\
    StronglySorted ent_lt es /\ Forall (fun e => key_ok INT e.1) es /\ (forall key, key_ok INT key -> assoc_find key es = last_row key sample_kvs) /\
    size_ t = u64 (Z.of_nat (length es)) /\ height_ t = u32 (Z.of_nat (S n)) /\
    (n = 0 \/ 2 * MIN_KEYS * S MIN_KEYS ^ (n - 1) <= length es).
Proof. exact (height_logarithmic INT sample_kvs sample_kvs_ok). Defined.
