(* ===== verification/IndexMemory.v ===== *)
(** * The index when memory runs out in a split ([index/bptree.cpp])

    BPTree takes the allocations of nodes to succeed. Here is what one that
    fails leaves behind: [BPTree::insert] puts the entry into the leaf before
    [split_leaf] asks for a node, so an exception there leaves a leaf that is
    full, and the next insertion into it writes past the end of its arrays. *)

From Stdlib Require Import ZArith Lia.
From stdpp Require Import base strings gmap numbers list list_numbers.
From S2P Require Import Prelude Cpp Common BPTree BPTreeRep BPTreeInsert Index.
Open Scope list_scope.
Open Scope Z_scope.

(** [leaf_insert] up to the split: the tree, and whether the split is next. *)
Definition leaf_put (t : BPTree) (p : nat) (key : Value) (row_id : Z) : outcome (BPTree * bool) :=
  nd ← deref (node_pool_ t !! p);
  pos ← lower_bound nd key;
  let n := num_keys nd in
  dup ← (if (pos <? n)%nat then k ← deref (keys nd !! pos); Ret (value_eqb k key) else Ret false);
  if (dup : bool) then
    rs ← arr_set (row_ids nd) pos row_id;
    pool ← update_node (node_pool_ t) p (with_row_ids rs);
    Ret (with_pool pool t, false)
  else
    ks ← shift_right (n - pos) n (keys nd);
    rs ← shift_right (n - pos) n (row_ids nd);
    ks ← arr_set ks pos key;
    rs ← arr_set rs pos row_id;
    pool ← update_node (node_pool_ t) p (fun x => with_num_keys (S n) (with_row_ids rs (with_keys ks x)));
    Ret (mkBPTree (key_type_ t) (root_ t) (leftmost_leaf_ t) (u64 (size_ t + 1)) (height_ t) pool, (ORDER <=? S n)%nat).

(** It is the same computation, cut in two. *)
Lemma leaf_insert_cut t p key row_id :
  leaf_insert t p key row_id =
  (x ← leaf_put t p key row_id; if (snd x : bool) then t ← split_leaf (fst x) p; Ret (true, t) else Ret (true, fst x)).
Proof.
  unfold leaf_insert, leaf_put. cbv zeta.
  destruct (deref (node_pool_ t !! p)) as [nd| | |]; outcome_simpl; [|done..].
  destruct (lower_bound nd key) as [pos| | |]; outcome_simpl; [|done..].
  destruct (if (pos <? num_keys nd)%nat then _ else _) as [[|]| | |]; outcome_simpl; [| |done..].
  - destruct (arr_set (row_ids nd) pos row_id); outcome_simpl; [|done..]. by destruct (update_node _ _ _).
  - destruct (shift_right _ _ (keys nd)) as [ks| | |]; outcome_simpl; [|done..].
    destruct (shift_right _ _ (row_ids nd)) as [rs| | |]; outcome_simpl; [|done..].
    destruct (arr_set ks pos key); outcome_simpl; [|done..]. destruct (arr_set rs pos row_id); outcome_simpl; [|done..].
    by destruct (update_node _ _ _).
Qed.

(** The tree an [insert] leaves whose split throws [std::bad_alloc]; one that
    does not split asks for no node. *)
Definition insert_bad_alloc (t : BPTree) (key : Value) (row_id : Z) : outcome BPTree :=
  leaf ← find_leaf t key;
  match leaf with
  | None => Ret t
  | Some p => x ← leaf_put t p key row_id; Ret (fst x)
  end.

(** A leaf one entry short of a split. *)
Definition almost_full : list entry := (fun i => (VInt (Z.of_nat i), Z.of_nat i)) <$> seq 0 (ORDER - 1).

(** The key whose insertion threw is found, and the next one is written outside
    [keys]. *)
Example insert_after_bad_alloc :
  (t ← insert_all (BPTree_new INT) almost_full; t ← insert_bad_alloc t (VInt 255) 255; find t (VInt 255)) = Ret 255 /\
  (t ← insert_all (BPTree_new INT) almost_full; t ← insert_bad_alloc t (VInt 255) 255; insert t (VInt 256) 256) = Undef.
Proof. split; vm_compute; reflexivity. Qed.
