(* ===== verification/Table.v ===== *)
(** * storage/table.{h,cpp}: rows in the arena, indexed by primary key

    A [Table] owns an arena, the pointers of its rows in insertion order and
    the index on the first column. Rows are read and written byte by byte at
    the offsets the schema gives; [table_rep] says which rows the bytes encode.
    The clock is read when a row is checked: [clock i] is what [time] returns
    when row [i] is. Each operation runs under the table's lock, so it is one
    step here; [shared_mutex] itself is in Concurrency.v. *)

From Stdlib Require Import ZArith Lia Sorting.Sorted.
From stdpp Require Import base strings gmap numbers list list_numbers.
From S2P Require Import Prelude Cpp Common Schema Arena BPTree BPTreeRep BPTreeInsert Index.
Open Scope list_scope.
Open Scope Z_scope.

(** ** State *)

Record Table := mkTable {
  name_ : string;
  schema_ : Schema;
  ttl_seconds_ : Z;
  arena_ : Arena;
  cached_row_size_ : Z;
  rows_ : list Ptr;
  row_count_ : Z;          (* atomic<uint64_t> *)
  pk_index_ : BPTree;
}.

Definition with_arena (a : Arena) (t : Table) : Table :=
  mkTable (name_ t) (schema_ t) (ttl_seconds_ t) a (cached_row_size_ t) (rows_ t) (row_count_ t) (pk_index_ t).

(** [columns()[i]] for an [int] index. *)
Definition column_at (s : Schema) (idx : Z) : outcome ColumnDef :=
  if idx <? 0 then Undef else deref (columns_ s !! Z.to_nat idx).

(** ** Raw rows *)

(** The [switch] of [write_row]. *)
Definition write_value (a : Arena) (dest : Ptr) (type : DataType) (v : Value) : outcome Arena :=
  match type with
  | INT => mem_write a dest (le_bytes 4 (int_val v))
  | DECIMAL => mem_write a dest (le_bytes 8 (dec_val v))
  | VARCHAR =>
      let len := u16 (str_size (str_val v)) in
      a ← mem_write a dest (le_bytes 2 len);
      mem_write a (ptr_add dest 2) (take (Z.to_nat len) (string_bytes (str_val v)))
  | DATETIME => mem_write a dest (le_bytes 8 (dt_val v))
  | DT_raw _ => Ret a
  end.

(** The loop of [write_row] over the columns from [i] on. *)
Fixpoint write_cols (s : Schema) (ptr : Ptr) (values : Row) (cols : list ColumnDef) (i : nat) (a : Arena) : outcome Arena :=
  match cols with
  | [] => Ret a
  | col :: cols =>
      v ← deref (values !! i);
      a ← write_value a (ptr_add ptr (column_offset s i)) (col_type col) v;
      write_cols s ptr values cols (S i) a
  end.

Definition write_row (s : Schema) (a : Arena) (ptr : Ptr) (values : Row) (expiry : Z) : outcome Arena :=
  a ← write_cols s ptr values (columns_ s) 0 a;
  a ← mem_write a (ptr_add ptr (expiry_offset s)) (le_bytes 8 expiry);
  mem_write a (ptr_add ptr (valid_offset s)) [1].

Definition read_typed (a : Arena) (src : Ptr) (type : DataType) : outcome Value :=
  match type with
  | INT => bs ← mem_read a src 4; Ret (VInt (s32 (le_val bs)))
  | DECIMAL => bs ← mem_read a src 8; Ret (VDec (le_val bs))
  | VARCHAR =>
      bs ← mem_read a src 2;
      cs ← mem_read a (ptr_add src 2) (Z.to_nat (le_val bs));
      Ret (VStr (bytes_string cs))
  | DATETIME => bs ← mem_read a src 8; Ret (VDt (s64 (le_val bs)))
  | DT_raw b => Ret (VRaw b)
  end.

Definition read_value (t : Table) (row_ptr : Ptr) (col_idx : Z) : outcome Value :=
  col ← column_at (schema_ t) col_idx;
  read_typed (arena_ t) (ptr_add row_ptr (column_offset (schema_ t) (Z.to_nat col_idx))) (col_type col).

Definition read_row (t : Table) (ptr : Ptr) : outcome Row :=
  mapM (fun i => read_value t ptr (Z.of_nat i)) (seq 0 (num_columns (schema_ t))).

Definition read_row_projected (t : Table) (ptr : Ptr) (cols : list Z) : outcome Row :=
  mapM (fun idx => read_value t ptr idx) cols.

Definition read_byte (a : Arena) (p : Ptr) : outcome Z :=
  bs ← mem_read a p 1; deref (head bs).

Definition is_row_valid (t : Table) (now : Z) (ptr : Ptr) : outcome bool :=
  b ← read_byte (arena_ t) (ptr_add ptr (valid_offset (schema_ t)));
  if b =? 0 then Ret false else
  bs ← mem_read (arena_ t) (ptr_add ptr (expiry_offset (schema_ t))) 8;
  let expiry := s64 (le_val bs) in
  if 0 <? expiry then Ret (negb (expiry <? now)) else Ret true.

Definition compare_value (t : Table) (row_ptr : Ptr) (col_idx : Z) (op : CmpOp) (target : Value) : outcome bool :=
  v ← read_value t row_ptr col_idx;
  Ret (cmp_values op v target).

(** ** Operations *)

Section ops.
Context `{malloc : Malloc}.

Definition Table_new (name : string) (schema : Schema) (ttl_seconds : Z) : outcome Table :=
  arena ← Arena_new ARENA_CHUNK_SIZE;
  pk ← pk_column schema;
  Ret (mkTable name schema ttl_seconds arena (total_row_size schema) [] 0 (BPTree_new (col_type pk))).

(** [insert(values, error)]: the error message when it returns false. The arena
    may be refused a chunk; [rows_] and the nodes of the index are taken to get
    their memory. *)
Definition insert (t : Table) (now : Z) (values : Row) : outcome (option string * Table) :=
  match validate_row (schema_ t) values with
  | Some error => Ret (Some error, t)
  | None =>
      al ← allocate (arena_ t) (cached_row_size_ t) 8;
      match fst al with
      | None => Ret (Some "Out of memory", with_arena (snd al) t)
      | Some row_ptr =>
          let expiry := if 0 <? ttl_seconds_ t then now + ttl_seconds_ t else 0 in
          a ← write_row (schema_ t) (snd al) row_ptr values expiry;
          pk_val ← deref (values !! Z.to_nat (Schema.pk_index_ (schema_ t)));
          ix ← BPTree.insert (pk_index_ t) pk_val (Z.of_nat (length (rows_ t)));
          Ret (None, mkTable (name_ t) (schema_ t) (ttl_seconds_ t) a (cached_row_size_ t)
                       (rows_ t ++ [row_ptr]) (u64 (row_count_ t + 1)) (snd ix))
      end
  end.
End ops.

(** The loops of the scans, over the rows from number [i] on: [keep] and [out]
    are applied to the valid ones. *)
Fixpoint scan_rows (t : Table) (clock : nat -> Z) (keep : Ptr -> outcome bool) (out : Ptr -> outcome Row)
    (i : nat) (ptrs : list Ptr) : outcome (list Row) :=
  match ptrs with
  | [] => Ret []
  | ptr :: ptrs =>
      v ← is_row_valid t (clock i) ptr;
      k ← (if v : bool then keep ptr else Ret false);
      if (k : bool) then
        r ← out ptr; rest ← scan_rows t clock keep out (S i) ptrs; Ret (r :: rest)
      else scan_rows t clock keep out (S i) ptrs
  end.

Definition scan_all (t : Table) (clock : nat -> Z) : outcome (list Row) :=
  scan_rows t clock (fun _ => Ret true) (read_row t) 0 (rows_ t).

Definition scan_projected (t : Table) (clock : nat -> Z) (col_indices : list Z) : outcome (list Row) :=
  scan_rows t clock (fun _ => Ret true) (fun ptr => read_row_projected t ptr col_indices) 0 (rows_ t).

(** [project_cols.empty() ? read_row(ptr) : read_row_projected(ptr, project_cols)] *)
Definition read_out (t : Table) (project_cols : list Z) (ptr : Ptr) : outcome Row :=
  match project_cols with [] => read_row t ptr | _ => read_row_projected t ptr project_cols end.

(** The callback of [index_range]. *)
Definition collect (t : Table) (clock : nat -> Z) (project_cols : list Z) (results : list Row) (row_id : Z)
    : outcome (list Row * bool) :=
  match rows_ t !! Z.to_nat row_id with
  | None => Ret (results, true)
  | Some ptr =>
      v ← is_row_valid t (clock (Z.to_nat row_id)) ptr;
      if (v : bool) then r ← read_out t project_cols ptr; Ret (results ++ [r], true) else Ret (results, true)
  end.

Definition index_range (t : Table) (clock : nat -> Z) (op : CmpOp) (pk_value : Value) (project_cols : list Z) : outcome (list Row) :=
  match op with
  | EQ => range_eq (collect t clock project_cols) (pk_index_ t) pk_value []
  | NE => range_ne (collect t clock project_cols) (pk_index_ t) pk_value []
  | LT => range_lt (collect t clock project_cols) (pk_index_ t) pk_value []
  | GT => range_gt (collect t clock project_cols) (pk_index_ t) pk_value []
  | LE => range_le (collect t clock project_cols) (pk_index_ t) pk_value []
  | GE => range_ge (collect t clock project_cols) (pk_index_ t) pk_value []
  end.

Definition scan_where (t : Table) (clock : nat -> Z) (col_idx : Z) (op : CmpOp) (value : Value) (project_cols : list Z)
    : outcome (list Row) :=
  if col_idx =? s32 (Schema.pk_index_ (schema_ t)) then index_range t clock op value project_cols
  else scan_rows t clock (fun ptr => compare_value t ptr col_idx op value) (read_out t project_cols) 0 (rows_ t).

Definition index_lookup (t : Table) (clock : nat -> Z) (pk_value : Value) : outcome (list Row) :=
  row_id ← BPTree.find (pk_index_ t) pk_value;
  if (0 <=? row_id) && (row_id <? Z.of_nat (length (rows_ t))) then
    ptr ← deref (rows_ t !! Z.to_nat row_id);
    v ← is_row_valid t (clock (Z.to_nat row_id)) ptr;
    if (v : bool) then r ← read_row t ptr; Ret [r] else Ret []
  else Ret [].

(** The loop of [cleanup_expired]: the number cleaned and the arena. *)
Fixpoint cleanup_rows (s : Schema) (now : Z) (ptrs : list Ptr) (cleaned : Z) (a : Arena) : outcome (Z * Arena) :=
  match ptrs with
  | [] => Ret (cleaned, a)
  | ptr :: ptrs =>
      b ← read_byte a (ptr_add ptr (valid_offset s));
      if b =? 1 then
        bs ← mem_read a (ptr_add ptr (expiry_offset s)) 8;
        let expiry := s64 (le_val bs) in
        if (0 <? expiry) && (expiry <? now) then
          a ← mem_write a (ptr_add ptr (valid_offset s)) [0];
          cleanup_rows s now ptrs (u64 (cleaned + 1)) a
        else cleanup_rows s now ptrs cleaned a
      else cleanup_rows s now ptrs cleaned a
  end.

Definition cleanup_expired (t : Table) (now : Z) : outcome (Z * Table) :=
  res ← cleanup_rows (schema_ t) now (rows_ t) 0 (arena_ t);
  Ret (fst res, mkTable (name_ t) (schema_ t) (ttl_seconds_ t) (snd res) (cached_row_size_ t) (rows_ t)
                  (u64 (row_count_ t - fst res)) (pk_index_ t)).
