(* ===== verification/TableRep.v ===== *)
(** * What a table's bytes mean, and that its operations keep to it

    [table_rep t rs]: the bytes of [t] encode the rows [rs], in insertion
    order, each with its expiry and its valid flag, and the index holds their
    primary keys. Writing a row disturbs no other row; reading returns what
    was written; each operation of Table is then an operation on [rs]. *)

From Stdlib Require Import ZArith Lia Sorting.Sorted.
From stdpp Require Import base strings gmap numbers list list_numbers.
From S2P Require Import Prelude Cpp Common Schema Arena BPTree BPTreeRep BPTreeInsert Index Table.
Open Scope list_scope.
Open Scope Z_scope.

(** ** Abstract rows *)

Record stored := mkStored { st_vals : Row; st_expiry : Z; st_alive : bool }.

(** Visible to a scan that checks it at time [now]. *)
Definition live (now : Z) (r : stored) : bool :=
  st_alive r && negb ((0 <? st_expiry r) && (st_expiry r <? now)).

(** A value a C++ [Value] can hold. *)
Definition value_wf (v : Value) : Prop :=
  match v with
  | VInt z => is_s32 z
  | VDec b => is_u64 b
  | VDt z => is_s64 z
  | VStr _ | VRaw _ => True
  end.

(** ** Blocks and writes *)

(** [a'] is [a] after writes inside the [n] bytes at [p]. *)
Record wrote (a a' : Arena) (p : Ptr) (n : Z) : Prop := {
  wr_frontier : frontier a' = frontier a;
  wr_inv : arena_inv a -> arena_inv a';
  wr_valid : forall q m, block_valid a q m <-> block_valid a' q m;
  wr_read : forall q m, disjoint_blocks p n q (Z.of_nat m) -> mem_read a' q m = mem_read a q m;
}.

Lemma wrote_refl a p n : wrote a a p n.
Proof. by split. Qed.

(** [q]'s [m] bytes lie inside [p]'s [n] bytes. *)
Definition within (q : Ptr) (m : Z) (p : Ptr) (n : Z) : Prop :=
  fst q = fst p /\ snd p <= snd q /\ snd q + m <= snd p + n.

Lemma within_disjoint q m p n r k : within q m p n -> disjoint_blocks p n r k -> disjoint_blocks q m r k.
Proof. unfold within, disjoint_blocks. intros (-> & ? & ?) [?|[?|?]]; [by left|right; lia..]. Qed.

Lemma wrote_trans a a1 a2 p n q m q' m' : wrote a a1 q m -> wrote a1 a2 q' m' ->
  within q m p n -> within q' m' p n -> wrote a a2 p n.
Proof.
  intros [F1 I1 V1 R1] [F2 I2 V2 R2] W1 W2. split.
  - congruence.
  - auto.
  - intros. by rewrite V1.
  - intros r k Hd. rewrite R2, R1; [done|by eapply within_disjoint..].
Qed.

Lemma wrote_within a a' q m p n : wrote a a' q m -> within q m p n -> wrote a a' p n.
Proof. intros H Hw. by eapply (wrote_trans a a a' p n q m q m); [apply wrote_refl| |done|]. Qed.

Lemma block_within a p n q m : block_valid a p n -> within q m p n -> block_valid a q m.
Proof. intros (c & Hc & H1 & H2) (E & ? & ?). exists c. rewrite E. split; [done|lia]. Qed.

Lemma mem_write_wrote a p bs n : block_valid a p n -> n = Z.of_nat (length bs) ->
  exists a', mem_write a p bs = Ret a' /\ wrote a a' p n /\ mem_read a' p (length bs) = Ret bs.
Proof.
  intros Hb ->. destruct (mem_write_spec a p bs Hb) as (a' & Hw & Hf & Hi & Hv).
  exists a'. split; [done|]. split; [|by eapply mem_read_written]. split; [done|done|done|].
  intros q m Hd. by eapply mem_read_disjoint.
Qed.

(** ** One value in its slot *)

(** The slot at [q] of a column of type [type] encodes [v]. *)
Definition slot_holds (a : Arena) (q : Ptr) (type : DataType) (v : Value) : Prop :=
  match type with
  | INT => mem_read a q 4 = Ret (le_bytes 4 (int_val v))
  | DECIMAL => mem_read a q 8 = Ret (le_bytes 8 (dec_val v))
  | VARCHAR => mem_read a q 2 = Ret (le_bytes 2 (str_size (str_val v))) /\
               mem_read a (ptr_add q 2) (String.length (str_val v)) = Ret (string_bytes (str_val v))
  | DATETIME => mem_read a q 8 = Ret (le_bytes 8 (dt_val v))
  | DT_raw _ => True
  end.

(** The bytes the encoding of [v] occupies, at most the column's size. *)
Definition enc_size (type : DataType) (v : Value) : Z :=
  match type with
  | INT => 4 | DECIMAL => 8 | DATETIME => 8
  | VARCHAR => 2 + str_size (str_val v)
  | DT_raw _ => 0
  end.

Lemma str_size_nonneg s : 0 <= str_size s.
Proof. unfold str_size. lia. Qed.

Lemma slot_holds_wrote a a' p n q type v : wrote a a' p n ->
  disjoint_blocks p n q (enc_size type v) -> slot_holds a q type v -> slot_holds a' q type v.
Proof.
  intros [_ _ _ R] Hd. pose proof (str_size_nonneg (str_val v)) as Hs. destruct type; cbn in *; [intros <-; apply R; done..| |intros <-; apply R; done|done].
  unfold str_size in *. intros [<- <-]. split; apply R; unfold disjoint_blocks, ptr_add in *; cbn;
    (destruct Hd as [?|[?|?]]; [by left|right; lia..]).
Qed.

Lemma write_value_spec a q c v : value_fits c v -> is_u16 (max_len c) -> block_valid a q (storage_size c) ->
  exists a', write_value a q (col_type c) v = Ret a' /\ wrote a a' q (storage_size c) /\
    slot_holds a' q (col_type c) v /\ enc_size (col_type c) v <= storage_size c.
Proof.
  intros [_ Hlen] Hml Hb. unfold write_value, storage_size in *. destruct (col_type c); cbn [slot_holds enc_size].
  - destruct (mem_write_wrote a q (le_bytes 4 (int_val v)) 4 Hb) as (a' & -> & Hw & Hr); [by rewrite (length_le_bytes 4)|].
    rewrite (length_le_bytes 4) in Hr. by exists a'.
  - destruct (mem_write_wrote a q (le_bytes 8 (dec_val v)) 8 Hb) as (a' & -> & Hw & Hr); [by rewrite (length_le_bytes 8)|].
    rewrite (length_le_bytes 8) in Hr. by exists a'.
  - specialize (Hlen eq_refl). pose proof (str_size_nonneg (str_val v)) as Hs.
    rewrite u16_small by (unfold is_u16 in *; lia). rewrite take_ge by (rewrite length_string_bytes; unfold str_size; lia).
    destruct (mem_write_wrote a q (le_bytes 2 (str_size (str_val v))) 2) as (a1 & -> & Hw1 & Hr1);
      [eapply block_within; [exact Hb|]; unfold within; lia|by rewrite (length_le_bytes 2)|]. outcome_simpl.
    rewrite (length_le_bytes 2) in Hr1.
    destruct (mem_write_wrote a1 (ptr_add q 2) (string_bytes (str_val v)) (str_size (str_val v))) as (a2 & -> & Hw2 & Hr2);
      [apply (wr_valid _ _ _ _ Hw1); eapply block_within; [exact Hb|]; unfold within, ptr_add; cbn; lia
      |by rewrite length_string_bytes|].
    rewrite length_string_bytes in Hr2. exists a2. split; [done|]. split; [|split; [|lia]].
    + eapply wrote_trans; [exact Hw1|exact Hw2|..]; unfold within, ptr_add; cbn; lia.
    + split; [|done]. rewrite <- Hr1. apply (wr_read _ _ _ _ Hw2). unfold disjoint_blocks, ptr_add. cbn. lia.
  - destruct (mem_write_wrote a q (le_bytes 8 (dt_val v)) 8 Hb) as (a' & -> & Hw & Hr); [by rewrite (length_le_bytes 8)|].
    rewrite (length_le_bytes 8) in Hr. by exists a'.
  - exists a. split; [done|]. split; [apply wrote_refl|]. done.
Qed.

Lemma read_typed_spec a q type v : slot_holds a q type v -> value_type v = type -> value_wf v ->
  (type = VARCHAR -> is_u16 (str_size (str_val v))) -> read_typed a q type = Ret v.
Proof.
  intros H <- Hwf Hlen. unfold read_typed. destruct v; cbn [value_type slot_holds value_wf Common.int_val Common.dec_val Common.str_val Common.dt_val] in *.
  - rewrite H. outcome_simpl. rewrite (le_val_bytes 4) by lia. by rewrite s32_mod, s32_small.
  - rewrite H. outcome_simpl. rewrite (le_val_bytes 8) by lia. by rewrite Z.mod_small by done.
  - destruct H as [-> H2]. outcome_simpl. specialize (Hlen eq_refl). rewrite (le_val_bytes 2) by lia.
    rewrite Z.mod_small by done. unfold str_size at 1. rewrite Nat2Z.id, H2. outcome_simpl. by rewrite bytes_string_bytes.
  - rewrite H. outcome_simpl. rewrite (le_val_bytes 8) by lia. by rewrite s64_mod, s64_small.
  - done.
Qed.

(** ** One row *)

Record row_at (s : Schema) (a : Arena) (p : Ptr) (r : stored) : Prop := {
  ra_block : block_valid a p (total_row_size s);
  ra_slots : forall i c v, columns_ s !! i = Some c -> st_vals r !! i = Some v ->
               slot_holds a (ptr_add p (column_offset s i)) (col_type c) v;
  ra_expiry : mem_read a (ptr_add p (expiry_offset s)) 8 = Ret (le_bytes 8 (st_expiry r));
  ra_alive : mem_read a (ptr_add p (valid_offset s)) 1 = Ret [if st_alive r then 1 else 0];
}.

(** What the code may assume of a row: it passed [validate_row]. *)
Definition row_wf (s : Schema) (r : stored) : Prop :=
  row_fits s (st_vals r) /\ Forall value_wf (st_vals r) /\ is_s64 (st_expiry r).

Section row.
Context (s : Schema) (Hs : schema_inv s) (Hl : layout_fits s).

Lemma layout_bounds : expiry_offset s = row_size_ s /\ valid_offset s = row_size_ s + 8 /\
  total_row_size s = row_size_ s + 9 /\ 0 <= row_size_ s < 2 ^ 32 - 9.
Proof.
  destruct (metadata_offsets s Hs Hl) as (-> & -> & ->). destruct (row_size_spec s Hs Hl) as [-> Hn].
  unfold layout_fits in Hl. pose proof (bytes_total_nonneg _ (inv_max_len s Hs)). lia.
Qed.

Lemma value_enc_size c v : value_fits c v -> enc_size (col_type c) v <= storage_size c.
Proof.
  intros [_ H]. unfold enc_size, storage_size. destruct (col_type c); try lia. specialize (H eq_refl). lia.
Qed.

Lemma row_fits_lookup r i c v : row_fits s r -> columns_ s !! i = Some c -> r !! i = Some v -> value_fits c v.
Proof. intros H Hc Hv. by eapply Forall2_lookup_lr. Qed.

(** A row is unaffected by writes outside it. *)
Lemma row_at_wrote a a' q n p r : wrote a a' q n -> disjoint_blocks q n p (total_row_size s) ->
  row_wf s r -> row_at s a p r -> row_at s a' p r.
Proof.
  intros W Hd (Hf & _ & _) [Hb Hsl He Ha]. pose proof layout_bounds as (Ee & Ev & Et & Hn).
  assert (Hsub : forall off m, 0 <= off -> off + m <= total_row_size s -> disjoint_blocks q n (ptr_add p off) m).
  { intros off m H1 H2. unfold disjoint_blocks, ptr_add in *. cbn. destruct Hd as [?|[?|?]]; [by left|right; lia..]. }
  split.
  - by apply (wr_valid _ _ _ _ W).
  - intros i c v Hc Hv. eapply slot_holds_wrote; [exact W| |by apply Hsl].
    destruct (slot_in_row s i c Hs Hl Hc) as [H1 H2].
    pose proof (value_enc_size c v (row_fits_lookup _ _ _ _ Hf Hc Hv)). apply Hsub; lia.
  - rewrite (wr_read _ _ _ _ W); [done|]. apply Hsub; lia.
  - rewrite (wr_read _ _ _ _ W); [done|]. apply Hsub; lia.
Qed.

Lemma write_cols_spec p vals : row_fits s vals -> forall cols i a, columns_ s = take i (columns_ s) ++ cols ->
  (i <= num_columns s)%nat -> block_valid a p (total_row_size s) ->
  (forall j c v, (j < i)%nat -> columns_ s !! j = Some c -> vals !! j = Some v ->
     slot_holds a (ptr_add p (column_offset s j)) (col_type c) v) ->
  exists a', write_cols s p vals cols i a = Ret a' /\ wrote a a' p (row_size_ s) /\
    forall j c v, columns_ s !! j = Some c -> vals !! j = Some v ->
      slot_holds a' (ptr_add p (column_offset s j)) (col_type c) v.
Proof.
  intros Hf. pose proof layout_bounds as (_ & _ & Et & Hn).
  induction cols as [|col cols IH]; intros i a Hcols Hi Hb Hslots; cbn [write_cols].
  - exists a. split; [done|]. split; [apply wrote_refl|]. intros j c v Hc. apply Hslots; [|done].
    apply (f_equal length) in Hcols. rewrite app_nil_r, length_take in Hcols.
    apply lookup_lt_Some in Hc. lia.
  - assert (Hci : columns_ s !! i = Some col).
    { rewrite Hcols. unfold num_columns in Hi. rewrite lookup_app_r by (rewrite length_take; lia).
      rewrite length_take, Nat.min_l, Nat.sub_diag by lia. done. }
    destruct (Forall2_lookup_l _ _ _ _ _ Hf Hci) as (v & Hv & Hvf). rewrite Hv. outcome_simpl.
    destruct (slot_in_row s i col Hs Hl Hci) as [Ho1 Ho2].
    pose proof (Forall_lookup_1 _ _ _ _ (inv_max_len s Hs) Hci) as Hml.
    assert (Hw : within (ptr_add p (column_offset s i)) (storage_size col) p (row_size_ s)) by (unfold within, ptr_add; cbn; lia).
    destruct (write_value_spec a (ptr_add p (column_offset s i)) col v Hvf Hml) as (a1 & -> & W & Hh & _).
    { eapply block_within; [exact Hb|]. unfold within, ptr_add in *; cbn in *. lia. }
    outcome_simpl. pose proof (lookup_lt_Some _ _ _ Hci).
    destruct (IH (S i) a1) as (a' & -> & W' & Hall).
    + rewrite (take_S_r _ _ _ Hci), <- app_assoc. exact Hcols.
    + unfold num_columns. lia.
    + by apply (wr_valid _ _ _ _ W).
    + intros j c v' Hj Hc Hv'. destruct (decide (j = i)) as [->|Hne].
      { rewrite Hci in Hc. injection Hc as <-. rewrite Hv in Hv'. by injection Hv' as <-. }
      eapply slot_holds_wrote; [exact W| |apply Hslots; [lia|done..]].
      pose proof (slots_ordered s j i c Hs Hl Hc ltac:(unfold num_columns; lia)).
      pose proof (value_enc_size c v' (row_fits_lookup _ _ _ _ Hf Hc Hv')).
      unfold disjoint_blocks, ptr_add. cbn. right. lia.
    + exists a'. split; [done|]. split; [|done]. eapply wrote_trans; [exact W|exact W'|exact Hw|].
      unfold within. lia.
Qed.

(** Writing a row: the row is there, and nothing outside it has changed. *)
Lemma write_row_spec a p vals expiry : row_fits s vals -> block_valid a p (total_row_size s) ->
  exists a', write_row s a p vals expiry = Ret a' /\ wrote a a' p (total_row_size s) /\
    row_at s a' p (mkStored vals expiry true).
Proof.
  intros Hf Hb. pose proof layout_bounds as (Ee & Ev & Et & Hn). unfold write_row.
  destruct (write_cols_spec p vals Hf (columns_ s) 0 a) as (a1 & -> & W1 & Hsl); [done|lia|done|by intros; lia|].
  outcome_simpl.
  assert (Hsub : forall q off m, 0 <= off -> off + m <= total_row_size s -> block_valid q p (total_row_size s) ->
    block_valid q (ptr_add p off) m).
  { intros q off m H1 H2 Hq. eapply block_within; [exact Hq|]. unfold within, ptr_add. cbn. lia. }
  pose proof (proj1 (wr_valid _ _ _ _ W1 _ _) Hb) as Hb1.
  destruct (mem_write_wrote a1 (ptr_add p (expiry_offset s)) (le_bytes 8 expiry) 8) as (a2 & -> & W2 & Hr2);
    [apply Hsub; [lia|lia|done]|by rewrite (length_le_bytes 8)|]. outcome_simpl. rewrite (length_le_bytes 8) in Hr2.
  pose proof (proj1 (wr_valid _ _ _ _ W2 _ _) Hb1) as Hb2.
  destruct (mem_write_wrote a2 (ptr_add p (valid_offset s)) [1] 1) as (a3 & -> & W3 & Hr3);
    [apply Hsub; [lia|lia|done]|done|].
  pose proof (proj1 (wr_valid _ _ _ _ W3 _ _) Hb2) as Hb3.
  exists a3. split; [done|]. split.
  - assert (W12 : wrote a a2 p (total_row_size s)).
    { eapply wrote_trans; [exact W1|exact W2|unfold within, ptr_add; cbn; lia..]. }
    eapply wrote_trans; [exact W12|exact W3|unfold within, ptr_add; cbn; lia..].
  - split; cbn [st_vals st_expiry st_alive].
    + done.
    + intros i c v Hc Hv. destruct (slot_in_row s i c Hs Hl Hc) as [H1 H2].
      pose proof (value_enc_size c v (row_fits_lookup _ _ _ _ Hf Hc Hv)).
      eapply slot_holds_wrote; [exact W3|unfold disjoint_blocks, ptr_add; cbn; right; lia|].
      eapply slot_holds_wrote; [exact W2|unfold disjoint_blocks, ptr_add; cbn; right; lia|]. by apply Hsl.
    + rewrite (wr_read _ _ _ _ W3); [done|]. unfold disjoint_blocks, ptr_add. cbn. right. lia.
    + exact Hr3.
Qed.

(** Reading a row back. *)
Lemma read_value_spec t p r i c : schema_ t = s -> row_wf s r -> row_at s (arena_ t) p r ->
  columns_ s !! i = Some c -> exists v, st_vals r !! i = Some v /\ read_value t p (Z.of_nat i) = Ret v.
Proof.
  intros Et (Hf & Hwf & _) Hr Hc. destruct (Forall2_lookup_l _ _ _ _ _ Hf Hc) as (v & Hv & Hvf).
  exists v. split; [done|]. unfold read_value, column_at. rewrite Et, (proj2 (Z.ltb_ge _ _)), Nat2Z.id, Hc by lia. outcome_simpl.
  apply read_typed_spec; [by apply (ra_slots _ _ _ _ Hr)|apply Hvf|by eapply Forall_lookup_1|].
  intros Hty. destruct Hvf as [_ Hlen]. specialize (Hlen Hty).
  pose proof (Forall_lookup_1 _ _ _ _ (inv_max_len s Hs) Hc) as Hml. pose proof (str_size_nonneg (str_val v)).
  unfold is_u16 in *. lia.
Qed.

Lemma is_row_valid_spec t p r now : schema_ t = s -> row_wf s r -> row_at s (arena_ t) p r ->
  is_row_valid t now p = Ret (live now r).
Proof.
  intros Et (_ & _ & He) Hr. unfold is_row_valid, read_byte, live. rewrite Et, (ra_alive _ _ _ _ Hr). outcome_simpl.
  destruct (st_alive r); cbn [head Z.eqb andb]; [|done]. outcome_simpl. cbn [Z.eqb]. rewrite (ra_expiry _ _ _ _ Hr). outcome_simpl.
  rewrite (le_val_bytes 8), s64_mod, s64_small by (done || lia). by destruct (0 <? st_expiry r).
Qed.
End row.

(** ** The whole table *)

Definition pk_type (s : Schema) : DataType :=
  match columns_ s with c :: _ => col_type c | [] => INT end.

Definition row_key (r : stored) : Value :=
  match st_vals r with v :: _ => v | [] => Value_default end.

(** The insertions the index has seen: row [i] under its key. *)
Definition numbered (rs : list stored) : list entry := imap (fun i r => (row_key r, Z.of_nat i)) rs.

Definition count_alive (rs : list stored) : Z := Z.of_nat (length (filter (fun r => st_alive r = true) rs)).

Section table.
Context {holds : DataType -> BPTree -> list entry -> Prop} {Hix : forall dt, OrderedIndex (key_ok dt) (holds dt)}.

Record table_rep (t : Table) (rs : list stored) : Prop := {
  tr_schema : schema_inv (schema_ t);
  tr_layout : layout_fits (schema_ t);
  tr_cols : columns_ (schema_ t) <> [];
  tr_size : cached_row_size_ t = total_row_size (schema_ t);
  tr_arena : arena_inv (arena_ t);
  tr_rows : Forall2 (row_at (schema_ t) (arena_ t)) (rows_ t) rs;
  tr_wf : Forall (row_wf (schema_ t)) rs;
  tr_keys : Forall (fun r => key_ok (pk_type (schema_ t)) (row_key r)) rs;
  tr_sorted : StronglySorted (fun p q => ptr_le (ptr_add p (total_row_size (schema_ t))) q) (rows_ t);
  tr_frontier : Forall (fun p => ptr_le (ptr_add p (total_row_size (schema_ t))) (frontier (arena_ t))) (rows_ t);
  tr_index : holds (pk_type (schema_ t)) (pk_index_ t) (entries_after [] (numbered rs));
  tr_count : row_count_ t = u64 (count_alive rs);
  tr_bound : Z.of_nat (length rs) < 2 ^ 63;
}.

Lemma tr_length t rs : table_rep t rs -> length (rows_ t) = length rs.
Proof. intros T. by eapply Forall2_length, (tr_rows _ _ T). Qed.

Lemma ptr_le_trans p q r : ptr_le p q -> ptr_le q r -> ptr_le p r.
Proof. unfold ptr_le. lia. Qed.

Lemma ptr_le_add p n : 0 <= n -> ptr_le p (ptr_add p n).
Proof. unfold ptr_le, ptr_add. cbn. lia. Qed.

Lemma ptr_le_disjoint_r p n q m : ptr_le (ptr_add p n) q -> disjoint_blocks q m p n.
Proof. unfold ptr_le, disjoint_blocks, ptr_add. cbn. lia. Qed.

(** Allocation keeps the rows. *)
Lemma row_at_alloc s a a' p r : (forall q n, block_valid a q n -> block_valid a' q n) ->
  (forall q n, (fst q < length (chunks_ a))%nat -> mem_read a' q n = mem_read a q n) ->
  row_at s a p r -> row_at s a' p r.
Proof.
  intros Hb Hm [H1 H2 H3 H4]. pose proof H1 as (c & Hc & _). apply lookup_lt_Some in Hc.
  split; [by apply Hb| |by rewrite Hm|by rewrite Hm].
  intros i col v Hcol Hv. specialize (H2 i col v Hcol Hv). destruct (col_type col); cbn in *; rewrite ?Hm by done; done.
Qed.

Lemma Table_new_rep `{malloc : Malloc} name s ttl t : schema_inv s -> layout_fits s -> columns_ s <> [] ->
  Table_new name s ttl = Ret t -> table_rep t [] /\ schema_ t = s /\ name_ t = name /\ ttl_seconds_ t = ttl.
Proof.
  intros Hs Hl Hc. unfold Table_new. destruct (Arena_new ARENA_CHUNK_SIZE) as [a| | |] eqn:Ea; [|done..]. outcome_simpl.
  unfold pk_column. rewrite (inv_pk s Hs). cbn [Z.to_nat]. destruct (columns_ s) as [|c cs] eqn:Ec; [done|]. cbn [lookup list_lookup].
  outcome_simpl. intros [= <-]. cbn. split; [|done]. split; cbn; rewrite ?Ec; try done.
  - eapply Arena_new_inv; [|exact Ea]. unfold ARENA_CHUNK_SIZE. lia.
  - constructor.
  - apply (oi_new (OrderedIndex := Hix _)).
Qed.

Lemma numbered_snoc rs r : numbered (rs ++ [r]) = numbered rs ++ [(row_key r, Z.of_nat (length rs))].
Proof. unfold numbered. rewrite imap_app. cbn. by rewrite Nat.add_0_r. Qed.

Lemma entries_after_app kvs kvs' : forall es, entries_after es (kvs ++ kvs') = entries_after (entries_after es kvs) kvs'.
Proof. induction kvs as [|[k r] kvs IH]; intros es; [done|]. cbn. apply IH. Qed.

Lemma count_alive_snoc rs r : count_alive (rs ++ [r]) = count_alive rs + if st_alive r then 1 else 0.
Proof.
  unfold count_alive. rewrite filter_app, length_app, filter_cons, filter_nil.
  destruct (st_alive r); [rewrite decide_True by done|rewrite decide_False by done]; cbn [length]; lia.
Qed.

(** Insertion appends one row, or reports the validation error, or runs out of memory. *)
Lemma insert_rep_table `{malloc : Malloc} t rs now vals : table_rep t rs -> Forall value_wf vals ->
  key_ok (pk_type (schema_ t)) (row_key (mkStored vals 0 true)) -> is_s64 (now + ttl_seconds_ t) -> Z.of_nat (S (length rs)) < 2 ^ 63 ->
  match validate_row (schema_ t) vals with
  | Some e => insert t now vals = Ret (Some e, t)
  | None =>
      insert t now vals = Throw bad_alloc \/
      exists t', insert t now vals = Ret (None, t') /\ schema_ t' = schema_ t /\ name_ t' = name_ t /\ ttl_seconds_ t' = ttl_seconds_ t /\
        table_rep t' (rs ++ [mkStored vals (if 0 <? ttl_seconds_ t then now + ttl_seconds_ t else 0) true])
  end.
Proof.
  intros T Hwf Hkey Hexp Hbound. unfold insert. destruct (validate_row (schema_ t) vals) as [e|] eqn:Ev; [done|].
  apply validate_row_fits in Ev. pose proof T as [Hs Hl Hc Hsz Ha Hrows Hrwf Hkeys Hsort Hfr Hidx Hcnt Hlen].
  pose proof (layout_bounds _ Hs Hl) as (Ee & Eva & Et & Hn).
  destruct (allocate_total (arena_ t) (cached_row_size_ t) 8 Ha) as [->|[[p a'] Eal]]; [by left|right].
  rewrite Eal. outcome_simpl. cbn [fst snd].
  destruct (allocate_spec (arena_ t) (cached_row_size_ t) 3 p a' Ha) as (q & -> & Ha' & _ & Hfq & Hfa & Hbq & Hbv & Hmr);
    [rewrite Hsz; lia|lia|exact Eal|].
  rewrite Hsz in *. set (s := schema_ t) in *. set (expiry := if 0 <? ttl_seconds_ t then now + ttl_seconds_ t else 0).
  destruct (write_row_spec s Hs Hl a' q vals expiry Ev Hbq) as (a2 & -> & W & Hrow). outcome_simpl.
  rewrite (inv_pk s Hs). cbn [Z.to_nat].
  assert (exists v vs, vals = v :: vs) as (v & vs & ->).
  { destruct vals; [|eauto]. apply Forall2_length in Ev. by destruct (columns_ s). }
  change ((v :: vs) !! Z.to_nat 0) with (Some v). outcome_simpl. rewrite (tr_length t rs T).
  destruct (oi_insert (pk_index_ t) _ v (Z.of_nat (length rs)) Hidx Hkey) as (ix' & -> & Hix' & _). outcome_simpl. cbn [snd].
  assert (Hnew : row_wf s (mkStored (v :: vs) expiry true)).
  { split; [done|]. split; [done|]. cbn. subst expiry. destruct (0 <? ttl_seconds_ t); [done|]. unfold is_s64. lia. }
  eexists. split; [done|]. do 3 (split; [done|]). split; cbn [schema_ arena_ cached_row_size_ rows_ pk_index_ row_count_]; try done.
  - by apply (wr_inv _ _ _ _ W).
  - apply Forall2_app; [|by constructor].
    apply Forall2_same_length_lookup_2; [by apply (tr_length t rs)|]. intros i p' r Hp Hr.
    pose proof (Forall2_lookup_lr _ _ _ _ _ _ Hrows Hp Hr) as Hat.
    eapply row_at_wrote; [done|done|exact W| |by eapply Forall_lookup_1|eapply row_at_alloc; [exact Hbv|exact Hmr|exact Hat]].
    apply ptr_le_disjoint_r. eapply ptr_le_trans; [|exact Hfq]. by apply (Forall_lookup_1 _ _ _ _ Hfr Hp).
  - apply Forall_app. auto.
  - apply Forall_app. split; [done|]. by constructor.
  - clear -Hsort Hfr Hfq. induction Hsort as [|p ps Hps IH Hp]; cbn; [repeat constructor|].
    apply Forall_cons in Hfr as [Hfp Hfr]. constructor; [by apply IH|]. apply Forall_app. split; [done|].
    constructor; [|constructor]. by eapply ptr_le_trans.
  - rewrite (wr_frontier _ _ _ _ W), Hfa. apply Forall_app. split.
    + eapply Forall_impl; [exact Hfr|]. intros p' Hp'. eapply ptr_le_trans; [exact Hp'|].
      eapply ptr_le_trans; [exact Hfq|]. apply ptr_le_add. lia.
    + constructor; [|constructor]. unfold ptr_le. lia.
  - rewrite numbered_snoc, entries_after_app. exact Hix'.
  - rewrite count_alive_snoc, Hcnt. unfold u64. cbn [st_alive]. by rewrite Zplus_mod_idemp_l.
  - rewrite length_app. cbn [length]. lia.
Qed.

(** *** Reading *)

(** The columns [cols] of a row; all of them when none is named. *)
Definition project (cols : list Z) (vals : Row) : Row :=
  (fun c => default Value_default (vals !! Z.to_nat c)) <$> cols.
Definition project_or_all (cols : list Z) (vals : Row) : Row :=
  match cols with [] => vals | _ => project cols vals end.
Definition cols_ok (s : Schema) (cols : list Z) : Prop :=
  Forall (fun c => 0 <= c < Z.of_nat (num_columns s)) cols.

(** The rows a sequential scan returns: those live when checked that [keep]
    accepts, in insertion order. *)
Fixpoint select (clock : nat -> Z) (keep : Row -> bool) (out : Row -> Row) (i : nat) (rs : list stored) : list Row :=
  match rs with
  | [] => []
  | r :: rs =>
      if live (clock i) r && keep (st_vals r) then out (st_vals r) :: select clock keep out (S i) rs
      else select clock keep out (S i) rs
  end.

Lemma mapM_returns {A B} (f : A -> outcome B) (g : A -> B) l : (forall x, x ∈ l -> f x = Ret (g x)) ->
  mapM f l = Ret (g <$> l).
Proof.
  induction l as [|x l IH]; intros Hf; [done|]. cbn [mapM]. rewrite Hf by set_solver. outcome_simpl.
  rewrite IH by set_solver. done.
Qed.

Section read.
Context (t : Table) (rs : list stored) (T : table_rep t rs).

Lemma read_value_at p r i : row_wf (schema_ t) r -> row_at (schema_ t) (arena_ t) p r -> 0 <= i < Z.of_nat (num_columns (schema_ t)) ->
  read_value t p i = Ret (default Value_default (st_vals r !! Z.to_nat i)).
Proof.
  intros Hwf Hat Hi. destruct (lookup_lt_is_Some_2 (columns_ (schema_ t)) (Z.to_nat i)) as [c Hc]; [unfold num_columns in Hi; lia|].
  destruct (read_value_spec (schema_ t) (tr_schema t rs T) t p r (Z.to_nat i) c eq_refl Hwf Hat Hc) as (v & Hv & Hread).
  rewrite Z2Nat.id in Hread by lia. by rewrite Hread, Hv.
Qed.

Lemma read_row_at p r : row_wf (schema_ t) r -> row_at (schema_ t) (arena_ t) p r -> read_row t p = Ret (st_vals r).
Proof.
  intros Hwf Hat. unfold read_row.
  rewrite (mapM_returns _ (fun i => default Value_default (st_vals r !! i))).
  - f_equal. pose proof (Forall2_length _ _ _ (proj1 Hwf)) as Hlen. unfold num_columns. rewrite Hlen. apply list_eq. intros i.
    rewrite list_lookup_fmap. destruct (decide (i < length (st_vals r))%nat) as [Hi|Hi].
    + rewrite lookup_seq_lt by done. cbn. by destruct (lookup_lt_is_Some_2 _ _ Hi) as [v ->].
    + rewrite lookup_seq_ge by lia. symmetry. apply lookup_ge_None_2. lia.
  - intros i Hi%elem_of_seq. rewrite (read_value_at p r) by (done || lia). by rewrite Nat2Z.id.
Qed.

Lemma read_projected_at cols p r : row_wf (schema_ t) r -> row_at (schema_ t) (arena_ t) p r -> cols_ok (schema_ t) cols ->
  read_row_projected t p cols = Ret (project cols (st_vals r)).
Proof.
  intros Hwf Hat Hc. apply mapM_returns. intros c Hin. apply read_value_at; [done|done|].
  unfold cols_ok in Hc. rewrite Forall_forall in Hc. by apply Hc.
Qed.

Lemma read_out_at cols p r : row_wf (schema_ t) r -> row_at (schema_ t) (arena_ t) p r -> cols_ok (schema_ t) cols ->
  read_out t cols p = Ret (project_or_all cols (st_vals r)).
Proof. intros. destruct cols; [by apply read_row_at|by apply read_projected_at]. Qed.

Lemma scan_rows_select clock keep out fkeep fout :
  (forall p r, row_wf (schema_ t) r -> row_at (schema_ t) (arena_ t) p r -> keep p = Ret (fkeep (st_vals r))) ->
  (forall p r, row_wf (schema_ t) r -> row_at (schema_ t) (arena_ t) p r -> out p = Ret (fout (st_vals r))) ->
  scan_rows t clock keep out 0 (rows_ t) = Ret (select clock fkeep fout 0 rs).
Proof.
  intros Hk Ho.
  assert (Hscan : forall ps rs', Forall2 (row_at (schema_ t) (arena_ t)) ps rs' -> Forall (row_wf (schema_ t)) rs' ->
    forall i, scan_rows t clock keep out i ps = Ret (select clock fkeep fout i rs')).
  { induction 1 as [|p r ps rs' Hat Hrows IH]; intros Hwf i; [done|]. apply Forall_cons in Hwf as [Hr Hwf].
    cbn [scan_rows select]. rewrite (is_row_valid_spec (schema_ t) t p r) by done. outcome_simpl.
    destruct (live (clock i) r); cbn [andb]; [|outcome_simpl; by apply IH].
    rewrite (Hk p r Hr Hat). outcome_simpl. destruct (fkeep (st_vals r)); [|by apply IH].
    rewrite (Ho p r Hr Hat). outcome_simpl. by rewrite (IH Hwf (S i)). }
  apply Hscan; apply T.
Qed.

Lemma scan_all_rep clock : scan_all t clock = Ret (select clock (fun _ => true) id 0 rs).
Proof. apply scan_rows_select; [done|]. intros. by apply read_row_at. Qed.

Lemma scan_projected_rep clock cols : cols_ok (schema_ t) cols ->
  scan_projected t clock cols = Ret (select clock (fun _ => true) (project cols) 0 rs).
Proof. intros. apply scan_rows_select; [done|]. intros. by apply read_projected_at. Qed.

(** *** Through the index *)

(** The row the index entry [i] leads to, if it is still visible. *)
Definition fetch (clock : nat -> Z) (cols : list Z) (i : Z) : option Row :=
  match rs !! Z.to_nat i with
  | Some r => if live (clock (Z.to_nat i)) r then Some (project_or_all cols (st_vals r)) else None
  | None => None
  end.

Lemma collect_rep clock cols acc i : cols_ok (schema_ t) cols ->
  collect t clock cols acc i = Ret (acc ++ option_list (fetch clock cols i), true).
Proof.
  intros Hc. unfold collect, fetch. pose proof (tr_rows t rs T) as Hrows.
  destruct (rows_ t !! Z.to_nat i) as [p|] eqn:Ep; cycle 1.
  { rewrite (lookup_ge_None_2 rs); [by rewrite app_nil_r|]. rewrite <- (tr_length t rs T). by apply lookup_ge_None_1. }
  destruct (Forall2_lookup_l _ _ _ _ _ Hrows Ep) as (r & Hr & Hat). rewrite Hr.
  pose proof (Forall_lookup_1 _ _ _ _ (tr_wf t rs T) Hr) as Hwf.
  rewrite (is_row_valid_spec (schema_ t) t p r) by done. outcome_simpl. destruct (live _ r); [|by rewrite app_nil_r].
  by rewrite (read_out_at cols p r).
Qed.

Lemma visit_collect clock cols ids acc : cols_ok (schema_ t) cols ->
  visit (collect t clock cols) ids acc = Ret (acc ++ omap (fetch clock cols) ids).
Proof.
  intros Hc. revert acc. induction ids as [|i ids IH]; intros acc; [cbn; by rewrite app_nil_r|].
  cbn [visit]. rewrite collect_rep by done. outcome_simpl. cbn [fst snd]. rewrite IH, <- app_assoc. cbn.
  by destruct (fetch clock cols i).
Qed.

(** The rows an index scan returns: those of the entries it selects, in key order. *)
Definition index_rows (clock : nat -> Z) (op : CmpOp) (key : Value) (cols : list Z) : list Row :=
  omap (fetch clock cols) (snd <$> matching op key (entries_after [] (numbered rs))).

Lemma index_range_rep clock op key cols : cols_ok (schema_ t) cols -> key_ok (pk_type (schema_ t)) key ->
  index_range t clock op key cols = Ret (index_rows clock op key cols).
Proof.
  intros Hc Hkey. pose proof (tr_index t rs T) as Hix'.
  transitivity (range_scan op (collect t clock cols) (pk_index_ t) key []); [by destruct op|].
  rewrite (oi_range (OrderedIndex := Hix _) op _ _ _ _ _ Hix' Hkey), visit_collect by done. done.
Qed.

Lemma scan_where_rep clock col op value cols : cols_ok (schema_ t) cols -> 0 <= col < Z.of_nat (num_columns (schema_ t)) ->
  (col = 0 -> key_ok (pk_type (schema_ t)) value) ->
  scan_where t clock col op value cols =
    Ret (if col =? 0 then index_rows clock op value cols
         else select clock (fun vals => cmp_values op (default Value_default (vals !! Z.to_nat col)) value) (project_or_all cols) 0 rs).
Proof.
  intros Hc Hcol Hkey. unfold scan_where. rewrite (inv_pk _ (tr_schema t rs T)). change (s32 0) with 0.
  destruct (Z.eqb_spec col 0) as [->|Hne]; [by apply index_range_rep; auto|].
  apply scan_rows_select; intros p r Hwf Hat; [|by apply read_out_at].
  unfold compare_value. by rewrite (read_value_at p r).
Qed.

Lemma numbered_keys : Forall (fun e => key_ok (pk_type (schema_ t)) e.1) (numbered rs).
Proof.
  apply Forall_forall. intros e (k & x & -> & Hk)%elem_of_lookup_imap_1. exact (Forall_lookup_1 _ _ _ _ (tr_keys t rs T) Hk).
Qed.

Lemma index_lookup_rep clock key : key_ok (pk_type (schema_ t)) key ->
  index_lookup t clock key =
    Ret (match assoc_find key (entries_after [] (numbered rs)) with Some i => option_list (fetch clock [] i) | None => [] end).
Proof.
  intros Hkey. unfold index_lookup. pose proof (tr_index t rs T) as Hix'.
  rewrite (oi_find (OrderedIndex := Hix _) _ _ key Hix' Hkey). outcome_simpl.
  assert (Hrows : forall i, assoc_find key (entries_after [] (numbered rs)) = Some i -> 0 <= i < Z.of_nat (length rs)).
  { intros i. rewrite (entries_after_find (P := key_ok (pk_type (schema_ t)))); [|done| |constructor].
    - assert (H : forall kvs, last_row key kvs = Some i -> i ∈ kvs.*2).
      { induction kvs as [|[k r] kvs IH]; [done|]. cbn. destruct (last_row key kvs).
        - intros E. apply elem_of_cons. right. by apply IH.
        - destruct (value_eqb k key); [intros [= ->]; apply elem_of_cons; by left|done]. }
      destruct (last_row key (numbered rs)) as [j|] eqn:E; [|done]. intros [= ->]. apply H in E.
      unfold numbered in E. rewrite fmap_imap in E. apply elem_of_lookup_imap_1 in E as (k & x & -> & Hk).
      apply lookup_lt_Some in Hk. cbn. lia.
    - apply numbered_keys. }
  destruct (assoc_find key (entries_after [] (numbered rs))) as [i|]; [|done]. specialize (Hrows i eq_refl).
  pose proof (tr_bound t rs T). rewrite s64_small by (unfold is_s64; lia).
  rewrite (proj2 (Z.leb_le 0 i)), (tr_length t rs T), (proj2 (Z.ltb_lt i _)) by lia. cbn [andb].
  unfold fetch. destruct (lookup_lt_is_Some_2 rs (Z.to_nat i)) as [r Hr]; [lia|].
  destruct (Forall2_lookup_r _ _ _ _ _ (tr_rows t rs T) Hr) as (p & Hp & Hat). rewrite Hp, Hr. outcome_simpl.
  pose proof (Forall_lookup_1 _ _ _ _ (tr_wf t rs T) Hr) as Hwf.
  rewrite (is_row_valid_spec (schema_ t) t p r) by (done || apply T). outcome_simpl.
  destruct (live _ r); [|done]. by rewrite (read_row_at p r).
Qed.
End read.

(** *** Which rows the index reaches *)

(** Only the last row under a key: the others are as good as dead to it. *)
Definition has_key (key : Value) (r : stored) : bool := value_eqb (row_key r) key.
Fixpoint reachable (rs : list stored) : list stored :=
  match rs with
  | [] => []
  | r :: rs => mkStored (st_vals r) (st_expiry r) (st_alive r && negb (existsb (has_key (row_key r)) rs)) :: reachable rs
  end.

Definition distinct_keys (rs : list stored) : Prop :=
  forall i j ri rj, (i < j)%nat -> rs !! i = Some ri -> rs !! j = Some rj -> value_eqb (row_key ri) (row_key rj) = false.

(** The key of a row, as a scan reads it. *)
Definition key_of (vals : Row) : Value := default Value_default (vals !! Z.to_nat 0).

Lemma row_key_of r : row_key r = key_of (st_vals r).
Proof. unfold row_key, key_of. by destruct (st_vals r). Qed.

Lemma reachable_all dt rs : Forall (fun r => key_ok dt (row_key r)) rs -> distinct_keys rs -> reachable rs = rs.
Proof.
  induction 1 as [|r rs Hr Hk IH]; intros Hd; [done|]. cbn [reachable].
  rewrite IH by (intros i j ri rj Hij Hi Hj; apply (Hd (S i) (S j)); [lia|done|done]).
  assert (existsb (has_key (row_key r)) rs = false) as ->; [|rewrite andb_true_r; by destruct r].
  apply not_true_is_false. intros (x & Hin%list_elem_of_In & Hx)%existsb_exists. apply list_elem_of_lookup in Hin as [i Hi].
  unfold has_key in Hx. rewrite (eqb_sym (P := key_ok dt)) in Hx by (try done; exact (Forall_lookup_1 _ _ _ _ Hk Hi)).
  by rewrite (Hd 0%nat (S i) r x) in Hx by (done || lia).
Qed.

(** The rows numbered from [n] on. *)
Definition numbered_from (n : nat) (rs : list stored) : list entry := imap (fun i r => (row_key r, Z.of_nat (n + i))) rs.

Lemma numbered_from_cons n r rs : numbered_from n (r :: rs) = (row_key r, Z.of_nat n) :: numbered_from (S n) rs.
Proof.
  unfold numbered_from. rewrite imap_cons, Nat.add_0_r. f_equal. apply imap_ext. intros i x _. cbn. do 2 f_equal. lia.
Qed.

Lemma numbered_from_ge n rs k i : (k, i) ∈ numbered_from n rs -> Z.of_nat n <= i.
Proof. intros (j & r & [= _ ->] & _)%elem_of_lookup_imap_1. lia. Qed.

Lemma numbered_NoDup n rs : NoDup (numbered_from n rs).*2.
Proof.
  revert n. induction rs as [|r rs IH]; intros n; [constructor|]. rewrite numbered_from_cons. cbn. constructor; [|apply IH].
  intros ([k i] & E & Hin)%list_elem_of_fmap. cbn in E. apply numbered_from_ge in Hin. lia.
Qed.

Lemma last_row_from key n rs : last_row key (numbered_from n rs) = None <-> existsb (has_key key) rs = false.
Proof.
  revert n. induction rs as [|r rs IH]; intros n; [done|]. rewrite numbered_from_cons. cbn [last_row existsb]. unfold has_key at 1.
  specialize (IH (S n)). destruct (last_row key (numbered_from (S n) rs)), (existsb _ rs), (value_eqb (row_key r) key); cbn; naive_solver.
Qed.

(** The row that an insertion which is the last under its key leads to. *)
Lemma omap_reachable dt rs clock op key cols : Forall (fun r => key_ok dt (row_key r)) rs ->
  omap (fetch rs clock cols) (snd <$> filter (fun e => cmp_values op e.1 key = true /\ last_row e.1 (numbered rs) = Some e.2) (numbered rs)) =
  select clock (fun vals => cmp_values op (key_of vals) key) (project_or_all cols) 0 (reachable rs).
Proof.
  intros Hk.
  assert (Hsuf : forall suf pre, rs = pre ++ suf ->
    omap (fetch rs clock cols) (snd <$> filter (fun e => cmp_values op e.1 key = true /\ last_row e.1 (numbered rs) = Some e.2) (numbered_from (length pre) suf)) =
    select clock (fun vals => cmp_values op (key_of vals) key) (project_or_all cols) (length pre) (reachable suf)).
  { induction suf as [|r suf IH]; intros pre E; [done|].
    specialize (IH (pre ++ [r])). rewrite length_app, Nat.add_comm in IH. cbn [length Nat.add] in IH.
    rewrite numbered_from_cons, filter_cons. cbn [fst snd select reachable st_vals]. rewrite <- row_key_of.
    rewrite <- IH by (by rewrite <- app_assoc). unfold live at 1. cbn [st_alive st_expiry].
    assert (Hlast : last_row (row_key r) (numbered rs) = Some (Z.of_nat (length pre)) <-> existsb (has_key (row_key r)) suf = false).
    { change (numbered rs) with (numbered_from 0 rs). rewrite <- (last_row_from _ (S (length pre))), E.
      assert (Hsplit : forall m l l', numbered_from m (l ++ l') = numbered_from m l ++ numbered_from (m + length l) l').
      { intros m l l'. unfold numbered_from. rewrite imap_app. f_equal. apply imap_ext. intros. cbn. do 2 f_equal. lia. }
      rewrite Hsplit, last_row_app, Nat.add_0_l, numbered_from_cons. cbn [last_row].
      assert (Hr : key_ok dt (row_key r)) by (rewrite E in Hk; by apply Forall_app in Hk as [_ [? _]%Forall_cons]).
      rewrite (eqb_refl (P := key_ok dt)) by done.
      destruct (last_row (row_key r) (numbered_from (S (length pre)) suf)) as [i|] eqn:El; [|done].
      apply last_row_Some in El as (k & Hin%numbered_from_ge & _). split; [intros [= ->]; lia|done]. }
    destruct (existsb (has_key (row_key r)) suf) eqn:Eex.
    { rewrite andb_false_r. cbn [andb]. rewrite decide_False; [done|]. intros [_ Hl]. by apply Hlast in Hl. }
    rewrite andb_true_r. destruct (cmp_values op (row_key r) key) eqn:Ec; cycle 1.
    { rewrite andb_false_r, decide_False; [done|]. by intros [? _]. }
    rewrite andb_true_r, decide_True by (split; [done|by apply Hlast]). cbn [fmap list_fmap omap list_omap snd]. unfold fetch at 1.
    rewrite Nat2Z.id, E, list_lookup_middle by done. rewrite <- E. unfold live. by destruct (st_alive r && _). }
  exact (Hsuf rs [] eq_refl).
Qed.

Lemma index_rows_reachable t rs clock op key cols : table_rep t rs -> key_ok (pk_type (schema_ t)) key ->
  index_rows rs clock op key cols ≡ₚ
  select clock (fun vals => cmp_values op (key_of vals) key) (project_or_all cols) 0 (reachable rs).
Proof.
  intros T Hkey. rewrite <- (omap_reachable (pk_type (schema_ t))) by apply T. unfold index_rows.
  rewrite (entries_last (P := key_ok (pk_type (schema_ t)))); [done|by apply numbered_keys|exact (numbered_NoDup 0 rs)|done].
Qed.

Lemma index_rows_perm t rs clock op key cols : table_rep t rs -> key_ok (pk_type (schema_ t)) key -> distinct_keys rs ->
  index_rows rs clock op key cols ≡ₚ
  select clock (fun vals => cmp_values op (key_of vals) key) (project_or_all cols) 0 rs.
Proof. intros T Hkey Hd. rewrite (index_rows_reachable t) by done. by rewrite (reachable_all _ rs (tr_keys t rs T) Hd). Qed.

(** A lookup is the scan for an equal key. *)
Lemma index_lookup_rows t rs clock key : table_rep t rs -> key_ok (pk_type (schema_ t)) key ->
  index_lookup t clock key = Ret (index_rows rs clock EQ key []).
Proof.
  intros T Hkey. rewrite (index_lookup_rep t rs T) by done. unfold index_rows.
  destruct (oi_sorted (OrderedIndex := Hix _) _ _ (tr_index t rs T)) as [Hs HE].
  rewrite (matching_eq (P := key_ok (pk_type (schema_ t))) _ key HE Hs Hkey). destruct (assoc_find key _) as [i|]; [|done].
  cbn. by destruct (fetch rs clock [] i).
Qed.

(** *** Expiry *)

Definition expire (now : Z) (r : stored) : stored :=
  if st_alive r && ((0 <? st_expiry r) && (st_expiry r <? now)) then mkStored (st_vals r) (st_expiry r) false else r.

Lemma expire_wf s now r : row_wf s r -> row_wf s (expire now r).
Proof. unfold expire. by destruct (_ && _). Qed.

Lemma expire_key now r : row_key (expire now r) = row_key r.
Proof. unfold expire. by destruct (_ && _). Qed.

Lemma live_expire now now' r : now <= now' -> live now' (expire now r) = live now' r.
Proof.
  intros Hn. unfold expire. destruct (_ && _) eqn:E; [|done].
  apply andb_true_iff in E as [Ea E]. apply andb_true_iff in E as [E1 E2]. unfold live. cbn [st_alive st_expiry].
  rewrite Ea, E1. apply Z.ltb_lt in E2. by rewrite (proj2 (Z.ltb_lt _ _)) by lia.
Qed.

Lemma select_expire now clock keep out i rs : (forall j, now <= clock j) ->
  select clock keep out i (expire now <$> rs) = select clock keep out i rs.
Proof.
  intros Hc. revert i. induction rs as [|r rs IH]; intros i; [done|]. cbn [select fmap list_fmap].
  rewrite live_expire by done. unfold fmap in IH. rewrite !IH.
  assert (st_vals (expire now r) = st_vals r) as -> by (unfold expire; by destruct (_ && _)). done.
Qed.

Lemma numbered_expire now rs : numbered (expire now <$> rs) = numbered rs.
Proof. unfold numbered. rewrite imap_fmap. apply imap_ext. intros. cbn. by rewrite expire_key. Qed.

Lemma index_rows_expire now clock op key cols rs : (forall j, now <= clock j) ->
  index_rows (expire now <$> rs) clock op key cols = index_rows rs clock op key cols.
Proof.
  intros Hc. unfold index_rows. rewrite numbered_expire. apply list_omap_ext, Forall_Forall2_diag, Forall_true. intros i.
  unfold fetch. rewrite list_lookup_fmap. destruct (rs !! Z.to_nat i) as [r|]; [|done]. cbn. rewrite live_expire by done.
  assert (st_vals (expire now r) = st_vals r) as -> by (unfold expire; by destruct (_ && _)). done.
Qed.

(** One row of [cleanup_expired]. *)
Lemma row_at_dead s a p r : schema_inv s -> layout_fits s -> row_wf s r -> row_at s a p r ->
  exists a', mem_write a (ptr_add p (valid_offset s)) [0] = Ret a' /\ wrote a a' p (total_row_size s) /\
    row_at s a' p (mkStored (st_vals r) (st_expiry r) false).
Proof.
  intros Hs Hl (Hf & _ & _) [Hb Hsl He Ha]. pose proof (layout_bounds s Hs Hl) as (Ee & Ev & Et & Hn).
  destruct (mem_write_wrote a (ptr_add p (valid_offset s)) [0] 1) as (a' & -> & W & Hr);
    [eapply block_within; [exact Hb|]; unfold within, ptr_add; cbn; lia|done|].
  exists a'. split; [done|]. split; [eapply wrote_within; [exact W|]; unfold within, ptr_add; cbn; lia|].
  split; cbn [st_vals st_expiry st_alive].
  - by apply (wr_valid _ _ _ _ W).
  - intros i c v Hc Hv. destruct (slot_in_row s i c Hs Hl Hc) as [H1 H2].
    pose proof (value_enc_size c v (row_fits_lookup s _ _ _ _ Hf Hc Hv)).
    eapply slot_holds_wrote; [exact W|unfold disjoint_blocks, ptr_add; cbn; right; lia|]. by apply Hsl.
  - rewrite (wr_read _ _ _ _ W); [done|]. unfold disjoint_blocks, ptr_add. cbn. right. lia.
  - exact Hr.
Qed.

(** Rows written at [ps], in address order. *)
Definition rows_in (s : Schema) (a : Arena) (ps : list Ptr) (rs : list stored) : Prop :=
  Forall2 (row_at s a) ps rs /\ Forall (row_wf s) rs /\
  StronglySorted (fun p q => ptr_le (ptr_add p (total_row_size s)) q) ps.

Lemma rows_in_wrote s a a' p ps rs : schema_inv s -> layout_fits s -> wrote a a' p (total_row_size s) ->
  Forall (fun q => ptr_le (ptr_add p (total_row_size s)) q) ps -> rows_in s a ps rs -> rows_in s a' ps rs.
Proof.
  intros Hs Hl W Hps (Hrows & Hwf & Hsort). split; [|done]. clear Hsort.
  induction Hrows as [|q r ps rs Hat Hrows IH]; [constructor|].
  apply Forall_cons in Hps as [Hq Hps]. apply Forall_cons in Hwf as [Hr Hwf]. constructor; [|by apply IH].
  eapply row_at_wrote; [done|done|exact W| |done|done].
  unfold disjoint_blocks. unfold ptr_le, ptr_add in Hq. cbn in Hq. lia.
Qed.

(** One iteration: the row is left alone, or marked dead. *)
Lemma cleanup_step s now p r ps cleaned a : schema_inv s -> layout_fits s -> row_wf s r -> row_at s a p r ->
  exists a1, wrote a a1 p (total_row_size s) /\ row_at s a1 p (expire now r) /\
    cleanup_rows s now (p :: ps) cleaned a =
      cleanup_rows s now ps (if st_alive r && negb (st_alive (expire now r)) then u64 (cleaned + 1) else cleaned) a1.
Proof.
  intros Hs Hl Hr Hat. cbn [cleanup_rows]. unfold read_byte. rewrite (ra_alive _ _ _ _ Hat). outcome_simpl. cbn [head].
  outcome_simpl. unfold expire. destruct (st_alive r) eqn:Ea; cbn [andb].
  - change (1 =? 1) with true. cbv iota. rewrite (ra_expiry _ _ _ _ Hat). outcome_simpl.
    rewrite (le_val_bytes 8), s64_mod, s64_small by (apply Hr || lia).
    destruct ((0 <? st_expiry r) && (st_expiry r <? now)); cbn [st_alive negb].
    + destruct (row_at_dead s a p r Hs Hl Hr Hat) as (a1 & -> & W & Hdead). by exists a1.
    + exists a. split; [apply wrote_refl|]. by rewrite Ea.
  - change (0 =? 1) with false. cbv iota. exists a. split; [apply wrote_refl|]. done.
Qed.

Definition cleaned_count (now : Z) (n : Z) (rs : list stored) : Z :=
  foldl (fun n r => if st_alive r && negb (st_alive (expire now r)) then u64 (n + 1) else n) n rs.

Lemma cleanup_rows_spec s now : schema_inv s -> layout_fits s -> forall ps rs cleaned a, rows_in s a ps rs ->
  exists a', cleanup_rows s now ps cleaned a = Ret (cleaned_count now cleaned rs, a') /\
    rows_in s a' ps (expire now <$> rs) /\ frontier a' = frontier a /\ (arena_inv a -> arena_inv a') /\
    (forall p0 r0, row_wf s r0 -> row_at s a p0 r0 ->
       Forall (fun q => ptr_le (ptr_add p0 (total_row_size s)) q) ps -> row_at s a' p0 r0).
Proof.
  intros Hs Hl. induction ps as [|p ps IH]; intros rs cleaned a (Hrows & Hwf & Hsort).
  { inversion Hrows; subst. exists a. split; [done|]. split; [by split|]. done. }
  inversion Hrows as [|? r ? rs' Hat Hrows']; subst. apply Forall_cons in Hwf as [Hr Hwf].
  apply StronglySorted_inv in Hsort as [Hsort Hp].
  destruct (cleanup_step s now p r ps cleaned a Hs Hl Hr Hat) as (a1 & W & Hat1 & ->).
  destruct (IH rs' (if st_alive r && negb (st_alive (expire now r)) then u64 (cleaned + 1) else cleaned) a1)
    as (a' & -> & (Hrows2 & Hwf2 & Hs2) & Hf2 & Hi2 & Hkeep); [by eapply rows_in_wrote|].
  exists a'. split; [done|]. split; [|split; [|split]].
  - split; [|split; [|by constructor]]; cbn; (constructor; [|done]).
    + apply Hkeep; [by apply expire_wf|done|done].
    + by apply expire_wf.
  - rewrite Hf2. apply W.
  - intros Ha. apply Hi2. by apply (wr_inv _ _ _ _ W).
  - intros p0 r0 Hr0 Hat0 Hall. apply Forall_cons in Hall as [Hle Hall]. apply Hkeep; [done| |done].
    eapply row_at_wrote; [done|done|exact W| |done|done]. by apply ptr_le_disjoint_r.
Qed.

Lemma cleaned_count_alive now rs : forall n, u64 n = n ->
  cleaned_count now n rs = u64 (n + count_alive rs - count_alive (expire now <$> rs)).
Proof.
  unfold count_alive. induction rs as [|r rs IH]; intros n Hn; cbn [cleaned_count foldl].
  { cbn. by rewrite Z.add_0_r, Z.sub_0_r. }
  unfold cleaned_count in IH. rewrite fmap_cons, !filter_cons.
  assert (Hle : st_alive (expire now r) = true -> st_alive r = true).
  { unfold expire. destruct (_ && _); [done|done]. }
  destruct (st_alive r) eqn:Ea, (st_alive (expire now r)) eqn:Eb; cbn [andb negb]; try (by specialize (Hle eq_refl));
    rewrite ?decide_True, ?decide_False by done; cbn [length].
  - rewrite IH by done. f_equal. lia.
  - rewrite IH by (apply Z.mod_mod; lia). unfold u64.
    rewrite <- Z.add_sub_assoc, Zplus_mod_idemp_l. f_equal. lia.
  - by rewrite IH.
Qed.

Lemma cleanup_rep t rs now : table_rep t rs ->
  exists t', cleanup_expired t now = Ret (u64 (count_alive rs - count_alive (expire now <$> rs)), t') /\
    table_rep t' (expire now <$> rs) /\ schema_ t' = schema_ t /\ name_ t' = name_ t /\ ttl_seconds_ t' = ttl_seconds_ t.
Proof.
  intros T. pose proof T as [Hs Hl Hc Hsz Ha Hrows Hrwf Hkeys Hsort Hfr Hidx Hcnt Hlen]. unfold cleanup_expired.
  destruct (cleanup_rows_spec (schema_ t) now Hs Hl (rows_ t) rs 0 (arena_ t)) as (a' & -> & (Hr' & Hw' & _) & Hf & Hi & _); [by split|].
  outcome_simpl. cbn [fst snd]. rewrite (cleaned_count_alive now rs 0 eq_refl), Z.add_0_l. eexists. split; [done|].
  split; [|done]. split; cbn; try done.
  - by apply Hi.
  - apply Forall_fmap. eapply Forall_impl; [exact Hkeys|]. intros r Hr. cbn. by rewrite expire_key.
  - by rewrite Hf.
  - by rewrite numbered_expire.
  - rewrite Hcnt. unfold u64. rewrite Zminus_mod_idemp_l, Zminus_mod_idemp_r. f_equal. lia.
  - by rewrite length_fmap.
Qed.
End table.
