(* ===== verification/TableSpec.v ===== *)
(** * The table as a list of rows

    Any sequence of insertions and cleanups on a new table is, for every later
    read, the same sequence on a list of rows: the refinement theorems of
    Table, over the B+ tree of BPTree.v as its index. *)

From Stdlib Require Import ZArith Lia Sorting.Sorted.
From stdpp Require Import base strings gmap numbers list list_numbers.
From S2P Require Import Prelude Cpp Common Schema Arena BPTree BPTreeRep BPTreeInsert Index Table TableRep.
Open Scope string_scope.
Open Scope list_scope.
Open Scope Z_scope.

(** A table over the B+ tree. *)
Abbreviation tree_table := (@table_rep (fun dt => @bptree_rep (key_ok dt))).

(** ** Histories *)

(** The operations that change a table, with the time they read. *)
Inductive table_op :=
  | OpInsert (now : Z) (vals : Row)
  | OpCleanup (now : Z).

Section run.
Context `{malloc : Malloc}.

Fixpoint run_ops (t : Table) (ops : list table_op) : outcome Table :=
  match ops with
  | [] => Ret t
  | OpInsert now vals :: ops => res ← insert t now vals; run_ops (snd res) ops
  | OpCleanup now :: ops => res ← cleanup_expired t now; run_ops (snd res) ops
  end.
End run.

(** The same on rows: an invalid row is refused. *)
Definition abs_op (s : Schema) (ttl : Z) (rs : list stored) (op : table_op) : list stored :=
  match op with
  | OpInsert now vals =>
      match validate_row s vals with
      | Some _ => rs
      | None => rs ++ [mkStored vals (if 0 <? ttl then now + ttl else 0) true]
      end
  | OpCleanup now => expire now <$> rs
  end.

Definition abs_ops (s : Schema) (ttl : Z) (ops : list table_op) : list stored :=
  foldl (abs_op s ttl) [] ops.

(** Values fit their C++ types, the key of a valid row is not a NaN, and the
    clock stays away from the end of [int64_t]. *)
Definition op_ok (s : Schema) (ttl : Z) (op : table_op) : Prop :=
  match op with
  | OpInsert now vals => Forall value_wf vals /\
      (validate_row s vals = None -> key_ok (pk_type s) (row_key (mkStored vals 0 true))) /\ is_s64 (now + ttl)
  | OpCleanup _ => True
  end.

(** A schema a table can be made with. *)
Definition schema_ok (s : Schema) : Prop := schema_inv s /\ layout_fits s /\ columns_ s <> [].

Section refinement.
Context `{malloc : Malloc}.

Lemma run_ops_rep ops : forall t rs, tree_table t rs -> Forall (op_ok (schema_ t) (ttl_seconds_ t)) ops ->
  Z.of_nat (length rs + length ops) < 2 ^ 63 ->
  run_ops t ops = Throw bad_alloc \/
  exists t', run_ops t ops = Ret t' /\ schema_ t' = schema_ t /\
    tree_table t' (foldl (abs_op (schema_ t) (ttl_seconds_ t)) rs ops).
Proof.
  induction ops as [|op ops IH]; intros t rs T Hok Hlen; [right; by exists t|].
  apply Forall_cons in Hok as [Hop Hok]. cbn [length] in Hlen. destruct op as [now vals|now]; cbn [run_ops foldl abs_op].
  - destruct Hop as (Hwf & Hkey & Hexp). destruct (validate_row (schema_ t) vals) as [e|] eqn:Ev.
    + assert (Hins : insert t now vals = Ret (Some e, t)) by (unfold insert; by rewrite Ev).
      rewrite Hins. outcome_simpl. cbn [snd]. apply IH; [done|done|lia].
    + pose proof (insert_rep_table (Hix := fun dt => BPTree_index (key_ok dt)) t rs now vals T Hwf (Hkey eq_refl) Hexp ltac:(lia)) as H.
      rewrite Ev in H. destruct H as [->|(t' & -> & Es & _ & Et & T')]; [by left|]. outcome_simpl. cbn [snd].
      rewrite <- Es, <- Et in *. apply IH; [done|done|]. rewrite length_app. cbn [length]. lia.
  - destruct (cleanup_rep t rs now T) as (t' & -> & T' & Es & _ & Et). outcome_simpl. cbn [snd].
    rewrite <- Es, <- Et in *. apply IH; [done|done|]. rewrite length_fmap. lia.
Qed.

Lemma new_table_ops name s ttl t0 ops : schema_ok s -> Table_new name s ttl = Ret t0 ->
  Forall (op_ok s ttl) ops -> Z.of_nat (length ops) < 2 ^ 63 ->
  run_ops t0 ops = Throw bad_alloc \/
  exists t, run_ops t0 ops = Ret t /\ schema_ t = s /\ tree_table t (abs_ops s ttl ops).
Proof.
  intros (Hs & Hl & Hc) Hnew Hok Hlen.
  destruct (Table_new_rep (Hix := fun dt => BPTree_index (key_ok dt)) name s ttl t0 Hs Hl Hc Hnew) as (T & Es & _ & Et).
  rewrite <- Es, <- Et in *. destruct (run_ops_rep ops t0 [] T Hok Hlen) as [?|(t & Hr & Es' & T')]; [by left|right].
  exists t. split; [done|]. by split.
Qed.
End refinement.

(** ** Properties *)

(** C8: Refinement of the row store: after any sequence of insertions and
    cleanups on a new table — unless memory runs out — a full scan returns
    exactly the accepted rows that have not expired, in insertion order, with
    the values that were inserted, and a projected scan their named columns.
    The byte-level reads stay in bounds and touch initialised memory only. *)
Theorem table_scans_refine `{malloc : Malloc} name s ttl t0 ops : schema_ok s -> Table_new name s ttl = Ret t0 ->
  Forall (op_ok s ttl) ops -> Z.of_nat (length ops) < 2 ^ 63 ->
  run_ops t0 ops = Throw bad_alloc \/
  exists t, run_ops t0 ops = Ret t /\ forall clock,
    scan_all t clock = Ret (select clock (fun _ => true) id 0 (abs_ops s ttl ops)) /\
    forall cols, cols_ok s cols ->
      scan_projected t clock cols = Ret (select clock (fun _ => true) (project cols) 0 (abs_ops s ttl ops)).
Proof.
  intros Hs Hnew Hok Hlen. destruct (new_table_ops name s ttl t0 ops Hs Hnew Hok Hlen) as [?|(t & Hr & <- & T)]; [by left|right].
  exists t. split; [done|]. intros clock. split; [by apply scan_all_rep|]. intros. by apply scan_projected_rep.
Qed.

(** C28: A WHERE scan returns exactly the visible rows that satisfy the
    comparison: in insertion order on an ordinary column; on the primary key,
    through the index and up to order, those of them that are the last row
    inserted under their key ([reachable]), which are all rows when no two have
    equal keys. [index_lookup] is the scan for an equal key. *)
Theorem table_where_refines `{malloc : Malloc} name s ttl t0 ops : schema_ok s -> Table_new name s ttl = Ret t0 ->
  Forall (op_ok s ttl) ops -> Z.of_nat (length ops) < 2 ^ 63 ->
  let rs := abs_ops s ttl ops in
  run_ops t0 ops = Throw bad_alloc \/
  exists t, run_ops t0 ops = Ret t /\ (distinct_keys rs -> reachable rs = rs) /\ forall clock,
    (forall col op value cols,
      cols_ok s cols -> 0 <= col < Z.of_nat (num_columns s) -> (col = 0 -> key_ok (pk_type s) value) ->
      exists res, scan_where t clock col op value cols = Ret res /\
        (if col =? 0 then Permutation res else eq res)
          (select clock (fun vals => cmp_values op (default Value_default (vals !! Z.to_nat col)) value)
             (project_or_all cols) 0 (if col =? 0 then reachable rs else rs))) /\
    forall value, key_ok (pk_type s) value -> index_lookup t clock value = scan_where t clock 0 EQ value [].
Proof.
  intros Hs Hnew Hok Hlen rs. destruct (new_table_ops name s ttl t0 ops Hs Hnew Hok Hlen) as [?|(t & Hr & <- & T)]; [by left|right].
  exists t. split; [done|]. split; [apply (reachable_all (pk_type (schema_ t))), (tr_keys _ _ T)|]. intros clock. split.
  - intros col op value cols Hcols Hcol Hkey. rewrite (scan_where_rep t _ T) by done. eexists. split; [done|].
    destruct (Z.eqb_spec col 0) as [->|]; [|done]. apply (index_rows_reachable t _ clock op value cols T), Hkey; done.
  - intros value Hkey. rewrite (scan_where_rep t _ T); [by apply index_lookup_rows|constructor| |done].
    pose proof (tr_cols _ _ T) as Hc. unfold num_columns. destruct (columns_ (schema_ t)); [done|cbn; lia].
Qed.

(** C29: Expiry: [cleanup_expired] removes nothing a later reader would have
    got: full scans, projected scans and WHERE scans with any operator, on any
    column and with any projection return the same; and [row_count_] is then
    the number of rows still flagged valid. *)
Theorem cleanup_invisible `{malloc : Malloc} name s ttl t0 ops now : schema_ok s -> Table_new name s ttl = Ret t0 ->
  Forall (op_ok s ttl) ops -> Z.of_nat (length ops) < 2 ^ 63 ->
  run_ops t0 ops = Throw bad_alloc \/
  exists t n t', run_ops t0 ops = Ret t /\ cleanup_expired t now = Ret (n, t') /\
    (forall clock, (forall i, now <= clock i) -> scan_all t' clock = scan_all t clock /\ forall cols, cols_ok s cols ->
       scan_projected t' clock cols = scan_projected t clock cols /\
       forall col op value, 0 <= col < Z.of_nat (num_columns s) -> (col = 0 -> key_ok (pk_type s) value) ->
         scan_where t' clock col op value cols = scan_where t clock col op value cols) /\
    row_count_ t = u64 (count_alive (abs_ops s ttl ops)) /\
    row_count_ t' = u64 (row_count_ t - n) /\ row_count_ t' = u64 (count_alive (expire now <$> abs_ops s ttl ops)).
Proof.
  intros Hs Hnew Hok Hlen. destruct (new_table_ops name s ttl t0 ops Hs Hnew Hok Hlen) as [?|(t & Hr & <- & T)]; [by left|right].
  destruct (cleanup_rep t _ now T) as (t' & Hc & T' & Es & _). eexists t, _, t'. split; [done|]. split; [done|]. split; [|split; [|split]].
  - intros clock Hclock. split; [rewrite (scan_all_rep t _ T), (scan_all_rep t' _ T'); by rewrite select_expire|].
    intros cols Hcols. split.
    { rewrite (scan_projected_rep t _ T), (scan_projected_rep t' _ T') by (by rewrite ?Es). by rewrite select_expire. }
    intros col op value Hcol Hkey. rewrite (scan_where_rep t _ T), (scan_where_rep t' _ T') by (by rewrite ?Es).
    by rewrite index_rows_expire, select_expire.
  - apply (tr_count t _ T).
  - unfold cleanup_expired in Hc. destruct (cleanup_rows _ _ _ _ _) as [[n a]| | |]; [|done..].
    cbn [mbind outcome_bind fst snd] in Hc. by injection Hc as <- <-.
  - apply (tr_count t' _ T').
Qed.

(** *** A concrete history *)

#[export] Instance malloc_always : Malloc := fun _ _ => true.

Definition sample_schema : Schema := add_column (add_column Schema_empty "ID" INT 255) "NAME" VARCHAR 8.

Lemma sample_schema_ok : schema_ok sample_schema.
Proof.
  split; [|split; [done|done]]. apply add_column_inv; [apply add_column_inv; [apply schema_inv_empty|]|]; unfold is_u16; lia.
Qed.

Definition sample_table : outcome Table := Table_new "T" sample_schema 10.

Lemma sample_table_returns : exists t0, sample_table = Ret t0.
Proof. eexists. reflexivity. Qed.

Definition sample_ops : list table_op :=
  [OpInsert 100 [VInt 1; VStr "a"]; OpInsert 105 [VInt 2; VStr "b"]; OpInsert 105 [VInt 3; VStr "too long a name"];
   OpCleanup 111].

Lemma sample_ops_ok : Forall (op_ok sample_schema 10) sample_ops.
Proof. repeat (constructor; [try (split; [by repeat constructor|split; [done|done]])|]); done. Qed.

Lemma table_scans_refine_witness : exists t0, sample_table = Ret t0 /\
  (run_ops t0 sample_ops = Throw bad_alloc \/
   exists t, run_ops t0 sample_ops = Ret t /\ forall clock,
    scan_all t clock = Ret (select clock (fun _ => true) id 0 (abs_ops sample_schema 10 sample_ops)) /\
    forall cols, cols_ok sample_schema cols ->
      scan_projected t clock cols = Ret (select clock (fun _ => true) (project cols) 0 (abs_ops sample_schema 10 sample_ops))).
Proof.
  eexists. split; [reflexivity|].
  refine (table_scans_refine "T" sample_schema 10 _ sample_ops sample_schema_ok _ sample_ops_ok _); [reflexivity|cbn; lia].
Defined.

(** What the history leaves: row 1 expired, row 3 was refused. *)
Example sample_scan : exists t0, sample_table = Ret t0 /\
  (t ← run_ops t0 sample_ops; scan_all t (fun _ => 112)) = Ret [[VInt 2; VStr "b"]].
Proof. eexists. split; [reflexivity|]. vm_compute. reflexivity. Qed.

(** The history has two visible rows under one key. *)
Definition sample_where_ops : list table_op :=
  [OpInsert 100 [VInt 1; VStr "a"]; OpInsert 100 [VInt 2; VStr "b"]; OpInsert 105 [VInt 1; VStr "c"]].

Lemma sample_where_ops_ok : Forall (op_ok sample_schema 10) sample_where_ops.
Proof. repeat (constructor; [split; [by repeat constructor|split; [done|done]]|]); done. Qed.

Lemma table_where_refines_witness : let rs := abs_ops sample_schema 10 sample_where_ops in
  exists t0, sample_table = Ret t0 /\
  (run_ops t0 sample_where_ops = Throw bad_alloc \/
  exists t, run_ops t0 sample_where_ops = Ret t /\ exists res, scan_where t (fun _ => 106) 0 GE (VInt 1) [1] = Ret res /\
    Permutation res [[VStr "b"]; [VStr "c"]]).
Proof.
  intros rs. destruct sample_table_returns as [t0 E0]. exists t0. split; [exact E0|].
  destruct (table_where_refines "T" sample_schema 10 t0 sample_where_ops sample_schema_ok E0 sample_where_ops_ok ltac:(cbn; lia))
    as [E|(t & E & _ & H)]; [by left|right]. exists t. split; [exact E|].
  destruct (proj1 (H (fun _ => 106)) 0 GE (VInt 1) [1]) as (res & Er & Hp);
    [repeat constructor; cbn; lia|cbn; lia|by intros _|]. exists res. split; [exact Er|]. exact Hp.
Defined.

Lemma cleanup_invisible_witness : exists t0, sample_table = Ret t0 /\
  (run_ops t0 sample_ops = Throw bad_alloc \/
  exists t n t', run_ops t0 sample_ops = Ret t /\ cleanup_expired t 120 = Ret (n, t') /\
    scan_where t' (fun _ => 121) 0 LT (VInt 9) [1] = scan_where t (fun _ => 121) 0 LT (VInt 9) [1] /\
    row_count_ t' = u64 (count_alive (expire 120 <$> abs_ops sample_schema 10 sample_ops))).
Proof.
  destruct sample_table_returns as [t0 E0]. exists t0. split; [exact E0|].
  destruct (cleanup_invisible "T" sample_schema 10 t0 sample_ops 120 sample_schema_ok E0 sample_ops_ok ltac:(cbn; lia))
    as [E|(t & n & t' & E & Ec & H & _ & _ & Hn)]; [by left|right]. exists t, n, t'. split; [exact E|]. split; [exact Ec|]. split; [|exact Hn].
  apply (H (fun _ => 121)); [intros _; lia|repeat constructor; cbn; lia|cbn; lia|by intros _].
Defined.

(** Two rows under one key: the index keeps the second, the row list both. *)
Example duplicate_key_rows : exists t0 t, sample_table = Ret t0 /\
  run_ops t0 [OpInsert 0 [VInt 1; VStr "a"]; OpInsert 0 [VInt 1; VStr "b"]] = Ret t /\
  scan_all t (fun _ => 0) = Ret [[VInt 1; VStr "a"]; [VInt 1; VStr "b"]] /\
  scan_where t (fun _ => 0) 0 EQ (VInt 1) [] = Ret [[VInt 1; VStr "b"]].
Proof. eexists _, _. split; [reflexivity|]. split; [vm_compute; reflexivity|]. split; vm_compute; reflexivity. Qed.
