(* ===== verification/Lexer.v ===== *)
(** * parser/lexer.{h,cpp}: the SQL tokenizer

    The lexer's state is the input from [pos_] on and the line and column
    counters; each read loop is a recursion on that input. [tokenize] returns
    the tokens and [error_]. The counters, [int] in the code, are integers
    without bound: they stay below 2^31 on texts that do, as messages of at most
    10 MB are, and only show in error texts. *)

From Stdlib Require Import ZArith Lia Ascii.
From stdpp Require Import base strings gmap numbers list list_numbers.
From S2P Require Import Prelude Cpp Common.
Open Scope string_scope.
Open Scope list_scope.
Open Scope Z_scope.

Inductive TokenType :=
  | KW_CREATE | KW_TABLE | KW_INSERT | KW_INTO | KW_VALUES
  | KW_SELECT | KW_FROM | KW_WHERE | KW_INNER | KW_JOIN | KW_ON
  | KW_INT | KW_DECIMAL | KW_VARCHAR | KW_DATETIME
  | IDENTIFIER | INT_LITERAL | FLOAT_LITERAL | STRING_LITERAL
  | OP_EQ | OP_NE | OP_LT | OP_GT | OP_LE | OP_GE
  | LPAREN | RPAREN | COMMA | SEMICOLON | DOT | STAR
  | END_OF_INPUT | INVALID.

#[export] Instance TokenType_eq_dec : EqDecision TokenType.
Proof. solve_decision. Defined.

Record Token := mkToken {
  tk_type : TokenType;
  tk_value : string;
  tk_line : Z;
  tk_col : Z;
}.

Definition KEYWORDS : gmap string TokenType := list_to_map
  [("CREATE", KW_CREATE); ("TABLE", KW_TABLE); ("INSERT", KW_INSERT); ("INTO", KW_INTO); ("VALUES", KW_VALUES);
   ("SELECT", KW_SELECT); ("FROM", KW_FROM); ("WHERE", KW_WHERE); ("INNER", KW_INNER); ("JOIN", KW_JOIN); ("ON", KW_ON);
   ("INT", KW_INT); ("DECIMAL", KW_DECIMAL); ("VARCHAR", KW_VARCHAR); ("DATETIME", KW_DATETIME)].

(** The lexer between two calls. *)
Record Lexer := mkLexer {
  rest : string;       (* input_ from pos_ on *)
  line_ : Z;
  col_ : Z;
}.

Definition newline : ascii := "010"%char.
Definition squote : ascii := "'"%char.
Definition dquote : ascii := "034"%char.
Definition backslash : ascii := "\"%char.

Definition char_eqb (a b : ascii) : bool := Ascii.eqb a b.

Definition Lexer_new (input : string) : Lexer := mkLexer input 1 1.

(** [advance()] past [c], leaving [s]. *)
Definition step (c : ascii) (s : string) (l : Lexer) : Lexer :=
  if char_eqb c newline then mkLexer s (line_ l + 1) 1 else mkLexer s (line_ l) (col_ l + 1).

Definition peek (l : Lexer) : ascii :=
  match rest l with EmptyString => "000"%char | String c _ => c end.

(** ** The read loops *)

Fixpoint skip_loop (s : string) (l : Lexer) : Lexer :=
  match s with
  | EmptyString => l
  | String c s' => if isspace c then skip_loop s' (step c s' l) else l
  end.
Definition skip_whitespace (l : Lexer) : Lexer := skip_loop (rest l) l.

Fixpoint number_loop (s : string) (l : Lexer) (has_dot : bool) (num : string) : string * bool * Lexer :=
  match s with
  | EmptyString => (num, has_dot, l)
  | String c s' =>
      if isdigit c || char_eqb c "."%char then
        if char_eqb c "."%char && has_dot then (num, has_dot, l)
        else number_loop s' (step c s' l) (has_dot || char_eqb c "."%char) (num +:+ String c "")
      else (num, has_dot, l)
  end.

Definition read_number (l : Lexer) : Token * Lexer :=
  let start_col := col_ l in
  let '(num, has_dot, l) := number_loop (rest l) l false "" in
  (mkToken (if has_dot : bool then FLOAT_LITERAL else INT_LITERAL) num (line_ l) start_col, l).

Definition is_ident_char (c : ascii) : bool := isalnum c || char_eqb c "_"%char.

Fixpoint ident_loop (s : string) (l : Lexer) (ident : string) : string * Lexer :=
  match s with
  | EmptyString => (ident, l)
  | String c s' => if is_ident_char c then ident_loop s' (step c s' l) (ident +:+ String c "") else (ident, l)
  end.

Definition read_identifier_or_keyword (l : Lexer) : Token * Lexer :=
  let start_col := col_ l in
  let '(ident, l) := ident_loop (rest l) l "" in
  let upper := string_map toupper ident in
  match KEYWORDS !! upper with
  | Some kw => (mkToken kw upper (line_ l) start_col, l)
  | None => (mkToken IDENTIFIER ident (line_ l) start_col, l)
  end.

(** The body of a string literal, from after the opening quote; the boolean
    says whether the closing quote was found. *)
Fixpoint string_loop (quote : ascii) (s : string) (l : Lexer) (str : string) : string * bool * Lexer :=
  match s with
  | EmptyString => (str, false, l)
  | String c s' =>
      if char_eqb c quote then (str, true, step c s' l)
      else if char_eqb c backslash then
        match s' with
        | EmptyString => (str, false, step c s' l)
        | String d s'' => string_loop quote s'' (step d s'' (step c s' l)) (str +:+ String d "")
        end
      else string_loop quote s' (step c s' l) (str +:+ String c "")
  end.

(** [read_string], the opening quote [quote] being next and [s] what follows it;
    the error it sets, if any. *)
Definition read_string (quote : ascii) (s : string) (l : Lexer) : Token * Lexer * option string :=
  let start_col := col_ l in
  let '(str, closed, l) := string_loop quote s (step quote s l) "" in
  (mkToken STRING_LITERAL str (line_ l) start_col, l,
   if closed : bool then None else Some "Unterminated string literal").

Definition unexpected (c : ascii) (l : Lexer) (start_col : Z) : string :=
  "Unexpected character '" +:+ String c "' at line " +:+ to_string_Z (line_ l) +:+ " col " +:+ to_string_Z start_col.

(** The [switch] of [tokenize] on an operator or punctuation character [c],
    [l] being the state after it. *)
Definition read_symbol (c : ascii) (l : Lexer) (start_col : Z) : Token * Lexer * option string :=
  let tok t v l := (mkToken t v (line_ l) start_col, l, None : option string) in
  let eat := match rest l with EmptyString => l | String d s => step d s l end in
  if char_eqb c "("%char then tok LPAREN "(" l
  else if char_eqb c ")"%char then tok RPAREN ")" l
  else if char_eqb c ","%char then tok COMMA "," l
  else if char_eqb c ";"%char then tok SEMICOLON ";" l
  else if char_eqb c "."%char then tok DOT "." l
  else if char_eqb c "*"%char then tok STAR "*" l
  else if char_eqb c "="%char then tok OP_EQ "=" l
  else if char_eqb c "<"%char then
    if char_eqb (peek l) "="%char then tok OP_LE "<=" eat
    else if char_eqb (peek l) ">"%char then tok OP_NE "<>" eat
    else tok OP_LT "<" l
  else if char_eqb c ">"%char then
    if char_eqb (peek l) "="%char then tok OP_GE ">=" eat else tok OP_GT ">" l
  else if char_eqb c "!"%char then
    if char_eqb (peek l) "="%char then tok OP_NE "!=" eat
    else (mkToken INVALID "!" (line_ l) start_col, l, Some (unexpected c l start_col))
  else (mkToken INVALID (String c "") (line_ l) start_col, l, Some (unexpected c l start_col)).

Fixpoint contains_char (c : ascii) (s : string) : bool :=
  match s with EmptyString => false | String d s => char_eqb d c || contains_char c s end.

(** A number with a minus sign [s] is what follows the sign. *)
Definition read_negative (c : ascii) (s : string) (l : Lexer) : Token * Lexer :=
  let start_col := col_ l in
  let '(t, l) := read_number (step c s l) in
  let value := String c (tk_value t) in
  (mkToken (if contains_char "."%char value then FLOAT_LITERAL else tk_type t) value (tk_line t) start_col, l).

Definition starts_digit (s : string) : bool :=
  match s with String d _ => isdigit d | EmptyString => false end.

(** One iteration of [tokenize], at a character [c] that is not white space. *)
Definition next_token (c : ascii) (s : string) (l : Lexer) : Token * Lexer * option string :=
  if isdigit c then (read_number l, None)
  else if char_eqb c "-"%char && starts_digit s then (read_negative c s l, None)
  else if isalpha c || char_eqb c "_"%char then (read_identifier_or_keyword l, None)
  else if char_eqb c squote || char_eqb c dquote then read_string c s l
  else read_symbol c (step c s l) (col_ l).

(** The loop of [tokenize]: the tokens and [error_]. *)
Fixpoint tokenize_loop (fuel : nat) (l : Lexer) (tokens : list Token) (error : string) : outcome (list Token * string) :=
  match fuel with
  | O => Diverge
  | S fuel =>
      let finish l := Ret (tokens ++ [mkToken END_OF_INPUT "" (line_ l) (col_ l)], error) in
      match rest l with
      | EmptyString => finish l
      | _ =>
          let l := skip_whitespace l in
          match rest l with
          | EmptyString => finish l
          | String c s =>
              let '(t, l, e) := next_token c s l in
              tokenize_loop fuel l (tokens ++ [t]) (default error e)
          end
      end
  end.

Definition tokenize (input : string) : outcome (list Token * string) :=
  tokenize_loop (S (String.length input)) (Lexer_new input) [] "".
