(* ===== verification/LexerSpec.v ===== *)
(** * The tokenizer is total and inverts printing

    [tokenize] always returns, with [END_OF_INPUT] last and nowhere else; and
    tokens printed with spaces between them are read back. *)

From Stdlib Require Import ZArith Lia Ascii.
From stdpp Require Import base strings gmap numbers list list_numbers.
From S2P Require Import Prelude Cpp Common Lexer.
Open Scope string_scope.
Open Scope list_scope.
Open Scope Z_scope.

(** ** Characters *)

Lemma char_eqb_eq a b : char_eqb a b = true <-> a = b.
Proof. apply Ascii.eqb_eq. Qed.

Lemma char_eqb_refl a : char_eqb a a = true.
Proof. by apply char_eqb_eq. Qed.

Lemma char_eqb_neq a b : char_eqb a b = false <-> a <> b.
Proof. apply Ascii.eqb_neq. Qed.

Lemma rest_step c s l : rest (step c s l) = s.
Proof. unfold step. by destruct (char_eqb c newline). Qed.

(** ** Progress and totality *)

(** [l'] has consumed no less than [l]. *)
Definition shorter (l' : Lexer) (n : nat) : Prop := (String.length (rest l') <= n)%nat.

Lemma skip_loop_shorter s : forall l, rest l = s -> shorter (skip_loop s l) (String.length s).
Proof.
  induction s as [|c s IH]; intros l Hl; cbn [skip_loop].
  - unfold shorter. rewrite Hl. cbn. lia.
  - destruct (isspace c).
    + specialize (IH (step c s l) (rest_step c s l)). unfold shorter in *. cbn. lia.
    + unfold shorter. rewrite Hl. done.
Qed.

Lemma skip_loop_head s c s' : forall l, rest l = s -> rest (skip_loop s l) = String c s' -> isspace c = false.
Proof.
  induction s as [|x s IH]; intros l Hl H; cbn [skip_loop] in H; [congruence|].
  destruct (isspace x) eqn:E; [by apply (IH (step x s l)); [apply rest_step|]|]. rewrite Hl in H. by injection H as -> ->.
Qed.

Lemma number_loop_shorter s : forall l d n, rest l = s -> shorter (snd (number_loop s l d n)) (String.length s).
Proof.
  induction s as [|c s IH]; intros l d n Hl; cbn [number_loop].
  - unfold shorter. cbn. by rewrite Hl.
  - destruct (_ || _); [destruct (_ && _)|].
    + unfold shorter. cbn [snd]. by rewrite Hl.
    + match goal with |- shorter (snd (number_loop _ ?l' ?d' ?n')) _ => specialize (IH l' d' n' (rest_step c s l)) end.
      unfold shorter in *. cbn [String.length]. lia.
    + unfold shorter. cbn [snd]. by rewrite Hl.
Qed.

Lemma ident_loop_shorter s : forall l n, rest l = s -> shorter (snd (ident_loop s l n)) (String.length s).
Proof.
  induction s as [|c s IH]; intros l n Hl; cbn [ident_loop].
  - unfold shorter. cbn. by rewrite Hl.
  - destruct (is_ident_char c).
    + specialize (IH (step c s l) (n +:+ String c "") (rest_step c s l)). unfold shorter in *. cbn [String.length]. lia.
    + unfold shorter. cbn [snd]. by rewrite Hl.
Qed.

Lemma string_loop_shorter q k : forall s l n, (String.length s <= k)%nat -> rest l = s ->
  shorter (snd (string_loop q s l n)) (String.length s).
Proof.
  induction k as [|k IH]; intros s l n Hk Hl; (destruct s as [|c s]; cbn [string_loop]; [unfold shorter; cbn; by rewrite Hl|]);
    cbn [String.length] in Hk; [lia|].
  destruct (char_eqb c q); [unfold shorter; cbn [snd]; rewrite rest_step; cbn; lia|].
  destruct (char_eqb c backslash).
  - destruct s as [|d s]; [unfold shorter; cbn [snd]; rewrite rest_step; cbn; lia|]. cbn [String.length] in Hk.
    specialize (IH s (step d s (step c (String d s) l)) (n +:+ String d "") ltac:(lia) (rest_step _ _ _)).
    unfold shorter in *. cbn [String.length]. lia.
  - specialize (IH s (step c s l) (n +:+ String c "") ltac:(lia) (rest_step _ _ _)).
    unfold shorter in *. cbn [String.length]. lia.
Qed.

(** A token never has the type of the end marker, and consumes a character. *)
Lemma next_token_spec c s l : rest l = String c s -> isspace c = false ->
  let '(t, l', e) := next_token c s l in shorter l' (String.length s) /\ tk_type t <> END_OF_INPUT.
Proof.
  intros Hl Hsp. unfold next_token. destruct (isdigit c) eqn:Hd.
  { unfold read_number. rewrite Hl. cbn [number_loop]. rewrite Hd. cbn [orb].
    destruct (char_eqb c "."%char && false) eqn:E; [by rewrite andb_false_r in E|].
    pose proof (number_loop_shorter s (step c s l) (false || char_eqb c "."%char) ("" +:+ String c "") (rest_step c s l)) as H.
    destruct (number_loop _ _ _ _) as [[num d] l']. split; [done|]. cbn. by destruct d. }
  destruct (char_eqb c "-"%char && starts_digit s).
  { unfold read_negative, read_number. rewrite rest_step.
    pose proof (number_loop_shorter s (step c s l) false "" (rest_step c s l)) as H.
    destruct (number_loop _ _ _ _) as [[num d] l']. split; [done|]. cbn. destruct (_ || _); [done|]. by destruct d. }
  destruct (isalpha c || char_eqb c "_"%char) eqn:Ha.
  { unfold read_identifier_or_keyword. rewrite Hl. cbn [ident_loop].
    assert (is_ident_char c = true) as ->.
    { unfold is_ident_char, isalnum. destruct (isalpha c), (char_eqb c "_"%char); rewrite ?orb_true_r; done. }
    pose proof (ident_loop_shorter s (step c s l) ("" +:+ String c "") (rest_step c s l)) as H.
    destruct (ident_loop _ _ _) as [ident l']. destruct (KEYWORDS !! string_map toupper ident) as [kw|] eqn:E; [|done].
    split; [done|]. cbn. intros ->. unfold KEYWORDS in E.
    apply (elem_of_list_to_map_2 (M := gmap string)) in E. repeat (apply elem_of_cons in E as [[=]|E]). by apply not_elem_of_nil in E. }
  destruct (char_eqb c squote || char_eqb c dquote).
  { unfold read_string. pose proof (string_loop_shorter c (String.length s) s (step c s l) "" ltac:(done) (rest_step c s l)) as H.
    destruct (string_loop _ _ _ _) as [[str closed] l']. done. }
  unfold read_symbol. rewrite rest_step.
  assert (Hstep : shorter (step c s l) (String.length s)) by (unfold shorter; by rewrite rest_step).
  assert (Heat : shorter (match s with EmptyString => step c s l | String d s0 => step d s0 (step c s l) end) (String.length s)).
  { destruct s; unfold shorter; rewrite rest_step; cbn; lia. }
  cbv zeta. repeat match goal with |- context [if ?b then _ else _] => destruct b end; (split; [assumption|done]).
Qed.

Lemma tokenize_loop_total fuel : forall l tokens error, (String.length (rest l) < fuel)%nat ->
  Forall (fun t => tk_type t <> END_OF_INPUT) tokens ->
  exists ts t e, tokenize_loop fuel l tokens error = Ret (ts ++ [t], e) /\
    tk_type t = END_OF_INPUT /\ Forall (fun t => tk_type t <> END_OF_INPUT) ts.
Proof.
  induction fuel as [|fuel IH]; intros l tokens error Hf Ht; [lia|]. cbn [tokenize_loop].
  destruct (rest l) as [|c0 s0] eqn:Hl; [eexists _, _, _; split; [reflexivity|done]|].
  pose proof (skip_loop_shorter (String c0 s0) l Hl) as Hsk. unfold skip_whitespace. rewrite Hl.
  remember (skip_loop (String c0 s0) l) as l1 eqn:El1. destruct (rest l1) as [|c s] eqn:Hl1; [eexists _, _, _; split; [reflexivity|done]|].
  assert (Hsp : isspace c = false) by (eapply (skip_loop_head (String c0 s0)); [exact Hl|by rewrite <- El1]).
  pose proof (next_token_spec c s l1 Hl1 Hsp) as H. destruct (next_token c s l1) as [[t l2] e]. destruct H as [Hsh Htt].
  apply IH; [|by apply Forall_app; auto]. unfold shorter in *. rewrite Hl1 in Hsk. cbn in Hsk, Hf. lia.
Qed.

(** ** Printing *)

(** A token without its position. *)
Abbreviation lexeme := (TokenType * string)%type.

Definition lexeme_of (t : Token) : lexeme := (tk_type t, tk_value t).

(** The text between single quotes. *)
Fixpoint escape (s : string) : string :=
  match s with
  | EmptyString => EmptyString
  | String c s =>
      if char_eqb c squote || char_eqb c backslash then String backslash (String c (escape s)) else String c (escape s)
  end.

Definition render (x : lexeme) : string :=
  match x.1 with
  | STRING_LITERAL => String squote (escape x.2 +:+ String squote "")
  | _ => x.2
  end.

(** Each token followed by a space. *)
Fixpoint print (xs : list lexeme) : string :=
  match xs with [] => "" | x :: xs => render x +:+ String " " (print xs) end.

(** Each token followed by white space of its own, or by none. *)
Fixpoint write (xs : list (lexeme * string)) : string :=
  match xs with [] => "" | x :: xs => render x.1 +:+ x.2 +:+ write xs end.

Lemma print_write xs : print xs = write ((fun x => (x, " ")) <$> xs).
Proof. induction xs as [|x xs IH]; [done|]. cbn [print fmap list_fmap write fst snd]. by rewrite IH. Qed.

Definition all_digits (s : string) : bool := string_forall isdigit s.

Definition unsigned_ok (t : TokenType) (s : string) : bool :=
  match span isdigit s with
  | (String _ _, EmptyString) => bool_decide (t = INT_LITERAL)
  | (String _ _, String d s') => bool_decide (t = FLOAT_LITERAL) && char_eqb d "."%char && all_digits s'
  | (EmptyString, _) => false
  end.

Definition number_ok (t : TokenType) (s : string) : bool :=
  match s with
  | String c s' => if char_eqb c "-"%char then unsigned_ok t s' else unsigned_ok t s
  | EmptyString => false
  end.

Definition ident_ok (s : string) : bool :=
  match s with
  | String c s' => (isalpha c || char_eqb c "_"%char) && string_forall is_ident_char s' &&
                   bool_decide (KEYWORDS !! string_map toupper s = None)
  | EmptyString => false
  end.

(** The lexemes the tokenizer can produce without an error. *)
Definition lexeme_ok (x : lexeme) : bool :=
  match x.1 with
  | IDENTIFIER => ident_ok x.2
  | INT_LITERAL | FLOAT_LITERAL => number_ok x.1 x.2
  | STRING_LITERAL => true
  | OP_EQ => String.eqb x.2 "=" | OP_NE => String.eqb x.2 "!=" || String.eqb x.2 "<>"
  | OP_LT => String.eqb x.2 "<" | OP_GT => String.eqb x.2 ">" | OP_LE => String.eqb x.2 "<=" | OP_GE => String.eqb x.2 ">="
  | LPAREN => String.eqb x.2 "(" | RPAREN => String.eqb x.2 ")" | COMMA => String.eqb x.2 ","
  | SEMICOLON => String.eqb x.2 ";" | DOT => String.eqb x.2 "." | STAR => String.eqb x.2 "*"
  | END_OF_INPUT | INVALID => false
  | kw => bool_decide (KEYWORDS !! x.2 = Some kw)
  end.

Definition is_number_char (c : ascii) : bool := isdigit c || char_eqb c "."%char.

(** What may follow the token at once without being read as a part of it. *)
Definition separate (x : lexeme) (t : string) : bool :=
  match t with
  | EmptyString => true
  | String c _ =>
      match x.1 with
      | INT_LITERAL | FLOAT_LITERAL => negb (is_number_char c)
      | OP_LT => negb (char_eqb c "="%char || char_eqb c ">"%char)
      | OP_GT => negb (char_eqb c "="%char)
      | STRING_LITERAL | OP_EQ | OP_NE | OP_LE | OP_GE | LPAREN | RPAREN | COMMA | SEMICOLON | DOT | STAR => true
      | _ => negb (is_ident_char c)
      end
  end.

Lemma separate_blank x c t : isspace c = true -> separate x (String c t) = true.
Proof.
  intros Hc. assert (Hn : is_number_char c = false /\ is_ident_char c = false /\ char_eqb c "="%char = false /\ char_eqb c ">"%char = false).
  { destruct c as [[] [] [] [] [] [] [] []]; (vm_compute in Hc; discriminate Hc) || by vm_compute. }
  destruct Hn as (H1 & H2 & H3 & H4). unfold separate. rewrite H1, H2, H3, H4. by destruct x.1.
Qed.

(** A text the tokenizer reads as its tokens. *)
Fixpoint written_ok (xs : list (lexeme * string)) : bool :=
  match xs with
  | [] => true
  | x :: xs => lexeme_ok x.1 && string_forall isspace x.2 && separate x.1 (x.2 +:+ write xs) && written_ok xs
  end.

(** ** Reading each kind of token back *)

Lemma ident_loop_read v : forall t l n, rest l = v +:+ t -> string_forall is_ident_char v = true ->
  (forall c t', t = String c t' -> is_ident_char c = false) ->
  exists l', ident_loop (v +:+ t) l n = (n +:+ v, l') /\ rest l' = t.
Proof.
  induction v as [|c v IH]; intros t l n Hl Hv Ht.
  - rewrite app_empty_l in *. exists l. rewrite app_empty_r. split; [|done]. destruct t as [|c t]; [done|]. cbn.
    by rewrite (Ht c t eq_refl).
  - rewrite app_cons in *. cbn in Hv. apply andb_true_iff in Hv as [Hc Hv]. cbn [ident_loop]. rewrite Hc.
    destruct (IH t (step c (v +:+ t) l) (n +:+ String c "") (rest_step _ _ _) Hv Ht) as (l' & -> & Hr).
    exists l'. by rewrite app_snoc.
Qed.

Lemma number_loop_digits v : forall t l d n, rest l = v +:+ t -> all_digits v = true ->
  exists l', number_loop (v +:+ t) l d n = number_loop t l' d (n +:+ v) /\ rest l' = t.
Proof.
  induction v as [|c v IH]; intros t l d n Hl Hv.
  - rewrite app_empty_l in *. exists l. by rewrite app_empty_r.
  - rewrite app_cons in *. cbn in Hv. apply andb_true_iff in Hv as [Hc Hv]. cbn [number_loop]. rewrite Hc. cbn [orb].
    assert (Hdot : char_eqb c "."%char = false).
    { apply char_eqb_neq. intros ->. by vm_compute in Hc. }
    rewrite Hdot. cbn [andb orb]. rewrite orb_false_r.
    destruct (IH t (step c (v +:+ t) l) d (n +:+ String c "") (rest_step _ _ _) Hv) as (l' & -> & Hr).
    exists l'. by rewrite app_snoc.
Qed.

Lemma span_app f s : fst (span f s) +:+ snd (span f s) = s.
Proof. induction s as [|c s IH]; [done|]. cbn. destruct (f c); [|done]. destruct (span f s). cbn in *. by rewrite app_cons, IH. Qed.

Lemma span_forall f s : string_forall f (fst (span f s)) = true.
Proof.
  induction s as [|c s IH]; [done|]. cbn. destruct (f c) eqn:E; [|done]. destruct (span f s). unfold string_forall in *. cbn in *. by rewrite E.
Qed.

(** An unsigned number, and what follows it. *)
Lemma number_loop_read t v s l : rest l = v +:+ s -> unsigned_ok t v = true -> separate (INT_LITERAL, v) s = true ->
  exists d l', number_loop (v +:+ s) l false "" = (v, d, l') /\ rest l' = s /\
    (t = if d : bool then FLOAT_LITERAL else INT_LITERAL) /\ contains_char "."%char v = d.
Proof.
  intros Hl Hok Hsep. unfold unsigned_ok in Hok. pose proof (span_app isdigit v) as Hv. pose proof (span_forall isdigit v) as Hd.
  destruct (span isdigit v) as [ds w]. cbn [fst snd] in *. destruct ds as [|d0 ds]; [done|]. set (ds' := String d0 ds) in *. clearbody ds'.
  assert (Hstop : forall l n d, number_loop s l d n = (n, d, l)).
  { intros l0 n d. destruct s as [|c s]; [done|]. cbn in Hsep. apply negb_true_iff in Hsep. unfold is_number_char in Hsep. cbn. by rewrite Hsep. }
  assert (Hnodot : forall x, all_digits x = true -> contains_char "."%char x = false).
  { induction x as [|c x IH]; [done|]. cbn. intros [Hc Hx]%andb_true_iff.
    assert (char_eqb c "."%char = false) as -> by (apply char_eqb_neq; intros ->; by vm_compute in Hc). by apply IH. }
  destruct w as [|c w].
  - rewrite app_empty_r in Hv. subst v. destruct (number_loop_digits ds' _ l false "" Hl Hd) as (l' & -> & Hr).
    rewrite Hstop. exists false, l'. split; [done|]. split; [done|]. split; [by apply bool_decide_eq_true in Hok|by apply Hnodot].
  - apply andb_true_iff in Hok as [Hok Hw]. apply andb_true_iff in Hok as [Ht Hc]. apply char_eqb_eq in Hc as ->.
    rewrite <- Hv in *. rewrite app_assoc_str in *. destruct (number_loop_digits ds' _ l false "" Hl Hd) as (l' & -> & Hr).
    rewrite app_cons in *. cbn [number_loop]. cbn [char_eqb Ascii.eqb orb andb].
    match goal with |- context [number_loop (w +:+ s) ?l0 ?d0 ?n0] =>
      destruct (number_loop_digits w s l0 d0 n0) as (l2 & E & Hr2); [apply rest_step|done|] end.
    rewrite E, Hstop. exists true, l2. rewrite app_empty_l, app_snoc. split; [done|]. split; [done|].
    split; [by apply bool_decide_eq_true in Ht|]. clear. induction ds' as [|x ds' IH]; [done|]. rewrite app_cons. cbn. by rewrite IH, orb_true_r.
Qed.

Lemma string_loop_read v : forall t l n, rest l = escape v +:+ String squote t ->
  exists l', string_loop squote (escape v +:+ String squote t) l n = (n +:+ v, true, l') /\ rest l' = t.
Proof.
  induction v as [|c v IH]; intros t l n Hl; cbn [escape] in *.
  - rewrite app_empty_l in *. cbn [string_loop]. rewrite char_eqb_refl. eexists. rewrite app_empty_r. split; [done|]. apply rest_step.
  - destruct (char_eqb c squote) eqn:Eq; cbn [orb] in *; [|destruct (char_eqb c backslash) eqn:Eb].
    1,2: rewrite !app_cons in *; cbn [string_loop]; change (char_eqb backslash squote) with false; rewrite char_eqb_refl; cbv iota;
      edestruct (IH t) as (l' & E & Hr); [apply rest_step|]; rewrite E; exists l'; by rewrite app_snoc.
    rewrite app_cons in *. cbn [string_loop]. rewrite Eq, Eb.
    edestruct (IH t) as (l' & E & Hr); [apply rest_step|]. rewrite E. exists l'. by rewrite app_snoc.
Qed.

Lemma isalpha_not_digit c : isalpha c || char_eqb c "_"%char = true ->
  isdigit c = false /\ isspace c = false /\ char_eqb c "-"%char = false /\ is_ident_char c = true.
Proof.
  intros H. unfold is_ident_char, isalnum. destruct (char_eqb c "_"%char) eqn:E.
  - apply char_eqb_eq in E as ->. by vm_compute.
  - rewrite orb_false_r in H. rewrite H. cbn [orb]. unfold isalpha, isupper, islower, isdigit, isspace in *.
    assert (Hr : char_eqb c "-"%char = false).
    { apply char_eqb_neq. intros ->. by vm_compute in H. }
    rewrite Hr. repeat match goal with |- context [?a <=? ?b] => destruct (Z.leb_spec a b) | |- context [?a =? ?b] => destruct (Z.eqb_spec a b)
      | _ : context [?a <=? ?b] |- _ => destruct (Z.leb_spec a b) end; cbn in *; try done; lia.
Qed.

(** [next_token] reads back the token written at [l], down to [s]. *)
Definition reads (x : lexeme) (s : string) (l : Lexer) : Prop :=
  exists c s' line col l', rest l = String c s' /\ isspace c = false /\
    next_token c s' l = (mkToken x.1 x.2 line col, l', None) /\ rest l' = s.

Lemma read_word x v s l : rest l = v +:+ s -> string_forall is_ident_char v = true -> (forall c s', s = String c s' -> is_ident_char c = false) ->
  match v with String c _ => isalpha c || char_eqb c "_"%char = true | EmptyString => False end ->
  match KEYWORDS !! string_map toupper v with Some kw => (kw, string_map toupper v) | None => (IDENTIFIER, v) end = x ->
  reads x s l.
Proof.
  intros Hl Hv Hsep Hc Hx. destruct (ident_loop_read v s l "" Hl Hv Hsep) as (l' & E & Hr).
  destruct v as [|c v]; [done|]. destruct (isalpha_not_digit c Hc) as (Hd & Hsp & Hm & _).
  rewrite <- Hl in E. rewrite app_cons in Hl.
  exists c, (v +:+ s). unfold next_token. rewrite Hd, Hm, Hc. cbn [andb]. unfold read_identifier_or_keyword. rewrite E.
  rewrite app_empty_l in *. destruct (KEYWORDS !! string_map toupper (String c v)) as [kw|]; subst x; eauto 10.
Qed.

(** Where a word ends. *)
Lemma separate_word x s : separate x s = true ->
  match x.1 with
  | INT_LITERAL | FLOAT_LITERAL | STRING_LITERAL | OP_EQ | OP_NE | OP_LT | OP_GT | OP_LE | OP_GE
  | LPAREN | RPAREN | COMMA | SEMICOLON | DOT | STAR => False | _ => True end -> forall c s', s = String c s' -> is_ident_char c = false.
Proof. intros H Hx c s' ->. apply negb_true_iff. unfold separate in H. destruct x.1; done. Qed.

Lemma KEYWORDS_word v t : KEYWORDS !! v = Some t -> string_map toupper v = v /\ string_forall is_ident_char v = true /\
  match v with String c _ => isalpha c || char_eqb c "_"%char = true | EmptyString => False end.
Proof.
  intros Hk. unfold KEYWORDS in Hk. apply (elem_of_list_to_map_2 (M := gmap string)) in Hk.
  repeat (apply elem_of_cons in Hk as [[= -> ->]|Hk]; [by vm_compute|]). by apply not_elem_of_nil in Hk.
Qed.

Lemma read_keyword t v s l : KEYWORDS !! v = Some t -> rest l = v +:+ s -> (forall c s', s = String c s' -> is_ident_char c = false) ->
  reads (t, v) s l.
Proof.
  intros Hk Hl Hsep. destruct (KEYWORDS_word v t Hk) as (Hu & Hi & Hc). apply (read_word _ v); [done..|]. by rewrite Hu, Hk.
Qed.

Lemma unsigned_ok_head t v : unsigned_ok t v = true -> exists c s, v = String c s /\ isdigit c = true.
Proof.
  unfold unsigned_ok. destruct v as [|c v]; [done|]. cbn. destruct (isdigit c) eqn:E; [eauto|]. done.
Qed.

Lemma read_number_ok t v s l : number_ok t v = true -> rest l = v +:+ s -> separate (INT_LITERAL, v) s = true -> reads (t, v) s l.
Proof.
  intros Hok Hl Hsep. unfold number_ok in Hok. destruct v as [|c v]; [done|]. destruct (char_eqb c "-"%char) eqn:Hm.
  - apply char_eqb_eq in Hm as ->. destruct (unsigned_ok_head t v Hok) as (d & v' & -> & Hd). rewrite app_cons in Hl.
    exists "-"%char, (String d v' +:+ s).
    destruct (number_loop_read t (String d v') s (step "-"%char (String d v' +:+ s) l) (rest_step _ _ _) Hok Hsep)
      as (hd & l' & E & Hr & -> & Hdot).
    eexists _, _, l'. split; [done|]. split; [done|]. split; [|done]. unfold next_token. rewrite app_cons. cbn [starts_digit]. rewrite Hd.
    change (isdigit "-") with false. change (char_eqb "-" "-"%char && true) with true. cbv iota.
    unfold read_negative, read_number. rewrite rest_step, <- app_cons, E. cbn [tk_value tk_type tk_line fst snd].
    change (contains_char "." (String "-" (String d v'))) with (contains_char "." (String d v')). rewrite Hdot. by destruct hd.
  - destruct (unsigned_ok_head t _ Hok) as (d & v' & [= <- <-] & Hd).
    destruct (number_loop_read t _ s l Hl Hok Hsep) as (hd & l' & E & Hr & -> & _). rewrite <- Hl in E. rewrite app_cons in Hl.
    exists c, (v +:+ s). eexists _, _, l'. split; [done|]. split; [by apply isdigit_not_space|].
    split; [|done]. unfold next_token. rewrite Hd. unfold read_number. by rewrite E.
Qed.

Lemma read_symbol_ok t v s l : (t, v) ∈ [(OP_EQ, "="); (OP_NE, "!="); (OP_NE, "<>"); (OP_LT, "<"); (OP_GT, ">"); (OP_LE, "<=");
    (OP_GE, ">="); (LPAREN, "("); (RPAREN, ")"); (COMMA, ","); (SEMICOLON, ";"); (DOT, "."); (STAR, "*")] ->
  rest l = v +:+ s -> separate (t, v) s = true -> reads (t, v) s l.
Proof.
  intros Hin Hl Hsep.
  repeat (apply elem_of_cons in Hin as [[= -> ->]|Hin];
    [rewrite !app_cons, app_empty_l in Hl; eexists _, _, _, _, _; split; [exact Hl|]; split; [reflexivity|];
     unfold next_token, read_symbol, peek; rewrite ?rest_step;
     (split; [|by rewrite ?rest_step]);
     first [reflexivity
           |destruct s as [|c s]; [reflexivity|]; cbn in Hsep; apply negb_true_iff in Hsep; try apply orb_false_iff in Hsep as [Hsep ?]; cbn; rewrite Hsep;
            (reflexivity || (match goal with H : char_eqb c ">"%char = false |- _ => rewrite H end; reflexivity))]|]).
  by apply not_elem_of_nil in Hin.
Qed.

Lemma read_lexeme x s l : lexeme_ok x = true -> rest l = render x +:+ s -> separate x s = true -> reads x s l.
Proof.
  destruct x as [t v]. intros Hok Hl Hsep. unfold lexeme_ok, render in *. cbn [fst snd] in *.
  destruct t; try discriminate Hok;
    try (apply bool_decide_eq_true in Hok; apply read_keyword; [done|done|by apply (separate_word _ s Hsep)]);
    try (by apply read_number_ok);
    try (apply read_symbol_ok; [|done|done];
         try (apply orb_true_iff in Hok as [Hok|Hok]); apply String.eqb_eq in Hok as ->; rewrite ?elem_of_cons; tauto).
  - unfold ident_ok in Hok. destruct v as [|c v]; [done|]. apply andb_true_iff in Hok as [Hok Hk].
    apply andb_true_iff in Hok as [Hc Hv]. apply bool_decide_eq_true in Hk.
    apply (read_word _ (String c v)); [done| |by apply (separate_word _ s Hsep)|done|by rewrite Hk].
    destruct (isalpha_not_digit c Hc) as (_ & _ & _ & Hi). unfold string_forall in *. cbn. by rewrite Hi.
  - rewrite app_cons, app_assoc_str, app_cons, app_empty_l in Hl.
    destruct (string_loop_read v s (step squote (escape v +:+ String squote s) l) "" (rest_step _ _ _)) as (l' & E & Hr).
    eexists squote, _, _, _, l'. split; [exact Hl|]. split; [done|]. split; [|done]. unfold next_token, read_string.
    change (isdigit squote) with false. change (char_eqb squote "-"%char) with false. change (isalpha squote || char_eqb squote "_"%char) with false.
    cbn [andb]. rewrite char_eqb_refl. cbn [orb]. rewrite E, app_empty_l. done.
Qed.

(** White space is skipped. *)
Lemma skip_blanks b t : string_forall isspace b = true -> (forall c t', t = String c t' -> isspace c = false) ->
  forall l, rest l = b +:+ t -> rest (skip_loop (b +:+ t) l) = t.
Proof.
  intros Hb Ht. induction b as [|c b IH]; intros l Hl.
  - rewrite app_empty_l in *. destruct t as [|c t]; [done|]. cbn [skip_loop]. by rewrite (Ht c t eq_refl).
  - rewrite app_cons in *. cbn in Hb. apply andb_true_iff in Hb as [Hc Hb]. cbn [skip_loop]. rewrite Hc. apply IH; [done|apply rest_step].
Qed.

Lemma tokenize_loop_write xs : written_ok xs = true -> forall fuel l tokens b, string_forall isspace b = true ->
  rest l = b +:+ write xs -> (String.length (rest l) < fuel)%nat ->
  exists ts line col, tokenize_loop fuel l tokens "" = Ret (tokens ++ ts ++ [mkToken END_OF_INPUT "" line col], "") /\
    lexeme_of <$> ts = xs.*1.
Proof.
  induction xs as [|[x bx] xs IH]; intros Hok [|fuel] l tokens b Hb Hl Hf; try lia; cbn [tokenize_loop].
  - destruct (rest l) as [|c0 s0] eqn:E0; [by exists [], (line_ l), (col_ l)|].
    unfold skip_whitespace. rewrite E0, Hl, skip_blanks; [by eexists [], _, _|done|done|by rewrite E0].
  - cbn [written_ok fst snd write] in *. apply andb_true_iff in Hok as [Hok Hxs]. apply andb_true_iff in Hok as [Hok Hsep].
    apply andb_true_iff in Hok as [Hx Hbx]. set (t := bx +:+ write xs) in *.
    assert (Hhead : forall l1, rest l1 = render x +:+ t -> reads x t l1) by (intros; by apply read_lexeme).
    assert (Hns : forall c t', render x +:+ t = String c t' -> isspace c = false).
    { intros c t' E. destruct (Hhead (mkLexer (render x +:+ t) 0 0) eq_refl) as (c' & s' & _ & _ & _ & E' & Hsp & _). cbn [rest] in E'. congruence. }
    assert (Hne : (String.length t < String.length (render x +:+ t))%nat).
    { rewrite length_app_str. destruct (render x) as [|c0 r0] eqn:Er; [|cbn; lia]. exfalso. rewrite app_empty_l in *.
      destruct (read_lexeme x "" (mkLexer "" 0 0) Hx) as (c' & s' & _ & _ & _ & E' & _); [by rewrite Er|done|]. done. }
    assert (Hskip : rest (skip_whitespace l) = render x +:+ t) by (unfold skip_whitespace; rewrite Hl; by apply skip_blanks).
    assert (Hlen : (String.length t < String.length (rest l))%nat) by (rewrite Hl, length_app_str; lia).
    destruct (rest l) as [|c0 s0] eqn:E0; [cbn in Hlen; lia|]. set (l1 := skip_whitespace l) in *. clearbody l1.
    destruct (Hhead l1 Hskip) as (c & s' & line & col & l' & Hc & _ & Hn & Hr). rewrite Hc, Hn. cbn [default].
    destruct (IH Hxs fuel l' (tokens ++ [mkToken x.1 x.2 line col]) bx Hbx) as (ts & line' & col' & E & Hts); [done|rewrite Hr; lia|].
    exists (mkToken x.1 x.2 line col :: ts), line', col'. rewrite E, <- app_assoc. split; [done|]. cbn. rewrite Hts. by destruct x.
Qed.

Lemma tokenize_write b xs : string_forall isspace b = true -> written_ok xs = true ->
  exists ts line col, tokenize (b +:+ write xs) = Ret (ts ++ [mkToken END_OF_INPUT "" line col], "") /\ lexeme_of <$> ts = xs.*1.
Proof.
  intros Hb Hxs. unfold tokenize. destruct (tokenize_loop_write xs Hxs (S (String.length (b +:+ write xs))) (Lexer_new (b +:+ write xs)) [] b Hb)
    as (ts & line & col & E & H); [done|cbn; lia|]. eauto.
Qed.

Lemma print_written xs : Forall (fun x => lexeme_ok x = true) xs -> written_ok ((fun x => (x, " ")) <$> xs) = true.
Proof.
  induction 1 as [|x xs Hx _ IH]; [done|]. cbn [fmap list_fmap written_ok fst snd].
  rewrite Hx, app_cons, separate_blank by done. exact IH.
Qed.

Lemma tokenize_print xs : Forall (fun x => lexeme_ok x = true) xs ->
  exists ts line col, tokenize (print xs) = Ret (ts ++ [mkToken END_OF_INPUT "" line col], "") /\ lexeme_of <$> ts = xs.
Proof.
  intros Hxs. destruct (tokenize_write "" _ eq_refl (print_written xs Hxs)) as (ts & line & col & E & Hts).
  rewrite app_empty_l, <- print_write in E. exists ts, line, col. split; [exact E|]. rewrite Hts, <- list_fmap_compose. apply list_fmap_id.
Qed.
