(* ===== verification/Parser.v ===== *)
(** * parser/ast.h, parser/parser.{h,cpp}: the recursive descent parser

    A [parser] runs on the token array, the position and [error_]; it returns
    [None] where the code returns [nullptr], having set [error_], and may throw
    what [std::stoi] throws. A pointer to a statement is the statement. *)

From Stdlib Require Import ZArith Lia Ascii.
From stdpp Require Import base strings gmap numbers list list_numbers.
From S2P Require Import Prelude Cpp Common Lexer.
Open Scope string_scope.
Open Scope list_scope.
Open Scope Z_scope.

(** ** ast.h *)

Record ColumnRef := mkColumnRef { cr_table : string; cr_column : string }.

Definition full_name (c : ColumnRef) : string :=
  if String.eqb (cr_table c) "" then cr_column c else cr_table c +:+ "." +:+ cr_column c.

Record WhereClause := mkWhere { w_column : ColumnRef; w_op : CmpOp; w_literal : string }.

Record JoinClause := mkJoin { j_right_table : string; j_left_col : ColumnRef; j_right_col : ColumnRef; j_op : CmpOp }.

Record AstColumnDef := mkAstColumn { ac_name : string; ac_type_name : string; ac_varchar_len : Z }.

Record CreateTableStmt := mkCreate { ct_table_name : string; ct_columns : list AstColumnDef }.

Record InsertStmt := mkInsert { in_table_name : string; in_batch_values : list (list string) }.

(** [has_where]/[where] and [has_join]/[join] are options. *)
Record SelectStmt := mkSelect {
  se_table_name : string;
  se_columns : list ColumnRef;
  se_select_all : bool;
  se_where : option WhereClause;
  se_join : option JoinClause;
}.

Inductive Statement :=
  | CREATE_TABLE (s : CreateTableStmt)
  | INSERT (s : InsertStmt)
  | SELECT (s : SelectStmt).

(** ** The parser's state and monad *)

Record Parser := mkParser {
  tokens_ : list Token;
  pos_ : nat;
  error_ : string;
}.

Definition parser (A : Type) : Type := Parser -> outcome (option A * Parser).

#[export] Instance parser_ret : MRet parser := fun A a s => Ret (Some a, s).
#[export] Instance parser_bind : MBind parser := fun A B f m s =>
  res ← m s;
  match fst res with
  | Some a => f a (snd res)
  | None => Ret (None, snd res)
  end.

Definition run_parser {A} (p : parser A) (s : Parser) : outcome (option A * Parser) := p s.

(** [error_ = msg; return nullptr;] *)
Definition fail {A} (msg : string) : parser A := fun s => Ret (None, mkParser (tokens_ s) (pos_ s) msg).
Definition set_error (msg : string) : parser unit := fun s => Ret (Some tt, mkParser (tokens_ s) (pos_ s) msg).
Definition lift {A} (o : outcome A) : parser A := fun s => a ← o; Ret (Some a, s).

Definition Parser_new (tokens : list Token) : Parser := mkParser tokens 0 "".

Definition eof : Token := mkToken END_OF_INPUT "" 0 0.

Definition current_token (s : Parser) : Token := default eof (tokens_ s !! pos_ s).
Definition current : parser Token := fun s => Ret (Some (current_token s), s).
Definition current_type : parser TokenType := fun s => Ret (Some (tk_type (current_token s)), s).
Definition current_value : parser string := fun s => Ret (Some (tk_value (current_token s)), s).

Definition advance : parser unit := fun s =>
  Ret (Some tt, if (pos_ s <? length (tokens_ s))%nat then mkParser (tokens_ s) (S (pos_ s)) (error_ s) else s).

Definition match_type (type : TokenType) : parser bool :=
  t ← current_type;
  if decide (t = type) then _ ← advance; mret true else mret false.

Definition expect (type : TokenType) (context : string) : parser unit :=
  m ← match_type type;
  if (m : bool) then mret tt
  else
    t ← current;
    fail ("Expected " +:+ context +:+ " at line " +:+ to_string_Z (tk_line t) +:+ " col " +:+
          to_string_Z (tk_col t) +:+ ", got '" +:+ tk_value t +:+ "'").

(** [if (current().type != type) { error_ = ...; return nullptr; } ... current().value; advance();] *)
Definition take_identifier (msg : parser string) : parser string :=
  t ← current_type;
  if decide (t = IDENTIFIER) then v ← current_value; _ ← advance; mret v
  else m ← msg; fail m.

(** ** CREATE TABLE *)

Definition parse_type_name (col_name : string) : parser string :=
  t ← current_type;
  match t with
  | KW_INT => mret "INT"
  | KW_DECIMAL => mret "DECIMAL"
  | KW_VARCHAR => mret "VARCHAR"
  | KW_DATETIME => mret "DATETIME"
  | _ => v ← current_value; fail ("Expected type for column '" +:+ col_name +:+ "', got '" +:+ v +:+ "'")
  end.

(** The optional length of a [VARCHAR]. *)
Definition parse_varchar_len (type_name : string) : parser Z :=
  t ← current_type;
  if String.eqb type_name "VARCHAR" && bool_decide (t = LPAREN) then
    _ ← advance;
    t ← current_type;
    if decide (t = INT_LITERAL) then
      v ← current_value;
      n ← lift (stoi v);
      _ ← advance;
      _ ← expect RPAREN "')'";
      mret (u16 n)
    else fail "Expected VARCHAR length"
  else mret DEFAULT_VARCHAR_MAX.

Definition parse_column_def : parser AstColumnDef :=
  name ← take_identifier (v ← current_value; mret ("Expected column name, got '" +:+ v +:+ "'"));
  type_name ← parse_type_name name;
  _ ← advance;
  len ← parse_varchar_len type_name;
  mret (mkAstColumn name type_name len).

Fixpoint columns_loop (fuel : nat) (columns : list AstColumnDef) : parser (list AstColumnDef) :=
  match fuel with
  | O => lift Diverge
  | S fuel =>
      t ← current_type;
      if decide (t = RPAREN \/ t = END_OF_INPUT) then mret columns else
      col ← parse_column_def;
      m ← match_type COMMA;
      if (m : bool) then columns_loop fuel (columns ++ [col]) else mret (columns ++ [col])
  end.

(** Loops make at most one pass per token. *)
Definition loop_fuel : parser nat := fun s => Ret (Some (S (length (tokens_ s))), s).

Definition parse_create_table : parser Statement :=
  _ ← advance;
  _ ← expect KW_TABLE "TABLE";
  name ← take_identifier (mret "Expected table name after CREATE TABLE");
  _ ← expect LPAREN "'('";
  fuel ← loop_fuel;
  columns ← columns_loop fuel [];
  _ ← expect RPAREN "')'";
  _ ← match_type SEMICOLON;
  mret (CREATE_TABLE (mkCreate name columns)).

(** ** INSERT *)

Fixpoint values_loop (fuel : nat) (row_values : list string) : parser (list string) :=
  match fuel with
  | O => lift Diverge
  | S fuel =>
      t ← current_type;
      if decide (t = RPAREN \/ t = END_OF_INPUT) then mret row_values else
      v ← current_value;
      _ ← advance;
      m ← match_type COMMA;
      if (m : bool) then values_loop fuel (row_values ++ [v]) else mret (row_values ++ [v])
  end.

Fixpoint batch_loop (fuel : nat) (batch : list (list string)) : parser (list (list string)) :=
  match fuel with
  | O => lift Diverge
  | S fuel =>
      _ ← expect LPAREN "'('";
      n ← loop_fuel;
      row ← values_loop n [];
      _ ← expect RPAREN "')'";
      m ← match_type COMMA;
      if (m : bool) then batch_loop fuel (batch ++ [row]) else mret (batch ++ [row])
  end.

Definition parse_insert : parser Statement :=
  _ ← advance;
  _ ← expect KW_INTO "INTO";
  name ← take_identifier (mret "Expected table name after INSERT INTO");
  _ ← expect KW_VALUES "VALUES";
  fuel ← loop_fuel;
  batch ← batch_loop fuel [];
  _ ← match_type SEMICOLON;
  mret (INSERT (mkInsert name batch)).

(** ** SELECT *)

Definition parse_column_ref : parser ColumnRef :=
  column ← current_value;
  _ ← advance;
  t ← current_type;
  if decide (t = DOT) then
    _ ← advance;
    v ← current_value;
    _ ← advance;
    mret (mkColumnRef column v)
  else mret (mkColumnRef "" column).

Definition parse_cmp_op : parser CmpOp :=
  t ← current_type;
  match t with
  | OP_EQ => _ ← advance; mret EQ
  | OP_NE => _ ← advance; mret NE
  | OP_LT => _ ← advance; mret LT
  | OP_GT => _ ← advance; mret GT
  | OP_LE => _ ← advance; mret LE
  | OP_GE => _ ← advance; mret GE
  | _ => v ← current_value; _ ← set_error ("Expected comparison operator, got '" +:+ v +:+ "'"); mret EQ
  end.

Definition parse_where : parser WhereClause :=
  column ← parse_column_ref;
  op ← parse_cmp_op;
  literal ← current_value;
  _ ← advance;
  mret (mkWhere column op literal).

Fixpoint select_list_loop (fuel : nat) (columns : list ColumnRef) : parser (list ColumnRef) :=
  match fuel with
  | O => lift Diverge
  | S fuel =>
      t ← current_type;
      if decide (t = IDENTIFIER) then
        c ← parse_column_ref;
        m ← match_type COMMA;
        if (m : bool) then select_list_loop fuel (columns ++ [c]) else mret (columns ++ [c])
      else v ← current_value; fail ("Expected column name or *, got '" +:+ v +:+ "'")
  end.

(** [select_all] and [columns]. *)
Definition parse_select_list : parser (bool * list ColumnRef) :=
  t ← current_type;
  if decide (t = STAR) then _ ← advance; mret (true, [])
  else fuel ← loop_fuel; columns ← select_list_loop fuel []; mret (false, columns).

Definition parse_join : parser (option JoinClause) :=
  t ← current_type;
  if decide (t = KW_INNER) then
    _ ← advance;
    _ ← expect KW_JOIN "JOIN";
    right_table ← take_identifier (mret "Expected table name after INNER JOIN");
    _ ← expect KW_ON "ON";
    left_col ← parse_column_ref;
    t ← current_type;
    if decide (t = OP_EQ) then
      _ ← advance;
      right_col ← parse_column_ref;
      mret (Some (mkJoin right_table left_col right_col EQ))
    else fail "Expected '=' in JOIN condition"
  else mret None.

Definition parse_opt_where : parser (option WhereClause) :=
  t ← current_type;
  if decide (t = KW_WHERE) then _ ← advance; w ← parse_where; mret (Some w) else mret None.

Definition parse_select : parser Statement :=
  _ ← advance;
  cols ← parse_select_list;
  _ ← expect KW_FROM "FROM";
  name ← take_identifier (mret "Expected table name after FROM");
  join ← parse_join;
  w ← parse_opt_where;
  _ ← match_type SEMICOLON;
  mret (SELECT (mkSelect name (snd cols) (fst cols) w join)).

(** ** Entry points *)

Definition parse : parser Statement :=
  t ← current;
  match tk_type t with
  | KW_CREATE => parse_create_table
  | KW_INSERT => parse_insert
  | KW_SELECT => parse_select
  | _ => fail ("Unexpected token '" +:+ tk_value t +:+ "' at line " +:+ to_string_Z (tk_line t) +:+
               ". Expected CREATE, INSERT, or SELECT.")
  end.

(** [parse_sql(sql, error)]: the error, or the statement. *)
Definition parse_sql (sql : string) : outcome (string + Statement) :=
  lexed ← tokenize sql;
  if negb (String.eqb (snd lexed) "") then Ret (inl (snd lexed)) else
  res ← parse (Parser_new (fst lexed));
  match fst res with
  | Some stmt => Ret (inr stmt)
  | None => Ret (inl (error_ (snd res)))
  end.
