(* ===== verification/ParserSpec.v ===== *)
(** * The parser is total and inverts printing

    Every statement is printed by a list of lexemes; parsing their text gives
    the statement back. And on any input at all the parser returns a
    statement or an error, or throws what [std::stoi] throws. *)

From Stdlib Require Import ZArith Lia Ascii.
From stdpp Require Import base strings gmap numbers list list_numbers.
From S2P Require Import Prelude Cpp Common Lexer LexerSpec Parser.
Open Scope string_scope.
Open Scope list_scope.
Open Scope Z_scope.

(** ** Printing statements *)

Definition ident (s : string) : lexeme := (IDENTIFIER, s).
Definition comma : lexeme := (COMMA, ",").

Fixpoint comma_sep (xss : list (list lexeme)) : list lexeme :=
  match xss with
  | [] => []
  | [xs] => xs
  | xs :: xss => xs ++ comma :: comma_sep xss
  end.

Definition column_ref_lexemes (c : ColumnRef) : list lexeme :=
  if String.eqb (cr_table c) "" then [ident (cr_column c)] else [ident (cr_table c); (DOT, "."); ident (cr_column c)].

Definition type_lexeme (type_name : string) : lexeme :=
  if String.eqb type_name "INT" then (KW_INT, "INT")
  else if String.eqb type_name "DECIMAL" then (KW_DECIMAL, "DECIMAL")
  else if String.eqb type_name "VARCHAR" then (KW_VARCHAR, "VARCHAR") else (KW_DATETIME, "DATETIME").

Definition column_def_lexemes (c : AstColumnDef) : list lexeme :=
  [ident (ac_name c); type_lexeme (ac_type_name c)] ++
  if String.eqb (ac_type_name c) "VARCHAR"
  then [(LPAREN, "("); (INT_LITERAL, to_string_Z (ac_varchar_len c)); (RPAREN, ")")] else [].

Definition op_lexeme (op : CmpOp) : lexeme :=
  match op with
  | EQ => (OP_EQ, "=") | NE => (OP_NE, "!=") | LT => (OP_LT, "<")
  | GT => (OP_GT, ">") | LE => (OP_LE, "<=") | GE => (OP_GE, ">=")
  end.

(** A literal may be quoted or, if it reads as a number, bare: [lit] says which. *)
Definition quoted (v : string) : lexeme := (STRING_LITERAL, v).
Definition natural (v : string) : lexeme :=
  if number_ok INT_LITERAL v then (INT_LITERAL, v) else if number_ok FLOAT_LITERAL v then (FLOAT_LITERAL, v) else quoted v.
Definition is_literal (x : lexeme) : bool := match x.1 with INT_LITERAL | FLOAT_LITERAL | STRING_LITERAL => lexeme_ok x | _ => false end.
Definition literal_style (lit : string -> lexeme) : Prop := forall v, is_literal (lit v) = true /\ (lit v).2 = v.

Lemma quoted_style : literal_style quoted.
Proof. done. Qed.
Lemma natural_style : literal_style natural.
Proof.
  intros v. unfold natural. destruct (number_ok INT_LITERAL v) eqn:Ei; [by split|]. by destruct (number_ok FLOAT_LITERAL v) eqn:Ef.
Qed.

Definition row_lexemes (lit : string -> lexeme) (row : list string) : list lexeme :=
  (LPAREN, "(") :: comma_sep ((fun v => [lit v]) <$> row) ++ [(RPAREN, ")")].

Definition where_lexemes (lit : string -> lexeme) (w : option WhereClause) : list lexeme :=
  match w with
  | None => []
  | Some w => (KW_WHERE, "WHERE") :: column_ref_lexemes (w_column w) ++ [op_lexeme (w_op w); lit (w_literal w)]
  end.

Definition join_lexemes (j : option JoinClause) : list lexeme :=
  match j with
  | None => []
  | Some j => [(KW_INNER, "INNER"); (KW_JOIN, "JOIN"); ident (j_right_table j); (KW_ON, "ON")] ++
      column_ref_lexemes (j_left_col j) ++ (OP_EQ, "=") :: column_ref_lexemes (j_right_col j)
  end.

Definition select_list_lexemes (s : SelectStmt) : list lexeme :=
  if se_select_all s then [(STAR, "*")] else comma_sep (column_ref_lexemes <$> se_columns s).

(** The lexemes of a statement; the final semicolon is optional. *)
Definition spelling (lit : string -> lexeme) (stmt : Statement) : list lexeme :=
  match stmt with
  | CREATE_TABLE c =>
      [(KW_CREATE, "CREATE"); (KW_TABLE, "TABLE"); ident (ct_table_name c); (LPAREN, "(")] ++
      comma_sep (column_def_lexemes <$> ct_columns c) ++ [(RPAREN, ")")]
  | INSERT i =>
      [(KW_INSERT, "INSERT"); (KW_INTO, "INTO"); ident (in_table_name i); (KW_VALUES, "VALUES")] ++
      comma_sep (row_lexemes lit <$> in_batch_values i)
  | SELECT s =>
      (KW_SELECT, "SELECT") :: select_list_lexemes s ++ [(KW_FROM, "FROM"); ident (se_table_name s)] ++
      join_lexemes (se_join s) ++ where_lexemes lit (se_where s)
  end.

Definition semicolon : lexeme := (SEMICOLON, ";").
Definition statement_lexemes (stmt : Statement) : list lexeme := spelling quoted stmt ++ [semicolon].

(** The statement's text. *)
Definition print_statement (stmt : Statement) : string := print (statement_lexemes stmt).

(** *** Statements that can be written *)

Definition column_ref_ok (c : ColumnRef) : bool :=
  (String.eqb (cr_table c) "" || ident_ok (cr_table c)) && ident_ok (cr_column c).

Definition column_def_ok (c : AstColumnDef) : bool :=
  ident_ok (ac_name c) && bool_decide (ac_type_name c ∈ ["INT"; "DECIMAL"; "VARCHAR"; "DATETIME"]) &&
  if String.eqb (ac_type_name c) "VARCHAR" then (0 <=? ac_varchar_len c) && (ac_varchar_len c <? 2 ^ 16)
  else ac_varchar_len c =? DEFAULT_VARCHAR_MAX.

Definition statement_ok (stmt : Statement) : bool :=
  match stmt with
  | CREATE_TABLE c => ident_ok (ct_table_name c) && forallb column_def_ok (ct_columns c)
  | INSERT i => ident_ok (in_table_name i) && negb (bool_decide (in_batch_values i = []))
  | SELECT s =>
      ident_ok (se_table_name s) &&
      (if se_select_all s then bool_decide (se_columns s = [])
       else forallb column_ref_ok (se_columns s) && negb (bool_decide (se_columns s = []))) &&
      match se_where s with None => true | Some w => column_ref_ok (w_column w) end &&
      match se_join s with
      | None => true
      | Some j => ident_ok (j_right_table j) && column_ref_ok (j_left_col j) && column_ref_ok (j_right_col j) &&
                  bool_decide (j_op j = EQ)
      end
  end.

(** *** Their lexemes are ones the tokenizer produces *)

Abbreviation lex_all_ok := (Forall (fun x => lexeme_ok x = true)).

Lemma comma_sep_ok xss : Forall lex_all_ok xss -> lex_all_ok (comma_sep xss).
Proof.
  induction 1 as [|xs xss Hx Hxs IH]; [constructor|]. destruct xss; [done|]. cbn [comma_sep].
  apply Forall_app. split; [done|]. by constructor.
Qed.

Lemma column_ref_lexemes_ok c : column_ref_ok c = true -> lex_all_ok (column_ref_lexemes c).
Proof.
  intros [Ht Hc]%andb_true_iff. unfold column_ref_lexemes. destruct (String.eqb (cr_table c) "").
  - by repeat constructor.
  - cbn [orb] in Ht. by repeat constructor.
Qed.

Lemma number_ok_to_string n : 0 <= n -> number_ok INT_LITERAL (to_string_Z n) = true.
Proof.
  intros Hn. unfold to_string_Z. rewrite (proj2 (Z.ltb_ge _ _)) by done.
  destruct (to_string_nonneg_spec n Hn) as (c & ds & -> & Hd & _). unfold number_ok.
  assert (Hm : char_eqb c "-"%char = false).
  { apply char_eqb_neq. intros ->. by vm_compute in Hd. }
  rewrite Hm. unfold unsigned_ok. by rewrite span_all.
Qed.

Lemma column_def_lexemes_ok c : column_def_ok c = true -> lex_all_ok (column_def_lexemes c).
Proof.
  intros H. unfold column_def_ok in H. apply andb_true_iff in H as [H Hl]. apply andb_true_iff in H as [Hn Ht].
  apply bool_decide_eq_true in Ht. unfold column_def_lexemes.
  repeat (apply elem_of_cons in Ht as [Ht|Ht]); [..|by apply not_elem_of_nil in Ht]; rewrite Ht in *; cbn in *;
    repeat (constructor; [done|]); try constructor.
  - apply andb_true_iff in Hl as [Hl _]. apply number_ok_to_string. by apply Z.leb_le.
  - by repeat constructor.
Qed.

Section style.
Context (lit : string -> lexeme) (Hlit : literal_style lit).

Lemma literal_ok v : lexeme_ok (lit v) = true.
Proof. destruct (Hlit v) as [H _]. unfold is_literal in H. destruct (lit v) as [[] ?]; done. Qed.

Lemma row_lexemes_ok row : lex_all_ok (row_lexemes lit row).
Proof.
  constructor; [done|]. apply Forall_app. split; [|by repeat constructor]. apply comma_sep_ok, Forall_fmap, Forall_true.
  intros v. constructor; [apply literal_ok|constructor].
Qed.

Lemma forallb_Forall {A} (f : A -> bool) l : forallb f l = true <-> Forall (fun x => f x = true) l.
Proof. rewrite forallb_forall, Forall_forall. by setoid_rewrite list_elem_of_In. Qed.

Lemma spelling_ok stmt : statement_ok stmt = true -> lex_all_ok (spelling lit stmt).
Proof.
  destruct stmt as [c|i|s]; cbn [statement_ok spelling]; intros H.
  - apply andb_true_iff in H as [Hn Hc]. repeat (constructor; [done|]). apply Forall_app. split; [|by repeat constructor].
    apply comma_sep_ok, Forall_fmap. apply forallb_Forall in Hc. eapply Forall_impl; [exact Hc|]. intros x. apply column_def_lexemes_ok.
  - apply andb_true_iff in H as [Hn _]. repeat (constructor; [done|]).
    apply comma_sep_ok, Forall_fmap, Forall_true. intros x. apply row_lexemes_ok.
  - apply andb_true_iff in H as [H Hj]. apply andb_true_iff in H as [H Hw]. apply andb_true_iff in H as [Hn Hc].
    constructor; [done|]. apply Forall_app. split.
    { unfold select_list_lexemes. destruct (se_select_all s); [by repeat constructor|]. apply andb_true_iff in Hc as [Hc _].
      apply comma_sep_ok, Forall_fmap. apply forallb_Forall in Hc. eapply Forall_impl; [exact Hc|]. intros x. apply column_ref_lexemes_ok. }
    repeat (constructor; [done|]). apply Forall_app. split.
    { destruct (se_join s) as [j|]; [|done]. apply andb_true_iff in Hj as [Hj _]. apply andb_true_iff in Hj as [Hj H2].
      apply andb_true_iff in Hj as [Hr H1]. cbn. repeat (constructor; [done|]). apply Forall_app.
      split; [by apply column_ref_lexemes_ok|]. constructor; [done|]. by apply column_ref_lexemes_ok. }
    destruct (se_where s) as [w|]; [|done]. cbn. constructor; [done|].
    apply Forall_app. split; [by apply column_ref_lexemes_ok|]. constructor; [by destruct (w_op w)|]. constructor; [apply literal_ok|constructor].
Qed.
End style.

Lemma statement_lexemes_ok stmt : statement_ok stmt = true -> lex_all_ok (statement_lexemes stmt).
Proof. intros H. apply Forall_app. split; [exact (spelling_ok quoted quoted_style stmt H)|by repeat constructor]. Qed.

(** ** Running a parser on lexemes *)

(** What is left to read. *)
Definition rem (s : Parser) : list lexeme := lexeme_of <$> drop (pos_ s) (tokens_ s).

(** [p] reads the lexemes [xs] down to [ys] and returns [a]. *)
Definition runs {A} (p : parser A) (xs ys : list lexeme) (a : A) : Prop :=
  forall s, rem s = xs -> exists s', run_parser p s = Ret (Some a, s') /\ rem s' = ys.

Lemma runs_ret {A} (a : A) xs : runs (mret a) xs xs a.
Proof. intros s Hs. by exists s. Qed.

Lemma runs_bind {A B} (p : parser A) (f : A -> parser B) xs ys zs a b :
  runs p xs ys a -> runs (f a) ys zs b -> runs (p ≫= f) xs zs b.
Proof.
  intros Hp Hf s Hs. destruct (Hp s Hs) as (s1 & E & Hs1). destruct (Hf s1 Hs1) as (s2 & E2 & Hs2).
  exists s2. split; [|done]. unfold run_parser, mbind, parser_bind in *. rewrite E. outcome_simpl. cbn [fst snd]. done.
Qed.

Lemma rem_cons s x xs : rem s = x :: xs -> exists t, tokens_ s !! pos_ s = Some t /\ lexeme_of t = x /\
  (pos_ s < length (tokens_ s))%nat /\ lexeme_of <$> drop (S (pos_ s)) (tokens_ s) = xs.
Proof.
  unfold rem. intros H. destruct (drop (pos_ s) (tokens_ s)) as [|t ts] eqn:E; [done|]. cbn in H. injection H as Ht Hts.
  assert (Hl : tokens_ s !! pos_ s = Some t).
  { rewrite <- (Nat.add_0_r (pos_ s)), <- lookup_drop, E. done. }
  exists t. split; [done|]. split; [done|]. split; [by eapply lookup_lt_Some|].
  replace (S (pos_ s)) with (pos_ s + 1)%nat by lia. by rewrite <- drop_drop, E.
Qed.

Lemma runs_current_type x xs : runs current_type (x :: xs) (x :: xs) x.1.
Proof.
  intros s Hs. exists s. split; [|done]. destruct (rem_cons s x xs Hs) as (t & Ht & <- & _).
  unfold run_parser, current_type, current_token. by rewrite Ht.
Qed.

Lemma runs_current_value x xs : runs current_value (x :: xs) (x :: xs) x.2.
Proof.
  intros s Hs. exists s. split; [|done]. destruct (rem_cons s x xs Hs) as (t & Ht & <- & _).
  unfold run_parser, current_value, current_token. by rewrite Ht.
Qed.

Lemma runs_advance x xs : runs advance (x :: xs) xs tt.
Proof.
  intros s Hs. destruct (rem_cons s x xs Hs) as (t & Ht & _ & Hlt & Hd).
  unfold run_parser, advance. rewrite (proj2 (Nat.ltb_lt _ _) Hlt). eexists. split; [done|]. exact Hd.
Qed.

Lemma runs_match x xs t : runs (match_type t) (x :: xs) (if decide (x.1 = t) then xs else x :: xs) (bool_decide (x.1 = t)).
Proof.
  eapply runs_bind; [apply runs_current_type|]. case_decide as E.
  - rewrite bool_decide_true by done. eapply runs_bind; [apply runs_advance|apply runs_ret].
  - rewrite bool_decide_false by done. apply runs_ret.
Qed.

Lemma runs_expect x xs t ctx : x.1 = t -> runs (expect t ctx) (x :: xs) xs tt.
Proof.
  intros E. eapply runs_bind; [apply runs_match|]. rewrite bool_decide_true, decide_True by done. apply runs_ret.
Qed.

Lemma runs_identifier v xs msg : runs (take_identifier msg) (ident v :: xs) xs v.
Proof.
  eapply runs_bind; [apply runs_current_type|]. cbn [fst ident]. rewrite decide_True by done.
  eapply runs_bind; [apply runs_current_value|]. eapply runs_bind; [apply runs_advance|apply runs_ret].
Qed.

Lemma runs_loop_fuel {B} (f : nat -> parser B) xs ys b :
  (forall n, (length xs < n)%nat -> runs (f n) xs ys b) -> runs (loop_fuel ≫= f) xs ys b.
Proof.
  intros H s Hs. assert (Hl : (length xs < S (length (tokens_ s)))%nat).
  { rewrite <- Hs. unfold rem. rewrite length_fmap, length_drop. lia. }
  destruct (H _ Hl s Hs) as (s' & E & Hs'). exists s'. split; [|done].
  unfold run_parser, mbind, parser_bind, loop_fuel in *. outcome_simpl. exact E.
Qed.

Create HintDb runs.
#[export] Hint Resolve runs_ret runs_current_type runs_current_value runs_advance runs_identifier : runs.
#[export] Hint Extern 1 (runs (expect _ _) _ _ _) => (apply runs_expect; reflexivity) : runs.

(** One statement of a [do] block. *)
Ltac run_step := eapply runs_bind; [solve [eauto with runs]|]; cbn [fst snd].

(** *** Column references, types, definitions *)

Lemma runs_column_ref c x xs : column_ref_ok c = true -> x.1 <> DOT ->
  runs parse_column_ref (column_ref_lexemes c ++ x :: xs) (x :: xs) c.
Proof.
  intros _ Hx. unfold column_ref_lexemes, parse_column_ref. destruct c as [t v]. cbn [cr_table cr_column].
  destruct (String.eqb_spec t "") as [->|Ht]; cbn [app].
  - run_step. run_step. run_step. rewrite decide_False by done. apply runs_ret.
  - do 3 run_step. rewrite decide_True by done. do 3 run_step. apply runs_ret.
Qed.

Lemma runs_column_def c x xs : column_def_ok c = true -> x.1 <> LPAREN ->
  runs parse_column_def (column_def_lexemes c ++ x :: xs) (x :: xs) c.
Proof.
  intros H Hx. unfold column_def_ok in H. apply andb_true_iff in H as [H Hl]. apply andb_true_iff in H as [Hn Ht].
  apply bool_decide_eq_true in Ht. destruct c as [name ty len]. cbn [ac_name ac_type_name ac_varchar_len] in *.
  unfold column_def_lexemes, parse_column_def. cbn [app ac_name ac_type_name ac_varchar_len]. run_step.
  assert (Hplain : forall ty', ty = ty' -> (ty' = "INT" \/ ty' = "DECIMAL" \/ ty' = "DATETIME") ->
    runs (type_name ← parse_type_name name; _ ← advance; len ← parse_varchar_len type_name; mret (mkAstColumn name type_name len))
      (type_lexeme ty :: (if String.eqb ty "VARCHAR" then [(LPAREN, "("); (INT_LITERAL, to_string_Z len); (RPAREN, ")")] else []) ++ x :: xs)
      (x :: xs) (mkAstColumn name ty len)).
  { intros ty' -> Hty. assert (Hv : String.eqb ty' "VARCHAR" = false) by (destruct Hty as [->|[->| ->]]; done).
    rewrite Hv in *. apply Z.eqb_eq in Hl as ->. cbn [app]. eapply runs_bind with (a := ty').
    { eapply runs_bind; [apply runs_current_type|]. destruct Hty as [->|[->| ->]]; apply runs_ret. }
    run_step. eapply runs_bind; [|apply runs_ret]. unfold parse_varchar_len. run_step. rewrite Hv. apply runs_ret. }
  repeat (apply elem_of_cons in Ht as [Ht|Ht]); [..|by apply not_elem_of_nil in Ht]; try (solve [apply (Hplain ty); [done|tauto]]).
  subst ty. cbn [String.eqb Ascii.eqb eqb] in *. apply andb_true_iff in Hl as [Hl1 Hl2].
  apply Z.leb_le in Hl1. apply Z.ltb_lt in Hl2. change (type_lexeme "VARCHAR") with (KW_VARCHAR, "VARCHAR"). cbn [app].
  eapply runs_bind with (a := "VARCHAR"); [eapply runs_bind; [apply runs_current_type|apply runs_ret]|]. run_step.
  eapply runs_bind; [|apply runs_ret]. unfold parse_varchar_len. run_step. rewrite bool_decide_true by done.
  change (String.eqb "VARCHAR" "VARCHAR" && true) with true. cbv iota. run_step. run_step. rewrite decide_True by done. run_step.
  eapply runs_bind with (a := len).
  { intros s Hs. exists s. split; [|exact Hs]. unfold run_parser, lift. rewrite stoi_to_string; [done|]. unfold is_s32. lia. }
  run_step. run_step. rewrite u16_small by (unfold is_u16; lia). apply runs_ret.
Qed.

Lemma runs_match_other x xs t : x.1 <> t -> runs (match_type t) (x :: xs) (x :: xs) false.
Proof. intros Hx. pose proof (runs_match x xs t) as H. by rewrite bool_decide_false, decide_False in H. Qed.

Lemma runs_match_comma xs : runs (match_type COMMA) (comma :: xs) xs true.
Proof. exact (runs_match comma xs COMMA). Qed.

(** *** The loops *)

Definition rparen : lexeme := (RPAREN, ")").

Lemma runs_columns_loop cols : forall fuel acc x xs, Forall (fun c => column_def_ok c = true) cols ->
  x = rparen -> (length cols < fuel)%nat ->
  runs (columns_loop fuel acc) (comma_sep (column_def_lexemes <$> cols) ++ x :: xs) (x :: xs) (acc ++ cols).
Proof.
  induction cols as [|c cols IH]; intros [|fuel] acc x xs Hc -> Hf; cbn [length] in Hf; try lia; cbn [columns_loop].
  - cbn [fmap list_fmap comma_sep app]. run_step. rewrite decide_True by auto. rewrite app_nil_r. apply runs_ret.
  - apply Forall_cons in Hc as [Hc Hcs]. destruct cols as [|c' cols].
    + cbn [fmap list_fmap comma_sep]. eapply runs_bind; [unfold column_def_lexemes; cbn [app]; apply runs_current_type|]. cbn [fst ident].
      rewrite decide_False by (intros [?|?]; done). eapply runs_bind; [apply (runs_column_def c rparen xs Hc); done|].
      eapply runs_bind; [apply runs_match_other; done|]. apply runs_ret.
    + change (comma_sep (column_def_lexemes <$> c :: c' :: cols)) with (column_def_lexemes c ++ comma :: comma_sep (column_def_lexemes <$> c' :: cols)).
      rewrite <- app_assoc, <- app_comm_cons. eapply runs_bind; [unfold column_def_lexemes at 1; cbn [app]; apply runs_current_type|]. cbn [fst ident].
      rewrite decide_False by (intros [?|?]; done). eapply runs_bind; [apply (runs_column_def c comma _ Hc); done|].
      eapply runs_bind; [apply runs_match_comma|].
      replace (acc ++ c :: c' :: cols) with ((acc ++ [c]) ++ c' :: cols) by (by rewrite <- app_assoc).
      apply IH; [done|done|cbn [length] in *; lia].
Qed.

Section literals.
Context (lit : string -> lexeme) (Hlit : literal_style lit).

Lemma runs_literal v xs : runs current_value (lit v :: xs) (lit v :: xs) v.
Proof. destruct (Hlit v) as [_ E]. rewrite <- E at 3. apply runs_current_value. Qed.

Lemma literal_type v : (lit v).1 <> RPAREN /\ (lit v).1 <> END_OF_INPUT /\ (lit v).1 <> DOT.
Proof. destruct (Hlit v) as [H _]. unfold is_literal in H. by destruct (lit v).1. Qed.

Lemma runs_values_loop vs : forall fuel acc xs, (length vs < fuel)%nat ->
  runs (values_loop fuel acc) (comma_sep ((fun v => [lit v]) <$> vs) ++ rparen :: xs) (rparen :: xs) (acc ++ vs).
Proof.
  induction vs as [|v vs IH]; intros [|fuel] acc xs Hf; cbn [length] in Hf; try lia; cbn [values_loop].
  - cbn [fmap list_fmap comma_sep app]. run_step. rewrite decide_True by auto. rewrite app_nil_r. apply runs_ret.
  - destruct (literal_type v) as (H1 & H2 & _). destruct vs as [|v' vs].
    + cbn [fmap list_fmap comma_sep app]. run_step. rewrite decide_False by tauto. eapply runs_bind; [apply runs_literal|]. run_step.
      eapply runs_bind; [apply runs_match_other; done|]. apply runs_ret.
    + change (comma_sep ((fun v => [lit v]) <$> v :: v' :: vs)) with (lit v :: comma :: comma_sep ((fun v => [lit v]) <$> v' :: vs)).
      cbn [app]. run_step. rewrite decide_False by tauto. eapply runs_bind; [apply runs_literal|]. run_step.
      eapply runs_bind; [apply runs_match_comma|].
      replace (acc ++ v :: v' :: vs) with ((acc ++ [v]) ++ v' :: vs) by (by rewrite <- app_assoc).
      apply IH. cbn [length] in *. lia.
Qed.

(** A comma-separated list is at least as long as the number of its parts. *)
Lemma comma_sep_length {A} (f : A -> list lexeme) l : (forall a, f a <> []) -> (length l <= length (comma_sep (f <$> l)))%nat.
Proof.
  intros Hf. induction l as [|a l IH]; [cbn; lia|]. specialize (Hf a). destruct l as [|b l].
  - cbn. destruct (f a); [done|]. cbn. lia.
  - change (comma_sep (f <$> a :: b :: l)) with (f a ++ comma :: comma_sep (f <$> b :: l)).
    rewrite length_app. cbn [length] in *. destruct (f a); [done|]. cbn [length]. lia.
Qed.

Lemma runs_row row x xs {B} (f : list string -> parser B) ys b :
  runs (f row) (x :: xs) ys b ->
  runs (_ ← expect LPAREN "'('"; n ← loop_fuel; row ← values_loop n []; _ ← expect RPAREN "')'"; f row) (row_lexemes lit row ++ x :: xs) ys b.
Proof.
  intros Hf. unfold row_lexemes. cbn [app]. run_step. rewrite <- app_assoc. cbn [app]. apply runs_loop_fuel. intros n Hn.
  eapply runs_bind; [apply (runs_values_loop row n [])|].
  { rewrite length_app in Hn. pose proof (comma_sep_length (fun v : string => [lit v]) row ltac:(done)). cbn [length] in Hn. lia. }
  unfold rparen. run_step. exact Hf.
Qed.

Lemma runs_batch_loop rows : forall fuel acc x xs, rows <> [] -> x.1 <> COMMA -> (length rows <= fuel)%nat ->
  runs (batch_loop fuel acc) (comma_sep (row_lexemes lit <$> rows) ++ x :: xs) (x :: xs) (acc ++ rows).
Proof.
  induction rows as [|r rows IH]; intros [|fuel] acc x xs Hne Hx Hf; cbn [length] in Hf; try lia; [done..|]. cbn [batch_loop].
  destruct rows as [|r' rows].
  - cbn [fmap list_fmap comma_sep]. eapply runs_row. eapply runs_bind; [by apply runs_match_other|]. apply runs_ret.
  - change (comma_sep (row_lexemes lit <$> r :: r' :: rows)) with (row_lexemes lit r ++ comma :: comma_sep (row_lexemes lit <$> r' :: rows)).
    rewrite <- app_assoc, <- app_comm_cons. eapply runs_row. eapply runs_bind; [apply runs_match_comma|].
    replace (acc ++ r :: r' :: rows) with ((acc ++ [r]) ++ r' :: rows) by (by rewrite <- app_assoc).
    apply IH; [done|done|cbn [length] in *; lia].
Qed.

End literals.

Lemma runs_select_list_loop cols : forall fuel acc x xs, cols <> [] -> Forall (fun c => column_ref_ok c = true) cols ->
  x.1 <> DOT -> x.1 <> COMMA -> (length cols <= fuel)%nat ->
  runs (select_list_loop fuel acc) (comma_sep (column_ref_lexemes <$> cols) ++ x :: xs) (x :: xs) (acc ++ cols).
Proof.
  induction cols as [|c cols IH]; intros [|fuel] acc x xs Hne Hc Hd Hx Hf; cbn [length] in Hf; try lia; [done..|]. cbn [select_list_loop].
  apply Forall_cons in Hc as [Hc Hcs].
  assert (Hhead : forall ys, exists v ys', column_ref_lexemes c ++ ys = ident v :: ys').
  { intros ys. unfold column_ref_lexemes. destruct (String.eqb _ _); eauto. }
  destruct cols as [|c' cols].
  - cbn [fmap list_fmap comma_sep]. destruct (Hhead (x :: xs)) as (v & ys' & E). eapply runs_bind; [rewrite E; apply runs_current_type|].
    cbn [fst ident]. rewrite decide_True, <- E by done. eapply runs_bind; [by apply runs_column_ref|].
    eapply runs_bind; [by apply runs_match_other|]. apply runs_ret.
  - change (comma_sep (column_ref_lexemes <$> c :: c' :: cols)) with (column_ref_lexemes c ++ comma :: comma_sep (column_ref_lexemes <$> c' :: cols)).
    rewrite <- app_assoc, <- app_comm_cons. match goal with |- runs _ (_ ++ ?ys) _ _ => destruct (Hhead ys) as (v & ys' & E) end.
    eapply runs_bind; [rewrite E; apply runs_current_type|]. cbn [fst ident]. rewrite decide_True, <- E by done.
    eapply runs_bind; [by apply runs_column_ref|]. eapply runs_bind; [apply runs_match_comma|].
    replace (acc ++ c :: c' :: cols) with ((acc ++ [c]) ++ c' :: cols) by (by rewrite <- app_assoc).
    apply IH; try done. cbn [length] in *. lia.
Qed.

(** *** Whole statements *)

Definition end_lexeme : lexeme := (END_OF_INPUT, "").

Definition ending (semi : bool) : list lexeme := if semi then [semicolon; end_lexeme] else [end_lexeme].

Lemma runs_ending {B} (semi : bool) (p : parser B) ys b : runs p [end_lexeme] ys b -> runs (_ ← match_type SEMICOLON; p) (ending semi) ys b.
Proof. intros H. destruct semi; (eapply runs_bind; [apply runs_match|exact H]). Qed.

Lemma ending_head (semi : bool) : exists x, ending semi = x :: (if semi then [end_lexeme] else []) /\ x.1 <> COMMA /\ x.1 <> DOT /\ x.1 <> KW_INNER /\ x.1 <> KW_WHERE.
Proof. destruct semi; by eexists. Qed.

Lemma runs_join j x xs : match j with None => True | Some j => column_ref_ok (j_left_col j) = true /\ column_ref_ok (j_right_col j) = true /\ j_op j = EQ end ->
  x.1 <> DOT -> x.1 <> KW_INNER ->
  runs parse_join (join_lexemes j ++ x :: xs) (x :: xs) j.
Proof.
  intros Hj Hd Hi. unfold parse_join. destruct j as [j|]; cbn [join_lexemes app].
  - destruct Hj as (H1 & H2 & H3). run_step. rewrite decide_True by done. do 4 run_step. rewrite <- app_assoc, <- app_comm_cons.
    eapply runs_bind; [by apply runs_column_ref|]. run_step. rewrite decide_True by done. run_step.
    eapply runs_bind; [by apply runs_column_ref|]. rewrite <- H3. destruct j. apply runs_ret.
  - run_step. rewrite decide_False by done. apply runs_ret.
Qed.

Lemma runs_cmp_op op xs : runs parse_cmp_op (op_lexeme op :: xs) xs op.
Proof. unfold parse_cmp_op. destruct op; run_step; run_step; apply runs_ret. Qed.

Lemma runs_where lit w x xs : literal_style lit -> match w with None => True | Some w => column_ref_ok (w_column w) = true end ->
  x.1 <> KW_WHERE -> runs parse_opt_where (where_lexemes lit w ++ x :: xs) (x :: xs) w.
Proof.
  intros Hlit Hw Hx. unfold parse_opt_where. destruct w as [w|]; cbn [where_lexemes app].
  - run_step. rewrite decide_True by done. run_step. unfold parse_where. rewrite <- app_assoc. cbn [app].
    eapply runs_bind with (a := w); [|apply runs_ret]. destruct w as [c op v]. cbn [w_column w_op w_literal] in *.
    eapply runs_bind; [apply runs_column_ref; [done|by destruct op]|]. eapply runs_bind; [apply runs_cmp_op|].
    eapply runs_bind; [by apply runs_literal|]. run_step. apply runs_ret.
  - run_step. rewrite decide_False by done. apply runs_ret.
Qed.

Lemma runs_select_list s x xs : x.1 <> DOT -> x.1 <> COMMA ->
  (if se_select_all s then se_columns s = [] else Forall (fun c => column_ref_ok c = true) (se_columns s) /\ se_columns s <> []) ->
  runs parse_select_list (select_list_lexemes s ++ x :: xs) (x :: xs) (se_select_all s, se_columns s).
Proof.
  intros Hd Hc Hs. unfold parse_select_list, select_list_lexemes. destruct (se_select_all s).
  - rewrite Hs. cbn [app]. run_step. rewrite decide_True by done. run_step. apply runs_ret.
  - destruct Hs as [Hs Hne]. assert (Hhead : exists v ys, comma_sep (column_ref_lexemes <$> se_columns s) ++ x :: xs = ident v :: ys).
    { destruct (se_columns s) as [|c [|c' cs]]; [done|..]; cbn [fmap list_fmap comma_sep]; unfold column_ref_lexemes at 1; destruct (String.eqb _ _); cbn; eauto. }
    destruct Hhead as (v & ys & E). eapply runs_bind; [rewrite E; apply runs_current_type|]. cbn [fst ident].
    rewrite decide_False, <- E by done. apply runs_loop_fuel. intros n Hn.
    eapply runs_bind; [apply (runs_select_list_loop (se_columns s) n [] x xs); try done|apply runs_ret].
    rewrite length_app in Hn. pose proof (comma_sep_length column_ref_lexemes (se_columns s)) as Hl.
    assert (forall a, column_ref_lexemes a <> []) by (intros a; unfold column_ref_lexemes; by destruct (String.eqb _ _)).
    specialize (Hl H). lia.
Qed.

Lemma runs_parse lit semi stmt : literal_style lit -> statement_ok stmt = true -> runs parse (spelling lit stmt ++ ending semi) [end_lexeme] stmt.
Proof.
  intros Hlit H s Hs. assert (Hhead : exists x ys, rem s = x :: ys /\ x.1 = match stmt with CREATE_TABLE _ => KW_CREATE | INSERT _ => KW_INSERT | SELECT _ => KW_SELECT end).
  { rewrite Hs. destruct stmt; cbn; eauto. }
  destruct Hhead as (x & ys & Ex & Hx). destruct (rem_cons s x ys Ex) as (t & Ht & Etx & _).
  assert (Hp : run_parser parse s = run_parser match stmt with CREATE_TABLE _ => parse_create_table | INSERT _ => parse_insert | SELECT _ => parse_select end s).
  { unfold run_parser, parse, current, current_token. unfold mbind, parser_bind. outcome_simpl. rewrite Ht. cbn [from_option id fst snd].
    assert (tk_type t = x.1) as -> by (by rewrite <- Etx). rewrite Hx. by destruct stmt. }
  rewrite Hp. clear -Hlit H Hs. revert s Hs.
  change (runs match stmt with CREATE_TABLE _ => parse_create_table | INSERT _ => parse_insert | SELECT _ => parse_select end
    (spelling lit stmt ++ ending semi) [end_lexeme] stmt).
  destruct (ending_head semi) as (e & Ee & He1 & He2 & He3 & He4).
  destruct stmt as [c|i|se]; cbn [spelling statement_ok] in *.
  - apply andb_true_iff in H as [_ Hc]. apply forallb_Forall in Hc. unfold parse_create_table. rewrite <- !app_assoc. cbn [app].
    do 4 run_step. apply runs_loop_fuel. intros n Hn. eapply runs_bind; [apply (runs_columns_loop (ct_columns c) n []); [done|reflexivity|]|].
    { rewrite length_app in Hn. pose proof (comma_sep_length column_def_lexemes (ct_columns c) ltac:(done)). cbn [length] in Hn. lia. }
    unfold rparen. run_step. apply runs_ending. destruct c. apply runs_ret.
  - apply andb_true_iff in H as [_ Hne]. apply negb_true_iff, bool_decide_eq_false in Hne. unfold parse_insert. rewrite <- !app_assoc. cbn [app].
    do 4 run_step. apply runs_loop_fuel. intros n Hn. rewrite Ee. eapply runs_bind; [apply (runs_batch_loop lit Hlit (in_batch_values i) n []); [done|done|]|].
    { rewrite length_app in Hn. pose proof (comma_sep_length (row_lexemes lit) (in_batch_values i) ltac:(done)). lia. }
    rewrite <- Ee. apply runs_ending. destruct i. apply runs_ret.
  - apply andb_true_iff in H as [H Hj]. apply andb_true_iff in H as [H Hw]. apply andb_true_iff in H as [_ Hc].
    unfold parse_select. rewrite <- app_comm_cons, <- !app_assoc. run_step.
    eapply runs_bind; [apply runs_select_list; [done|done|]|].
    { destruct (se_select_all se); [by apply bool_decide_eq_true in Hc|]. apply andb_true_iff in Hc as [Hc Hne].
      apply forallb_Forall in Hc. by apply negb_true_iff, bool_decide_eq_false in Hne. }
    cbn [app fst snd]. do 2 run_step.
    assert (Hwx : exists x xs, where_lexemes lit (se_where se) ++ ending semi = x :: xs /\ x.1 <> DOT /\ x.1 <> KW_INNER).
    { destruct (se_where se); cbn; [by eexists _, _|]. rewrite Ee. by eexists _, _. }
    destruct Hwx as (x & xs & E & Hx1 & Hx2). rewrite E.
    eapply runs_bind; [apply runs_join; [|done|done]|].
    { destruct (se_join se) as [j|]; [|done]. apply andb_true_iff in Hj as [Hj Ho]. apply andb_true_iff in Hj as [Hj H2].
      apply andb_true_iff in Hj as [_ H1]. by apply bool_decide_eq_true in Ho. }
    rewrite <- E, Ee. eapply runs_bind; [apply runs_where; [done|by destruct (se_where se)|done]|].
    rewrite <- Ee. apply runs_ending. destruct se. apply runs_ret.
Qed.

(** ** Totality *)

(** Nothing a parser does is undefined or endless; it does not change the
    tokens and never moves back. *)
Definition ok_step (s s' : Parser) : Prop := tokens_ s' = tokens_ s /\ (pos_ s <= pos_ s')%nat.

Definition total {A} (p : parser A) : Prop := forall s,
  (exists r s', run_parser p s = Ret (r, s') /\ ok_step s s') \/
  run_parser p s = Throw invalid_argument \/ run_parser p s = Throw out_of_range.

Lemma ok_step_refl s : ok_step s s.
Proof. by split. Qed.
Lemma ok_step_trans s1 s2 s3 : ok_step s1 s2 -> ok_step s2 s3 -> ok_step s1 s3.
Proof. intros [? ?] [? ?]. split; [congruence|lia]. Qed.

Lemma total_bind {A B} (p : parser A) (f : A -> parser B) : total p -> (forall a, total (f a)) -> total (p ≫= f).
Proof.
  intros Hp Hf s. unfold run_parser, mbind, parser_bind. destruct (Hp s) as [(r & s1 & E & H1)|[E|E]]; unfold run_parser in E; rewrite E; outcome_simpl; auto.
  cbn [fst snd]. destruct r as [a|]; [|left; eauto].
  destruct (Hf a s1) as [(r & s2 & E2 & H2)|[E2|E2]]; unfold run_parser in E2; rewrite E2; auto.
  left. exists r, s2. split; [done|]. by eapply ok_step_trans.
Qed.

Lemma total_ret {A} (a : A) : total (mret a).
Proof. intros s. left. exists (Some a), s. split; [done|apply ok_step_refl]. Qed.
Lemma total_fail {A} msg : total (@fail A msg).
Proof. intros s. left. by eexists None, _. Qed.
Lemma total_set_error msg : total (set_error msg).
Proof. intros s. left. by eexists (Some tt), _. Qed.
Lemma total_current : total current.
Proof. intros s. left. by eexists (Some _), s. Qed.
Lemma total_current_type : total current_type.
Proof. intros s. left. by eexists (Some _), s. Qed.
Lemma total_current_value : total current_value.
Proof. intros s. left. by eexists (Some _), s. Qed.
Lemma total_advance : total advance.
Proof.
  intros s. left. unfold run_parser, advance. eexists _, _. split; [done|]. destruct (_ <? _)%nat; split; cbn; (done || lia).
Qed.
Lemma total_stoi v : total (lift (stoi v)).
Proof.
  intros s. unfold run_parser, lift, stoi, sto_integer. destruct (strtol v); [|auto]. destruct (_ && _); [|auto].
  left. by eexists (Some _), s.
Qed.

Create HintDb total.
#[export] Hint Resolve total_ret total_fail total_set_error total_current total_current_type total_current_value total_advance total_stoi : total.

Ltac total_tac :=
  repeat first
    [ solve [eauto with total]
    | apply total_bind; [|intros ?]
    | case_decide
    | match goal with |- total (match ?x with _ => _ end) => destruct x end ].

Lemma total_match t : total (match_type t).
Proof. unfold match_type. total_tac. Qed.
#[export] Hint Resolve total_match : total.
Lemma total_expect t ctx : total (expect t ctx).
Proof. unfold expect. total_tac. Qed.
#[export] Hint Resolve total_expect : total.
Lemma total_identifier msg : total msg -> total (take_identifier msg).
Proof. intros. unfold take_identifier. total_tac. Qed.
Lemma total_column_ref : total parse_column_ref.
Proof. unfold parse_column_ref. total_tac. Qed.
#[export] Hint Resolve total_identifier total_column_ref : total.
Lemma total_column_def : total parse_column_def.
Proof.
  unfold parse_column_def, parse_type_name, parse_varchar_len.
  apply total_bind; [apply total_identifier; total_tac|intros name]. total_tac.
Qed.
Lemma total_cmp_op : total parse_cmp_op.
Proof. unfold parse_cmp_op. total_tac. Qed.
#[export] Hint Resolve total_column_def total_cmp_op : total.

(** *** Loops: each pass that continues has read a comma *)

Definition left_to_read (s : Parser) : nat := length (tokens_ s) - pos_ s.

(** [p] is total on the states with fewer than [k] tokens left. *)
Definition total_under {A} (k : nat) (p : parser A) : Prop := forall s, (left_to_read s < k)%nat ->
  (exists r s', run_parser p s = Ret (r, s') /\ ok_step s s') \/
  run_parser p s = Throw invalid_argument \/ run_parser p s = Throw out_of_range.

Lemma total_total_under {A} k (p : parser A) : total p -> total_under k p.
Proof. intros H s _. apply H. Qed.

Lemma total_under_bind {A B} k (p : parser A) (f : A -> parser B) :
  total_under k p -> (forall a, total_under k (f a)) -> total_under k (p ≫= f).
Proof.
  intros Hp Hf s Hk. unfold run_parser, mbind, parser_bind.
  destruct (Hp s Hk) as [(r & s1 & E & H1)|[E|E]]; unfold run_parser in E; rewrite E; outcome_simpl; auto.
  cbn [fst snd]. destruct r as [a|]; [|left; eauto].
  destruct (Hf a s1) as [(r & s2 & E2 & H2)|[E2|E2]]; [destruct H1 as [Et Hp1]; unfold left_to_read in *; rewrite Et; lia|..];
    unfold run_parser in E2; rewrite E2; auto.
  left. exists r, s2. split; [done|]. by eapply ok_step_trans.
Qed.

Lemma total_under_comma {A} k (p q : parser A) : total_under k p -> total q ->
  total_under (S k) (m ← match_type COMMA; if (m : bool) then p else q).
Proof.
  intros Hp Hq s Hk. unfold run_parser, mbind, parser_bind, match_type, current_type. unfold mbind, parser_bind. outcome_simpl. cbn [fst snd].
  destruct (decide (tk_type (current_token s) = COMMA)) as [Ec|Ec].
  - assert (Hlt : (pos_ s < length (tokens_ s))%nat).
    { unfold current_token in Ec. destruct (tokens_ s !! pos_ s) eqn:E; [by eapply lookup_lt_Some|done]. }
    unfold advance. rewrite (proj2 (Nat.ltb_lt _ _) Hlt). unfold mret, parser_ret. outcome_simpl. cbn [fst snd].
    specialize (Hp (mkParser (tokens_ s) (S (pos_ s)) (error_ s))) as Hp'. unfold run_parser in Hp'.
    destruct Hp' as [(r & s' & E & [H1 H2])|[E|E]]; [unfold left_to_read in *; cbn; lia|..]; cbn [outcome_bind fst snd]; rewrite E; auto.
    left. exists r, s'. split; [done|]. cbn in *. split; [done|lia].
  - unfold mret, parser_ret. outcome_simpl. cbn [fst snd]. apply Hq.
Qed.

Lemma total_loop_fuel {A} (f : nat -> parser A) : (forall n, total_under n (f n)) -> total (loop_fuel ≫= f).
Proof.
  intros H s. unfold run_parser, mbind, parser_bind, loop_fuel. outcome_simpl. cbn [fst snd]. apply H. unfold left_to_read. lia.
Qed.

Lemma total_under_loop_fuel {A} k (f : nat -> parser A) :
  (forall n, total_under (Nat.min k n) (f n)) -> total_under k (loop_fuel ≫= f).
Proof.
  intros H s Hk. unfold run_parser, mbind, parser_bind, loop_fuel. outcome_simpl. cbn [fst snd]. apply H.
  unfold left_to_read in *. lia.
Qed.

Lemma total_under_mono {A} k k' (p : parser A) : (k' <= k)%nat -> total_under k p -> total_under k' p.
Proof. intros Hk H s Hs. apply H. lia. Qed.

Lemma columns_loop_total fuel : forall acc, total_under fuel (columns_loop fuel acc).
Proof.
  induction fuel as [|fuel IH]; intros acc; [intros s Hs; lia|]. cbn [columns_loop].
  apply total_under_bind; [apply total_total_under; auto with total|intros t]. case_decide; [apply total_total_under; auto with total|].
  apply total_under_bind; [apply total_total_under; auto with total|intros c]. apply total_under_comma; [apply IH|auto with total].
Qed.

Lemma values_loop_total fuel : forall acc, total_under fuel (values_loop fuel acc).
Proof.
  induction fuel as [|fuel IH]; intros acc; [intros s Hs; lia|]. cbn [values_loop].
  apply total_under_bind; [apply total_total_under; auto with total|intros t]. case_decide; [apply total_total_under; auto with total|].
  do 2 (apply total_under_bind; [apply total_total_under; auto with total|intros ?]). apply total_under_comma; [apply IH|auto with total].
Qed.

Lemma batch_loop_total fuel : forall acc, total_under fuel (batch_loop fuel acc).
Proof.
  induction fuel as [|fuel IH]; intros acc; [intros s Hs; lia|]. cbn [batch_loop].
  apply total_under_bind; [apply total_total_under; auto with total|intros ?]. apply total_under_loop_fuel. intros n.
  apply total_under_bind; [apply (total_under_mono n); [lia|apply values_loop_total]|intros row].
  apply (total_under_mono (S fuel)); [lia|].
  apply total_under_bind; [apply total_total_under; auto with total|intros ?]. apply total_under_comma; [apply IH|auto with total].
Qed.

Lemma select_list_loop_total fuel : forall acc, total_under fuel (select_list_loop fuel acc).
Proof.
  induction fuel as [|fuel IH]; intros acc; [intros s Hs; lia|]. cbn [select_list_loop].
  apply total_under_bind; [apply total_total_under; auto with total|intros t]. case_decide; [|apply total_total_under; total_tac].
  apply total_under_bind; [apply total_total_under; auto with total|intros c]. apply total_under_comma; [apply IH|auto with total].
Qed.

Lemma total_create : total parse_create_table.
Proof.
  unfold parse_create_table. do 4 (apply total_bind; [auto with total|intros ?]). apply total_loop_fuel. intros n.
  apply total_under_bind; [apply columns_loop_total|intros cols]. apply total_total_under. total_tac.
Qed.

Lemma total_insert : total parse_insert.
Proof.
  unfold parse_insert. do 4 (apply total_bind; [auto with total|intros ?]). apply total_loop_fuel. intros n.
  apply total_under_bind; [apply batch_loop_total|intros cols]. apply total_total_under. total_tac.
Qed.

Lemma total_select : total parse_select.
Proof.
  unfold parse_select. apply total_bind; [auto with total|intros _].
  apply total_bind.
  { unfold parse_select_list. apply total_bind; [auto with total|intros t]. case_decide; [total_tac|].
    apply total_loop_fuel. intros n. apply total_under_bind; [apply select_list_loop_total|intros]. apply total_total_under. auto with total. }
  intros cols. unfold parse_join, parse_opt_where, parse_where. total_tac.
Qed.

Lemma total_parse : total parse.
Proof.
  unfold parse. apply total_bind; [auto with total|intros t].
  destruct (tk_type t); auto using total_create, total_insert, total_select with total.
Qed.

(** ** Properties *)

Lemma parse_tokens lit (semi : bool) stmt text ts line col : literal_style lit -> statement_ok stmt = true ->
  tokenize text = Ret (ts ++ [mkToken END_OF_INPUT "" line col], "") -> lexeme_of <$> ts = spelling lit stmt ++ (if semi then [semicolon] else []) ->
  parse_sql text = Ret (inr stmt).
Proof.
  intros Hlit H Et Hts. unfold parse_sql. rewrite Et. outcome_simpl. cbn [fst snd]. change (negb (String.eqb "" "")) with false. cbv iota.
  destruct (runs_parse lit semi stmt Hlit H (Parser_new (ts ++ [mkToken END_OF_INPUT "" line col]))) as (s' & E & _).
  { unfold rem, Parser_new. cbn [pos_ tokens_]. rewrite drop_0, fmap_app, Hts, <- app_assoc. by destruct semi. }
  unfold run_parser in E. rewrite E. done.
Qed.

(** C21: Round trip: the text of any statement — identifiers that are not
    keywords, any string literals, quotes and backslashes included — parses
    back to that statement. *)
Theorem parse_print stmt : statement_ok stmt = true -> parse_sql (print_statement stmt) = Ret (inr stmt).
Proof.
  intros H. unfold print_statement.
  destruct (tokenize_print (statement_lexemes stmt) (statement_lexemes_ok stmt H)) as (ts & line & col & E & Hts).
  exact (parse_tokens quoted true stmt _ ts line col quoted_style H E Hts).
Qed.

(** C22: However a statement is written down, it is read as that statement: any
    white space before, between and after its tokens, none where the next
    token cannot be taken for a part of the last, numbers bare or quoted, with
    the final semicolon or without. *)
Theorem parse_written lit (semi : bool) stmt blanks xs : literal_style lit -> statement_ok stmt = true -> string_forall isspace blanks = true ->
  written_ok xs = true -> xs.*1 = spelling lit stmt ++ (if semi then [semicolon] else []) ->
  parse_sql (blanks +:+ write xs) = Ret (inr stmt).
Proof.
  intros Hlit H Hb Hxs E. destruct (tokenize_write blanks xs Hb Hxs) as (ts & line & col & Et & Hts).
  eapply (parse_tokens lit semi); [done|done|exact Et|]. by rewrite Hts.
Qed.

Definition sample_select : Statement :=
  SELECT (mkSelect "t" [mkColumnRef "t" "name"; mkColumnRef "" "id"] false
    (Some (mkWhere (mkColumnRef "t" "name") NE "it's \ ok")) (Some (mkJoin "u" (mkColumnRef "t" "id") (mkColumnRef "u" "tid") EQ))).

Lemma parse_print_witness : parse_sql (print_statement sample_select) = Ret (inr sample_select).
Proof. apply (parse_print sample_select). vm_compute. reflexivity. Defined.

Definition spaced_insert : list (lexeme * string) :=
  [((KW_INSERT, "INSERT"), " "); ((KW_INTO, "INTO"), " "); (ident "t", String newline " "); ((KW_VALUES, "VALUES"), "");
   ((LPAREN, "("), ""); ((INT_LITERAL, "1"), ""); (comma, ""); (quoted "it's", ""); (comma, " "); ((FLOAT_LITERAL, "-2.5"), ""); ((RPAREN, ")"), "")].

Lemma parse_written_witness : parse_sql (" " +:+ write spaced_insert) = Ret (inr (INSERT (mkInsert "t" [["1"; "it's"; "-2.5"]]))).
Proof.
  apply (parse_written natural false (INSERT (mkInsert "t" [["1"; "it's"; "-2.5"]])) " " spaced_insert natural_style); vm_compute; reflexivity.
Defined.

(** The call ends in an exception of [std::stoi]. *)
Definition stoi_throws {A} (o : outcome A) : Prop := o = Throw invalid_argument \/ o = Throw out_of_range.

Lemma parse_sql_returns sql : returns (parse_sql sql) \/ stoi_throws (parse_sql sql).
Proof.
  unfold parse_sql, tokenize, returns, stoi_throws.
  destruct (tokenize_loop_total (S (String.length sql)) (Lexer_new sql) [] "") as (ts & t & e & -> & _ & _); [cbn; lia|done|].
  outcome_simpl. cbn [fst snd]. destruct (String.eqb e ""); cbn [negb]; [|left; eauto].
  destruct (total_parse (Parser_new (ts ++ [t]))) as [(r & s' & E & _)|[E|E]]; unfold run_parser in E; rewrite E; auto.
  outcome_simpl. cbn [fst snd]. destruct r; left; eauto.
Qed.

(** C23: Totality: on every input, of any bytes, [parse_sql] returns a statement
    or an error message — its loops end and no token is read out of bounds —
    except that it may throw what [std::stoi] throws. *)
Theorem parse_sql_total sql : returns (parse_sql sql) \/ stoi_throws (parse_sql sql).
Proof. exact (parse_sql_returns sql). Qed.

(** The exception escapes: a [VARCHAR] length that is no [int]. *)
Example varchar_length_throws : parse_sql "CREATE TABLE t (a VARCHAR(99999999999))" = Throw out_of_range.
Proof. vm_compute. reflexivity. Qed.

(** What follows a complete statement is ignored, and a missing comparison
    operator is read as [=]. *)
Example trailing_ignored :
  parse_sql "SELECT * FROM t WHERE a = 1 AND b = 2" = parse_sql "SELECT * FROM t WHERE a = 1" /\
  parse_sql "SELECT * FROM t WHERE a 1" = parse_sql "SELECT * FROM t WHERE a = 1".
Proof. split; vm_compute; reflexivity. Qed.
