(* ===== verification/Cache.v ===== *)
(** * cache/lru_cache.{h,cpp}: the query result cache

    A doubly linked list of entries, most recent first, a map from the
    normalized query to the entry's list node, and, per table, the keys cached
    for it. A [std::list] iterator is the number of its node: following one
    whose node was erased is undefined. [cache_rep] says the list is the cache;
    every operation is then one on a list of at most [capacity_] entries. *)

From Stdlib Require Import ZArith Lia Ascii.
From stdpp Require Import base strings gmap numbers list list_numbers.
From S2P Require Import Prelude Cpp Common.
Open Scope string_scope.
Open Scope list_scope.
Open Scope Z_scope.

Record CachedResult := mkCached { cd_column_names : list string; cd_rows : list Row }.

(** A list node: its identity, and the pair it holds. *)
Abbreviation CacheNode := (nat * (string * CachedResult))%type.

Record LRUCache := mkCache {
  capacity_ : Z;
  lru_list_ : list CacheNode;
  cache_map_ : gmap string nat;
  table_entries_ : gmap string (list string);
  next_node_ : nat;           (* the identity of the next node allocated *)
  hits_ : Z;
  misses_ : Z;
}.

Definition LRUCache_new (capacity : Z) : LRUCache := mkCache capacity [] ∅ ∅ 0 0 0.

(** ** Query normalization *)

(** The loop over the characters: white space becomes one blank, and none in front. *)
Fixpoint normalize_loop (query : string) (result : string) (in_space : bool) : string :=
  match query with
  | EmptyString => result
  | String c query =>
      if isspace c then
        if negb in_space && negb (String.eqb result "") then normalize_loop query (result +:+ " ") true
        else normalize_loop query result in_space
      else normalize_loop query (result +:+ String (toupper c) "") false
  end.

(** [while (!s.empty() && s.back() == d) s.pop_back();] *)
Fixpoint pop_while (d : Ascii.ascii) (s : string) : string :=
  match s with
  | EmptyString => EmptyString
  | String c s =>
      match pop_while d s with
      | EmptyString => if Ascii.eqb c d then EmptyString else String c EmptyString
      | s' => String c s'
      end
  end.

Definition pop_back (s : string) : string := String.substring 0 (String.length s - 1) s.

Definition normalize (query : string) : string :=
  let result := normalize_loop query "" false in
  let result := match last (String.list_ascii_of_string result) with
                | Some " "%char => pop_back result
                | _ => result
                end in
  pop_while ";" result.

(** [s.find_first_of(" ;,)", pos)], [s.size()] when there is none. *)
Definition ends_name (c : Ascii.ascii) : bool :=
  Ascii.eqb c " " || Ascii.eqb c ";" || Ascii.eqb c "," || Ascii.eqb c ")".

(** The table name after the first ["FROM "] of the key. *)
Definition key_table (key : string) : option string :=
  match String.index 0 "FROM " key with
  | None => None
  | Some from_pos =>
      let name_start := (from_pos + 5)%nat in
      let rest := String.substring name_start (String.length key - name_start) key in
      Some (fst (span (fun c => negb (ends_name c)) rest))
  end.

(** ** List nodes *)

(** Follow the iterator [id]: its node and the list without it. *)
Fixpoint take_node (id : nat) (l : list CacheNode) : outcome (CacheNode * list CacheNode) :=
  match l with
  | [] => Undef
  | e :: l => if decide (fst e = id) then Ret (e, l) else p ← take_node id l; Ret (fst p, e :: snd p)
  end.

(** ** Operations *)

(** [get(query, result)]: the result when it returns true. *)
Definition get (c : LRUCache) (query : string) : outcome (option CachedResult * LRUCache) :=
  let key := normalize query in
  match cache_map_ c !! key with
  | None => Ret (None, mkCache (capacity_ c) (lru_list_ c) (cache_map_ c) (table_entries_ c) (next_node_ c) (hits_ c) (u64 (misses_ c + 1)))
  | Some it =>
      p ← take_node it (lru_list_ c);
      Ret (Some (snd (snd (fst p))),
           mkCache (capacity_ c) (fst p :: snd p) (cache_map_ c) (table_entries_ c) (next_node_ c) (u64 (hits_ c + 1)) (misses_ c))
  end.

(** [cache_map_.erase(lru_list_.back().first); lru_list_.pop_back();] *)
Definition evict (c : LRUCache) : outcome LRUCache :=
  back ← deref (last (lru_list_ c));
  Ret (mkCache (capacity_ c) (take (length (lru_list_ c) - 1) (lru_list_ c)) (delete (fst (snd back)) (cache_map_ c))
         (table_entries_ c) (next_node_ c) (hits_ c) (misses_ c)).

(** [table_entries_[table_name].push_back(key)] for the table named in [key]. *)
Definition track (key : string) (entries : gmap string (list string)) : gmap string (list string) :=
  match key_table key with
  | None => entries
  | Some t => <[t := default [] (entries !! t) ++ [key]]> entries
  end.

Definition put (c : LRUCache) (query : string) (result : CachedResult) : outcome LRUCache :=
  let key := normalize query in
  match cache_map_ c !! key with
  | Some it =>
      p ← take_node it (lru_list_ c);
      let node := (fst (fst p), (fst (snd (fst p)), result)) in
      Ret (mkCache (capacity_ c) (node :: snd p) (cache_map_ c) (table_entries_ c) (next_node_ c) (hits_ c) (misses_ c))
  | None =>
      c ← (if capacity_ c <=? Z.of_nat (size (cache_map_ c)) then evict c else Ret c);
      Ret (mkCache (capacity_ c) ((next_node_ c, (key, result)) :: lru_list_ c) (<[key := next_node_ c]> (cache_map_ c))
             (track key (table_entries_ c)) (S (next_node_ c)) (hits_ c) (misses_ c))
  end.

(** The loop of [invalidate_table] over the keys of the table. *)
Fixpoint erase_keys (keys : list string) (l : list CacheNode) (m : gmap string nat) : outcome (list CacheNode * gmap string nat) :=
  match keys with
  | [] => Ret (l, m)
  | key :: keys =>
      match m !! key with
      | None => erase_keys keys l m
      | Some it => p ← take_node it l; erase_keys keys (snd p) (delete key m)
      end
  end.

Definition invalidate_table (c : LRUCache) (table_name : string) : outcome LRUCache :=
  let upper_table := string_map toupper table_name in
  match table_entries_ c !! upper_table with
  | None => Ret c
  | Some keys =>
      lm ← erase_keys keys (lru_list_ c) (cache_map_ c);
      Ret (mkCache (capacity_ c) (fst lm) (snd lm) (delete upper_table (table_entries_ c)) (next_node_ c) (hits_ c) (misses_ c))
  end.

Definition clear (c : LRUCache) : LRUCache :=
  mkCache (capacity_ c) [] ∅ ∅ (next_node_ c) (hits_ c) (misses_ c).

Definition cache_size (c : LRUCache) : Z := Z.of_nat (size (cache_map_ c)).
