(* ===== verification/CacheSpec.v ===== *)
(** * The cache is a bounded LRU map that invalidation keeps fresh

    [cache_rep c es]: the cache [c] holds the entries [es], most recent first.
    Each operation is the operation of the reference model ([spec_get],
    [spec_put], [spec_invalidate]) on that list; the properties follow for any
    sequence of operations. *)

From Stdlib Require Import ZArith Lia Ascii.
From stdpp Require Import base strings gmap numbers list list_numbers.
From S2P Require Import Prelude Cpp Common Cache.
Open Scope string_scope.
Open Scope list_scope.
Open Scope Z_scope.

Abbreviation entries := (list (string * CachedResult)).

(** ** The reference model *)

Definition without (key : string) (es : entries) : entries := filter (fun e => e.1 <> key) es.

Fixpoint entry_of (key : string) (es : entries) : option CachedResult :=
  match es with
  | [] => None
  | e :: es => if decide (e.1 = key) then Some e.2 else entry_of key es
  end.

Definition spec_get (key : string) (es : entries) : option CachedResult * entries :=
  match entry_of key es with
  | Some r => (Some r, (key, r) :: without key es)
  | None => (None, es)
  end.

Definition spec_put (capacity : nat) (key : string) (r : CachedResult) (es : entries) : entries :=
  take capacity ((key, r) :: without key es).

Definition spec_invalidate (table : string) (es : entries) : entries :=
  filter (fun e => key_table e.1 <> Some table) es.

(** ** The list, its iterators and the map *)

(** Node identities and keys of a list, the part the map depends on. *)
Definition ids (l : list CacheNode) : list (nat * string) := (fun e => (e.1, e.2.1)) <$> l.

Record index_ok (next : nat) (ik : list (nat * string)) (m : gmap string nat) : Prop := {
  ik_ids : NoDup ik.*1;
  ik_keys : NoDup ik.*2;
  ik_fresh : Forall (fun p => p.1 < next)%nat ik;
  ik_map : forall k id, m !! k = Some id <-> (id, k) ∈ ik;
}.

#[export] Instance index_ok_perm : Proper (eq ==> Permutation ==> eq ==> iff) index_ok.
Proof.
  assert (H : forall n ik ik' m, Permutation ik ik' -> index_ok n ik m -> index_ok n ik' m).
  { intros n ik ik' m HP [H1 H2 H3 H4]. split; [by rewrite <- HP..|]. intros. by rewrite <- HP. }
  intros n ? <- ik ik' HP m ? <-. split; by apply H.
Qed.

Lemma ids_app l1 l2 : ids (l1 ++ l2) = ids l1 ++ ids l2.
Proof. apply fmap_app. Qed.
Lemma ids_keys l : (ids l).*2 = (snd <$> l).*1.
Proof. unfold ids. rewrite <- !list_fmap_compose. done. Qed.

Lemma index_ok_delete n ik1 ik2 id k m : index_ok n (ik1 ++ (id, k) :: ik2) m -> index_ok n (ik1 ++ ik2) (delete k m).
Proof.
  rewrite <- Permutation_middle. intros [H1 H2 H3 H4]. rewrite fmap_cons in H1. rewrite fmap_cons in H2.
  apply NoDup_cons in H1 as [Hid H1]. apply NoDup_cons in H2 as [Hk H2]. apply Forall_cons in H3 as [_ H3]. cbn [fst snd] in *.
  split; [done..|]. intros k' id'. destruct (decide (k' = k)) as [->|Hne].
  - rewrite lookup_delete_eq. split; [done|]. intros Hin. destruct Hk. apply (list_elem_of_fmap_2 snd _ _) in Hin. done.
  - rewrite lookup_delete_ne, H4 by done. rewrite elem_of_cons. split; [intros [[= -> ->]|?]; done|auto].
Qed.

Lemma index_ok_cons n ik m k : index_ok n ik m -> k ∉ ik.*2 -> index_ok (S n) ((n, k) :: ik) (<[k := n]> m).
Proof.
  intros [H1 H2 H3 H4] Hk. split; rewrite ?fmap_cons; cbn [fst snd].
  - apply NoDup_cons. split; [|done]. intros (p & E & Hin)%list_elem_of_fmap. rewrite Forall_forall in H3. apply H3 in Hin. lia.
  - by apply NoDup_cons.
  - apply Forall_cons. split; [cbn; lia|]. eapply Forall_impl; [exact H3|]. cbn. intros; lia.
  - intros k' id'. rewrite elem_of_cons. destruct (decide (k' = k)) as [->|Hne].
    + rewrite lookup_insert_eq. split; [intros [= ->]; by left|]. intros [[= ->]|Hin]; [done|].
      destruct Hk. by apply (list_elem_of_fmap_2 snd _ (id', k)).
    + rewrite lookup_insert_ne, H4 by done. split; [auto|intros [[= -> ->]|?]; done].
Qed.

Lemma index_ok_None n ik m k : index_ok n ik m -> m !! k = None <-> k ∉ ik.*2.
Proof.
  intros H. rewrite eq_None_not_Some. split; intros Hn Hin; apply Hn.
  - apply list_elem_of_fmap in Hin as ([id k'] & -> & Hin). exists id. by apply (ik_map _ _ _ H).
  - destruct Hin as [id Hin]. apply (ik_map _ _ _ H) in Hin. by apply (list_elem_of_fmap_2 snd _ (id, k)).
Qed.

Lemma index_ok_size n ik m : index_ok n ik m -> size m = length ik.
Proof.
  intros H. rewrite <- (size_dom (D := gset string)). assert (dom m = list_to_set (C := gset string) ik.*2) as ->.
  { apply set_eq. intros k. rewrite elem_of_list_to_set, elem_of_dom. pose proof (index_ok_None _ _ _ k H) as HN.
    destruct (m !! k) as [id|] eqn:E; split; intros Hk; [|by eauto|by destruct Hk|by apply HN in Hk].
    apply (ik_map _ _ _ H) in E. by apply (list_elem_of_fmap_2 snd _ (id, k)). }
  rewrite size_list_to_set by apply H. apply length_fmap.
Qed.

(** An entry of the map leads to its node. *)
Lemma index_ok_split n l m k id : index_ok n (ids l) m -> m !! k = Some id ->
  exists l1 r l2, l = l1 ++ (id, (k, r)) :: l2 /\ take_node id l = Ret ((id, (k, r)), l1 ++ l2).
Proof.
  intros H Hm. apply (ik_map _ _ _ H) in Hm. apply ik_ids in H. revert H Hm. clear.
  induction l as [|[i [k' r]] l IH]; intros Hnd Hin; [by apply elem_of_nil in Hin|]. cbn [take_node].
  unfold ids in *. rewrite fmap_cons in Hin. rewrite fmap_cons in Hnd. cbn [fst snd] in *. rewrite fmap_cons in Hnd. apply NoDup_cons in Hnd as [Hni Hnd]. cbn [fst] in *.
  apply elem_of_cons in Hin as [[= <- <-]|Hin]; [exists [], r, l; by rewrite decide_True|].
  rewrite decide_False by (intros ->; apply Hni; by apply (list_elem_of_fmap_2 fst _ (id, k))).
  destruct (IH Hnd Hin) as (l1 & r' & l2 & -> & ->). exists ((i, (k', r)) :: l1), r', l2. done.
Qed.

(** ** The cache as its entries *)

Record cache_rep (c : LRUCache) (es : entries) : Prop := {
  ch_list : snd <$> lru_list_ c = es;
  ch_index : index_ok (next_node_ c) (ids (lru_list_ c)) (cache_map_ c);
  ch_bound : Z.of_nat (length es) <= capacity_ c;
  ch_track : forall k t, k ∈ es.*1 -> key_table k = Some t -> exists ks, table_entries_ c !! t = Some ks /\ k ∈ ks;
  ch_tracked : forall t ks k, table_entries_ c !! t = Some ks -> k ∈ ks -> key_table k = Some t;
}.

Lemma ch_keys c es : cache_rep c es -> NoDup es.*1.
Proof. intros H. rewrite <- (ch_list _ _ H), <- ids_keys. apply (ch_index _ _ H). Qed.

Lemma cache_new_rep capacity : 0 <= capacity -> cache_rep (LRUCache_new capacity) [].
Proof.
  intros. split; cbn; [done| |done|intros ? ? []%elem_of_nil|intros ? ? ?; by rewrite lookup_empty].
  split; [apply NoDup_nil_2..|done|]. intros. rewrite lookup_empty. split; [done|intros []%elem_of_nil].
Qed.

Lemma without_split k r es1 es2 : NoDup (es1 ++ (k, r) :: es2).*1 ->
  without k (es1 ++ (k, r) :: es2) = es1 ++ es2 /\ entry_of k (es1 ++ (k, r) :: es2) = Some r.
Proof.
  rewrite fmap_app, fmap_cons. intros (_ & H1 & [Hn _]%NoDup_cons)%NoDup_app.
  assert (Hes1 : forall e, e ∈ es1 -> e.1 <> k).
  { intros e He E. apply (H1 e.1); [by apply (list_elem_of_fmap_2 fst)|rewrite E; by left]. }
  split.
  - unfold without. rewrite filter_app, filter_cons_False by (cbn; auto). f_equal; apply filter_keeps_all; [done|].
    intros e He Ek. apply Hn. subst k. exact (list_elem_of_fmap_2 fst es2 e He).
  - clear Hn. induction es1 as [|e es1 IH]; cbn [entry_of app]; [by rewrite decide_True|].
    rewrite decide_False by (apply Hes1; by left). apply IH; [|set_solver].
    intros x Hx. apply H1. rewrite fmap_cons. by right.
Qed.

Lemma without_notin k es : k ∉ es.*1 -> without k es = es /\ entry_of k es = None.
Proof.
  induction es as [|e es IH]; [done|]. rewrite fmap_cons, not_elem_of_cons. intros [Hne Hn]. destruct (IH Hn) as [IH1 IH2].
  unfold without in *. cbn [entry_of]. rewrite filter_cons_True by done. rewrite decide_False by done. by rewrite IH1, IH2.
Qed.

(** What [cache_map_] says of a key, on the entries. *)
Lemma cache_find c es k : cache_rep c es ->
  match cache_map_ c !! k with
  | Some id => exists l1 r l2, lru_list_ c = l1 ++ (id, (k, r)) :: l2 /\ take_node id (lru_list_ c) = Ret ((id, (k, r)), l1 ++ l2) /\
      entry_of k es = Some r /\ without k es = snd <$> l1 ++ l2 /\ es = (snd <$> l1) ++ (k, r) :: (snd <$> l2)
  | None => k ∉ es.*1
  end.
Proof.
  intros H. pose proof (ch_keys _ _ H) as Hnd. destruct (cache_map_ c !! k) as [id|] eqn:E.
  - destruct (index_ok_split _ _ _ _ _ (ch_index _ _ H) E) as (l1 & r & l2 & El & Et). exists l1, r, l2.
    pose proof (ch_list _ _ H) as Ees. rewrite El, fmap_app, fmap_cons in Ees. cbn [snd] in Ees. rewrite <- Ees in *.
    destruct (without_split k r _ _ Hnd) as [-> ->]. by rewrite fmap_app.
  - apply (index_ok_None _ _ _ _ (ch_index _ _ H)) in E. by rewrite ids_keys, (ch_list _ _ H) in E.
Qed.

Lemma get_rep c es q : cache_rep c es -> exists c', get c q = Ret ((spec_get (normalize q) es).1, c') /\
  cache_rep c' (spec_get (normalize q) es).2 /\ capacity_ c' = capacity_ c.
Proof.
  intros H. pose proof (cache_find c es (normalize q) H) as Hf. unfold get, spec_get.
  destruct (cache_map_ c !! normalize q) as [id|] eqn:E.
  - destruct Hf as (l1 & r & l2 & El & -> & -> & -> & Ees). outcome_simpl. eexists. split; [done|]. cbn [fst snd].
    assert (HP : Permutation (lru_list_ c) ((id, (normalize q, r)) :: l1 ++ l2)) by (rewrite El; by rewrite <- Permutation_middle).
    split; [|done]. split; cbn.
    + done.
    + pose proof (ch_index _ _ H) as Hi. unfold ids in *. by rewrite HP in Hi.
    + pose proof (ch_bound _ _ H) as Hb. rewrite <- (ch_list _ _ H), length_fmap, HP in Hb. cbn [length] in Hb. by rewrite length_fmap.
    + intros k t Hk. apply (ch_track _ _ H). rewrite <- (ch_list _ _ H), HP. done.
    + apply (ch_tracked _ _ H).
  - destruct (without_notin _ _ Hf) as [_ ->]. eexists. split; [done|]. cbn [fst snd]. split; [|done]. by destruct H; split.
Qed.

Lemma evict_rep c es : cache_rep c es -> es <> [] -> exists c', evict c = Ret c' /\
  cache_rep c' (take (length es - 1) es) /\ capacity_ c' = capacity_ c /\ table_entries_ c' = table_entries_ c.
Proof.
  intros H Hne. pose proof (ch_list _ _ H) as Ees. destruct (lru_list_ c) as [|[id [k r]] l _] eqn:El using rev_ind; [by destruct es|].
  rewrite fmap_app in Ees. cbn [fmap list_fmap snd] in Ees. assert (Et : take (length es - 1) es = snd <$> l).
  { rewrite <- Ees. rewrite take_app_le by (rewrite !length_app; cbn; lia). apply take_ge. rewrite !length_app. cbn. lia. }
  unfold evict. rewrite El, last_snoc. outcome_simpl. eexists. split; [done|]. split; [|done]. rewrite Et. split; cbn.
  - rewrite take_app_le by (rewrite length_app; cbn; lia). rewrite take_ge by (rewrite length_app; cbn; lia). done.
  - rewrite take_app_le by (rewrite length_app; cbn; lia). rewrite take_ge by (rewrite length_app; cbn; lia).
    pose proof (ch_index _ _ H) as Hi. rewrite El, ids_app in Hi. cbn in Hi. apply index_ok_delete in Hi. by rewrite app_nil_r in Hi.
  - pose proof (ch_bound _ _ H) as Hb. rewrite <- Ees, length_app in Hb. lia.
  - intros k' t Hk. apply (ch_track _ _ H). rewrite <- Ees, fmap_app. apply elem_of_app. by left.
  - apply (ch_tracked _ _ H).
Qed.

Lemma take_put cap k r es : (length (without k es) < cap)%nat -> spec_put cap k r es = (k, r) :: without k es.
Proof. intros. unfold spec_put. apply take_ge. cbn. lia. Qed.

(** A new entry in front of a cache with room for it. *)
Lemma push_rep c es k r : cache_rep c es -> k ∉ es.*1 -> Z.of_nat (S (length es)) <= capacity_ c ->
  cache_rep (mkCache (capacity_ c) ((next_node_ c, (k, r)) :: lru_list_ c) (<[k := next_node_ c]> (cache_map_ c))
    (track k (table_entries_ c)) (S (next_node_ c)) (hits_ c) (misses_ c)) ((k, r) :: es).
Proof.
  intros H Hk Hb. split; cbn [lru_list_ cache_map_ capacity_ table_entries_ next_node_].
  - by rewrite fmap_cons, (ch_list _ _ H).
  - unfold ids. rewrite fmap_cons. apply index_ok_cons; [apply H|]. change (k ∉ (ids (lru_list_ c)).*2). by rewrite ids_keys, (ch_list _ _ H).
  - cbn [length]. lia.
  - intros k' t Hk' Ht. unfold track. rewrite fmap_cons in Hk'. apply elem_of_cons in Hk' as [->|Hk'].
    + cbn [fst] in Ht. rewrite Ht. rewrite lookup_insert_eq. eexists. split; [done|]. apply elem_of_app. right. by left.
    + destruct (ch_track _ _ H k' t Hk' Ht) as (ks & E & Hin). destruct (key_table k) as [t'|]; [|by exists ks].
      destruct (decide (t' = t)) as [->|Hne].
      * rewrite lookup_insert_eq, E. eexists. split; [done|]. apply elem_of_app. by left.
      * rewrite lookup_insert_ne by done. by exists ks.
  - intros t ks k' Hl Hin. unfold track in Hl. destruct (key_table k) as [t'|] eqn:Et; [|by eapply (ch_tracked _ _ H)].
    destruct (decide (t' = t)) as [->|Hne].
    + rewrite lookup_insert_eq in Hl. injection Hl as <-. apply elem_of_app in Hin as [Hin|Hin].
      * destruct (table_entries_ c !! t) as [ks|] eqn:E; [|by apply elem_of_nil in Hin]. by eapply (ch_tracked _ _ H).
      * apply list_elem_of_singleton in Hin as ->. done.
    + rewrite lookup_insert_ne in Hl by done. by eapply (ch_tracked _ _ H).
Qed.

Lemma put_rep c es q r : cache_rep c es -> 0 < capacity_ c -> exists c', put c q r = Ret c' /\
  cache_rep c' (spec_put (Z.to_nat (capacity_ c)) (normalize q) r es) /\ capacity_ c' = capacity_ c.
Proof.
  intros H Hc. pose proof (cache_find c es (normalize q) H) as Hf. pose proof (ch_bound _ _ H) as Hb. unfold put.
  destruct (cache_map_ c !! normalize q) as [id|] eqn:E.
  - destruct Hf as (l1 & r0 & l2 & El & -> & _ & Ew & Ees). outcome_simpl. eexists. split; [done|]. cbn [fst snd]. split; [|done].
    assert (HP : Permutation (ids (lru_list_ c)) (ids ((id, (normalize q, r)) :: l1 ++ l2))).
    { rewrite El. unfold ids. rewrite fmap_app, !fmap_cons, fmap_app. cbn. by rewrite <- Permutation_middle. }
    assert (HK : Permutation es.*1 ((normalize q, r) :: (snd <$> l1 ++ l2)).*1).
    { rewrite <- (ch_list _ _ H). rewrite <- ids_keys, HP, ids_keys. done. }
    assert (Hlen : length es = S (length (snd <$> l1 ++ l2))).
    { rewrite Ees, fmap_app, !length_app. cbn. lia. }
    rewrite take_put by (rewrite Ew; lia). rewrite Ew. split; cbn [lru_list_ cache_map_ capacity_ table_entries_ next_node_].
    + done.
    + rewrite <- HP. apply H.
    + cbn [length]. lia.
    + intros k t Hk. apply (ch_track _ _ H). by rewrite HK.
    + apply (ch_tracked _ _ H).
  - rewrite (index_ok_size _ _ _ (ch_index _ _ H)). unfold ids. rewrite length_fmap, <- (length_fmap snd), (ch_list _ _ H).
    destruct (without_notin _ _ Hf) as [Ew _]. unfold spec_put. rewrite Ew. destruct (Z.leb_spec (capacity_ c) (Z.of_nat (length es))).
    + destruct (evict_rep c es H) as (c' & -> & H' & Ec & Et); [intros ->; cbn in *; lia|]. outcome_simpl. eexists. split; [done|]. split; [|done].
      replace (Z.to_nat (capacity_ c)) with (S (length es - 1)) by lia. cbn [take]. apply push_rep; [done| |].
      * intros Hin. apply Hf. rewrite <- (take_drop (length es - 1) es), fmap_app. apply elem_of_app. by left.
      * rewrite length_take. lia.
    + outcome_simpl. eexists. split; [done|]. split; [|done]. rewrite take_ge by (cbn [length]; lia). apply push_rep; [done..|lia].
Qed.

(** ** Invalidation *)

Lemma filter_ext_in {A} (P Q : A -> Prop) `{!forall x, Decision (P x), !forall x, Decision (Q x)} (l : list A) :
  (forall x, x ∈ l -> P x <-> Q x) -> filter P l = filter Q l.
Proof.
  induction l as [|x l IH]; intros Hl; [done|]. rewrite !filter_cons, IH by (intros; apply Hl; by right).
  pose proof (Hl x ltac:(by left)). repeat case_decide; tauto || done.
Qed.

Lemma filter_notin_cons key keys (es : entries) :
  filter (fun e => e.1 ∉ key :: keys) es = filter (fun e => e.1 ∉ keys) (without key es).
Proof.
  unfold without. rewrite list_filter_filter. apply list_filter_iff. intros e. rewrite not_elem_of_cons. tauto.
Qed.

Lemma erase_keys_rep n keys : forall l m, index_ok n (ids l) m ->
  exists l' m', erase_keys keys l m = Ret (l', m') /\ index_ok n (ids l') m' /\
    snd <$> l' = filter (fun e => e.1 ∉ keys) (snd <$> l).
Proof.
  induction keys as [|key keys IH]; intros l m H; cbn [erase_keys].
  - exists l, m. split; [done|]. split; [done|]. symmetry. apply filter_keeps_all. intros e _ []%elem_of_nil.
  - assert (Hnd : NoDup (snd <$> l).*1) by (rewrite <- ids_keys; apply H). rewrite filter_notin_cons.
    destruct (m !! key) as [id|] eqn:E.
    + destruct (index_ok_split _ _ _ _ _ H E) as (l1 & r & l2 & -> & ->). outcome_simpl. cbn [snd].
      rewrite ids_app in H. cbn in H. apply index_ok_delete in H. rewrite <- ids_app in H.
      destruct (IH _ _ H) as (l' & m' & -> & H' & El). exists l', m'. split; [done|]. split; [done|]. rewrite El.
      rewrite fmap_app in Hnd. cbn [fmap list_fmap snd] in Hnd. destruct (without_split key r _ _ Hnd) as [Ew _].
      rewrite !fmap_app. cbn [fmap list_fmap snd]. by rewrite Ew.
    + destruct (IH _ _ H) as (l' & m' & -> & H' & El). exists l', m'. split; [done|]. split; [done|].
      apply (index_ok_None _ _ _ _ H) in E. rewrite ids_keys in E. destruct (without_notin _ _ E) as [-> _]. done.
Qed.

Lemma elem_of_filter_keys (P : string * CachedResult -> Prop) `{!forall e, Decision (P e)} k (es : entries) :
  k ∈ (filter P es).*1 -> exists e, e ∈ es /\ P e /\ e.1 = k.
Proof. intros (e & -> & He)%list_elem_of_fmap. apply list_elem_of_filter in He as [? ?]. by exists e. Qed.

Lemma invalidate_rep c es t : cache_rep c es -> exists c', invalidate_table c t = Ret c' /\
  cache_rep c' (spec_invalidate (string_map toupper t) es) /\ capacity_ c' = capacity_ c.
Proof.
  intros H. unfold invalidate_table. set (u := string_map toupper t). destruct (table_entries_ c !! u) as [ks|] eqn:E.
  - destruct (erase_keys_rep _ ks _ _ (ch_index _ _ H)) as (l' & m' & -> & Hi & El). outcome_simpl. eexists. split; [done|].
    cbn [fst snd]. split; [|done]. rewrite (ch_list _ _ H) in El.
    assert (Hks : forall e, e ∈ es -> e.1 ∉ ks <-> key_table e.1 <> Some u).
    { intros e He. split; intros Hn Hn'; apply Hn; [|by eapply (ch_tracked _ _ H)].
      destruct (ch_track _ _ H e.1 u) as (ks' & E' & ?); [by apply (list_elem_of_fmap_2 fst)|done|]. congruence. }
    rewrite (filter_ext_in _ _ _ Hks) in El. fold (spec_invalidate u es) in El. unfold spec_invalidate in *.
    split; cbn [lru_list_ cache_map_ capacity_ table_entries_ next_node_]; [done|done| | |].
    + pose proof (length_filter (fun e => key_table e.1 <> Some u) es). pose proof (ch_bound _ _ H). lia.
    + intros k t' Hk Ht. apply elem_of_filter_keys in Hk as (e & He & Hne & <-).
      rewrite lookup_delete_ne by congruence. apply (ch_track _ _ H); [by apply (list_elem_of_fmap_2 fst)|done].
    + intros t' ks' k [_ Hl]%lookup_delete_Some Hk. by eapply (ch_tracked _ _ H).
  - exists c. split; [done|]. split; [|done]. unfold spec_invalidate. rewrite filter_keeps_all; [done|].
    intros e He Ht. destruct (ch_track _ _ H e.1 u) as (ks & ? & _); [by apply (list_elem_of_fmap_2 fst)|done|congruence].
Qed.

Lemma clear_rep c es : cache_rep c es -> 0 <= capacity_ c -> cache_rep (clear c) [].
Proof.
  intros H Hc. unfold clear. split; cbn [lru_list_ cache_map_ capacity_ table_entries_ next_node_]; [done| |done|intros ? ? []%elem_of_nil|intros ? ? ?; by rewrite lookup_empty].
  split; [apply NoDup_nil_2..|done|]. intros. rewrite lookup_empty. split; [done|intros []%elem_of_nil].
Qed.

(** ** Sequences of operations *)

Inductive cache_op :=
  | CacheGet (query : string)
  | CachePut (query : string) (r : CachedResult)
  | CacheInvalidate (table : string)
  | CacheClear.

(** The results of the [get]s, and the cache in the end. *)
Fixpoint run_cache (c : LRUCache) (ops : list cache_op) : outcome (list (option CachedResult) * LRUCache) :=
  match ops with
  | [] => Ret ([], c)
  | CacheGet q :: ops => p ← get c q; rest ← run_cache (snd p) ops; Ret (fst p :: fst rest, snd rest)
  | CachePut q r :: ops => c ← put c q r; run_cache c ops
  | CacheInvalidate t :: ops => c ← invalidate_table c t; run_cache c ops
  | CacheClear :: ops => run_cache (clear c) ops
  end.

Fixpoint run_spec (capacity : nat) (es : entries) (ops : list cache_op) : list (option CachedResult) * entries :=
  match ops with
  | [] => ([], es)
  | CacheGet q :: ops =>
      let p := spec_get (normalize q) es in
      let rest := run_spec capacity (snd p) ops in (fst p :: fst rest, snd rest)
  | CachePut q r :: ops => run_spec capacity (spec_put capacity (normalize q) r es) ops
  | CacheInvalidate t :: ops => run_spec capacity (spec_invalidate (string_map toupper t) es) ops
  | CacheClear :: ops => run_spec capacity [] ops
  end.

Lemma run_cache_rep ops : forall c es, cache_rep c es -> 0 < capacity_ c ->
  exists c', run_cache c ops = Ret ((run_spec (Z.to_nat (capacity_ c)) es ops).1, c') /\
    cache_rep c' (run_spec (Z.to_nat (capacity_ c)) es ops).2 /\ capacity_ c' = capacity_ c.
Proof.
  induction ops as [|[q|q r|t|] ops IH]; intros c es H Hc; cbn [run_cache run_spec].
  - by exists c.
  - destruct (get_rep c es q H) as (c1 & -> & H1 & Ec). outcome_simpl. cbn [fst snd].
    destruct (IH c1 _ H1) as (c' & -> & H' & Ec'); [lia|]. outcome_simpl. cbn [fst snd]. rewrite Ec in *. by exists c'.
  - destruct (put_rep c es q r H Hc) as (c1 & -> & H1 & Ec). outcome_simpl. rewrite <- Ec in *. by apply IH.
  - destruct (invalidate_rep c es t H) as (c1 & -> & H1 & Ec). outcome_simpl. rewrite <- Ec in *. by apply IH.
  - destruct (IH (clear c) [] ltac:(apply (clear_rep c es); [done|lia]) Hc) as (c' & ? & ? & ?). by exists c'.
Qed.

(** What was last stored for the key, unless its table was written since. *)
Definition last_stored (key : string) (old : option CachedResult) (op : cache_op) : option CachedResult :=
  match op with
  | CacheGet _ => old
  | CachePut q r => if decide (normalize q = key) then Some r else old
  | CacheInvalidate t => if decide (key_table key = Some (string_map toupper t)) then None else old
  | CacheClear => None
  end.

Lemma entry_of_without k key es : entry_of k (without key es) = if decide (k = key) then None else entry_of k es.
Proof.
  induction es as [|[k' r] es IH]; [by case_decide|]. unfold without in *. rewrite filter_cons. cbn [entry_of fst snd].
  destruct (decide (k' = key)) as [->|Hn]; [rewrite decide_False by auto|rewrite decide_True by done]; cbn [entry_of fst snd]; rewrite IH;
    repeat case_decide; congruence.
Qed.

Lemma entry_of_take n k es r : entry_of k (take n es) = Some r -> entry_of k es = Some r.
Proof. revert n. induction es as [|e es IH]; intros [|n]; cbn; [done..|]. case_decide; eauto. Qed.

Lemma entry_of_invalidate k t es r : entry_of k (spec_invalidate t es) = Some r -> key_table k <> Some t /\ entry_of k es = Some r.
Proof.
  unfold spec_invalidate. induction es as [|[k' r'] es IH]; [done|]. rewrite filter_cons. cbn [fst].
  destruct (decide (key_table k' <> Some t)); cbn [entry_of fst snd].
  - destruct (decide (k' = k)) as [->|]; [by intros [= ->]|auto].
  - intros [? ?]%IH. split; [done|]. rewrite decide_False by (intros ->; auto). done.
Qed.

(** The reference model only ever holds what was last stored. *)
Definition fresh_entries (es : entries) (stored : string -> option CachedResult) : Prop :=
  forall k r, entry_of k es = Some r -> stored k = Some r.

Lemma run_spec_fresh capacity ops : forall es stored, fresh_entries es stored ->
  fresh_entries (run_spec capacity es ops).2 (fun k => foldl (last_stored k) (stored k) ops).
Proof.
  induction ops as [|op ops IH]; intros es stored Hf; [done|]. destruct op as [q|q r|t|]; cbn [run_spec foldl].
  - apply (IH _ stored). unfold spec_get. destruct (entry_of (normalize q) es) as [r|] eqn:E; cbn [snd]; [|done].
    intros k r'. cbn [entry_of fst snd]. case_decide as Hk; [subst k; intros [= <-]; auto|]. rewrite entry_of_without. case_decide; [done|auto].
  - apply (IH _ (fun k => last_stored k (stored k) (CachePut q r))). intros k r' Hr. unfold spec_put in Hr. apply entry_of_take in Hr.
    cbn [entry_of fst snd last_stored] in *. case_decide as Hk; [done|]. rewrite entry_of_without in Hr. case_decide; [done|auto].
  - apply (IH _ (fun k => last_stored k (stored k) (CacheInvalidate t))). intros k r' Hr.
    apply entry_of_invalidate in Hr as [Hk Hr].
    cbn [last_stored]. rewrite decide_False by done. auto.
  - apply (IH _ (fun k => None)). done.
Qed.

(** ** Properties *)

(** C25: Refinement: the hash map, the linked list and its iterators implement
    a bounded list of entries in order of use. For any sequence of lookups,
    stores, invalidations and clears, every lookup returns what it returns on
    that list, no dangling iterator is followed, the list and the map have the
    same keys, and the size never exceeds the capacity. *)
Theorem cache_is_lru capacity ops : 0 < capacity ->
  exists c', let '(results, es) := run_spec (Z.to_nat capacity) [] ops in
    run_cache (LRUCache_new capacity) ops = Ret (results, c') /\ snd <$> lru_list_ c' = es /\
    (forall k, is_Some (cache_map_ c' !! k) <-> k ∈ es.*1) /\ cache_size c' = Z.of_nat (length es) /\ cache_size c' <= capacity.
Proof.
  intros Hc. destruct (run_cache_rep ops (LRUCache_new capacity) []) as (c' & Hr & H & Ec); [by apply cache_new_rep; lia|done|].
  change (capacity_ (LRUCache_new capacity)) with capacity in *. exists c'. destruct (run_spec _ _ _) as [results es]. cbn [fst snd] in *.
  assert (Hs : cache_size c' = Z.of_nat (length es)).
  { unfold cache_size. rewrite (index_ok_size _ _ _ (ch_index _ _ H)). unfold ids. by rewrite length_fmap, <- (length_fmap snd), (ch_list _ _ H). }
  split; [done|]. split; [apply (ch_list _ _ H)|]. split; [|split; [done|]].
  - intros k. pose proof (index_ok_None _ _ _ k (ch_index _ _ H)) as HN. rewrite ids_keys, (ch_list _ _ H) in HN.
    destruct (cache_map_ c' !! k) as [id|] eqn:E; split; [intros _|by eauto|by intros []|intros Hk; by apply HN in Hk].
    destruct (decide (k ∈ es.*1)); [done|]. by apply HN in n.
  - rewrite Hs, <- Ec. apply (ch_bound _ _ H).
Qed.

(** C26: Freshness: whatever the sequence of operations before, a hit returns
    the result stored last for that normalized query, and none of the
    operations since invalidated its table or cleared the cache. *)
Theorem cache_hit_fresh capacity ops q r results c c' : 0 < capacity ->
  run_cache (LRUCache_new capacity) ops = Ret (results, c) -> get c q = Ret (Some r, c') ->
  foldl (last_stored (normalize q)) None ops = Some r.
Proof.
  intros Hc Hrun Hget. destruct (run_cache_rep ops (LRUCache_new capacity) []) as (c1 & Hr & H & Ec); [by apply cache_new_rep; lia|done|].
  rewrite Hrun in Hr. injection Hr as -> <-. destruct (get_rep _ _ q H) as (c2 & Hg & _). rewrite Hget in Hg. injection Hg as Hg _.
  unfold spec_get in Hg. destruct (entry_of _ _) as [r'|] eqn:E; [|done]. injection Hg as <-.
  exact (run_spec_fresh _ ops [] (fun _ => None) ltac:(done) _ _ E).
Qed.

(** *** A concrete run: capacity two, one eviction, one invalidation *)

Definition sample_result (n : Z) : CachedResult := mkCached ["ID"] [[VInt n]].
Definition sample_cache_ops : list cache_op :=
  [CachePut "select * from t" (sample_result 1); CachePut "select id from u;" (sample_result 2);
   CacheGet " SELECT  *  FROM T;"; CachePut "select a from v" (sample_result 3); CacheGet "select id from u";
   CacheInvalidate "v"; CacheGet "select a from v"].

Example sample_cache_run : run_spec 2 [] sample_cache_ops =
  ([Some (sample_result 1); None; None], [("SELECT * FROM T", sample_result 1)]).
Proof. vm_compute. reflexivity. Qed.

Lemma cache_is_lru_witness : exists c', let '(results, es) := run_spec (Z.to_nat 2) [] sample_cache_ops in
    run_cache (LRUCache_new 2) sample_cache_ops = Ret (results, c') /\ snd <$> lru_list_ c' = es /\
    (forall k, is_Some (cache_map_ c' !! k) <-> k ∈ es.*1) /\ cache_size c' = Z.of_nat (length es) /\ cache_size c' <= 2.
Proof. apply (cache_is_lru 2). lia. Defined.

Lemma cache_hit_fresh_witness : foldl (last_stored (normalize "select * from t")) None sample_cache_ops = Some (sample_result 1).
Proof.
  eapply (cache_hit_fresh 2 sample_cache_ops "select * from t"); [lia|vm_compute; reflexivity|vm_compute; reflexivity].
Defined.

(** String literals are upper-cased with the rest: two different queries, one
    key. And a blank before the semicolon is left at the end of the key. *)
Example normalize_merges_literals :
  normalize "SELECT * FROM t WHERE name = 'bob'" = normalize "SELECT * FROM t WHERE name = 'BOB'".
Proof. reflexivity. Qed.
Example normalize_not_idempotent : normalize (normalize "SELECT * FROM t ;") <> normalize "SELECT * FROM t ;".
Proof. vm_compute. discriminate. Qed.
