(* ===== verification/Executor.v ===== *)
(** * executor/executor.{h,cpp}: statements over the tables

    CREATE TABLE, INSERT and SELECT with WHERE, projection and INNER JOIN, and
    the query cache in front of SELECT. [std::hash] of the standard library is
    a parameter ([StdHash]). A function that returns a [QueryResult] returns it
    with the new state; the [clocks] are the times the call reads. Exceptions
    other than those [parse_literal] catches leave through [Throw]. *)

From Stdlib Require Import ZArith Lia Ascii.
From stdpp Require Import base strings gmap numbers list list_numbers.
From S2P Require Import Prelude Cpp Common Schema Arena BPTree Table Lexer Parser Cache.
Open Scope string_scope.
Open Scope list_scope.
Open Scope Z_scope.

(** ** Results and state *)

Record QueryResult := mkResult {
  success : bool;
  error : string;
  column_names : list string;
  rows : list Row;
  message : string;
}.

Definition failed (msg : string) : QueryResult := mkResult false msg [] [] "".
Definition done_with (msg : string) : QueryResult := mkResult true "" [] [] msg.
Definition selected (names : list string) (rs : list Row) : QueryResult := mkResult true "" names rs "".

Record Executor := mkExecutor {
  tables_ : gmap string Table;
  cache_ : LRUCache;
}.

Definition Executor_new : Executor := mkExecutor ∅ (LRUCache_new LRU_CACHE_CAPACITY).

(** The times read by the [i]-th insertion of a batch, and when row [i] of the
    first and of the joined table is checked. *)
Record Clocks := mkClocks { ck_insert : nat -> Z; ck_left : nat -> Z; ck_right : nat -> Z }.

(** [std::hash] on the types [Value::hash] uses. *)
Class StdHash := {
  hash_int32 : Z -> Z;
  hash_double : Z -> Z;
  hash_string : string -> Z;
  hash_int64 : Z -> Z;
}.

Definition hash `{StdHash} (v : Value) : Z :=
  match v with
  | VInt z => hash_int32 z
  | VDec b => hash_double b
  | VStr s => hash_string s
  | VDt z => hash_int64 z
  | VRaw _ => 0
  end.

(** ** Helpers *)

Definition to_upper (s : string) : string := string_map toupper s.

Definition convert_op (op : CmpOp) : CmpOp :=
  match op with EQ => EQ | NE => NE | LT => LT | LE => LE | GT => GT | GE => GE end.

(** [parse_literal(literal, type, error)]: the error and the value. *)
Definition parse_literal (literal : string) (type : DataType) : outcome (string * Value) :=
  match type with
  | INT => catch_all (v ← stoi literal; Ret ("", make_int v)) (Ret ("Invalid INT literal: " +:+ literal, Value_default))
  | DECIMAL => catch_all (v ← stod literal; Ret ("", make_decimal v)) (Ret ("Invalid DECIMAL literal: " +:+ literal, Value_default))
  | VARCHAR => Ret ("", make_varchar literal)
  | DATETIME => catch_all (v ← stoll literal; Ret ("", make_datetime v)) (Ret ("Invalid DATETIME literal: " +:+ literal, Value_default))
  | DT_raw _ => Ret ("Unknown data type", Value_default)
  end.

(** [row[idx]] *)
Definition value_at (row : Row) (idx : Z) : outcome Value :=
  if idx <? 0 then Undef else deref (row !! Z.to_nat idx).

(** ** CREATE TABLE *)

Definition column_type (type_name : string) : option DataType :=
  let type_upper := to_upper type_name in
  if String.eqb type_upper "INT" then Some INT
  else if String.eqb type_upper "DECIMAL" then Some DECIMAL
  else if String.eqb type_upper "DATETIME" then Some DATETIME
  else if String.eqb (String.substring 0 7 type_upper) "VARCHAR" then Some VARCHAR
  else None.

(** The loop that builds the schema, or the error. *)
Fixpoint create_columns (cols : list AstColumnDef) (schema : Schema) : string + Schema :=
  match cols with
  | [] => inr schema
  | col :: cols =>
      match column_type (ac_type_name col) with
      | None => inl ("Unknown data type: " +:+ ac_type_name col)
      | Some dt =>
          let max_len := if dt_eqb dt VARCHAR && (0 <? ac_varchar_len col) then ac_varchar_len col else DEFAULT_VARCHAR_MAX in
          create_columns cols (add_column schema (to_upper (ac_name col)) dt max_len)
      end
  end.

Section executor.
Context `{malloc : Malloc, StdHash}.

Definition exec_create_table (ex : Executor) (stmt : CreateTableStmt) : outcome (QueryResult * Executor) :=
  let table_name := to_upper (ct_table_name stmt) in
  match tables_ ex !! table_name with
  | Some _ => Ret (failed ("Table already exists: " +:+ table_name), ex)
  | None =>
      match create_columns (ct_columns stmt) Schema_empty with
      | inl err => Ret (failed err, ex)
      | inr schema =>
          table ← Table_new table_name schema DEFAULT_TTL_SECONDS;
          Ret (done_with ("Table " +:+ table_name +:+ " created"), mkExecutor (<[table_name := table]> (tables_ ex)) (cache_ ex))
      end
  end.

(** ** INSERT *)

(** The loop over the literals of a row. *)
Fixpoint parse_row (cols : list ColumnDef) (row_vals : list string) : outcome (string + Row) :=
  match row_vals with
  | [] => Ret (inr [])
  | lit :: row_vals =>
      col ← deref (head cols);
      p ← parse_literal lit (col_type col);
      if negb (String.eqb (fst p) "") then Ret (inl (fst p)) else
      rest ← parse_row (tail cols) row_vals;
      Ret (match rest with inl err => inl err | inr row => inr (snd p :: row) end)
  end.

(** The loop over the rows: the error if one stopped it, the number of rows
    inserted and the table. *)
Fixpoint insert_batch (clock : nat -> Z) (table : Table) (batch : list (list string)) (rows_inserted : nat)
    : outcome (option string * nat * Table) :=
  match batch with
  | [] => Ret (None, rows_inserted, table)
  | row_vals :: batch =>
      let schema := schema_ table in
      if negb (length row_vals =? num_columns schema)%nat then
        Ret (Some ("Column count mismatch: expected " +:+ to_string_Z (Z.of_nat (num_columns schema)) +:+
                   ", got " +:+ to_string_Z (Z.of_nat (length row_vals))), rows_inserted, table)
      else
        pr ← parse_row (columns_ schema) row_vals;
        match pr with
        | inl err => Ret (Some err, rows_inserted, table)
        | inr row =>
            res ← Table.insert table (clock rows_inserted) row;
            match fst res with
            | Some err => Ret (Some err, rows_inserted, snd res)
            | None => insert_batch clock (snd res) batch (S rows_inserted)
            end
        end
  end.

Definition exec_insert (ex : Executor) (clocks : Clocks) (stmt : InsertStmt) : outcome (QueryResult * Executor) :=
  let table_name := to_upper (in_table_name stmt) in
  match tables_ ex !! table_name with
  | None => Ret (failed ("Table not found: " +:+ table_name), ex)
  | Some table =>
      res ← insert_batch (ck_insert clocks) table (in_batch_values stmt) 0;
      let tables := <[table_name := snd res]> (tables_ ex) in
      match fst (fst res) with
      | Some err => Ret (failed err, mkExecutor tables (cache_ ex))
      | None =>
          cache ← invalidate_table (cache_ ex) table_name;
          Ret (done_with (to_string_Z (Z.of_nat (snd (fst res))) +:+ " rows inserted"), mkExecutor tables cache)
      end
  end.

(** ** SELECT: joins *)

(** The two sides of a join: name and schema. *)
Record join_sides := mkSides { left_name : string; left_schema : Schema; right_name : string; right_schema : Schema }.

(** [schema.find_column(col)] where [tbl] names this side or is empty. *)
Definition side_column (name : string) (schema : Schema) (tbl col : string) : option Z :=
  if String.eqb tbl name || String.eqb tbl "" then
    let idx := find_column schema col in if 0 <=? idx then Some idx else None
  else None.

(** The side (true is right), and the index, of a column. *)
Definition resolve (sd : join_sides) (tbl col : string) : option (bool * Z) :=
  match side_column (left_name sd) (left_schema sd) tbl col with
  | Some idx => Some (false, idx)
  | None =>
      match side_column (right_name sd) (right_schema sd) tbl col with
      | Some idx => Some (true, idx)
      | None => None
      end
  end.

(** [tbl.empty() ? col : tbl + "." + col] *)
Definition qualified (tbl col : string) : string := if String.eqb tbl "" then col else tbl +:+ "." +:+ col.

(** The loop over the selected columns: names and sources, or the error. *)
Fixpoint join_columns (sd : join_sides) (cols : list ColumnRef) : string + list (string * (bool * Z)) :=
  match cols with
  | [] => inr []
  | cr :: cols =>
      let tbl := to_upper (cr_table cr) in
      let col := to_upper (cr_column cr) in
      match resolve sd tbl col with
      | None => inl ("Unknown column in SELECT: " +:+ qualified tbl col)
      | Some src =>
          match join_columns sd cols with
          | inl err => inl err
          | inr rest => inr ((qualified tbl col, src) :: rest)
          end
      end
  end.

Definition side_columns (right : bool) (name : string) (schema : Schema) : list (string * (bool * Z)) :=
  imap (fun c col => (name +:+ "." +:+ col_name col, (right, Z.of_nat c))) (columns_ schema).

(** [SELECT *], however it is written. *)
Definition is_select_all (stmt : SelectStmt) : bool :=
  se_select_all stmt ||
  match se_columns stmt with
  | [] => true
  | [c] => String.eqb (cr_column c) "*"
  | _ => false
  end.

(** The WHERE filter on a pair of rows. *)
Definition where_pass (sd : join_sides) (w : option WhereClause) (left_row right_row : Row) : outcome bool :=
  match w with
  | None => Ret true
  | Some w =>
      match resolve sd (to_upper (cr_table (w_column w))) (to_upper (cr_column (w_column w))) with
      | None => Ret true
      | Some (side, wi) =>
          let (check_row, check_schema) := if side : bool then (right_row, right_schema sd) else (left_row, left_schema sd) in
          col ← column_at check_schema wi;
          p ← parse_literal (w_literal w) (col_type col);
          if String.eqb (fst p) "" then actual ← value_at check_row wi; Ret (cmp_values (w_op w) actual (snd p)) else Ret true
      end
  end.

Definition build_row (col_sources : list (bool * Z)) (left_row right_row : Row) : outcome Row :=
  mapM (fun src => value_at (if fst src : bool then right_row else left_row) (snd src)) col_sources.

(** The body of the innermost loop: the output row, if the pair passes. *)
Definition emit (sd : join_sides) (w : option WhereClause) (col_sources : list (bool * Z)) (left_row right_row : Row) : outcome (list Row) :=
  pass ← where_pass sd w left_row right_row;
  if (pass : bool) then out ← build_row col_sources left_row right_row; Ret [out] else Ret [].

(** A loop that appends to the result. *)
Fixpoint append_each {A} (f : A -> outcome (list Row)) (l : list A) : outcome (list Row) :=
  match l with
  | [] => Ret []
  | x :: l => rs ← f x; rest ← append_each f l; Ret (rs ++ rest)
  end.

(** *** Hash join *)

(** [unordered_map<Value, vector<size_t>>]: a key is found when hash and [==] agree. *)
Definition HashIndex : Type := list (Value * list nat).

Definition same_key (a b : Value) : bool := (hash a =? hash b) && value_eqb a b.

Fixpoint hash_find (m : HashIndex) (key : Value) : option (list nat) :=
  match m with
  | [] => None
  | e :: m => if same_key (fst e) key then Some (snd e) else hash_find m key
  end.

(** [hash_index[key].push_back(i)] *)
Fixpoint hash_push (m : HashIndex) (key : Value) (i : nat) : HashIndex :=
  match m with
  | [] => [(key, [i])]
  | e :: m => if same_key (fst e) key then (fst e, snd e ++ [i]) :: m else e :: hash_push m key i
  end.

Fixpoint build_index (right_on_idx : Z) (right_rows : list Row) (i : nat) (m : HashIndex) : outcome HashIndex :=
  match right_rows with
  | [] => Ret m
  | r :: right_rows => v ← value_at r right_on_idx; build_index right_on_idx right_rows (S i) (hash_push m v i)
  end.

Definition hash_join (left_on_idx right_on_idx : Z) (out : Row -> Row -> outcome (list Row)) (left_rows right_rows : list Row)
    : outcome (list Row) :=
  hash_index ← build_index right_on_idx right_rows 0 [];
  append_each (fun left_row =>
    key ← value_at left_row left_on_idx;
    match hash_find hash_index key with
    | None => Ret []
    | Some hits => append_each (fun ri => right_row ← deref (right_rows !! ri); out left_row right_row) hits
    end) left_rows.

(** *** Nested loops *)

Definition nested_join (op : CmpOp) (left_on_idx right_on_idx : Z) (out : Row -> Row -> outcome (list Row))
    (left_rows right_rows : list Row) : outcome (list Row) :=
  append_each (fun left_row =>
    left_val ← value_at left_row left_on_idx;
    append_each (fun right_row =>
      right_val ← value_at right_row right_on_idx;
      if cmp_values op left_val right_val then out left_row right_row else Ret []) right_rows) left_rows.

Definition join_rows (op : CmpOp) (left_on_idx right_on_idx : Z) (out : Row -> Row -> outcome (list Row))
    (left_rows right_rows : list Row) : outcome (list Row) :=
  if decide (op = EQ) then hash_join left_on_idx right_on_idx out left_rows right_rows
  else nested_join op left_on_idx right_on_idx out left_rows right_rows.

(** What follows the two scans. *)
Definition join_scanned (stmt : SelectStmt) (sd : join_sides) (join : JoinClause) (left_on_idx right_on_idx : Z) (left_rows right_rows : list Row)
    : outcome QueryResult :=
  match (if is_select_all stmt then inr (side_columns false (left_name sd) (left_schema sd) ++
                                         side_columns true (right_name sd) (right_schema sd))
         else join_columns sd (se_columns stmt)) with
  | inl err => Ret (failed err)
  | inr cols =>
      joined ← join_rows (j_op join) left_on_idx right_on_idx (emit sd (se_where stmt) (snd <$> cols)) left_rows right_rows;
      Ret (selected (fst <$> cols) joined)
  end.

Definition select_join (ex : Executor) (clocks : Clocks) (stmt : SelectStmt) (table_name : string) (table : Table) (join : JoinClause)
    : outcome QueryResult :=
  let right_table_name := to_upper (j_right_table join) in
  match tables_ ex !! right_table_name with
  | None => Ret (failed ("Join table not found: " +:+ right_table_name))
  | Some right_table =>
      let sd := mkSides table_name (schema_ table) right_table_name (schema_ right_table) in
      let left_on_col := to_upper (cr_column (j_left_col join)) in
      let right_on_col := to_upper (cr_column (j_right_col join)) in
      let left_on_idx := find_column (schema_ table) left_on_col in
      let right_on_idx := find_column (schema_ right_table) right_on_col in
      if left_on_idx <? 0 then Ret (failed ("Unknown column in JOIN ON (left): " +:+ left_on_col)) else
      if right_on_idx <? 0 then Ret (failed ("Unknown column in JOIN ON (right): " +:+ right_on_col)) else
      left_rows ← scan_all table (ck_left clocks);
      right_rows ← scan_all right_table (ck_right clocks);
      join_scanned stmt sd join left_on_idx right_on_idx left_rows right_rows
  end.

(** ** SELECT on one table *)

Definition select_cols (schema : Schema) (stmt : SelectStmt) : list string :=
  if is_select_all stmt then col_name <$> columns_ schema
  else (fun cr => to_upper (cr_column cr)) <$> se_columns stmt.

Fixpoint projection (schema : Schema) (cols : list string) : string + list Z :=
  match cols with
  | [] => inr []
  | col_name :: cols =>
      let idx := find_column schema col_name in
      if idx <? 0 then inl ("Unknown column: " +:+ col_name) else
      match projection schema cols with inl err => inl err | inr proj => inr (idx :: proj) end
  end.

Definition need_projection (schema : Schema) (proj_indices : list Z) : bool :=
  negb (length proj_indices =? num_columns schema)%nat ||
  existsb (fun p => negb (snd p =? Z.of_nat (fst p))) (imap pair proj_indices).

(** The scan of the WHERE clause: the error or the rows. *)
Definition exec_scan (table : Table) (clocks : Clocks) (w : option WhereClause) : outcome (string + list Row) :=
  match w with
  | None => rs ← scan_all table (ck_left clocks); Ret (inr rs)
  | Some w =>
      let schema := schema_ table in
      let col_name := to_upper (cr_column (w_column w)) in
      let col_idx := find_column schema col_name in
      if col_idx <? 0 then Ret (inl ("Unknown column in WHERE: " +:+ col_name)) else
      col ← column_at schema col_idx;
      p ← parse_literal (w_literal w) (col_type col);
      if negb (String.eqb (fst p) "") then Ret (inl (fst p)) else
      let op := convert_op (w_op w) in
      rs ← (if col_idx =? s32 (Schema.pk_index_ schema) then index_range table (ck_left clocks) op (snd p) []
            else scan_where table (ck_left clocks) col_idx op (snd p) []);
      Ret (inr rs)
  end.

Definition select_plain (clocks : Clocks) (stmt : SelectStmt) (table : Table) : outcome QueryResult :=
  let cols := select_cols (schema_ table) stmt in
  match projection (schema_ table) cols with
  | inl err => Ret (failed err)
  | inr proj_indices =>
      scanned ← exec_scan table clocks (se_where stmt);
      match scanned with
      | inl err => Ret (failed err)
      | inr rs =>
          rs ← (if need_projection (schema_ table) proj_indices
                then mapM (fun row => mapM (value_at row) proj_indices) rs else Ret rs);
          Ret (selected cols rs)
      end
  end.

(** [exec_select] without the cache. *)
Definition run_select (ex : Executor) (clocks : Clocks) (stmt : SelectStmt) : outcome QueryResult :=
  let table_name := to_upper (se_table_name stmt) in
  match tables_ ex !! table_name with
  | None => Ret (failed ("Table not found: " +:+ table_name))
  | Some table =>
      match se_join stmt with
      | Some join => select_join ex clocks stmt table_name table join
      | None => select_plain clocks stmt table
      end
  end.

(** [cache_.get], then the query, whose result is cached when it succeeds. *)
Definition exec_select (ex : Executor) (clocks : Clocks) (stmt : SelectStmt) (raw_sql : string) : outcome (QueryResult * Executor) :=
  hit ← (if String.eqb raw_sql "" then Ret (None, cache_ ex) else get (cache_ ex) raw_sql);
  match fst hit with
  | Some cached => Ret (selected (cd_column_names cached) (cd_rows cached), mkExecutor (tables_ ex) (snd hit))
  | None =>
      result ← run_select ex clocks stmt;
      cache ← (if success result && negb (String.eqb raw_sql "")
               then put (snd hit) raw_sql (mkCached (column_names result) (rows result)) else Ret (snd hit));
      Ret (result, mkExecutor (tables_ ex) cache)
  end.

(** ** Entry points *)

Definition execute (ex : Executor) (clocks : Clocks) (stmt : Statement) (raw_sql : string) : outcome (QueryResult * Executor) :=
  match stmt with
  | CREATE_TABLE stmt => exec_create_table ex stmt
  | INSERT stmt => exec_insert ex clocks stmt
  | SELECT stmt => exec_select ex clocks stmt raw_sql
  end.

Definition execute_sql (ex : Executor) (clocks : Clocks) (sql : string) : outcome (QueryResult * Executor) :=
  parsed ← parse_sql sql;
  match parsed with
  | inl err => Ret (failed ("Parse error: " +:+ err), ex)
  | inr stmt => execute ex clocks stmt sql
  end.

Definition restore_table (ex : Executor) (name : string) (table : Table) : Executor :=
  mkExecutor (<[name := table]> (tables_ ex)) (cache_ ex).
End executor.
