(* ===== verification/JoinSpec.v ===== *)
(** * The hash join is the nested-loop join

    For a hash that respects [==] ([StdHashLaws], what [std::hash] promises),
    the hash join of the executor returns the rows of the nested loops, in the
    same order; both then return the pairs that a relational join returns. *)

From Stdlib Require Import ZArith Lia Ascii Floats.SpecFloat.
From stdpp Require Import base strings gmap numbers list list_numbers.
From S2P Require Import Prelude Cpp Common Schema Arena Table TableRep Lexer Parser Cache Executor.
Open Scope list_scope.
Open Scope Z_scope.

(** Equal keys have equal hashes: [0.0] and [-0.0] are the case that matters. *)
Class StdHashLaws `{StdHash} : Prop := {
  hash_double_eq a b : dec_eqb a b = true -> hash_double a = hash_double b;
}.

(** ** [==] is symmetric and transitive (not reflexive: NaN) *)

Lemma dec_eqb_true a b : dec_eqb a b = true <-> is_nan a = false /\ is_nan b = false /\ dec_rank a = dec_rank b.
Proof.
  destruct (is_nan a) eqn:Ea, (is_nan b) eqn:Eb; try (rewrite dec_eqb_rank, Z.eqb_eq by done; tauto).
  all: split; [|by intros (? & ? & ?)]; unfold is_nan, dec_eqb, SFeqb in *;
    destruct (dec_of_bits a) as [[]|[]| |[]], (dec_of_bits b) as [[]|[]| |[]]; done.
Qed.

Lemma value_eqb_true a b : value_eqb a b = true <->
  match a, b with
  | VInt x, VInt y => x = y
  | VDec x, VDec y => dec_eqb x y = true
  | VStr x, VStr y => x = y
  | VDt x, VDt y => x = y
  | _, _ => False
  end.
Proof.
  unfold value_eqb, dt_eqb. destruct a, b; cbn; try (rewrite bool_decide_false by done; done);
    try (rewrite bool_decide_true by done; cbn; rewrite ?Z.eqb_eq, ?String.eqb_eq; done).
  case_bool_decide; done.
Qed.

Lemma value_eqb_sym a b : value_eqb a b = value_eqb b a.
Proof.
  apply eq_true_iff_eq. rewrite !value_eqb_true. destruct a, b; try done. rewrite !dec_eqb_true. intuition congruence.
Qed.

Lemma value_eqb_trans a b c : value_eqb a b = true -> value_eqb b c = true -> value_eqb a c = true.
Proof.
  rewrite !value_eqb_true. destruct a, b, c; try done; try congruence. rewrite !dec_eqb_true. intuition congruence.
Qed.

(** ** The hash index *)

Section hash.
Context `{StdHashLaws}.

Lemma same_key_eqb a b : same_key a b = value_eqb a b.
Proof.
  unfold same_key. destruct (value_eqb a b) eqn:E; [|apply andb_false_r]. apply value_eqb_true in E.
  rewrite andb_true_r. apply Z.eqb_eq. destruct a, b; try done; cbn; [congruence|by apply hash_double_eq|congruence|congruence].
Qed.

Definition hits (m : HashIndex) (key : Value) : list nat := default [] (hash_find m key).

Lemma hash_find_push m k i key :
  hash_find (hash_push m k i) key = if value_eqb k key then Some (hits m key ++ [i]) else hash_find m key.
Proof.
  unfold hits. induction m as [|[k' l] m IH]; cbn [hash_push hash_find fst snd]; rewrite ?same_key_eqb.
  - done.
  - destruct (value_eqb k' k) eqn:Ek; cbn [hash_find fst snd]; rewrite same_key_eqb.
    + destruct (value_eqb k' key) eqn:E1, (value_eqb k key) eqn:E2; try done.
      * rewrite (value_eqb_trans k k' key) in E2; [done|by rewrite value_eqb_sym|done].
      * by rewrite (value_eqb_trans k' k key) in E1.
    + destruct (value_eqb k' key) eqn:E1; [|done]. destruct (value_eqb k key) eqn:E2; [|done].
      rewrite (value_eqb_trans k' key k) in Ek; [done|done|by rewrite value_eqb_sym].
Qed.

(** Column [idx] of a row that has it. *)
Definition column_of (idx : Z) (r : Row) : Value := default Value_default (r !! Z.to_nat idx).
Definition has_column (idx : Z) (r : Row) : Prop := 0 <= idx < Z.of_nat (length r).

Lemma value_at_column idx r : has_column idx r -> value_at r idx = Ret (column_of idx r).
Proof.
  intros [H1 H2]. unfold value_at, column_of. destruct (Z.ltb_spec idx 0); [lia|].
  destruct (lookup_lt_is_Some_2 r (Z.to_nat idx)) as [v ->]; [lia|done].
Qed.

(** The numbers, from [i] on, of the rows whose column equals [key]. *)
Fixpoint matches (idx : Z) (key : Value) (rs : list Row) (i : nat) : list nat :=
  match rs with
  | [] => []
  | r :: rs => if value_eqb (column_of idx r) key then i :: matches idx key rs (S i) else matches idx key rs (S i)
  end.

Lemma build_index_hits idx rs : Forall (has_column idx) rs -> forall i m,
  exists m', build_index idx rs i m = Ret m' /\ forall key, hits m' key = hits m key ++ matches idx key rs i.
Proof.
  induction 1 as [|r rs Hr _ IH]; intros i m; cbn [build_index].
  - exists m. split; [done|]. intros. cbn. by rewrite app_nil_r.
  - rewrite value_at_column by done. outcome_simpl. destruct (IH (S i) (hash_push m (column_of idx r) i)) as (m' & -> & Hm').
    exists m'. split; [done|]. intros key. rewrite Hm'. unfold hits at 1. rewrite hash_find_push. cbn [matches].
    destruct (value_eqb (column_of idx r) key); [|done]. cbn. by rewrite <- app_assoc.
Qed.

(** ** Equivalence *)

Lemma append_each_skip {A} (f : A -> outcome (list Row)) x l : f x = Ret [] -> append_each f (x :: l) = append_each f l.
Proof. intros E. cbn [append_each]. rewrite E. outcome_simpl. by destruct (append_each f l). Qed.

Lemma append_each_ext {A} (f g : A -> outcome (list Row)) l : (forall x, x ∈ l -> f x = g x) -> append_each f l = append_each g l.
Proof.
  induction l as [|x l IH]; intros Hfg; [done|]. cbn [append_each]. rewrite (Hfg x) by (by left).
  rewrite IH by (intros; apply Hfg; by right). done.
Qed.

Lemma probe_hits idx key (out : Row -> outcome (list Row)) rs : Forall (has_column idx) rs -> forall pre,
  append_each (fun ri => right_row ← deref ((pre ++ rs) !! ri); out right_row) (matches idx key rs (length pre)) =
  append_each (fun r => v ← value_at r idx; if value_eqb key v then out r else Ret []) rs.
Proof.
  induction 1 as [|r rs Hr _ IH]; intros pre; [done|]. cbn [matches].
  specialize (IH (pre ++ [r])). rewrite <- app_assoc, length_app, Nat.add_1_r in IH. cbn [app] in IH.
  assert (Hv : (v ← value_at r idx; if value_eqb key v then out r else Ret []) =
               if value_eqb (column_of idx r) key then out r else Ret []).
  { rewrite value_at_column by done. outcome_simpl. by rewrite value_eqb_sym. }
  destruct (value_eqb (column_of idx r) key).
  - cbn [append_each]. rewrite Hv, IH. rewrite list_lookup_middle by done. done.
  - rewrite (append_each_skip _ r) by done. apply IH.
Qed.

Lemma hash_join_nested li ri out left right :
  Forall (has_column li) left -> Forall (has_column ri) right ->
  hash_join li ri out left right = nested_join EQ li ri out left right.
Proof.
  intros Hl Hr. unfold hash_join, nested_join. destruct (build_index_hits ri right Hr 0 []) as (m & -> & Hm). outcome_simpl.
  apply append_each_ext. intros l Hin. rewrite Forall_forall in Hl. rewrite value_at_column by auto. outcome_simpl.
  rewrite <- (probe_hits ri _ (out l) right Hr []). cbn [length app]. specialize (Hm (column_of li l)). unfold hits in Hm. cbn in Hm.
  destruct (hash_find m (column_of li l)) as [h|]; cbn in Hm; by rewrite <- Hm.
Qed.

(** ** The relational join *)

Definition pairs (out : Row -> Row -> list Row) (left right : list Row) : list Row :=
  l ← left; r ← right; out l r.

Lemma append_each_bind {A} (f : A -> outcome (list Row)) (g : A -> list Row) l :
  (forall x, x ∈ l -> f x = Ret (g x)) -> append_each f l = Ret (l ≫= g).
Proof.
  induction l as [|x l IH]; intros Hfg; [done|]. cbn [append_each]. rewrite (Hfg x) by (by left). outcome_simpl.
  rewrite IH by (intros; apply Hfg; by right). done.
Qed.

Lemma nested_join_pairs op li ri out out' left right :
  Forall (has_column li) left -> Forall (has_column ri) right ->
  (forall l r, l ∈ left -> r ∈ right -> out l r = Ret (out' l r)) ->
  nested_join op li ri out left right =
    Ret (pairs (fun l r => if cmp_values op (column_of li l) (column_of ri r) then out' l r else []) left right).
Proof.
  rewrite !Forall_forall. intros Hl Hr Hout. unfold nested_join, pairs. apply append_each_bind. intros l Hin.
  rewrite value_at_column by auto. outcome_simpl. apply append_each_bind. intros r Hin'.
  rewrite value_at_column by auto. outcome_simpl. rewrite Hout by done. by destruct (cmp_values _ _ _).
Qed.

Lemma join_rows_pairs op li ri out out' left right :
  Forall (has_column li) left -> Forall (has_column ri) right ->
  (forall l r, l ∈ left -> r ∈ right -> out l r = Ret (out' l r)) ->
  join_rows op li ri out left right =
    Ret (pairs (fun l r => if cmp_values op (column_of li l) (column_of ri r) then out' l r else []) left right).
Proof.
  intros Hl Hr Hout. rewrite <- nested_join_pairs with (out := out) by done. unfold join_rows. case_decide; [|done].
  subst op. by apply hash_join_nested.
Qed.
End hash.

(** ** Property *)

(** C24: The hash join is an optimisation only: for rows that have the join
    columns, and any body of the innermost loop (it may filter, fail or throw),
    it runs that body on the same pairs in the same order as nested loops that
    compare with [==]. NaN joins with nothing, [0.0] with [-0.0]. *)
Theorem hash_join_is_nested_loop `{StdHashLaws} li ri (out : Row -> Row -> outcome (list Row)) left right :
  Forall (has_column li) left -> Forall (has_column ri) right ->
  hash_join li ri out left right = nested_join EQ li ri out left right.
Proof. apply hash_join_nested. Qed.

(** A hash that puts everything in one bucket. *)
#[export] Instance hash_one_bucket : StdHash := {| hash_int32 _ := 0; hash_double _ := 0; hash_string _ := 0; hash_int64 _ := 0 |}.
#[export] Instance hash_one_bucket_laws : StdHashLaws.
Proof. by split. Qed.

Definition sample_left : list Row := [[VInt 1; VDec 0]; [VInt 2; VDec (inf_mag + 1)]; [VInt 3; VDec (2 ^ 63)]].
Definition sample_right : list Row := [[VDec (2 ^ 63); VInt 10]; [VDec (inf_mag + 1); VInt 20]; [VDec 0; VInt 30]].
Definition sample_out (l r : Row) : outcome (list Row) := Ret [l ++ r].

Lemma hash_join_is_nested_loop_witness :
  hash_join 1 0 sample_out sample_left sample_right = nested_join EQ 1 0 sample_out sample_left sample_right /\
  hash_join 1 0 sample_out sample_left sample_right =
    Ret [[VInt 1; VDec 0; VDec (2 ^ 63); VInt 10]; [VInt 1; VDec 0; VDec 0; VInt 30];
         [VInt 3; VDec (2 ^ 63); VDec (2 ^ 63); VInt 10]; [VInt 3; VDec (2 ^ 63); VDec 0; VInt 30]].
Proof.
  split; [|vm_compute; reflexivity].
  apply hash_join_is_nested_loop; repeat (constructor; [unfold has_column; cbn; lia|]); constructor.
Defined.
