(* ===== verification/ExecutorSpec.v ===== *)
(** * The executor implements a relational database

    [abs_execute] runs a statement on tables that are lists of rows ([atable]).
    [db_rep] ties the executor's tables, their bytes and their B+ trees to
    those lists; every statement keeps it and returns what [abs_execute] does. *)

From Stdlib Require Import ZArith Lia Ascii.
From stdpp Require Import base strings gmap numbers list list_numbers.
From S2P Require Import Prelude Cpp Common Schema Arena BPTree BPTreeRep BPTreeInsert Index Table TableRep TableSpec Lexer Parser Cache CacheSpec Executor JoinSpec.
Open Scope string_scope.
Open Scope list_scope.
Open Scope Z_scope.

(** ** Literals *)

(** The value a literal denotes in a column of type [type], or the error. *)
Definition literal (lit : string) (type : DataType) : string + Value :=
  match parse_literal lit type with
  | Ret (err, v) => if String.eqb err "" then inr v else inl err
  | _ => inl ""
  end.

Lemma parse_literal_spec lit type :
  match literal lit type with
  | inl err => err <> "" /\ exists v, parse_literal lit type = Ret (err, v)
  | inr v => value_wf v /\ value_type v = type /\ parse_literal lit type = Ret ("", v)
  end.
Proof.
  assert (Hconv : forall P err (mk : Z -> Value) (o : outcome Z), converts o P -> err <> "" ->
    (forall z, P z -> value_wf (mk z) /\ value_type (mk z) = type) ->
    parse_literal lit type = catch_all (v ← o; Ret ("", mk v)) (Ret (err, Value_default)) ->
    match literal lit type with
    | inl err => err <> "" /\ exists v, parse_literal lit type = Ret (err, v)
    | inr v => value_wf v /\ value_type v = type /\ parse_literal lit type = Ret ("", v)
    end).
  { intros P err mk o [(z & -> & Hz)|[->| ->]] Herr Hmk E; unfold literal; rewrite E; cbn.
    - destruct (Hmk z Hz). done.
    - destruct (String.eqb_spec err ""); [done|]. split; [done|]. by eexists.
    - destruct (String.eqb_spec err ""); [done|]. split; [done|]. by eexists. }
  destruct type.
  - eapply (Hconv _ _ make_int); [apply (sto_integer_converts (- 2 ^ 31) (2 ^ 31 - 1))| |intros z Hz; cbn beta in Hz; split; [unfold value_wf, make_int, make_datetime; width_lia|done]|reflexivity]. done.
  - eapply (Hconv _ _ make_decimal); [apply stod_converts| |intros z Hz; split; [exact Hz|done]|reflexivity]. done.
  - by unfold literal.
  - eapply (Hconv _ _ make_datetime); [apply (sto_integer_converts (- 2 ^ 63) (2 ^ 63 - 1))| |intros z Hz; cbn beta in Hz; split; [unfold value_wf, make_int, make_datetime; width_lia|done]|reflexivity]. done.
  - unfold literal. cbn. split; [done|]. by eexists.
Qed.

(** The literals of a row, as values. *)
Fixpoint abs_row (cols : list ColumnDef) (lits : list string) : string + Row :=
  match cols, lits with
  | col :: cols, lit :: lits =>
      match literal lit (col_type col) with
      | inl err => inl err
      | inr v => match abs_row cols lits with inl err => inl err | inr row => inr (v :: row) end
      end
  | _, _ => inr []
  end.

Lemma parse_row_spec lits : forall cols, length lits = length cols -> parse_row cols lits = Ret (abs_row cols lits).
Proof.
  induction lits as [|lit lits IH]; intros [|col cols] Hlen; try done. cbn [parse_row abs_row head tail]. outcome_simpl.
  pose proof (parse_literal_spec lit (col_type col)) as Hl. destruct (literal lit (col_type col)) as [err|v].
  - destruct Hl as [Hne [v ->]]. outcome_simpl. cbn [fst]. destruct (String.eqb_spec err ""); done.
  - destruct Hl as (_ & _ & ->). outcome_simpl. cbn [fst snd]. change (negb (String.eqb "" "")) with false. cbv iota.
    rewrite IH by (cbn in Hlen; lia). outcome_simpl. by destruct (abs_row cols lits).
Qed.

Lemma abs_row_wf lits : forall cols row, abs_row cols lits = inr row -> Forall value_wf row.
Proof.
  induction lits as [|lit lits IH]; intros [|col cols] row; cbn [abs_row]; try (intros [= <-]; constructor).
  pose proof (parse_literal_spec lit (col_type col)) as Hl. destruct (literal lit (col_type col)) as [err|v]; [done|].
  destruct (abs_row cols lits) as [|r] eqn:E; [done|]. intros [= <-]. constructor; [apply Hl|by eapply IH].
Qed.

(** ** The abstract database *)

Record atable := mkATable { at_schema : Schema; at_rows : list stored }.

(** The result and the database after a statement. *)
Definition abs_create (db : gmap string atable) (stmt : CreateTableStmt) : QueryResult * gmap string atable :=
  let name := to_upper (ct_table_name stmt) in
  match db !! name with
  | Some _ => (failed ("Table already exists: " +:+ name), db)
  | None =>
      match create_columns (ct_columns stmt) Schema_empty with
      | inl err => (failed err, db)
      | inr s => (done_with ("Table " +:+ name +:+ " created"), <[name := mkATable s []]> db)
      end
  end.

(** A batch appends its rows up to the first bad one. *)
Fixpoint abs_batch (clock : nat -> Z) (s : Schema) (rs : list stored) (batch : list (list string)) (n : nat)
    : option string * nat * list stored :=
  match batch with
  | [] => (None, n, rs)
  | lits :: batch =>
      if negb (length lits =? num_columns s)%nat then
        (Some ("Column count mismatch: expected " +:+ to_string_Z (Z.of_nat (num_columns s)) +:+
               ", got " +:+ to_string_Z (Z.of_nat (length lits))), n, rs)
      else
        match abs_row (columns_ s) lits with
        | inl err => (Some err, n, rs)
        | inr row =>
            match validate_row s row with
            | Some err => (Some err, n, rs)
            | None => abs_batch clock s (rs ++ [mkStored row (clock n + DEFAULT_TTL_SECONDS) true]) batch (S n)
            end
        end
  end.

Definition abs_insert (db : gmap string atable) (ck : Clocks) (stmt : InsertStmt) : QueryResult * gmap string atable :=
  let name := to_upper (in_table_name stmt) in
  match db !! name with
  | None => (failed ("Table not found: " +:+ name), db)
  | Some t =>
      let '(err, n, rs) := abs_batch (ck_insert ck) (at_schema t) (at_rows t) (in_batch_values stmt) 0 in
      (match err with Some err => failed err | None => done_with (to_string_Z (Z.of_nat n) +:+ " rows inserted") end,
       <[name := mkATable (at_schema t) rs]> db)
  end.

(** The rows a query sees: those that have not expired. *)
Definition visible (clock : nat -> Z) (rs : list stored) : list Row := select clock (fun _ => true) id 0 rs.

Definition keep_rows (keep : Row -> bool) (rs : list Row) : list Row := filter (fun r => keep r = true) rs.

(** The condition of a WHERE on one table. *)
Definition abs_where (s : Schema) (w : option WhereClause) : string + (Row -> bool) :=
  match w with
  | None => inr (fun _ => true)
  | Some w =>
      let name := to_upper (cr_column (w_column w)) in
      let idx := find_column s name in
      if idx <? 0 then inl ("Unknown column in WHERE: " +:+ name) else
      match columns_ s !! Z.to_nat idx with
      | None => inl ""
      | Some col => match literal (w_literal w) (col_type col) with
                    | inl err => inl err
                    | inr v => inr (fun r => cmp_values (w_op w) (column_of idx r) v)
                    end
      end
  end.

Definition abs_plain (ck : Clocks) (stmt : SelectStmt) (t : atable) : QueryResult :=
  match projection (at_schema t) (select_cols (at_schema t) stmt) with
  | inl err => failed err
  | inr proj =>
      match abs_where (at_schema t) (se_where stmt) with
      | inl err => failed err
      | inr keep => selected (select_cols (at_schema t) stmt) (project proj <$> keep_rows keep (visible (ck_left ck) (at_rows t)))
      end
  end.

(** The condition of a WHERE on a join: one that does not resolve, or whose
    literal does not convert, filters nothing. *)
Definition abs_where_pass (sd : join_sides) (w : option WhereClause) (l r : Row) : bool :=
  match w with
  | None => true
  | Some w =>
      match resolve sd (to_upper (cr_table (w_column w))) (to_upper (cr_column (w_column w))) with
      | None => true
      | Some (side, wi) =>
          let (row, s) := if side : bool then (r, right_schema sd) else (l, left_schema sd) in
          match columns_ s !! Z.to_nat wi with
          | None => true
          | Some col => match literal (w_literal w) (col_type col) with
                        | inl _ => true
                        | inr v => cmp_values (w_op w) (column_of wi row) v
                        end
          end
      end
  end.

Definition out_row (srcs : list (bool * Z)) (l r : Row) : Row :=
  (fun src => column_of (snd src) (if fst src : bool then r else l)) <$> srcs.

Definition abs_join (db : gmap string atable) (ck : Clocks) (stmt : SelectStmt) (name : string) (t : atable) (join : JoinClause) : QueryResult :=
  let rname := to_upper (j_right_table join) in
  match db !! rname with
  | None => failed ("Join table not found: " +:+ rname)
  | Some rt =>
      let sd := mkSides name (at_schema t) rname (at_schema rt) in
      let lcol := to_upper (cr_column (j_left_col join)) in
      let rcol := to_upper (cr_column (j_right_col join)) in
      let li := find_column (at_schema t) lcol in
      let ri := find_column (at_schema rt) rcol in
      if li <? 0 then failed ("Unknown column in JOIN ON (left): " +:+ lcol) else
      if ri <? 0 then failed ("Unknown column in JOIN ON (right): " +:+ rcol) else
      match (if is_select_all stmt then inr (side_columns false name (at_schema t) ++ side_columns true rname (at_schema rt))
             else join_columns sd (se_columns stmt)) with
      | inl err => failed err
      | inr cols =>
          selected (fst <$> cols)
            (pairs (fun l r => if cmp_values (j_op join) (column_of li l) (column_of ri r)
                               then (if abs_where_pass sd (se_where stmt) l r then [out_row (snd <$> cols) l r] else []) else [])
               (visible (ck_left ck) (at_rows t)) (visible (ck_right ck) (at_rows rt)))
      end
  end.

Definition abs_select (db : gmap string atable) (ck : Clocks) (stmt : SelectStmt) : QueryResult :=
  let name := to_upper (se_table_name stmt) in
  match db !! name with
  | None => failed ("Table not found: " +:+ name)
  | Some t => match se_join stmt with Some join => abs_join db ck stmt name t join | None => abs_plain ck stmt t end
  end.

Definition abs_execute (db : gmap string atable) (ck : Clocks) (stmt : Statement) : QueryResult * gmap string atable :=
  match stmt with
  | CREATE_TABLE stmt => abs_create db stmt
  | INSERT stmt => abs_insert db ck stmt
  | SELECT stmt => (abs_select db ck stmt, db)
  end.

(** ** Representation *)

Record table_ok (name : string) (t : Table) (a : atable) : Prop := {
  tk_rep : tree_table t (at_rows a);
  tk_schema : schema_ t = at_schema a;
  tk_ttl : ttl_seconds_ t = DEFAULT_TTL_SECONDS;
  tk_name : name_ t = name;
}.

Definition db_rep (tables : gmap string Table) (db : gmap string atable) : Prop :=
  forall name, option_Forall2 (table_ok name) (tables !! name) (db !! name).

Lemma db_rep_insert tables db name t a : db_rep tables db -> table_ok name t a ->
  db_rep (<[name := t]> tables) (<[name := a]> db).
Proof.
  intros H Ht n. destruct (decide (name = n)) as [->|Hne]; [rewrite !lookup_insert_eq|rewrite !lookup_insert_ne by done; apply H].
  by constructor.
Qed.

Lemma db_rep_lookup tables db name : db_rep tables db ->
  (tables !! name = None /\ db !! name = None) \/ exists t a, tables !! name = Some t /\ db !! name = Some a /\ table_ok name t a.
Proof. intros H. destruct (H name) as [t a Hta|]; [right|by left]. by exists t, a. Qed.

(** *** Rows in sight *)

Lemma select_keep clock keep out rs : forall i,
  select clock keep out i rs = out <$> keep_rows keep (select clock (fun _ => true) id i rs).
Proof.
  unfold keep_rows. induction rs as [|r rs IH]; intros i; cbn [select]; [done|]. rewrite andb_true_r.
  destruct (live (clock i) r); cbn [andb]; [|apply IH]. destruct (keep (st_vals r)) eqn:E.
  - rewrite filter_cons_True by done. cbn. by rewrite IH.
  - rewrite filter_cons_False by (unfold id; congruence). apply IH.
Qed.

Section rep.
Context (name : string) (t : Table) (a : atable) (Hok : table_ok name t a).

Lemma visible_length clock : Forall (fun r => length r = num_columns (at_schema a)) (visible clock (at_rows a)).
Proof.
  pose proof (tr_wf _ _ (tk_rep _ _ _ Hok)) as Hwf. rewrite (tk_schema _ _ _ Hok) in Hwf. unfold visible. generalize 0%nat as i.
  induction Hwf as [|r rs [Hr _] _ IH]; intros i; cbn [select]; [constructor|].
  destruct (_ && _); [|apply IH]. constructor; [|apply IH]. symmetry. by eapply Forall2_length.
Qed.

Lemma at_schema_ok : schema_inv (at_schema a).
Proof. rewrite <- (tk_schema _ _ _ Hok). apply (tr_schema _ _ (tk_rep _ _ _ Hok)). Qed.

Lemma scan_visible clock : scan_all t clock = Ret (visible clock (at_rows a)).
Proof. apply (scan_all_rep t _ (tk_rep _ _ _ Hok)). Qed.

Lemma column_at_find n idx col : find_column (at_schema a) n = Z.of_nat idx -> columns_ (at_schema a) !! idx = Some col ->
  column_at (schema_ t) (find_column (schema_ t) n) = Ret col.
Proof.
  intros E Ec. rewrite (tk_schema _ _ _ Hok), E. unfold column_at. destruct (Z.ltb_spec (Z.of_nat idx) 0); [lia|].
  by rewrite Nat2Z.id, Ec.
Qed.
End rep.

(** *** Projection *)

Lemma projection_ok s : schema_inv s -> forall cols proj, projection s cols = inr proj -> cols_ok s proj.
Proof.
  intros Hs. induction cols as [|c cols IH]; intros proj; cbn [projection]; [intros [= <-]; constructor|].
  destruct (Z.ltb_spec (find_column s c) 0); [done|]. destruct (projection s cols) as [|proj'] eqn:E; [done|]. intros [= <-].
  constructor; [|by apply IH]. destruct (find_column_range s c Hs) as [?|(i & col & -> & Hc & _)]; [lia|].
  apply lookup_lt_Some in Hc. unfold num_columns. lia.
Qed.

Lemma cols_ok_columns s proj r : cols_ok s proj -> length r = num_columns s -> Forall (fun i => has_column i r) proj.
Proof. intros H E. eapply Forall_impl; [exact H|]. intros i. unfold has_column. by rewrite E. Qed.

Lemma mapM_columns proj r : Forall (fun i => has_column i r) proj -> mapM (value_at r) proj = Ret (project proj r).
Proof. rewrite Forall_forall. intros H. apply mapM_Ret. intros i Hi. apply value_at_column. auto. Qed.

Lemma need_projection_false s proj r : need_projection s proj = false -> length r = num_columns s -> project proj r = r.
Proof.
  unfold need_projection. intros [H1 H2]%orb_false_iff Hr. apply negb_false_iff, Nat.eqb_eq in H1.
  assert (Hp : forall i x, proj !! i = Some x -> x = Z.of_nat i).
  { intros i x Hi. destruct (Z.eqb_spec x (Z.of_nat i)) as [|Hne]; [done|]. apply not_true_iff_false in H2. destruct H2.
    apply existsb_exists. exists (i, x). split; [|cbn; by apply negb_true_iff, Z.eqb_neq].
    apply list_elem_of_In, elem_of_lookup_imap. by exists i, x. }
  apply list_eq. intros i. unfold project. rewrite list_lookup_fmap. destruct (proj !! i) as [x|] eqn:Ei.
  - cbn. rewrite (Hp i x Ei), Nat2Z.id. apply lookup_lt_Some in Ei. destruct (lookup_lt_is_Some_2 r i) as [v Hv]; [lia|]. by rewrite Hv.
  - cbn. symmetry. apply lookup_ge_None. apply lookup_ge_None in Ei. lia.
Qed.

(** ** What a statement must satisfy *)

(** The key of a row can be ordered: it is not a NaN. *)
Definition key_sane (row : Row) : Prop :=
  match row with v :: _ => key_ok (value_type v) v | [] => True end.

Definition create_ok (stmt : CreateTableStmt) : Prop :=
  Forall (fun c => is_u16 (ac_varchar_len c)) (ct_columns stmt) /\
  match create_columns (ct_columns stmt) Schema_empty with
  | inl _ => True
  | inr s => columns_ s <> [] /\ layout_fits s
  end.

Definition insert_ok (db : gmap string atable) (ck : Clocks) (stmt : InsertStmt) : Prop :=
  match db !! to_upper (in_table_name stmt) with
  | None => True
  | Some t =>
      Forall (fun lits => match abs_row (columns_ (at_schema t)) lits with inr row => key_sane row | inl _ => True end) (in_batch_values stmt) /\
      Z.of_nat (length (at_rows t) + length (in_batch_values stmt)) < 2 ^ 63 /\
      forall i, is_s64 (ck_insert ck i + DEFAULT_TTL_SECONDS)
  end.

(** Does the WHERE go through the index? *)
Definition where_pk (s : Schema) (w : option WhereClause) : bool :=
  match w with Some w => find_column s (to_upper (cr_column (w_column w))) =? 0 | None => false end.

Definition uses_index (db : gmap string atable) (stmt : Statement) : bool :=
  match stmt with
  | SELECT stmt =>
      match se_join stmt, db !! to_upper (se_table_name stmt) with
      | None, Some t => where_pk (at_schema t) (se_where stmt)
      | _, _ => false
      end
  | _ => false
  end.

(** Through the index, the keys must tell the rows apart and the literal must
    not be a NaN. *)
Definition where_ok (t : atable) (w : option WhereClause) : Prop :=
  where_pk (at_schema t) w = true ->
  distinct_keys (at_rows t) /\
  match w with
  | Some w => match literal (w_literal w) (pk_type (at_schema t)) with inr v => key_ok (value_type v) v | inl _ => True end
  | None => True
  end.

Definition select_ok (db : gmap string atable) (stmt : SelectStmt) : Prop :=
  match se_join stmt, db !! to_upper (se_table_name stmt) with
  | None, Some t => where_ok t (se_where stmt)
  | _, _ => True
  end.

Definition stmt_ok (db : gmap string atable) (ck : Clocks) (stmt : Statement) : Prop :=
  match stmt with
  | CREATE_TABLE stmt => create_ok stmt
  | INSERT stmt => insert_ok db ck stmt
  | SELECT stmt => select_ok db stmt
  end.

(** The same answer, up to the order of rows when it comes from the index. *)
Definition same_answer (any_order : bool) (r r' : QueryResult) : Prop :=
  success r = success r' /\ error r = error r' /\ column_names r = column_names r' /\ message r = message r' /\
  (if any_order then Permutation (rows r) (rows r') else rows r = rows r').

Lemma same_answer_refl b r : same_answer b r r.
Proof. repeat split. by destruct b. Qed.

Lemma same_answer_eq r r' : same_answer false r r' -> r = r'.
Proof. destruct r, r'. cbn. intros (? & ? & ? & ? & ?). cbn in *. by subst. Qed.

(** ** CREATE TABLE and INSERT *)

Lemma create_columns_inv cols : forall s s', Forall (fun c => is_u16 (ac_varchar_len c)) cols -> schema_inv s ->
  create_columns cols s = inr s' -> schema_inv s'.
Proof.
  induction cols as [|c cols IH]; intros s s' Hl Hs; cbn [create_columns]; [by intros [= <-]|].
  apply Forall_cons in Hl as [Hc Hl]. destruct (column_type (ac_type_name c)); [|done]. apply IH; [done|]. apply add_column_inv; [done|].
  destruct (_ && _); [done|]. unfold DEFAULT_VARCHAR_MAX. width_lia.
Qed.

Lemma Table_new_cases `{malloc : Malloc} name s ttl : schema_inv s -> columns_ s <> [] ->
  Table_new name s ttl = Throw bad_alloc \/ exists t, Table_new name s ttl = Ret t.
Proof.
  intros Hs Hc. unfold Table_new, Arena_new, allocate_new_chunk, pk_column. rewrite (inv_pk s Hs). cbn [Z.to_nat].
  destruct (malloc_ok _ _); [right|by left]. destruct (columns_ s); [done|]. by eexists.
Qed.

Section refine.
Context `{malloc : Malloc, StdHashLaws}.

Lemma create_refines ex db stmt : db_rep (tables_ ex) db -> create_ok stmt ->
  exec_create_table ex stmt = Throw bad_alloc \/
  exists ex', exec_create_table ex stmt = Ret ((abs_create db stmt).1, ex') /\
    db_rep (tables_ ex') (abs_create db stmt).2 /\ cache_ ex' = cache_ ex.
Proof.
  intros R [Hlen Hok]. unfold exec_create_table, abs_create.
  destruct (db_rep_lookup _ _ (to_upper (ct_table_name stmt)) R) as [[-> ->]|(t & a & -> & -> & _)]; [|right; by exists ex].
  destruct (create_columns (ct_columns stmt) Schema_empty) as [err|s] eqn:Ec; [right; by exists ex|]. destruct Hok as [Hne Hl].
  pose proof (create_columns_inv _ _ _ Hlen schema_inv_empty Ec) as Hs.
  destruct (Table_new_cases (to_upper (ct_table_name stmt)) s DEFAULT_TTL_SECONDS Hs Hne) as [->|[t Et]]; [by left|]. rewrite Et.
  right. outcome_simpl. eexists. split; [done|]. cbn. split; [|done]. apply db_rep_insert; [done|].
  destruct (Table_new_rep (Hix := fun dt => BPTree_index (key_ok dt)) _ s _ t Hs Hl Hne Et) as (T & Es & En & Ett). by split.
Qed.

(** A batch: each accepted row is appended, the first bad one stops it. *)
Lemma key_of_valid s row : columns_ s <> [] -> validate_row s row = None -> key_sane row ->
  key_ok (pk_type s) (row_key (mkStored row 0 true)).
Proof.
  intros Hc Hv Hk. apply validate_row_fits in Hv. unfold row_fits, pk_type, row_key, key_sane in *. cbn [st_vals].
  destruct Hv as [|c v cs vs [<- _] _]; done.
Qed.

Lemma batch_refines clock batch : forall name t a n, table_ok name t a ->
  Forall (fun lits => match abs_row (columns_ (at_schema a)) lits with inr row => key_sane row | inl _ => True end) batch ->
  Z.of_nat (length (at_rows a) + length batch) < 2 ^ 63 -> (forall i, is_s64 (clock i + DEFAULT_TTL_SECONDS)) ->
  insert_batch clock t batch n = Throw bad_alloc \/
  exists t', insert_batch clock t batch n = Ret ((abs_batch clock (at_schema a) (at_rows a) batch n).1, t') /\
    table_ok name t' (mkATable (at_schema a) (abs_batch clock (at_schema a) (at_rows a) batch n).2).
Proof.
  induction batch as [|lits batch IH]; intros name t [s rs] n Hok Hkeys Hlen Hclock; cbn [insert_batch abs_batch at_schema at_rows] in *.
  { right. by exists t. }
  pose proof Hok as [T Es Ettl En]. cbn [at_schema at_rows] in *. rewrite Es in *. apply Forall_cons in Hkeys as [Hkey Hkeys].
  destruct (Nat.eqb_spec (length lits) (num_columns s)) as [El|El]; cbn [negb]; [|right; by exists t].
  rewrite parse_row_spec by done. outcome_simpl. destruct (abs_row (columns_ s) lits) as [err|row] eqn:Er; [right; by exists t|].
  assert (Hc : columns_ s <> []) by (rewrite <- Es; apply (tr_cols _ _ T)).
  assert (Hk : validate_row s row = None -> key_ok (pk_type s) (row_key (mkStored row 0 true))) by (intros; by apply key_of_valid).
  destruct (validate_row s row) as [err|] eqn:Ev.
  { right. assert (Hins : insert t (clock n) row = Ret (Some err, t)) by (unfold insert; by rewrite Es, Ev).
    rewrite Hins. outcome_simpl. cbn [fst snd]. by exists t. }
  pose proof (insert_rep_table (Hix := fun dt => BPTree_index (key_ok dt)) t rs (clock n) row T) as Hins. rewrite Es, Ettl, Ev in Hins.
  destruct Hins as [->|(t' & -> & Es' & En' & Et' & T')]; [by eapply abs_row_wf|by apply Hk|by apply Hclock|cbn [length] in Hlen; lia|by left|].
  outcome_simpl. cbn [fst snd]. change (0 <? DEFAULT_TTL_SECONDS) with true in T'. cbv iota in T'.
  apply (IH name t' (mkATable s (rs ++ [mkStored row (clock n + DEFAULT_TTL_SECONDS) true])) (S n)); [|done| |done].
  - split; cbn [at_rows at_schema]; [done|congruence..].
  - cbn [at_rows]. rewrite length_app. cbn [length] in *. lia.
Qed.

Lemma insert_refines ex db ck stmt cs : db_rep (tables_ ex) db -> insert_ok db ck stmt -> cache_rep (cache_ ex) cs ->
  exec_insert ex ck stmt = Throw bad_alloc \/
  exists ex', exec_insert ex ck stmt = Ret ((abs_insert db ck stmt).1, ex') /\
    db_rep (tables_ ex') (abs_insert db ck stmt).2 /\ capacity_ (cache_ ex') = capacity_ (cache_ ex) /\
    cache_rep (cache_ ex') (if success (abs_insert db ck stmt).1
                            then spec_invalidate (string_map toupper (to_upper (in_table_name stmt))) cs else cs).
Proof.
  intros R Hok C. unfold exec_insert, abs_insert, insert_ok in *. set (name := to_upper (in_table_name stmt)) in *.
  destruct (db_rep_lookup _ _ name R) as [[-> ->]|(t & a & -> & Ea & Hta)]; [right; by exists ex|]. rewrite Ea in *.
  destruct Hok as (Hkeys & Hlen & Hclock).
  destruct (batch_refines (ck_insert ck) (in_batch_values stmt) name t a 0 Hta Hkeys Hlen Hclock) as [->|(t' & -> & Hta')]; [by left|right].
  outcome_simpl. destruct (abs_batch _ _ _ _ _) as [[err n] rs]. cbn [fst snd] in *.
  assert (R' : db_rep (<[name := t']> (tables_ ex)) (<[name := mkATable (at_schema a) rs]> db)) by by apply db_rep_insert.
  destruct err as [err|]; [by eexists|].
  destruct (invalidate_rep (cache_ ex) cs name C) as (c' & -> & C' & Ec). outcome_simpl. by eexists.
Qed.

(** ** SELECT on one table *)

Lemma keep_rows_all rs : keep_rows (fun _ => true) rs = rs.
Proof. apply filter_keeps_all. done. Qed.

Lemma keep_rows_ext keep keep' rs : (forall r, keep r = keep' r) -> keep_rows keep rs = keep_rows keep' rs.
Proof. intros E. apply list_filter_iff. intros r. by rewrite E. Qed.

Lemma convert_op_id op : convert_op op = op.
Proof. by destruct op. Qed.

Lemma scan_refines name t a ck w : table_ok name t a -> where_ok a w ->
  exists res, exec_scan t ck w = Ret res /\
    match abs_where (at_schema a) w with
    | inl err => res = inl err
    | inr keep => exists rs, res = inr rs /\
        (if where_pk (at_schema a) w then Permutation else eq) rs (keep_rows keep (visible (ck_left ck) (at_rows a)))
    end.
Proof.
  intros Hok Hw. pose proof (at_schema_ok _ _ _ Hok) as Hs. pose proof Hok as [T Es _ _]. destruct w as [w|]; cbn [exec_scan abs_where where_pk].
  2:{ rewrite (scan_visible _ _ _ Hok). outcome_simpl. eexists. split; [done|]. eexists. split; [done|]. by rewrite keep_rows_all. }
  set (n := to_upper (cr_column (w_column w))) in *. unfold where_ok, where_pk in Hw. fold n in Hw. rewrite Es.
  destruct (find_column_range _ n Hs) as [E|(i & col & E & Hc & _)]; rewrite E in *; [by eexists|].
  destruct (Z.ltb_spec (Z.of_nat i) 0); [lia|]. rewrite <- E, <- Es, (column_at_find _ _ _ Hok n i col E Hc), Es, E, Nat2Z.id, Hc. outcome_simpl.
  pose proof (parse_literal_spec (w_literal w) (col_type col)) as Hlit. destruct (literal (w_literal w) (col_type col)) as [err|v] eqn:El.
  { destruct Hlit as [Hne [v ->]]. outcome_simpl. cbn [fst]. destruct (String.eqb_spec err ""); [done|]. by eexists. }
  destruct Hlit as (_ & Hty & ->). outcome_simpl. cbn [fst snd]. change (negb (String.eqb "" "")) with false. cbv iota.
  rewrite (inv_pk _ Hs), convert_op_id. change (s32 0) with 0.
  assert (Hcols : cols_ok (schema_ t) []) by constructor.
  destruct (Z.eqb_spec (Z.of_nat i) 0) as [Hz|Hz].
  - destruct (Hw eq_refl) as [Hd Hk]. assert (i = 0%nat) as -> by lia.
    assert (Hpk : pk_type (at_schema a) = col_type col).
    { unfold pk_type. destruct (columns_ (at_schema a)) as [|c cs]; [done|]. cbn in Hc. by injection Hc as ->. }
    rewrite Hpk, El in Hk. assert (Hkey : key_ok (pk_type (schema_ t)) v) by (rewrite Es, Hpk, <- Hty; done).
    rewrite (index_range_rep (Hix := fun dt => BPTree_index (key_ok dt)) t (at_rows a) T) by done. outcome_simpl. eexists. split; [done|]. eexists. split; [done|].
    rewrite (index_rows_perm t _ _ _ _ _ T Hkey Hd), select_keep. cbn [project_or_all]. by rewrite list_fmap_id.
  - rewrite (scan_where_rep (Hix := fun dt => BPTree_index (key_ok dt)) t (at_rows a) T); [|done|rewrite Es; apply lookup_lt_Some in Hc; unfold num_columns; lia|lia].
    destruct (Z.eqb_spec (Z.of_nat i) 0); [lia|]. outcome_simpl. eexists. split; [done|]. eexists. split; [done|].
    rewrite select_keep. cbn [project_or_all]. by rewrite list_fmap_id.
Qed.

Lemma project_all_rows s proj rs : cols_ok s proj -> Forall (fun r => length r = num_columns s) rs ->
  (if need_projection s proj then mapM (fun row => mapM (value_at row) proj) rs else Ret rs) = Ret (project proj <$> rs).
Proof.
  intros Hp Hrs. rewrite Forall_forall in Hrs. destruct (need_projection s proj) eqn:E.
  - apply mapM_Ret. intros r Hr. apply mapM_columns. apply (cols_ok_columns s); auto.
  - f_equal. symmetry. rewrite <- (list_fmap_id rs) at 2. apply list_fmap_ext. intros i r Hr. unfold id.
    apply (need_projection_false s); [done|]. apply Hrs. by eapply list_elem_of_lookup_2.
Qed.

Lemma plain_refines name t a ck stmt : table_ok name t a -> where_ok a (se_where stmt) ->
  exists res, select_plain ck stmt t = Ret res /\ same_answer (where_pk (at_schema a) (se_where stmt)) res (abs_plain ck stmt a).
Proof.
  intros Hok Hw. unfold select_plain, abs_plain. rewrite (tk_schema _ _ _ Hok).
  destruct (projection (at_schema a) _) as [err|proj] eqn:Ep; [eexists; split; [done|apply same_answer_refl]|].
  destruct (scan_refines _ _ _ ck _ Hok Hw) as (res & -> & Hres). outcome_simpl.
  destruct (abs_where (at_schema a) (se_where stmt)) as [err|keep]; [subst res; eexists; split; [done|apply same_answer_refl]|].
  destruct Hres as (rs & -> & Hrs). pose proof (visible_length _ _ _ Hok (ck_left ck)) as Hlen.
  assert (HlenK : Forall (fun r => length r = num_columns (at_schema a)) (keep_rows keep (visible (ck_left ck) (at_rows a)))).
  { apply Forall_forall. intros r [_ Hr]%list_elem_of_filter. rewrite Forall_forall in Hlen. auto. }
  rewrite (project_all_rows (at_schema a)); [|by eapply projection_ok, Ep; apply (at_schema_ok _ _ _ Hok)|].
  - outcome_simpl. eexists. split; [done|]. split; [done|]. split; [done|]. split; [done|]. split; [done|]. cbn [rows selected].
    destruct (where_pk _ _); [by rewrite Hrs|by subst rs].
  - destruct (where_pk _ _); [by rewrite Hrs|by subst rs].
Qed.

(** ** SELECT on two tables *)

Definition source_ok (sd : join_sides) (src : bool * Z) : Prop :=
  0 <= src.2 < Z.of_nat (num_columns (if src.1 then right_schema sd else left_schema sd)).

Section join.
Context (sd : join_sides) (Hl : schema_inv (left_schema sd)) (Hr : schema_inv (right_schema sd)).

Lemma side_column_ok name s tbl col idx : schema_inv s -> side_column name s tbl col = Some idx -> 0 <= idx < Z.of_nat (num_columns s).
Proof.
  intros Hs. unfold side_column. destruct (_ || _); [|done]. destruct (Z.leb_spec 0 (find_column s col)); [|done]. intros [= <-].
  destruct (find_column_range s col Hs) as [E|(i & c & -> & Hc & _)]; [lia|]. apply lookup_lt_Some in Hc. unfold num_columns. lia.
Qed.

Lemma resolve_ok tbl col src : resolve sd tbl col = Some src -> source_ok sd src.
Proof.
  unfold resolve, source_ok. destruct (side_column (left_name sd) _ _ _) as [i|] eqn:E1; [intros [= <-]; by eapply side_column_ok|].
  destruct (side_column (right_name sd) _ _ _) as [i|] eqn:E2; [intros [= <-]; by eapply side_column_ok|done].
Qed.

Lemma join_columns_ok cols : forall out, join_columns sd cols = inr out -> Forall (source_ok sd) (snd <$> out).
Proof.
  induction cols as [|cr cols IH]; intros out; cbn [join_columns]; [intros [= <-]; constructor|].
  destruct (resolve sd _ _) as [src|] eqn:E; [|done]. destruct (join_columns sd cols) as [|rest]; [done|]. intros [= <-].
  rewrite fmap_cons. constructor; [by eapply resolve_ok|by apply IH].
Qed.

Lemma side_columns_ok : Forall (source_ok sd)
  (snd <$> side_columns false (left_name sd) (left_schema sd) ++ side_columns true (right_name sd) (right_schema sd)).
Proof.
  rewrite fmap_app. apply Forall_app. split; apply Forall_forall; intros src (p & -> & Hp)%list_elem_of_fmap;
    apply elem_of_lookup_imap in Hp as (i & c & -> & Hc); apply lookup_lt_Some in Hc; unfold source_ok, num_columns; cbn; lia.
Qed.

Context (l r : Row) (Hll : length l = num_columns (left_schema sd)) (Hlr : length r = num_columns (right_schema sd)).

Lemma source_value src : source_ok sd src ->
  value_at (if src.1 then r else l) src.2 = Ret (column_of src.2 (if src.1 then r else l)).
Proof. intros Hs. apply value_at_column. unfold source_ok, has_column in *. destruct src.1; congruence. Qed.

Lemma where_pass_spec w : where_pass sd w l r = Ret (abs_where_pass sd w l r).
Proof.
  destruct w as [w|]; [|done]. unfold where_pass, abs_where_pass. destruct (resolve sd _ _) as [[side wi]|] eqn:E; [|done].
  apply resolve_ok in E. pose proof (source_value _ E) as Hv. unfold source_ok in E. cbn [fst snd] in *.
  set (s := if side then right_schema sd else left_schema sd) in *.
  assert (Hcase : (if side then (r, right_schema sd) else (l, left_schema sd)) = (if side then r else l, s)) by (unfold s; by destruct side).
  rewrite Hcase. unfold column_at. destruct (Z.ltb_spec wi 0); [lia|]. destruct (columns_ s !! Z.to_nat wi) as [col|] eqn:Ec.
  - outcome_simpl. pose proof (parse_literal_spec (w_literal w) (col_type col)) as Hlit. destruct (literal _ _) as [err|v].
    + destruct Hlit as [Hne [v ->]]. outcome_simpl. cbn [fst]. by destruct (String.eqb_spec err "").
    + destruct Hlit as (_ & _ & ->). outcome_simpl. cbn [fst snd]. change (String.eqb "" "") with true. cbv iota. by rewrite Hv.
  - apply lookup_ge_None in Ec. unfold num_columns in *. lia.
Qed.

Lemma emit_spec w srcs : Forall (source_ok sd) srcs ->
  emit sd w srcs l r = Ret (if abs_where_pass sd w l r then [out_row srcs l r] else []).
Proof.
  intros Hs. unfold emit. rewrite where_pass_spec. outcome_simpl. destruct (abs_where_pass sd w l r); [|done].
  unfold build_row, out_row. rewrite (mapM_Ret _ (fun src => column_of (snd src) (if fst src : bool then r else l))); [done|].
  rewrite Forall_forall in Hs. intros src Hsrc. apply source_value. auto.
Qed.
End join.

(** What [join_scanned] makes of any rows of the right widths. *)
Lemma find_column_has s n (rs : list Row) : schema_inv s -> 0 <= find_column s n -> Forall (fun r => length r = num_columns s) rs ->
  Forall (has_column (find_column s n)) rs.
Proof.
  intros Hsi Hpos Hrs. eapply Forall_impl; [exact Hrs|]. intros r Hr. unfold has_column. rewrite Hr. split; [done|].
  destruct (find_column_range s n Hsi) as [E|(i & c & -> & Hc & _)]; [lia|]. apply lookup_lt_Some in Hc. unfold num_columns. lia.
Qed.

Lemma join_scanned_spec stmt sd join lcol rcol left right : schema_inv (left_schema sd) -> schema_inv (right_schema sd) ->
  0 <= find_column (left_schema sd) lcol -> 0 <= find_column (right_schema sd) rcol ->
  Forall (fun r => length r = num_columns (left_schema sd)) left -> Forall (fun r => length r = num_columns (right_schema sd)) right ->
  join_scanned stmt sd join (find_column (left_schema sd) lcol) (find_column (right_schema sd) rcol) left right =
  Ret match (if is_select_all stmt then inr (side_columns false (left_name sd) (left_schema sd) ++ side_columns true (right_name sd) (right_schema sd))
             else join_columns sd (se_columns stmt)) with
      | inl err => failed err
      | inr cols =>
          selected (fst <$> cols)
            (pairs (fun l r => if cmp_values (j_op join) (column_of (find_column (left_schema sd) lcol) l) (column_of (find_column (right_schema sd) rcol) r)
                               then (if abs_where_pass sd (se_where stmt) l r then [out_row (snd <$> cols) l r] else []) else []) left right)
      end.
Proof.
  intros Hs Hsr Hli Hri Hll Hlr. unfold join_scanned. destruct (if is_select_all stmt then _ else _) as [err|cols] eqn:Ec; [done|].
  assert (Hsrc : Forall (source_ok sd) (snd <$> cols)).
  { destruct (is_select_all stmt); [injection Ec as <-; by apply (side_columns_ok sd)|by eapply (join_columns_ok sd)]. }
  rewrite (join_rows_pairs _ _ _ _ (fun l r => if abs_where_pass sd (se_where stmt) l r then [out_row (snd <$> cols) l r] else []));
    [done|by apply find_column_has..|].
  intros l r Hlin Hrin. rewrite Forall_forall in Hll. rewrite Forall_forall in Hlr. apply emit_spec; cbn; auto.
Qed.

Lemma join_refines ex db ck stmt name t a join : db_rep (tables_ ex) db -> table_ok name t a ->
  select_join ex ck stmt name t join = Ret (abs_join db ck stmt name a join).
Proof.
  intros R Hok. unfold select_join, abs_join.
  destruct (db_rep_lookup _ _ (to_upper (j_right_table join)) R) as [[-> ->]|(rt & ra & -> & -> & Hrok)]; [done|].
  rewrite (tk_schema _ _ _ Hok), (tk_schema _ _ _ Hrok), (scan_visible _ _ _ Hok), (scan_visible _ _ _ Hrok).
  destruct (Z.ltb_spec (find_column (at_schema a) (to_upper (cr_column (j_left_col join)))) 0); [done|].
  destruct (Z.ltb_spec (find_column (at_schema ra) (to_upper (cr_column (j_right_col join)))) 0); [done|]. outcome_simpl.
  set (sd := mkSides name (at_schema a) (to_upper (j_right_table join)) (at_schema ra)).
  rewrite (join_scanned_spec stmt sd join _ _ (visible (ck_left ck) (at_rows a)) (visible (ck_right ck) (at_rows ra)));
    [done|by eapply at_schema_ok|by eapply at_schema_ok|done|done|by eapply visible_length|by eapply visible_length].
Qed.

Lemma select_refines ex db ck stmt : db_rep (tables_ ex) db -> select_ok db stmt ->
  exists res, run_select ex ck stmt = Ret res /\ same_answer (uses_index db (SELECT stmt)) res (abs_select db ck stmt).
Proof.
  intros R Hok. unfold run_select, abs_select, uses_index, select_ok in *.
  destruct (db_rep_lookup _ _ (to_upper (se_table_name stmt)) R) as [[-> E]|(t & a & -> & E & Hta)]; rewrite E in *.
  - eexists. split; [done|]. apply same_answer_refl.
  - destruct (se_join stmt) as [join|]; [|by eapply plain_refines].
    eexists. split; [by eapply join_refines|]. apply same_answer_refl.
Qed.
End refine.
