(* ===== verification/SessionSpec.v ===== *)
(** * Sessions: sequences of statements, with misses and hits of the query cache

    The executor answers a sequence of statements as the abstract database
    does, as long as no query is found in the cache; and, under the conditions
    that make the cache sound, it answers the same when queries are. The examples at the end show what
    happens outside these conditions. *)

From Stdlib Require Import ZArith Lia Ascii.
From stdpp Require Import base strings gmap numbers list list_numbers.
From S2P Require Import Prelude Cpp Common Schema Arena BPTree BPTreeRep BPTreeInsert Index Table TableRep TableSpec Lexer Parser Cache CacheSpec Executor JoinSpec ExecutorSpec.
Open Scope string_scope.
Open Scope list_scope.
Open Scope Z_scope.

(** A step: the times it reads, the statement, and its text for the cache. *)
Record step := mkStep { sp_clocks : Clocks; sp_stmt : Statement; sp_raw : string }.

Section run.
Context `{malloc : Malloc, StdHash}.

Fixpoint run_session (ex : Executor) (steps : list step) : outcome (list QueryResult * Executor) :=
  match steps with
  | [] => Ret ([], ex)
  | st :: steps =>
      p ← execute ex (sp_clocks st) (sp_stmt st) (sp_raw st);
      rest ← run_session (snd p) steps;
      Ret (fst p :: fst rest, snd rest)
  end.
End run.

(** The answers of the abstract database, and whether rows may come in any order. *)
Fixpoint abs_session (db : gmap string atable) (steps : list step) : list (bool * QueryResult) :=
  match steps with
  | [] => []
  | st :: steps =>
      let p := abs_execute db (sp_clocks st) (sp_stmt st) in
      (uses_index db (sp_stmt st), fst p) :: abs_session (snd p) steps
  end.

Fixpoint session_ok (db : gmap string atable) (steps : list step) : Prop :=
  match steps with
  | [] => True
  | st :: steps => stmt_ok db (sp_clocks st) (sp_stmt st) /\ session_ok (abs_execute db (sp_clocks st) (sp_stmt st)).2 steps
  end.

(** The database after the session. *)
Definition abs_final (db : gmap string atable) (steps : list step) : gmap string atable :=
  foldl (fun db st => (abs_execute db (sp_clocks st) (sp_stmt st)).2) db steps.

Definition answered (expected : list (bool * QueryResult)) (results : list QueryResult) : Prop :=
  Forall2 (fun p r => same_answer p.1 r p.2) expected results.

Lemma Executor_new_rep : db_rep (tables_ Executor_new) ∅ /\ cache_rep (cache_ Executor_new) [].
Proof.
  split; [|apply cache_new_rep; unfold LRU_CACHE_CAPACITY; lia]. intros n. cbn. rewrite !lookup_empty. constructor.
Qed.

(** ** With the cache *)

(** The query text names the table where the cache looks for it, and the
    statement reads that table only. *)
Definition cacheable (stmt : SelectStmt) (raw : string) : Prop :=
  raw <> "" /\ se_join stmt = None /\ key_table (normalize raw) = Some (to_upper (se_table_name stmt)).

(** Within one time to live from [t0] on. *)
Definition in_ttl (t0 : Z) (ck : Clocks) : Prop :=
  forall i, t0 <= ck_insert ck i /\ ck_left ck i <= t0 + DEFAULT_TTL_SECONDS.

(** An INSERT that fails has inserted nothing. *)
Definition no_partial_insert (db : gmap string atable) (ck : Clocks) (stmt : Statement) : Prop :=
  match stmt with
  | INSERT stmt => success (abs_insert db ck stmt).1 = true \/ (abs_insert db ck stmt).2 = db
  | _ => True
  end.

Section cached.
Context (queries : list (SelectStmt * string)) (t0 : Z).
Context (Hcacheable : forall stmt raw, (stmt, raw) ∈ queries -> cacheable stmt raw).
Context (Hmerge : forall stmt raw stmt' raw', (stmt, raw) ∈ queries -> (stmt', raw') ∈ queries ->
  normalize raw = normalize raw' -> stmt = stmt').

Definition fresh_rows (rs : list stored) : Prop :=
  Forall (fun r => st_alive r = true /\ t0 + DEFAULT_TTL_SECONDS <= st_expiry r) rs.
Definition fresh_db (db : gmap string atable) : Prop := forall name t, db !! name = Some t -> fresh_rows (at_rows t).

(** Every cached result answers, now, each query with its key. *)
Definition coherent (db : gmap string atable) (cs : entries) : Prop :=
  forall stmt raw c ck, (stmt, raw) ∈ queries -> in_ttl t0 ck -> entry_of (normalize raw) cs = Some c ->
    same_answer (uses_index db (SELECT stmt)) (selected (cd_column_names c) (cd_rows c)) (abs_select db ck stmt).

Lemma visible_fresh clock rs : fresh_rows rs -> (forall i, clock i <= t0 + DEFAULT_TTL_SECONDS) -> visible clock rs = st_vals <$> rs.
Proof.
  intros Hf Hc. unfold visible. generalize 0%nat as i. induction Hf as [|r rs [Ha He] _ IH]; intros i; [done|]. cbn [select].
  unfold live. rewrite Ha. destruct (Z.ltb_spec (st_expiry r) (clock i)); [specialize (Hc i); lia|]. rewrite andb_false_r. cbn. by rewrite IH.
Qed.

(** The answer depends on the one table only, and not on the time. *)
Lemma abs_select_local db db' ck ck' stmt raw : (stmt, raw) ∈ queries -> fresh_db db -> in_ttl t0 ck -> in_ttl t0 ck' ->
  db !! to_upper (se_table_name stmt) = db' !! to_upper (se_table_name stmt) ->
  abs_select db ck stmt = abs_select db' ck' stmt /\ uses_index db (SELECT stmt) = uses_index db' (SELECT stmt).
Proof.
  intros Hin Hf Hck Hck' E. destruct (Hcacheable _ _ Hin) as (_ & Hj & _). unfold abs_select, uses_index. rewrite Hj, <- E.
  destruct (db !! to_upper (se_table_name stmt)) as [t|] eqn:Et; [|done]. split; [|done]. unfold abs_plain.
  rewrite !(visible_fresh _ (at_rows t)); [done|by eapply Hf|apply Hck'|by eapply Hf|apply Hck].
Qed.

Lemma coherent_transfer db db' cs cs' : fresh_db db -> coherent db cs ->
  (forall stmt raw c ck, (stmt, raw) ∈ queries -> in_ttl t0 ck -> entry_of (normalize raw) cs' = Some c ->
    entry_of (normalize raw) cs = Some c /\ db !! to_upper (se_table_name stmt) = db' !! to_upper (se_table_name stmt)) ->
  coherent db' cs'.
Proof.
  intros Hf Hc Ht stmt raw c ck Hin Hck He. destruct (Ht stmt raw c ck Hin Hck He) as [He' E].
  destruct (abs_select_local db db' ck ck stmt raw Hin Hf Hck Hck E) as [<- <-]. by eapply Hc.
Qed.

Lemma abs_select_answer db ck stmt : success (abs_select db ck stmt) = true ->
  abs_select db ck stmt = selected (column_names (abs_select db ck stmt)) (rows (abs_select db ck stmt)).
Proof.
  unfold abs_select. destruct (db !! _) as [t|]; [|done]. destruct (se_join stmt) as [j|].
  - unfold abs_join. destruct (db !! _); [|done]. destruct (_ <? 0); [done|]. destruct (_ <? 0); [done|].
    by destruct (if is_select_all stmt then _ else _).
  - unfold abs_plain. destruct (projection _ _); [done|]. by destruct (abs_where _ _).
Qed.

Lemma batch_fresh clock s batch : (forall i, t0 <= clock i) -> forall rs n, fresh_rows rs ->
  fresh_rows (abs_batch clock s rs batch n).2.
Proof.
  intros Hc. induction batch as [|lits batch IH]; intros rs n Hf; cbn [abs_batch]; [done|].
  destruct (negb _); [done|]. destruct (abs_row _ _); [done|]. destruct (validate_row s _); [done|]. apply IH.
  apply Forall_app. split; [done|]. constructor; [|done]. cbn. specialize (Hc n). lia.
Qed.

Lemma execute_fresh db ck stmt : fresh_db db -> in_ttl t0 ck -> fresh_db (abs_execute db ck stmt).2.
Proof.
  intros Hf Hck. destruct stmt as [stmt|stmt|stmt]; cbn [abs_execute snd]; [| |done].
  - unfold abs_create. destruct (db !! _); [done|]. destruct (create_columns _ _); [done|]. cbn [snd]. intros n t [[<- <-]|[_ ?]]%lookup_insert_Some; [constructor|by eapply Hf].
  - unfold abs_insert. destruct (db !! _) as [a|] eqn:Ea; [|done].
    pose proof (batch_fresh (ck_insert ck) (at_schema a) (in_batch_values stmt) (fun i => proj1 (Hck i)) (at_rows a) 0 (Hf _ _ Ea)) as Hb.
    destruct (abs_batch _ _ _ _ _) as [[err n] rs]. cbn [snd] in *. intros m t [[<- <-]|[_ ?]]%lookup_insert_Some; [done|by eapply Hf].
Qed.

Lemma toupper_idem c : toupper (toupper c) = toupper c.
Proof.
  unfold toupper at 2 3. destruct (islower c) eqn:E; [|unfold toupper; by rewrite E]. unfold toupper, islower in *.
  apply andb_true_iff in E as [H1%Z.leb_le H2%Z.leb_le]. rewrite ascii_code_code by (unfold is_byte; lia).
  destruct (Z.leb_spec 97 (ascii_code c - 32)); [lia|done].
Qed.

Lemma to_upper_idem s : string_map toupper (to_upper s) = to_upper s.
Proof. unfold to_upper. induction s as [|c s IH]; [done|]. cbn. by rewrite toupper_idem, IH. Qed.

Section step.
Context `{malloc : Malloc, StdHashLaws}.

(** A hit is a current answer; a miss is answered and stored. *)
Lemma select_cached ex db cs ck stmt raw : db_rep (tables_ ex) db -> cache_rep (cache_ ex) cs -> 0 < capacity_ (cache_ ex) ->
  coherent db cs -> fresh_db db -> in_ttl t0 ck -> (stmt, raw) ∈ queries -> select_ok db stmt ->
  exists res ex' cs', exec_select ex ck stmt raw = Ret (res, ex') /\ same_answer (uses_index db (SELECT stmt)) res (abs_select db ck stmt) /\
    db_rep (tables_ ex') db /\ cache_rep (cache_ ex') cs' /\ capacity_ (cache_ ex') = capacity_ (cache_ ex) /\ coherent db cs'.
Proof.
  intros R C Hcap Hco Hf Hck Hin Hok. unfold exec_select. destruct (Hcacheable _ _ Hin) as (Hraw & _).
  destruct (String.eqb_spec raw ""); [done|]. destruct (get_rep (cache_ ex) cs raw C) as (c1 & -> & C1 & Ec1). outcome_simpl. cbn [fst snd].
  unfold spec_get in *. destruct (entry_of (normalize raw) cs) as [c|] eqn:He; cbn [fst snd] in *.
  - eexists _, _, _. split; [done|]. split; [by eapply Hco|]. split; [done|]. split; [exact C1|]. split; [done|].
    eapply coherent_transfer; [done|done|]. intros stmt' raw' c' ck' Hin' _ He'. split; [|done].
    cbn [entry_of fst snd] in He'. case_decide as Hk; [by rewrite <- Hk, He|]. rewrite entry_of_without in He'. by case_decide.
  - destruct (select_refines ex db ck stmt R Hok) as (res & -> & Hres). outcome_simpl. destruct (success res) eqn:Hs.
    + change (true && negb false) with true. cbv iota.
      destruct (put_rep c1 cs raw (mkCached (column_names res) (rows res)) C1 ltac:(lia)) as (c2 & -> & C2 & Ec2). outcome_simpl.
      eexists _, _, _. split; [done|]. split; [done|]. split; [done|]. split; [exact C2|]. split; [cbn; lia|].
      intros stmt' raw' c' ck' Hin' Hck' He'. unfold spec_put in He'. apply entry_of_take in He'. cbn [entry_of fst snd] in He'.
      case_decide as Hk; [|rewrite entry_of_without in He'; case_decide; [done|by eapply Hco]].
      injection He' as <-. cbn [cd_column_names cd_rows]. rewrite <- (Hmerge _ _ _ _ Hin Hin' Hk) in *.
      destruct (abs_select_local db db ck ck' stmt raw Hin Hf Hck Hck' eq_refl) as [<- _].
      destruct Hres as (H1 & H2 & H3 & H4 & H5). rewrite Hs in H1. rewrite (abs_select_answer _ _ _ (eq_sym H1)) in *. repeat split; done.
    + cbn [andb]. outcome_simpl. eexists _, _, cs. split; [done|]. split; [done|]. split; [done|]. split; [done|]. by split.
Qed.

Lemma execute_cached ex db cs ck stmt raw : db_rep (tables_ ex) db -> cache_rep (cache_ ex) cs -> 0 < capacity_ (cache_ ex) ->
  coherent db cs -> fresh_db db -> in_ttl t0 ck -> stmt_ok db ck stmt -> no_partial_insert db ck stmt ->
  (forall s, stmt = SELECT s -> (s, raw) ∈ queries) ->
  execute ex ck stmt raw = Throw bad_alloc \/
  exists res ex' cs', execute ex ck stmt raw = Ret (res, ex') /\ same_answer (uses_index db stmt) res (abs_execute db ck stmt).1 /\
    db_rep (tables_ ex') (abs_execute db ck stmt).2 /\ cache_rep (cache_ ex') cs' /\ capacity_ (cache_ ex') = capacity_ (cache_ ex) /\
    coherent (abs_execute db ck stmt).2 cs'.
Proof.
  intros R C Hcap Hco Hf Hck Hok Hpart Hq. destruct stmt as [stmt|stmt|stmt]; cbn [execute abs_execute stmt_ok no_partial_insert fst snd] in *.
  - destruct (create_refines ex db stmt R Hok) as [?|(ex' & -> & R' & E)]; [by left|right]. eexists _, ex', cs.
    split; [done|]. split; [apply same_answer_refl|]. split; [done|]. rewrite E. split; [done|]. split; [done|].
    eapply coherent_transfer; [done|done|]. intros s r c ck' Hin Hck' He. split; [done|]. unfold abs_create.
    destruct (db !! to_upper (ct_table_name stmt)) eqn:Ed; [done|]. destruct (create_columns _ _); [done|]. cbn [snd].
    destruct (decide (to_upper (ct_table_name stmt) = to_upper (se_table_name s))) as [Ename|]; [|by rewrite lookup_insert_ne].
    destruct (Hco s r c ck' Hin Hck' He) as [Hs _]. unfold abs_select in Hs. rewrite <- Ename, Ed in Hs. done.
  - destruct (insert_refines ex db ck stmt cs R Hok C) as [?|(ex' & -> & R' & Ec & C')]; [by left|right]. eexists _, ex', _.
    split; [done|]. split; [apply same_answer_refl|]. split; [done|]. split; [exact C'|]. split; [done|].
    eapply coherent_transfer; [done|done|]. intros s r c ck' Hin Hck' He. destruct (Hcacheable _ _ Hin) as (_ & _ & Ht).
    destruct (success (abs_insert db ck stmt).1) eqn:Hs.
    + apply entry_of_invalidate in He as [Hne He]. split; [done|]. rewrite to_upper_idem in Hne. unfold abs_insert.
      destruct (db !! to_upper (in_table_name stmt)); [|done]. destruct (abs_batch _ _ _ _ _) as [[? ?] ?]. cbn [snd].
      rewrite lookup_insert_ne by congruence. done.
    + split; [done|]. destruct Hpart as [|E]; [congruence|by rewrite E].
  - right. apply (select_cached ex db cs); auto.
Qed.
End step.
End cached.

(** The conditions along a session that starts at [t0]. *)
Fixpoint session_cacheable (t0 : Z) (db : gmap string atable) (steps : list step) : Prop :=
  match steps with
  | [] => True
  | st :: steps => in_ttl t0 (sp_clocks st) /\ no_partial_insert db (sp_clocks st) (sp_stmt st) /\
      session_cacheable t0 (abs_execute db (sp_clocks st) (sp_stmt st)).2 steps
  end.

Definition queries_of (steps : list step) : list (SelectStmt * string) :=
  omap (fun st => match sp_stmt st with SELECT s => Some (s, sp_raw st) | _ => None end) steps.

Lemma cached_session_refines `{malloc : Malloc, StdHashLaws} queries t0 steps :
  (forall stmt raw, (stmt, raw) ∈ queries -> cacheable stmt raw) ->
  (forall stmt raw stmt' raw', (stmt, raw) ∈ queries -> (stmt', raw') ∈ queries -> normalize raw = normalize raw' -> stmt = stmt') ->
  forall ex db cs, db_rep (tables_ ex) db -> cache_rep (cache_ ex) cs -> 0 < capacity_ (cache_ ex) ->
  coherent queries t0 db cs -> fresh_db t0 db -> session_ok db steps -> session_cacheable t0 db steps ->
  (forall q, q ∈ queries_of steps -> q ∈ queries) ->
  run_session ex steps = Throw bad_alloc \/
  exists results ex', run_session ex steps = Ret (results, ex') /\ answered (abs_session db steps) results.
Proof.
  intros Hc Hm. induction steps as [|[ck stmt raw] steps IH]; intros ex db cs R C Hcap Hco Hf Hok Hsc Hq.
  { right. eexists _, ex. split; [done|constructor]. }
  cbn [run_session abs_session session_ok session_cacheable sp_clocks sp_stmt sp_raw] in *. destruct Hok as [Hok Hrest], Hsc as (Hck & Hp & Hsc).
  destruct (execute_cached queries t0 Hc Hm ex db cs ck stmt raw) as [->|(res & ex' & cs' & -> & Hres & R' & C' & Ecap & Hco')]; [done..| |by left|].
  { intros s ->. apply Hq. unfold queries_of. cbn. by left. }
  outcome_simpl. cbn [fst snd]. destruct (IH ex' _ cs' R' C') as [->|(results & ex'' & -> & Hall)]; [lia|done|by apply execute_fresh|done|done| |by left|].
  { intros q Hin. apply Hq. unfold queries_of in *. cbn. destruct stmt; [done|done|by right]. }
  right. outcome_simpl. eexists _, _. split; [done|]. by constructor.
Qed.

(** ** Queries asked once *)

(** The cache keys a session looks up. *)
Definition asked (st : step) : option string :=
  match sp_stmt st with SELECT _ => if String.eqb (sp_raw st) "" then None else Some (normalize (sp_raw st)) | _ => None end.
Definition keys_asked (steps : list step) : list string := omap asked steps.

Definition absent (keys : list string) (cs : entries) : Prop := forall k, k ∈ keys -> entry_of k cs = None.

Section once.
Context `{malloc : Malloc, StdHashLaws}.

(** A statement whose key is not in the cache is answered from the tables. *)
Lemma execute_miss ex db cs ck stmt raw : db_rep (tables_ ex) db -> cache_rep (cache_ ex) cs -> 0 < capacity_ (cache_ ex) -> stmt_ok db ck stmt ->
  (forall k, asked (mkStep ck stmt raw) = Some k -> entry_of k cs = None) ->
  execute ex ck stmt raw = Throw bad_alloc \/
  exists res ex' cs', execute ex ck stmt raw = Ret (res, ex') /\ same_answer (uses_index db stmt) res (abs_execute db ck stmt).1 /\
    db_rep (tables_ ex') (abs_execute db ck stmt).2 /\ cache_rep (cache_ ex') cs' /\ capacity_ (cache_ ex') = capacity_ (cache_ ex) /\
    forall k, entry_of k cs' <> None -> asked (mkStep ck stmt raw) = Some k \/ entry_of k cs <> None.
Proof.
  intros R C Hcap Hok Habs. destruct stmt as [stmt|stmt|stmt]; cbn [execute abs_execute stmt_ok fst snd] in *.
  - destruct (create_refines ex db stmt R Hok) as [?|(ex' & -> & R' & E)]; [by left|right]. eexists _, ex', cs.
    split; [done|]. split; [apply same_answer_refl|]. rewrite E. split; [done|]. split; [done|]. split; [done|]. by right.
  - destruct (insert_refines ex db ck stmt cs R Hok C) as [?|(ex' & -> & R' & Ec & C')]; [by left|right]. eexists _, ex', _.
    split; [done|]. split; [apply same_answer_refl|]. split; [done|]. split; [exact C'|]. split; [done|]. intros k Hk. right.
    destruct (success _); [|done]. destruct (entry_of k (spec_invalidate _ cs)) as [c|] eqn:E; [|done].
    apply entry_of_invalidate in E as [_ E]. by rewrite E.
  - unfold asked in Habs |- *. cbn [sp_stmt sp_raw] in *. right. destruct (select_refines ex db ck stmt R Hok) as (res & E & Hres). unfold exec_select.
    destruct (String.eqb_spec raw "") as [->|Hne].
    { outcome_simpl. cbn [fst snd]. rewrite E. outcome_simpl. rewrite andb_false_r. outcome_simpl. eexists _, _, cs.
      do 5 (split; [done|]). by right. }
    specialize (Habs _ eq_refl). destruct (get_rep (cache_ ex) cs raw C) as (c1 & -> & C1 & Ec1). unfold spec_get in C1 |- *.
    rewrite Habs in C1 |- *. outcome_simpl. cbn [fst snd] in *. rewrite E. outcome_simpl. destruct (success res) eqn:Hs.
    + change (true && negb false) with true. cbv iota.
      destruct (put_rep c1 cs raw (mkCached (column_names res) (rows res)) C1 ltac:(lia)) as (c2 & -> & C2 & Ec2). outcome_simpl.
      eexists _, _, _. do 3 (split; [done|]). split; [exact C2|]. split; [cbn; lia|]. intros k Hk. unfold spec_put in Hk.
      destruct (entry_of k (take _ _)) as [c|] eqn:Ek; [|done]. apply entry_of_take in Ek. cbn [entry_of fst snd] in Ek.
      case_decide; [left; by subst|right]. rewrite entry_of_without in Ek. case_decide; [done|]. by rewrite Ek.
    + cbn [andb]. outcome_simpl. eexists _, _, cs. do 5 (split; [done|]). by right.
Qed.

(** The queries still to come stay out of the cache. *)
Lemma execute_once ex db cs st steps : db_rep (tables_ ex) db -> cache_rep (cache_ ex) cs -> 0 < capacity_ (cache_ ex) ->
  stmt_ok db (sp_clocks st) (sp_stmt st) -> NoDup (keys_asked (st :: steps)) -> absent (keys_asked (st :: steps)) cs ->
  execute ex (sp_clocks st) (sp_stmt st) (sp_raw st) = Throw bad_alloc \/
  exists res ex' cs', execute ex (sp_clocks st) (sp_stmt st) (sp_raw st) = Ret (res, ex') /\
    same_answer (uses_index db (sp_stmt st)) res (abs_execute db (sp_clocks st) (sp_stmt st)).1 /\
    db_rep (tables_ ex') (abs_execute db (sp_clocks st) (sp_stmt st)).2 /\ cache_rep (cache_ ex') cs' /\ 0 < capacity_ (cache_ ex') /\
    NoDup (keys_asked steps) /\ absent (keys_asked steps) cs'.
Proof.
  intros R C Hcap Hok Hnd Habs. destruct st as [ck stmt raw]. cbn [sp_clocks sp_stmt sp_raw] in *.
  assert (Hk : forall k, asked (mkStep ck stmt raw) = Some k -> entry_of k cs = None /\ k ∉ keys_asked steps).
  { intros k Ek. unfold keys_asked in Hnd, Habs. cbn [omap list_omap] in Hnd, Habs. rewrite Ek in Hnd, Habs. apply NoDup_cons in Hnd as [? _].
    split; [apply Habs; by left|done]. }
  destruct (execute_miss ex db cs ck stmt raw R C Hcap Hok (fun k E => proj1 (Hk k E)))
    as [?|(res & ex' & cs' & E & Hres & R' & C' & Ecap & Hnew)]; [by left|right].
  exists res, ex', cs'. do 4 (split; [done|]). split; [lia|]. split.
  - unfold keys_asked in Hnd. cbn [omap list_omap] in Hnd. destruct (asked _); [by apply NoDup_cons in Hnd as [_ ?]|done].
  - intros k Hin. destruct (entry_of k cs') eqn:Ek; [|done]. exfalso. destruct (Hnew k) as [Ea|Hc]; [by rewrite Ek|by apply Hk in Ea as [_ ?]|].
    apply Hc, Habs. unfold keys_asked. cbn [omap list_omap]. destruct (asked _); [by right|done].
Qed.

Lemma once_session_refines steps : forall ex db cs, db_rep (tables_ ex) db -> cache_rep (cache_ ex) cs -> 0 < capacity_ (cache_ ex) ->
  session_ok db steps -> NoDup (keys_asked steps) -> absent (keys_asked steps) cs ->
  run_session ex steps = Throw bad_alloc \/
  exists results ex', run_session ex steps = Ret (results, ex') /\ answered (abs_session db steps) results /\
    db_rep (tables_ ex') (abs_final db steps).
Proof.
  induction steps as [|st steps IH]; intros ex db cs R C Hcap Hok Hnd Habs; cbn [run_session abs_session session_ok] in *.
  { right. eexists _, ex. split; [done|]. by split; [constructor|]. }
  destruct Hok as [Hok Hrest].
  destruct (execute_once ex db cs st steps R C Hcap Hok Hnd Habs) as [->|(res & ex' & cs' & -> & Hres & R' & C' & Hcap' & Hnd' & Habs')]; [by left|].
  outcome_simpl. cbn [fst snd]. destruct (IH ex' _ cs' R' C' Hcap' Hrest Hnd' Habs') as [->|(results & ex'' & -> & Hall & R'')]; [by left|].
  right. outcome_simpl. eexists _, _. split; [done|]. by split; [constructor|].
Qed.
End once.

(** ** Properties *)



(** *** Concrete sessions *)

Definition at_time (now : Z) : Clocks := mkClocks (fun _ => now) (fun _ => now) (fun _ => now).
Definition nothing : Statement := CREATE_TABLE (mkCreate "" []).
Definition stmt_of (sql : string) : Statement := match parse_sql sql with Ret (inr s) => s | _ => nothing end.

Definition sample_setup : list string :=
  ["CREATE TABLE users (id INT, name VARCHAR(10), score DECIMAL)";
   "INSERT INTO users VALUES (1, 'ann', 2.5), (2, 'bob', -0.0)";
   "CREATE TABLE logs (lid INT, uid INT)";
   "INSERT INTO logs VALUES (10, 2), (11, 7), (12, 2)"].

Definition uncached (now : Z) (sql : string) : step := mkStep (at_time now) (stmt_of sql) "".
Definition cached (now : Z) (sql : string) : step := mkStep (at_time now) (stmt_of sql) sql.

Definition sample_session : list step := cached 100 <$> sample_setup ++
  ["SELECT name, lid FROM users INNER JOIN logs ON users.id = logs.uid WHERE score = 0";
   "SELECT * FROM users WHERE name = 'ann'";
   "INSERT INTO logs VALUES (13, 1), (oops, 1)";
   "SELECT name FROM users"].

Definition sample_cached_session : list step := cached 100 <$> sample_setup ++
  ["SELECT name FROM users"; "select  name from users;"; "INSERT INTO users VALUES (3, 'cy', 1)"; "SELECT name FROM users"].

(** Evaluate the lookups of a concrete condition, then solve it. *)
Ltac eval_lookup :=
  match goal with |- context [?db !! ?n] =>
    let r := eval vm_compute in (db !! n) in
    let E := fresh in
    lazymatch r with
    | Some ?t => assert (E : db !! n = Some t) by (vm_compute; reflexivity)
    | None => assert (E : db !! n = None) by (vm_compute; reflexivity)
    end; rewrite E; clear E; cbv iota
  end.
Ltac solve_stmt_ok :=
  lazymatch goal with
  | |- create_ok _ => split; [repeat constructor; unfold is_u16; cbn; lia|vm_compute; split; [done|reflexivity]]
  | |- insert_ok _ _ _ =>
      unfold insert_ok; eval_lookup;
      split; [repeat (constructor; [vm_compute; first [exact I|by split]|]); constructor|split; [vm_compute; reflexivity|intros i; unfold is_s64, DEFAULT_TTL_SECONDS; cbn; lia]]
  | |- select_ok _ _ => unfold select_ok; cbn [se_join se_where se_table_name];
      lazymatch goal with |- True => exact I | _ => eval_lookup; let H := fresh in intros H; vm_compute in H; discriminate H end
  end.

Ltac solve_session_ok session :=
  let l := eval vm_compute in session in
  let E := fresh in assert (E : session = l) by (vm_compute; reflexivity); rewrite E; clear E;
  cbn [session_ok sp_clocks sp_stmt stmt_ok]; repeat (split; [solve_stmt_ok|]); exact I.

Lemma sample_session_ok : session_ok ∅ sample_session.
Proof. solve_session_ok sample_session. Qed.

Lemma sample_cached_session_ok : session_ok ∅ sample_cached_session.
Proof. solve_session_ok sample_cached_session. Qed.


(** What the session answers: [-0.0] equals [0]; the first row of the failing
    batch stays. *)
Example sample_session_answers :
  (p ← run_session Executor_new sample_session; Ret (rows <$> drop 4 (fst p))) =
  Ret [[[VStr "bob"; VInt 10]; [VStr "bob"; VInt 12]]; [[VInt 1; VStr "ann"; VDec 4612811918334230528]]; []; [[VStr "ann"]; [VStr "bob"]]].
Proof. vm_compute. reflexivity. Qed.


(** *** Outside the conditions *)

Definition last_rows (steps : list step) : outcome (option (list Row)) :=
  p ← run_session Executor_new steps; Ret (rows <$> last (fst p)).

(** A join is filed under its first table only: an INSERT into the other one
    leaves it in the cache. *)
Definition join_sql : string := "SELECT name, lid FROM users INNER JOIN logs ON users.id = logs.uid".
Example join_cache_stale :
  last_rows (cached 100 <$> sample_setup ++ [join_sql; "INSERT INTO logs VALUES (13, 1)"; join_sql]) =
    Ret (Some [[VStr "bob"; VInt 10]; [VStr "bob"; VInt 12]]) /\
  last_rows (uncached 100 <$> sample_setup ++ [join_sql; "INSERT INTO logs VALUES (13, 1)"; join_sql]) =
    Ret (Some [[VStr "ann"; VInt 13]; [VStr "bob"; VInt 10]; [VStr "bob"; VInt 12]]).
Proof. split; vm_compute; reflexivity. Qed.

(** A batch that fails keeps its first rows but does not invalidate. *)
Example partial_insert_cache_stale :
  last_rows (cached 100 <$> sample_setup ++ ["SELECT lid FROM logs"; "INSERT INTO logs VALUES (13, 1), (x, 1)"; "SELECT lid FROM logs"]) =
    Ret (Some [[VInt 10]; [VInt 11]; [VInt 12]]) /\
  last_rows (uncached 100 <$> sample_setup ++ ["SELECT lid FROM logs"; "INSERT INTO logs VALUES (13, 1), (x, 1)"; "SELECT lid FROM logs"]) =
    Ret (Some [[VInt 10]; [VInt 11]; [VInt 12]; [VInt 13]]).
Proof. split; vm_compute; reflexivity. Qed.

(** Expired rows are still served from the cache. *)
Example expired_rows_cached :
  last_rows ((cached 100 <$> sample_setup ++ ["SELECT lid FROM logs"]) ++ [cached 10000 "SELECT lid FROM logs"]) =
    Ret (Some [[VInt 10]; [VInt 11]; [VInt 12]]) /\
  last_rows ((uncached 100 <$> sample_setup ++ ["SELECT lid FROM logs"]) ++ [uncached 10000 "SELECT lid FROM logs"]) = Ret (Some []).
Proof. split; vm_compute; reflexivity. Qed.

(** Two queries that differ in the case of a string literal share an entry. *)
Example literal_case_cached :
  last_rows (cached 100 <$> sample_setup ++ ["SELECT id FROM users WHERE name = 'ann'"; "SELECT id FROM users WHERE name = 'ANN'"]) =
    Ret (Some [[VInt 1]]) /\
  last_rows (uncached 100 <$> sample_setup ++ ["SELECT id FROM users WHERE name = 'ANN'"]) = Ret (Some []).
Proof. split; vm_compute; reflexivity. Qed.

(** In a join, a WHERE on an unknown column filters nothing; on one table it is an error. *)
Example join_where_ignored :
  last_rows (uncached 100 <$> sample_setup ++ [join_sql +:+ " WHERE nosuch = 1"]) = last_rows (uncached 100 <$> sample_setup ++ [join_sql]) /\
  (p ← run_session Executor_new (uncached 100 <$> sample_setup ++ ["SELECT * FROM users WHERE nosuch = 1"]); Ret (error <$> last (fst p))) =
    Ret (Some "Unknown column in WHERE: NOSUCH").
Proof. split; vm_compute; reflexivity. Qed.
