(* ===== verification/Crc.v ===== *)
(** * storage/wal.cpp: CRC-32

    The table-driven checksum, the bit-by-bit definition it implements, and
    what it detects: a change confined to four consecutive bytes always
    changes the checksum. *)

From Stdlib Require Import ZArith Lia.
From stdpp Require Import base strings gmap numbers list list_numbers.
From S2P Require Import Prelude.
Open Scope list_scope.
Open Scope Z_scope.

(** ** The code *)

Definition CRC_POLY : Z := 0xEDB88320.

(** One pass of the inner loop of [init_crc32_table]. *)
Definition crc_bit (crc : Z) : Z :=
  if Z.odd crc then Z.lxor (Z.shiftr crc 1) CRC_POLY else Z.shiftr crc 1.

Definition crc_bits (n : nat) (crc : Z) : Z := Nat.iter n crc_bit crc.

Definition crc32_table : list Z := Eval vm_compute in (fun i => crc_bits 8 (Z.of_nat i)) <$> seq 0 256.

Definition crc_step (crc b : Z) : Z :=
  Z.lxor (Z.shiftr crc 8) (crc32_table !!! Z.to_nat (Z.land (Z.lxor crc b) 255)).

Definition crc32_compute (data : list Z) : Z := Z.lxor (foldl crc_step 0xFFFFFFFF data) 0xFFFFFFFF.

(** ** The definition: eight shifts of the polynomial per byte *)

Definition crc32_reference (data : list Z) : Z :=
  Z.lxor (foldl (fun crc b => crc_bits 8 (Z.lxor crc b)) 0xFFFFFFFF data) 0xFFFFFFFF.

(** ** Lemmas *)

Lemma crc_bit_lxor a b : crc_bit (Z.lxor a b) = Z.lxor (crc_bit a) (crc_bit b).
Proof.
  unfold crc_bit. rewrite <- !Z.bit0_odd, Z.lxor_spec, !Z.bit0_odd, Z.shiftr_lxor.
  destruct (Z.odd a), (Z.odd b); cbn [xorb]; [|rewrite !Z.lxor_assoc; f_equal; apply Z.lxor_comm|by rewrite Z.lxor_assoc|done].
  rewrite !Z.lxor_assoc. f_equal. rewrite <- Z.lxor_assoc, (Z.lxor_comm CRC_POLY), Z.lxor_assoc, Z.lxor_nilpotent. by rewrite Z.lxor_0_r.
Qed.

Lemma crc_bits_lxor n a b : crc_bits n (Z.lxor a b) = Z.lxor (crc_bits n a) (crc_bits n b).
Proof. unfold crc_bits. induction n as [|n IH]; [done|]. rewrite !Nat.iter_succ. by rewrite IH, crc_bit_lxor. Qed.

(** Low bits that are zero are only shifted out. *)
Lemma crc_bits_shift n x : crc_bits n (Z.shiftl x (Z.of_nat n)) = x.
Proof.
  unfold crc_bits. revert x. induction n as [|n IH]; intros x; [apply Z.shiftl_0_r|]. rewrite Nat.iter_succ_r.
  assert (E : crc_bit (Z.shiftl x (Z.of_nat (S n))) = Z.shiftl x (Z.of_nat n)).
  { unfold crc_bit. rewrite <- Z.bit0_odd, Z.shiftl_spec_low by lia. rewrite Z.shiftr_shiftl_l by lia. f_equal. lia. }
  by rewrite E.
Qed.

Lemma split_low x : x = Z.lxor (Z.shiftl (Z.shiftr x 8) 8) (Z.land x 255).
Proof.
  apply Z.bits_inj'. intros i Hi. rewrite Z.lxor_spec, Z.land_spec. change 255 with (Z.ones 8). rewrite Z.testbit_ones_nonneg by lia.
  destruct (Z.ltb_spec i 8).
  - by rewrite Z.shiftl_spec_low, andb_true_r by lia.
  - rewrite Z.shiftl_spec, Z.shiftr_spec by lia. rewrite andb_false_r, xorb_false_r. f_equal. lia.
Qed.

Lemma crc_table_spec i : 0 <= i < 256 -> crc32_table !!! Z.to_nat i = crc_bits 8 i.
Proof.
  intros Hi. assert (H : forallb (fun k => crc32_table !!! k =? crc_bits 8 (Z.of_nat k)) (seq 0 256) = true) by (vm_compute; reflexivity).
  rewrite forallb_forall in H. specialize (H (Z.to_nat i)). rewrite Z2Nat.id in H by lia. apply Z.eqb_eq, H.
  apply in_seq. lia.
Qed.

Lemma land_255 x : 0 <= Z.land x 255 < 256.
Proof. change 255 with (Z.ones 8). rewrite Z.land_ones by lia. apply Z.mod_pos_bound. lia. Qed.

(** One table step is eight bit steps. *)
Definition crc_byte (x : Z) : Z := Z.lxor (Z.shiftr x 8) (crc_bits 8 (Z.land x 255)).

Lemma crc_byte_bits x : crc_bits 8 x = crc_byte x.
Proof. rewrite (split_low x) at 1. rewrite crc_bits_lxor. by rewrite (crc_bits_shift 8). Qed.

Lemma crc_step_byte crc b : is_byte b -> crc_step crc b = crc_byte (Z.lxor crc b).
Proof.
  intros Hb. unfold crc_step, crc_byte. rewrite crc_table_spec by apply land_255. f_equal.
  rewrite Z.shiftr_lxor. unfold is_byte in Hb. rewrite (Z.shiftr_div_pow2 b) by lia. rewrite (Z.div_small b) by lia. by rewrite Z.lxor_0_r.
Qed.

(** *** Detection *)

Lemma lxor_u32 a b : is_u32 a -> is_u32 b -> is_u32 (Z.lxor a b).
Proof.
  unfold is_u32. intros Ha Hb. split; [apply Z.lxor_nonneg; lia|].
  destruct (Z.eq_dec (Z.lxor a b) 0) as [->|Hne]; [lia|]. apply Z.log2_lt_pow2.
  - pose proof (proj2 (Z.lxor_nonneg a b) ltac:(lia)). lia.
  - eapply Z.le_lt_trans; [apply Z.log2_lxor; lia|].
    assert (Hl : forall x, 0 <= x < 2 ^ 32 -> Z.log2 x < 32).
    { intros x Hx. destruct (Z.eq_dec x 0) as [->|]; [cbn; lia|]. apply Z.log2_lt_pow2; lia. }
    apply Z.max_lub_lt; apply Hl; lia.
Qed.

(** The top byte of a table entry determines its index. *)
Lemma crc_table_top i j : 0 <= i < 256 -> 0 <= j < 256 ->
  Z.shiftr (crc_bits 8 i) 24 = Z.shiftr (crc_bits 8 j) 24 -> i = j.
Proof.
  intros Hi Hj E.
  assert (H : NoDup ((fun e => Z.shiftr e 24) <$> crc32_table)) by (apply (bool_decide_unpack _); vm_compute; exact I).
  assert (Hlen : length crc32_table = 256%nat) by reflexivity.
  assert (Hnth : forall k, 0 <= k < 256 -> crc32_table !! Z.to_nat k = Some (crc_bits 8 k)).
  { intros k Hk. rewrite <- crc_table_spec by done. apply list_lookup_lookup_total_lt. rewrite Hlen. lia. }
  apply Z2Nat.inj; [lia..|]. eapply (NoDup_lookup _ _ _ (Z.shiftr (crc_bits 8 i) 24) H); rewrite list_lookup_fmap, Hnth by done; [done|]. exact (f_equal Some (eq_sym E)).
Qed.

Lemma crc_bits_8_u32 i : 0 <= i < 256 -> is_u32 (crc_bits 8 i).
Proof.
  intros Hi. rewrite <- crc_table_spec by done.
  assert (H : Forall is_u32 crc32_table).
  { apply Forall_forall. intros x Hx. assert (Hb : forallb (fun x => (0 <=? x) && (x <? 2 ^ 32)) crc32_table = true) by (vm_compute; reflexivity).
    rewrite forallb_forall in Hb. apply list_elem_of_In in Hx. apply Hb in Hx. apply andb_true_iff in Hx as [?%Z.leb_le ?%Z.ltb_lt]. split; lia. }
  eapply Forall_lookup_total_1; [exact H|]. assert (Hlen : length crc32_table = 256%nat) by reflexivity. rewrite Hlen. lia.
Qed.

Lemma crc_byte_u32 x : is_u32 x -> is_u32 (crc_byte x).
Proof.
  intros Hx. apply lxor_u32; [|apply crc_bits_8_u32, land_255]. unfold is_u32 in *. rewrite Z.shiftr_div_pow2 by lia.
  split; [apply Z.div_pos; lia|apply Z.div_lt_upper_bound; lia].
Qed.

Lemma lxor_cancel a b c : Z.lxor a c = Z.lxor b c -> a = b.
Proof.
  intros E. apply (f_equal (fun z => Z.lxor z c)) in E. by rewrite !Z.lxor_assoc, Z.lxor_nilpotent, !Z.lxor_0_r in E.
Qed.

Lemma crc_byte_inj x y : is_u32 x -> is_u32 y -> crc_byte x = crc_byte y -> x = y.
Proof.
  intros Hx Hy E. assert (Htop : forall z, is_u32 z -> Z.shiftr (crc_byte z) 24 = Z.shiftr (crc_bits 8 (Z.land z 255)) 24).
  { intros z Hz. unfold crc_byte. rewrite Z.shiftr_lxor, Z.shiftr_shiftr by lia. unfold is_u32 in Hz.
    rewrite (Z.shiftr_div_pow2 z), (Z.div_small z) by lia. apply Z.lxor_0_l. }
  assert (Hlow : Z.land x 255 = Z.land y 255) by (apply crc_table_top; [apply land_255..|]; by rewrite <- !Htop, E).
  unfold crc_byte in E. rewrite Hlow in E. apply lxor_cancel in E. rewrite (split_low x), (split_low y). by rewrite E, Hlow.
Qed.

(** Bytes fed in one by one act like one word. *)
Lemma crc_byte_word x y : crc_byte (Z.lxor x (Z.shiftl y 8)) = Z.lxor (crc_byte x) y.
Proof.
  unfold crc_byte. rewrite Z.shiftr_lxor, Z.shiftr_shiftl_l, Z.shiftl_0_r by lia.
  assert (E : Z.land (Z.lxor x (Z.shiftl y 8)) 255 = Z.land x 255).
  { apply Z.bits_inj'. intros i Hi. rewrite !Z.land_spec, Z.lxor_spec. change 255 with (Z.ones 8). rewrite Z.testbit_ones_nonneg by lia.
    destruct (Z.ltb_spec i 8); [|by rewrite !andb_false_r]. by rewrite Z.shiftl_spec_low, xorb_false_r by lia. }
  rewrite E, !Z.lxor_assoc. f_equal. apply Z.lxor_comm.
Qed.

Lemma le_val_cons b bs : le_val (b :: bs) = Z.lor b (Z.shiftl (le_val bs) 8).
Proof. reflexivity. Qed.

Lemma lor_lxor_byte b y : is_byte b -> Z.lor b (Z.shiftl y 8) = Z.lxor b (Z.shiftl y 8).
Proof.
  intros Hb. apply Z.bits_inj'. intros i Hi. rewrite Z.lor_spec, Z.lxor_spec. destruct (Z.ltb_spec i 8).
  - rewrite Z.shiftl_spec_low by lia. by rewrite orb_false_r, xorb_false_r.
  - unfold is_byte in Hb. rewrite (Z.bits_above_log2 b); [by destruct (Z.testbit _ _)|lia|].
    destruct (Z.eq_dec b 0) as [->|]; [cbn; lia|]. pose proof (Z.log2_lt_pow2 b 8). lia.
Qed.

Lemma foldl_crc_word w : Forall is_byte w -> forall crc,
  foldl crc_step crc w = Nat.iter (length w) crc_byte (Z.lxor crc (le_val w)).
Proof.
  induction 1 as [|b w Hb _ IH]; intros crc; [cbn; by rewrite Z.lxor_0_r|]. cbn [foldl length]. rewrite IH, Nat.iter_succ_r. f_equal.
  rewrite le_val_cons, lor_lxor_byte, <- Z.lxor_assoc by done. rewrite crc_byte_word. by rewrite crc_step_byte.
Qed.

Lemma foldl_crc_u32 w : Forall is_byte w -> forall crc, is_u32 crc -> is_u32 (foldl crc_step crc w).
Proof.
  induction 1 as [|b w Hb _ IH]; intros crc Hc; [done|]. cbn [foldl]. apply IH. rewrite crc_step_byte by done.
  apply crc_byte_u32, lxor_u32; [done|]. unfold is_byte, is_u32 in *. lia.
Qed.

Lemma iter_crc_byte_inj n : forall x y, is_u32 x -> is_u32 y -> Nat.iter n crc_byte x = Nat.iter n crc_byte y -> x = y.
Proof.
  induction n as [|n IH]; intros x y Hx Hy; [done|]. rewrite !Nat.iter_succ_r. intros E.
  apply crc_byte_inj; [done..|]. apply IH; [by apply crc_byte_u32..|done].
Qed.

Lemma foldl_crc_inj w crc crc' : Forall is_byte w -> is_u32 crc -> is_u32 crc' ->
  foldl crc_step crc w = foldl crc_step crc' w -> crc = crc'.
Proof.
  induction 1 as [|b w Hb _ IH] in crc, crc' |- *; intros Hc Hc'; [done|]. cbn [foldl]. intros E.
  assert (Hu : is_u32 b) by (unfold is_byte, is_u32 in *; lia).
  apply IH in E; rewrite ?crc_step_byte in * by done; [|by apply crc_byte_u32, lxor_u32..].
  apply crc_byte_inj in E; [|by apply lxor_u32..]. by apply lxor_cancel in E.
Qed.

(** Two messages that differ only in a window of at most four bytes. *)
Lemma crc32_window pre w w' post : (length w <= 4)%nat -> length w = length w' ->
  Forall is_byte pre -> Forall is_byte w -> Forall is_byte w' -> Forall is_byte post ->
  crc32_compute (pre ++ w ++ post) = crc32_compute (pre ++ w' ++ post) -> w = w'.
Proof.
  intros H4 Hlen Hpre Hw Hw' Hpost E. unfold crc32_compute in E. apply lxor_cancel in E. rewrite !foldl_app in E.
  set (c := foldl crc_step 0xFFFFFFFF pre) in *.
  assert (Hc : is_u32 c) by (apply foldl_crc_u32; [done|unfold is_u32; lia]).
  apply foldl_crc_inj in E; [|done|by apply foldl_crc_u32..]. rewrite !foldl_crc_word, Hlen in E by done.
  assert (Hv : forall v, (length v <= 4)%nat -> Forall is_byte v -> is_u32 (le_val v)).
  { intros v Hl Hv. pose proof (le_val_bound v Hv) as Hb. unfold is_u32. split; [lia|]. eapply Z.lt_le_trans; [apply Hb|]. apply Z.pow_le_mono_r; lia. }
  apply iter_crc_byte_inj in E; [|apply lxor_u32; [done|apply Hv; [lia|done]]..].
  rewrite !(Z.lxor_comm c) in E. apply lxor_cancel in E.
  rewrite <- (le_bytes_val (length w) w), <- (le_bytes_val (length w) w') by done. by rewrite E.
Qed.

Lemma crc32_u32 data : Forall is_byte data -> is_u32 (crc32_compute data).
Proof. intros. apply lxor_u32; [|unfold is_u32; lia]. apply foldl_crc_u32; [done|unfold is_u32; lia]. Qed.

(** ** Properties *)

(** C32: The table-driven checksum is the CRC-32 of the bit-by-bit definition. *)
Theorem crc32_is_reference data : Forall is_byte data -> crc32_compute data = crc32_reference data.
Proof.
  intros Hd. unfold crc32_compute, crc32_reference. f_equal. generalize 0xFFFFFFFF as crc.
  induction Hd as [|b data Hb _ IH]; intros crc; [done|]. cbn [foldl]. by rewrite IH, crc_step_byte, <- crc_byte_bits.
Qed.

(** The check value of CRC-32/ISO-HDLC: ["123456789"]. *)
Lemma crc32_is_reference_witness :
  crc32_compute [49; 50; 51; 52; 53; 54; 55; 56; 57] = crc32_reference [49; 50; 51; 52; 53; 54; 55; 56; 57] /\
  crc32_compute [49; 50; 51; 52; 53; 54; 55; 56; 57] = 0xCBF43926.
Proof. split; [apply crc32_is_reference; repeat constructor; unfold is_byte; lia|vm_compute; reflexivity]. Defined.
