(* ===== verification/Wal.v ===== *)
(** * storage/wal.{h,cpp}: the write-ahead log

    Files are byte lists in a map from paths; [can_open] says which paths can
    be opened for writing. A log is a sequence of records; the reader takes
    the longest valid prefix. A crash during [append] leaves a prefix of the
    record's bytes. *)

From Stdlib Require Import ZArith Lia Ascii.
From stdpp Require Import base strings gmap numbers list list_numbers.
From S2P Require Import Prelude Cpp Crc.
Open Scope string_scope.
Open Scope list_scope.
Open Scope Z_scope.

Abbreviation Files := (gmap string (list Z)).
Class CanOpen := can_open : string -> bool.

(** ** Records *)

Definition MAGIC : Z := 0xDA7ABA5E.
Definition MAX_PAYLOAD : Z := 10 * 1024 * 1024.

Record WALRecord := mkWALRecord {
  magic : Z;
  crc32 : Z;
  lsn : Z;
  payload_len : Z;
  sql : string;
}.

Definition wire_size (r : WALRecord) : Z := 4 + 4 + 8 + 4 + payload_len r.

(** [crc_buf] *)
Definition crc_buf (lsn payload_len : Z) (payload : list Z) : list Z := le_bytes 8 lsn ++ le_bytes 4 payload_len ++ payload.

(** The record [append] makes, and the bytes it writes. *)
Definition make_record (lsn : Z) (sql : string) : WALRecord :=
  let len := u32 (str_size sql) in
  mkWALRecord MAGIC (crc32_compute (crc_buf lsn len (string_bytes sql))) lsn len sql.

Definition record_bytes (r : WALRecord) : list Z :=
  le_bytes 4 (magic r) ++ le_bytes 4 (crc32 r) ++ le_bytes 8 (lsn r) ++ le_bytes 4 (payload_len r) ++ string_bytes (sql r).

(** ** Reader *)

(** [file.read(buf, n)] when it succeeds: the bytes and what follows. *)
Definition read_bytes (n : nat) (s : list Z) : option (list Z * list Z) :=
  if (n <=? length s)%nat then Some (take n s, drop n s) else None.

Definition read_record (s : list Z) : option (WALRecord * list Z) :=
  '(m, s) ← read_bytes 4 s;
  if negb (le_val m =? MAGIC) then None else
  '(c, s) ← read_bytes 4 s;
  '(l, s) ← read_bytes 8 s;
  '(p, s) ← read_bytes 4 s;
  let payload_len := le_val p in
  if MAX_PAYLOAD <? payload_len then None else
  '(payload, s) ← read_bytes (Z.to_nat payload_len) s;
  if negb (crc32_compute (crc_buf (le_val l) payload_len payload) =? le_val c) then None else
  Some (mkWALRecord (le_val m) (le_val c) (le_val l) payload_len (bytes_string payload), s).

(** [while (read_record(rec)) { ...; if (!cb(rec)) break; }]: [cb] on a state,
    the number of records read. A record has at least twenty bytes, so the
    length of the file is enough fuel. *)
Fixpoint replay_loop {A} (cb : WALRecord -> A -> outcome (A * bool)) (fuel : nat) (s : list Z) (a : A) (count : Z) : outcome (A * Z) :=
  match fuel with
  | O => Diverge
  | S fuel =>
      match read_record s with
      | None => Ret (a, count)
      | Some (rec, s) =>
          res ← cb rec a;
          if snd res : bool then replay_loop cb fuel s (fst res) (u64 (count + 1)) else Ret (fst res, u64 (count + 1))
      end
  end.

(** A file that does not exist is not open. *)
Definition replay {A} (files : Files) (path : string) (cb : WALRecord -> A -> outcome (A * bool)) (a : A) : outcome (A * Z) :=
  match files !! path with
  | None => Ret (a, 0)
  | Some s => replay_loop cb (S (length s)) s a 0
  end.

Definition read_all (files : Files) (path : string) : outcome (list WALRecord) :=
  res ← replay files path (fun rec records => Ret (records ++ [rec], true)) [];
  Ret (fst res).

(** ** Writer *)

Record WALWriter := mkWriter {
  path_ : string;
  is_open : bool;
  next_lsn_ : Z;
}.

Section writer.
Context `{CanOpen}.

(** Opening in append mode creates the file. *)
Definition open_append (files : Files) (path : string) : Files :=
  match files !! path with Some _ => files | None => <[path := []]> files end.

Definition WALWriter_new (files : Files) (wal_path : string) : outcome (WALWriter * Files) :=
  if negb (can_open wal_path) then Ret (mkWriter wal_path false 1, files) else
  let files := open_append files wal_path in
  records ← read_all files wal_path;
  Ret (mkWriter wal_path true (match last records with Some r => u64 (lsn r + 1) | None => 1 end), files).

(** The bytes reach the file when it is open. *)
Definition append (w : WALWriter) (files : Files) (sql : string) : Z * WALWriter * Files :=
  let rec := make_record (next_lsn_ w) sql in
  (lsn rec, mkWriter (path_ w) (is_open w) (u64 (next_lsn_ w + 1)),
   if is_open w then <[path_ w := default [] (files !! path_ w) ++ record_bytes rec]> files else files).

Definition truncate (w : WALWriter) (files : Files) : WALWriter * Files :=
  if can_open (path_ w) then (mkWriter (path_ w) true (next_lsn_ w), <[path_ w := []]> files)
  else (mkWriter (path_ w) false (next_lsn_ w), files).

Definition current_lsn (w : WALWriter) : Z := next_lsn_ w.
End writer.

(** ** What the reader makes of a log *)

(** The bytes of a log of statements. *)
Definition log_entry : Type := Z * string.
Definition entry_bytes (e : log_entry) : list Z := record_bytes (make_record e.1 e.2).
Definition log_bytes (es : list log_entry) : list Z := es ≫= entry_bytes.

(** The reader accepts what fits its limit. *)
Definition entry_ok (e : log_entry) : Prop := is_u64 e.1 /\ str_size e.2 <= MAX_PAYLOAD.

Lemma read_bytes_app bs s n : length bs = n -> read_bytes n (bs ++ s) = Some (bs, s).
Proof.
  intros <-. unfold read_bytes. rewrite length_app. destruct (Nat.leb_spec (length bs) (length bs + length s)); [|lia].
  by rewrite take_app_length, drop_app_length.
Qed.

Lemma read_bytes_short n s : (length s < n)%nat -> read_bytes n s = None.
Proof. intros. unfold read_bytes. destruct (Nat.leb_spec n (length s)); [lia|done]. Qed.

Lemma read_bytes_Some n s bs r : read_bytes n s = Some (bs, r) -> s = bs ++ r /\ length bs = n.
Proof.
  unfold read_bytes. destruct (Nat.leb_spec n (length s)); [|done]. intros [= <- <-]. split; [by rewrite take_drop|]. rewrite length_take. lia.
Qed.

Lemma le_val_le_bytes (n : Z) z : 0 <= n -> 0 <= z < 2 ^ (n * 8) -> le_val (le_bytes n z) = z.
Proof. intros. rewrite le_val_bytes by done. by apply Z.mod_small. Qed.

Lemma crc_buf_bytes l p bs : Forall is_byte bs -> Forall is_byte (crc_buf l p bs).
Proof. intros. unfold crc_buf. repeat apply Forall_app_2; auto using le_bytes_is_byte with lia; apply le_bytes_is_byte; lia. Qed.

Lemma read_record_entry e s : entry_ok e -> read_record (entry_bytes e ++ s) = Some (make_record e.1 e.2, s).
Proof.
  intros [Hl Hs]. unfold entry_bytes, record_bytes, read_record, make_record. cbn [magic crc32 lsn payload_len sql]. rewrite <- !app_assoc.
  unfold MAX_PAYLOAD in Hs. assert (Hsz : 0 <= str_size e.2) by (unfold str_size; lia).
  assert (Eu : u32 (str_size e.2) = str_size e.2) by (apply u32_small; width_lia). rewrite Eu.
  rewrite read_bytes_app by (apply (length_le_bytes 4)). cbn [mbind option_bind]. rewrite le_val_le_bytes by (unfold MAGIC; lia).
  rewrite Z.eqb_refl. cbn [negb]. rewrite read_bytes_app by (apply (length_le_bytes 4)). cbn [mbind option_bind].
  rewrite read_bytes_app by (apply (length_le_bytes 8)). cbn [mbind option_bind].
  rewrite read_bytes_app by (apply (length_le_bytes 4)). cbn [mbind option_bind].
  rewrite (le_val_le_bytes 4) by (width_lia). unfold MAX_PAYLOAD. destruct (Z.ltb_spec (10 * 1024 * 1024) (str_size e.2)); [lia|].
  rewrite read_bytes_app by (rewrite length_string_bytes; unfold str_size; lia). cbn [mbind option_bind].
  rewrite (le_val_le_bytes 8) by width_lia.
  rewrite (le_val_le_bytes 4 (crc32_compute _)); [|lia|apply crc32_u32, crc_buf_bytes, string_bytes_is_byte].
  rewrite Z.eqb_refl. cbn [negb]. by rewrite bytes_string_bytes.
Qed.

Lemma entry_length e : length (entry_bytes e) = (20 + String.length e.2)%nat.
Proof.
  unfold entry_bytes, record_bytes. rewrite !length_app, length_string_bytes. cbn [make_record sql].
  rewrite !(length_le_bytes 4), (length_le_bytes 8). lia.
Qed.

(** More bytes do not change what was read. *)
Lemma read_bytes_mono n s u bs r : read_bytes n s = Some (bs, r) -> read_bytes n (s ++ u) = Some (bs, r ++ u).
Proof. intros [-> Hl]%read_bytes_Some. rewrite <- app_assoc. by apply read_bytes_app. Qed.

(** What a record that is read looks like. *)
Lemma read_record_inv s r t : read_record s = Some (r, t) -> exists m c l p payload,
  s = m ++ c ++ l ++ p ++ payload ++ t /\ length m = 4%nat /\ length c = 4%nat /\ length l = 8%nat /\ length p = 4%nat /\
  le_val m = MAGIC /\ le_val p <= MAX_PAYLOAD /\ length payload = Z.to_nat (le_val p) /\
  crc32_compute (crc_buf (le_val l) (le_val p) payload) = le_val c /\
  r = mkWALRecord (le_val m) (le_val c) (le_val l) (le_val p) (bytes_string payload).
Proof.
  unfold read_record. intros H. destruct (read_bytes 4 s) as [[m s1]|] eqn:E1; [|done]. cbn [mbind option_bind] in H.
  destruct (Z.eqb_spec (le_val m) MAGIC) as [Em|]; [|done]. cbn [negb] in H.
  destruct (read_bytes 4 s1) as [[c s2]|] eqn:E2; [|done]. cbn [mbind option_bind] in H.
  destruct (read_bytes 8 s2) as [[l s3]|] eqn:E3; [|done]. cbn [mbind option_bind] in H.
  destruct (read_bytes 4 s3) as [[p s4]|] eqn:E4; [|done]. cbn [mbind option_bind] in H.
  destruct (Z.ltb_spec MAX_PAYLOAD (le_val p)); [done|].
  destruct (read_bytes _ s4) as [[payload s5]|] eqn:E5; [|done]. cbn [mbind option_bind] in H.
  destruct (Z.eqb_spec (crc32_compute (crc_buf (le_val l) (le_val p) payload)) (le_val c)); [|done]. cbn [negb] in H. injection H as <- <-.
  apply read_bytes_Some in E1 as [-> ?]. apply read_bytes_Some in E2 as [-> ?]. apply read_bytes_Some in E3 as [-> ?].
  apply read_bytes_Some in E4 as [-> ?]. apply read_bytes_Some in E5 as [-> ?]. exists m, c, l, p, payload. done.
Qed.

Lemma read_record_mono s u r t : read_record s = Some (r, t) -> read_record (s ++ u) = Some (r, t ++ u).
Proof.
  intros (m & c & l & p & payload & -> & Hm & Hc & Hl & Hp & Em & Hmax & Hlen & Hcrc & ->)%read_record_inv. unfold read_record.
  rewrite <- !app_assoc. rewrite read_bytes_app by done. cbn [mbind option_bind]. rewrite Em, Z.eqb_refl. cbn [negb].
  rewrite read_bytes_app by done. cbn [mbind option_bind]. rewrite read_bytes_app by done. cbn [mbind option_bind].
  rewrite read_bytes_app by done. cbn [mbind option_bind]. destruct (Z.ltb_spec MAX_PAYLOAD (le_val p)); [lia|].
  rewrite read_bytes_app by done. cbn [mbind option_bind]. rewrite Hcrc, Z.eqb_refl. done.
Qed.

(** A record cut short is not one. *)
Lemma read_record_torn e k : entry_ok e -> (k < length (entry_bytes e))%nat -> read_record (take k (entry_bytes e)) = None.
Proof.
  intros Hok Hk. destruct (read_record (take k (entry_bytes e))) as [[r t]|] eqn:E; [exfalso|done].
  apply (read_record_mono _ (drop k (entry_bytes e))) in E. rewrite take_drop in E.
  pose proof (read_record_entry e [] Hok) as E'. rewrite app_nil_r, E in E'. injection E' as _ Ht. apply app_nil in Ht as [_ Ht].
  apply (f_equal length) in Ht. rewrite length_drop in Ht. cbn in Ht. lia.
Qed.

(** A record over the reader's limit is written, but never read back. *)
Lemma oversized_record_unreadable e s : MAX_PAYLOAD < str_size e.2 < 2 ^ 32 -> read_record (entry_bytes e ++ s) = None.
Proof.
  intros Hs. unfold entry_bytes, record_bytes, read_record, make_record. cbn [magic crc32 lsn payload_len sql]. rewrite <- !app_assoc.
  unfold MAX_PAYLOAD in Hs. rewrite (u32_small (str_size e.2)) by width_lia.
  rewrite read_bytes_app by (apply (length_le_bytes 4)). cbn [mbind option_bind]. rewrite le_val_le_bytes by (unfold MAGIC; lia).
  rewrite Z.eqb_refl. cbn [negb]. rewrite read_bytes_app by (apply (length_le_bytes 4)). cbn [mbind option_bind].
  rewrite read_bytes_app by (apply (length_le_bytes 8)). cbn [mbind option_bind].
  rewrite read_bytes_app by (apply (length_le_bytes 4)). cbn [mbind option_bind].
  rewrite (le_val_le_bytes 4) by (width_lia). unfold MAX_PAYLOAD. destruct (Z.ltb_spec (10 * 1024 * 1024) (str_size e.2)); [done|lia].
Qed.

(** ** Replaying a log *)

Definition entry_record (e : log_entry) : WALRecord := make_record e.1 e.2.

(** The callback on the records in turn, until it says stop. *)
Fixpoint run_records {A} (cb : WALRecord -> A -> outcome (A * bool)) (recs : list WALRecord) (a : A) (count : Z) : outcome (A * Z) :=
  match recs with
  | [] => Ret (a, count)
  | rec :: recs =>
      res ← cb rec a;
      if snd res : bool then run_records cb recs (fst res) (u64 (count + 1)) else Ret (fst res, u64 (count + 1))
  end.

Lemma replay_loop_log {A} (cb : WALRecord -> A -> outcome (A * bool)) es tail : Forall entry_ok es -> read_record tail = None ->
  forall fuel a n, (length es < fuel)%nat -> replay_loop cb fuel (log_bytes es ++ tail) a n = run_records cb (entry_record <$> es) a n.
Proof.
  intros Hes Htail. induction Hes as [|e es He _ IH]; intros [|fuel] a n Hf; try (cbn in Hf; lia); cbn [replay_loop].
  - cbn. by rewrite Htail.
  - unfold log_bytes in *. cbn [mbind list_bind fmap list_fmap]. rewrite <- app_assoc, read_record_entry by done. cbn [run_records].
    fold (entry_record e). destruct (cb (entry_record e) a) as [[a' []]| | |]; outcome_simpl; cbn [fst snd]; [|done..].
    apply IH. cbn in Hf. lia.
Qed.

Lemma log_length es : (length es <= length (log_bytes es))%nat.
Proof.
  unfold log_bytes. induction es as [|e es IH]; [done|]. cbn [mbind list_bind length]. rewrite length_app, entry_length. cbn. lia.
Qed.

Lemma replay_log {A} files path (cb : WALRecord -> A -> outcome (A * bool)) a es tail : Forall entry_ok es -> read_record tail = None ->
  files !! path = Some (log_bytes es ++ tail) -> replay files path cb a = run_records cb (entry_record <$> es) a 0.
Proof.
  intros Hes Ht E. unfold replay. rewrite E. apply replay_loop_log; [done..|]. rewrite length_app. pose proof (log_length es). lia.
Qed.

Lemma run_records_all recs : forall acc n, exists n',
  run_records (fun rec records => Ret (records ++ [rec], true)) recs acc n = Ret (acc ++ recs, n').
Proof.
  induction recs as [|r recs IH]; intros acc n; cbn [run_records]; [exists n; by rewrite app_nil_r|]. outcome_simpl. cbn [fst snd].
  destruct (IH (acc ++ [r]) (u64 (n + 1))) as [n' ->]. exists n'. by rewrite <- app_assoc.
Qed.

Lemma read_all_log files path es tail : Forall entry_ok es -> read_record tail = None ->
  files !! path = Some (log_bytes es ++ tail) -> read_all files path = Ret (entry_record <$> es).
Proof.
  intros Hes Ht E. unfold read_all. rewrite (replay_log files path _ [] es tail Hes Ht E).
  destruct (run_records_all (entry_record <$> es) [] 0) as [n' ->]. done.
Qed.

(** ** Damage *)

(** The same window of two byte strings, away from where they differ. *)
Lemma slice_same (a n : nat) (pre w w' post : list Z) : length w = length w' ->
  (length pre + length w <= a \/ a + n <= length pre)%nat ->
  take n (drop a (pre ++ w ++ post)) = take n (drop a (pre ++ w' ++ post)).
Proof.
  intros Hl [H|H].
  - rewrite !(drop_app_ge pre), !drop_app_ge by lia. by rewrite Hl.
  - rewrite !(drop_app_le pre) by lia. rewrite !take_app_le by (rewrite length_drop; lia). done.
Qed.

Lemma le_val_inj bs bs' : length bs = length bs' -> Forall is_byte bs -> Forall is_byte bs' -> le_val bs = le_val bs' -> bs = bs'.
Proof. intros Hl H H' E. rewrite <- (le_bytes_val (length bs) bs), <- (le_bytes_val (length bs') bs') by done. by rewrite E, Hl. Qed.

Lemma app_eq_lengths {A} (a b c d : list A) : length a = length c -> a ++ b = c ++ d -> a = c /\ b = d.
Proof. intros Hl E. by apply app_inj_1. Qed.

(** The fields of a record's bytes. *)
Lemma entry_fields e : entry_ok e -> exists m c l p y,
  entry_bytes e = m ++ c ++ l ++ p ++ y /\ length m = 4%nat /\ length c = 4%nat /\ length l = 8%nat /\ length p = 4%nat /\
  Forall is_byte m /\ Forall is_byte c /\ Forall is_byte (l ++ p ++ y) /\
  le_val m = MAGIC /\ le_val p = Z.of_nat (length y) /\ crc32_compute (l ++ p ++ y) = le_val c.
Proof.
  intros [Hl Hs]. unfold MAX_PAYLOAD in Hs. assert (Hsz : 0 <= str_size e.2) by (unfold str_size; lia).
  assert (Eu : u32 (str_size e.2) = str_size e.2) by (apply u32_small; width_lia).
  unfold entry_bytes, record_bytes, make_record. cbn [magic crc32 lsn payload_len sql]. rewrite Eu.
  eexists _, _, _, _, _. split; [reflexivity|]. do 3 (split; [by rewrite ?(length_le_bytes 4), ?(length_le_bytes 8)|]).
  split; [by rewrite (length_le_bytes 4)|]. do 2 (split; [apply le_bytes_is_byte; lia|]).
  split; [apply crc_buf_bytes, string_bytes_is_byte|]. split; [apply le_val_le_bytes; unfold MAGIC; lia|].
  split; [rewrite le_val_le_bytes by width_lia; unfold str_size; by rewrite length_string_bytes|].
  unfold crc_buf. rewrite (le_val_le_bytes 4); [done|lia|apply crc32_u32, (crc_buf_bytes _ _ _ (string_bytes_is_byte _))].
Qed.

(** Damage keeps the length field, so the fields of what is read line up. *)
Lemma damaged_fields e pre w w' post tail r t : entry_ok e -> entry_bytes e = pre ++ w ++ post -> length w = length w' ->
  (length pre + length w <= 16 \/ 20 <= length pre)%nat -> Forall is_byte (pre ++ w' ++ post) ->
  read_record ((pre ++ w' ++ post) ++ tail) = Some (r, t) -> exists m c l p y,
    pre ++ w' ++ post = m ++ c ++ l ++ p ++ y /\ length m = 4%nat /\ length c = 4%nat /\ length l = 8%nat /\
    le_val m = MAGIC /\ crc32_compute (l ++ p ++ y) = le_val c.
Proof.
  intros Hok Eb Hlen Hpos Hbytes E.
  apply read_record_inv in E as (m & c & l & p & y & E & Hm & Hc & Hl & Hp & Em & _ & Hpl & Hcrc & _).
  destruct (entry_fields e Hok) as (m0 & c0 & l0 & p0 & y0 & Ee & Hm0 & Hc0 & Hl0 & Hp0 & _ & _ & _ & _ & Ep0 & _).
  assert (Hsize : length (pre ++ w' ++ post) = (20 + length y0)%nat).
  { apply (f_equal length) in Ee. rewrite Eb in Ee. rewrite !length_app in *. lia. }
  assert (Esl : take 4 (drop 16 (pre ++ w' ++ post)) = p0).
  { rewrite <- (slice_same 16 4 pre w w' post) by lia. rewrite <- Eb, Ee.
    rewrite !drop_app_ge by lia. rewrite Hm0, Hc0, Hl0. cbn [Nat.sub]. rewrite drop_0. by apply take_app_length'. }
  assert (Ep : p = p0).
  { rewrite <- Esl. assert (take 4 (drop 16 ((pre ++ w' ++ post) ++ tail)) = take 4 (drop 16 (pre ++ w' ++ post))) as <-.
    { rewrite drop_app_le by lia. rewrite take_app_le; [done|]. rewrite length_drop. lia. }
    rewrite E. rewrite !drop_app_ge by lia. rewrite Hm, Hc, Hl. cbn [Nat.sub]. rewrite drop_0. symmetry. by apply take_app_length'. }
  subst p. rewrite Ep0, Nat2Z.id in Hpl.
  assert (E' : pre ++ w' ++ post = m ++ c ++ l ++ p0 ++ y).
  { assert (Eq : (pre ++ w' ++ post) ++ tail = (m ++ c ++ l ++ p0 ++ y) ++ t) by (rewrite E, <- !app_assoc; done).
    apply app_eq_lengths in Eq as [Eq _]; [done|]. rewrite Hsize, !length_app. lia. }
  exists m, c, l, p0, y. split; [done|]. do 4 (split; [done|]). rewrite E' in Hbytes. rewrite <- Hcrc. unfold crc_buf.
  apply Forall_app in Hbytes as [_ Hbytes]. apply Forall_app in Hbytes as [_ Hbytes]. apply Forall_app in Hbytes as [Hbl Hbytes].
  apply Forall_app in Hbytes as [Hbp _]. by rewrite (le_bytes_val 8), (le_bytes_val 4).
Qed.

Lemma header_split (m c x : list Z) : length m = 4%nat -> length c = 4%nat ->
  drop 8 (m ++ c ++ x) = x /\ take 8 (m ++ c ++ x) = m ++ c.
Proof.
  intros Hm Hc. rewrite app_assoc. assert (length (m ++ c) = 8%nat) by (rewrite length_app; lia).
  split; [by apply drop_app_length'|by apply take_app_length'].
Qed.

(** A damaged record is not read. *)
Lemma read_record_damaged e pre w w' post tail : entry_ok e -> entry_bytes e = pre ++ w ++ post ->
  length w = length w' -> (length w <= 4)%nat -> w <> w' -> Forall is_byte w' ->
  (length pre + length w <= 8 \/ (8 <= length pre /\ length pre + length w <= 16) \/ 20 <= length pre)%nat ->
  read_record ((pre ++ w' ++ post) ++ tail) = None.
Proof.
  intros Hok Eb Hlen H4 Hne Hw' Hpos.
  destruct (entry_fields e Hok) as (m0 & c0 & l0 & p0 & y0 & Ee & Hm0 & Hc0 & Hl0 & Hp0 & Bm0 & Bc0 & Bd0 & Em0 & _ & Ecrc0).
  assert (Hb : Forall is_byte (pre ++ w ++ post)) by (rewrite <- Eb, Ee, !app_assoc, Forall_app, <- !app_assoc in *; rewrite ?Forall_app in *; tauto).
  apply Forall_app in Hb as [Bpre Hb]. apply Forall_app in Hb as [Bw Bpost].
  assert (Hb' : Forall is_byte (pre ++ w' ++ post)) by (rewrite !Forall_app; done).
  destruct (read_record ((pre ++ w' ++ post) ++ tail)) as [[r t]|] eqn:E; [exfalso|done].
  destruct (damaged_fields e pre w w' post tail r t) as (m & c & l & p & y & E' & Hm & Hc & Hl & Em & Ecrc); [done|done|done|lia|done|done|].
  rewrite Eb in Ee. apply Hne. destruct Hpos as [Hpos|Hpos].
  - assert (Ed : l ++ p ++ y = l0 ++ p0 ++ y0).
    { assert (H8 : drop 8 (pre ++ w ++ post) = drop 8 (pre ++ w' ++ post)) by (rewrite !(drop_app_ge pre), !drop_app_ge by lia; by rewrite Hlen).
      rewrite E', Ee in H8. by rewrite (proj1 (header_split m c _ Hm Hc)), (proj1 (header_split m0 c0 _ Hm0 Hc0)) in H8. }
    rewrite E' in Hb'. apply Forall_app in Hb' as [Bm Hb']. apply Forall_app in Hb' as [Bc _].
    assert (c = c0) as -> by (apply le_val_inj; [congruence|done|done|]; rewrite <- Ecrc, <- Ecrc0; by rewrite Ed).
    assert (m = m0) as -> by (apply le_val_inj; [congruence|done|done|congruence]).
    rewrite Ed, <- Ee in E'. by apply app_inv_head, app_inv_tail in E'.
  - assert (H8 : (8 <= length pre)%nat) by lia.
    assert (Etake : take 8 (pre ++ w ++ post) = take 8 (pre ++ w' ++ post)) by (rewrite !take_app_le by lia; done).
    rewrite E', Ee in Etake. rewrite (proj2 (header_split m c _ Hm Hc)), (proj2 (header_split m0 c0 _ Hm0 Hc0)) in Etake.
    apply app_eq_lengths in Etake as [<- <-]; [|congruence].
    assert (Hdrop : forall v, drop 8 (pre ++ v ++ post) = drop 8 pre ++ v ++ post) by (intros; by rewrite drop_app_le by lia).
    assert (Hd0 : drop 8 pre ++ w ++ post = l0 ++ p0 ++ y0).
    { rewrite <- Hdrop, Ee. by apply header_split. }
    assert (Hd1 : drop 8 pre ++ w' ++ post = l ++ p ++ y).
    { rewrite <- Hdrop, E'. by apply header_split. }
    eapply (crc32_window (drop 8 pre) w w' post); [done..|by apply Forall_drop|done|done|done|]. by rewrite Hd0, Hd1, Ecrc, Ecrc0.
Qed.

(** ** The writer *)

Section appends.
Context `{CanOpen}.

Fixpoint append_all (w : WALWriter) (files : Files) (sqls : list string) : WALWriter * Files :=
  match sqls with
  | [] => (w, files)
  | sql :: sqls => let '(_, w, files) := append w files sql in append_all w files sqls
  end.

(** The log of statements numbered from [n] on. *)
Fixpoint numbered_log (n : Z) (sqls : list string) : list log_entry :=
  match sqls with [] => [] | sql :: sqls => (n, sql) :: numbered_log (n + 1) sqls end.

Lemma numbered_log_ok n sqls : 0 <= n -> n + Z.of_nat (length sqls) <= 2 ^ 64 ->
  Forall (fun sql => str_size sql <= MAX_PAYLOAD) sqls -> Forall entry_ok (numbered_log n sqls).
Proof.
  intros Hn Hlen Hs. induction Hs as [|sql sqls Hsz _ IH] in n, Hn, Hlen |- *; cbn [numbered_log length] in *; [constructor|].
  constructor; [split; [cbn; unfold is_u64; lia|done]|apply IH; lia].
Qed.

Lemma append_all_log sqls : forall w files bytes, is_open w = true -> files !! path_ w = Some bytes ->
  0 <= next_lsn_ w -> next_lsn_ w + Z.of_nat (length sqls) < 2 ^ 64 ->
  append_all w files sqls = (mkWriter (path_ w) true (next_lsn_ w + Z.of_nat (length sqls)),
    match sqls with [] => files | _ => <[path_ w := bytes ++ log_bytes (numbered_log (next_lsn_ w) sqls)]> files end).
Proof.
  induction sqls as [|sql sqls IH]; intros w files bytes Ho Hf Hn Hlen; cbn [append_all numbered_log length] in *.
  { f_equal. destruct w; cbn in *. f_equal; [done|lia]. }
  unfold append. rewrite Ho, Hf. cbn [default from_option id]. rewrite u64_small by width_lia.
  rewrite (IH _ _ (bytes ++ entry_bytes (next_lsn_ w, sql))); cbn [path_ is_open next_lsn_ entry_bytes fst snd]; [|done|by rewrite lookup_insert_eq|lia..].
  f_equal; [f_equal; lia|]. destruct sqls as [|sql' sqls].
  - f_equal. cbn [numbered_log]. unfold log_bytes. cbn. by rewrite app_nil_r.
  - rewrite insert_insert_eq. f_equal. unfold log_bytes. cbn [mbind list_bind numbered_log]. by rewrite <- app_assoc.
Qed.
End appends.

(** ** Properties *)

(** C18: Crash safety of the log: open a new log, append any statements, and
    crash at any byte of a further append: reading the file back gives exactly
    the statements appended before, in order, with the LSNs 1, 2, 3 and so on,
    and the interrupted one is not seen. *)
Theorem wal_crash_safe `{CanOpen} files path sqls next k :
  can_open path = true -> files !! path = None -> Forall (fun sql => str_size sql <= MAX_PAYLOAD) (next :: sqls) ->
  Z.of_nat (length sqls) < 2 ^ 63 -> (k < length (entry_bytes ((1 + Z.of_nat (length sqls))%Z, next)))%nat ->
  exists w files' bytes, (p ← WALWriter_new files path; Ret (append_all (fst p) (snd p) sqls)) = Ret (w, files') /\
    files' !! path = Some bytes /\
    read_all (<[path := bytes ++ take k (record_bytes (make_record (current_lsn w) next))]> files') path =
      Ret (imap (fun i sql => make_record (1 + Z.of_nat i) sql) sqls).
Proof.
  intros Hopen Hf [Hnext Hs]%Forall_cons Hlen Hk. unfold WALWriter_new. rewrite Hopen. cbn [negb]. unfold open_append. rewrite Hf.
  assert (Hempty : read_all (<[path := []]> files) path = Ret []).
  { apply (read_all_log _ _ [] []); [constructor|done|by rewrite lookup_insert_eq]. }
  rewrite Hempty. outcome_simpl. cbn [fst snd last].
  rewrite (append_all_log sqls _ _ []); cbn [path_ is_open next_lsn_]; [|done|by rewrite lookup_insert_eq|lia..].
  set (files' := match sqls with [] => _ | _ => _ end).
  assert (Hbytes : files' !! path = Some (log_bytes (numbered_log 1 sqls))).
  { unfold files'. destruct sqls; rewrite lookup_insert_eq; done. }
  eexists _, files', _. split; [reflexivity|]. split; [exact Hbytes|].
  assert (Hok : entry_ok (1 + Z.of_nat (length sqls), next)) by (split; [cbn; unfold is_u64; lia|done]).
  rewrite (read_all_log _ _ (numbered_log 1 sqls) (take k (entry_bytes (1 + Z.of_nat (length sqls), next))));
    [|apply numbered_log_ok; [lia|lia|done]|by apply read_record_torn|by rewrite lookup_insert_eq].
  f_equal. clear. change (fun i sql => make_record (1 + Z.of_nat i) sql) with (fun (i : nat) (sql : string) => make_record (1 + Z.of_nat i) sql).
  generalize 1 as n. induction sqls as [|sql sqls IH]; intros n; [done|]. cbn [numbered_log fmap list_fmap]. rewrite imap_cons. f_equal.
  - unfold entry_record. cbn. f_equal. lia.
  - rewrite IH. apply imap_ext. intros. cbn. f_equal. lia.
Qed.

(** C19: Short corruption: change up to four consecutive bytes of a record —
    inside its magic and checksum, its LSN, or its payload, but not its length
    field — and the reader delivers exactly the records before it: the damaged
    one is never delivered. (A CRC of 32 bits cannot detect every longer damage.) *)
Theorem wal_detects_damage files path es e pre w w' post tail : Forall entry_ok es -> entry_ok e ->
  entry_bytes e = pre ++ w ++ post -> length w = length w' -> (length w <= 4)%nat -> w <> w' -> Forall is_byte w' ->
  (length pre + length w <= 8 \/ (8 <= length pre /\ length pre + length w <= 16) \/ 20 <= length pre)%nat ->
  files !! path = Some (log_bytes es ++ (pre ++ w' ++ post) ++ tail) -> read_all files path = Ret (entry_record <$> es).
Proof. intros Hes He Eb Hl H4 Hne Hw' Hpos Hf. eapply read_all_log; [done| |exact Hf]. by eapply read_record_damaged. Qed.

(** *** A concrete log *)

#[export] Instance open_always : CanOpen := fun _ => true.

Definition sample_sqls : list string := ["CREATE TABLE t (a INT)"; "INSERT INTO t VALUES (1)"].

Lemma wal_crash_safe_witness : exists w files' bytes,
  (p ← WALWriter_new ∅ "wal.log"; Ret (append_all (fst p) (snd p) sample_sqls)) = Ret (w, files') /\
  files' !! "wal.log" = Some bytes /\
  read_all (<["wal.log" := bytes ++ take 25 (record_bytes (make_record (current_lsn w) "INSERT INTO t VALUES (2)"))]> files') "wal.log" =
    Ret (imap (fun i sql => make_record (1 + Z.of_nat i) sql) sample_sqls).
Proof.
  apply (wal_crash_safe ∅ "wal.log" sample_sqls "INSERT INTO t VALUES (2)" 25);
    [done|done|repeat (constructor; [vm_compute; discriminate|]); constructor|cbn; lia|rewrite entry_length; cbn; lia].
Defined.

(** The first digit of the LSN of the second record, changed. *)
Lemma wal_detects_damage_witness : exists pre w post, entry_bytes (2, "INSERT INTO t VALUES (1)") = pre ++ w ++ post /\
  read_all {["wal.log" := log_bytes [(1, "CREATE TABLE t (a INT)")] ++ (pre ++ [7] ++ post) ++ []]} "wal.log" =
    Ret (entry_record <$> [(1, "CREATE TABLE t (a INT)")]).
Proof.
  exists (take 8 (entry_bytes (2, "INSERT INTO t VALUES (1)"))), [2], (drop 9 (entry_bytes (2, "INSERT INTO t VALUES (1)"))).
  split; [vm_compute; reflexivity|].
  eapply (wal_detects_damage _ "wal.log" [(1, "CREATE TABLE t (a INT)")] (2, "INSERT INTO t VALUES (1)") _ [2] [7]);
    [apply Forall_singleton|..|reflexivity]; try (split; [unfold is_u64; cbn; lia|vm_compute; discriminate]);
    [vm_compute; reflexivity|done|cbn; lia|done
    |repeat constructor; unfold is_byte; lia|right; left; vm_compute; lia].
Defined.

(** After a crash in the middle of an append the torn bytes stay in the file:
    what is appended after a restart lies behind them, and is never read. *)
Example torn_tail_hides_appends :
  let torn := {["wal.log" := log_bytes [(1, "CREATE TABLE t (a INT)")] ++ take 30 (entry_bytes (2, "INSERT INTO t VALUES (1)"))]} in
  exists w files, WALWriter_new torn "wal.log" = Ret (w, files) /\
    (let '(w, files) := append_all w files ["INSERT INTO t VALUES (2)"; "INSERT INTO t VALUES (3)"] in
     read_all files "wal.log") = Ret [make_record 1 "CREATE TABLE t (a INT)"].
Proof. eexists _, _. split; [vm_compute; reflexivity|]. vm_compute. reflexivity. Qed.

(** A checkpoint empties the log; a restart then numbers from 1 again. *)
Example lsn_restarts :
  (p ← WALWriter_new ∅ "wal.log";
   let (w, files) := append_all (fst p) (snd p) sample_sqls in
   let (w, files) := truncate w files in
   q ← WALWriter_new files "wal.log"; Ret (current_lsn w, current_lsn (fst q))) = Ret (3, 1).
Proof. vm_compute. reflexivity. Qed.
