(* ===== verification/Snapshot.v ===== *)
(** * storage/snapshot.{h,cpp}: the binary snapshot

    [save] writes every table — schema and visible rows — to a temporary file
    and renames it; [load] reads it back and inserts the rows into new tables.
    A [loader] consumes bytes and stops with an error message. The loops run
    as often as the counts in the file say. *)

From Stdlib Require Import ZArith Lia Ascii.
From stdpp Require Import base strings gmap numbers list list_numbers.
From S2P Require Import Prelude Cpp Common Schema Arena BPTree Table Wal.
Open Scope string_scope.
Open Scope list_scope.
Open Scope Z_scope.

Definition SNAPSHOT_MAGIC : Z := 0x534849564451534E.
Definition SNAPSHOT_VERSION : Z := 1.
Definition MAX_STR : Z := 10 * 1024 * 1024.

(** ** Writing *)

Definition write_u8 (v : Z) : list Z := le_bytes 1 v.
Definition write_u16 (v : Z) : list Z := le_bytes 2 v.
Definition write_u32 (v : Z) : list Z := le_bytes 4 v.
Definition write_u64 (v : Z) : list Z := le_bytes 8 v.
Definition write_str (s : string) : list Z :=
  let len := u32 (str_size s) in write_u32 len ++ take (Z.to_nat len) (string_bytes s).

Definition save_column (col : ColumnDef) : list Z :=
  write_str (col_name col) ++ write_u8 (byte_of_dt (col_type col)) ++ write_u16 (max_len col).

Definition save_value (v : Value) : list Z :=
  write_u8 (byte_of_dt (value_type v)) ++
  match v with
  | VInt z => le_bytes 4 z
  | VDec b => le_bytes 8 b
  | VStr s => write_str s
  | VDt z => le_bytes 8 z
  | VRaw _ => []
  end.

Definition save_row (row : Row) : list Z := write_u32 (u32 (Z.of_nat (length row))) ++ (row ≫= save_value).

Definition save_table (clock : nat -> Z) (name : string) (table : Table) : outcome (list Z) :=
  let schema := schema_ table in
  rows ← scan_all table clock;
  Ret (write_str name ++
       write_u32 (u32 (Z.of_nat (num_columns schema))) ++ (columns_ schema ≫= save_column) ++
       write_u64 (u64 (Z.of_nat (length rows))) ++ (rows ≫= save_row)).

(** The tables in the map's iteration order; [clock name i] is the time at
    which row [i] of a table is checked. *)
Fixpoint save_tables (clock : string -> nat -> Z) (tables : list (string * Table)) : outcome (list Z) :=
  match tables with
  | [] => Ret []
  | p :: tables =>
      bytes ← save_table (clock p.1) p.1 p.2;
      rest ← save_tables clock tables;
      Ret (bytes ++ rest)
  end.

Definition save_bytes (clock : string -> nat -> Z) (tables : list (string * Table)) (last_wal_lsn : Z) : outcome (list Z) :=
  body ← save_tables clock tables;
  Ret (write_u64 SNAPSHOT_MAGIC ++ write_u64 SNAPSHOT_VERSION ++ write_u64 last_wal_lsn ++
       write_u32 (u32 (Z.of_nat (length tables))) ++ body).

Class CanRename := can_rename : string -> string -> bool.

(** [save(path, tables, last_wal_lsn, error)]: the error, if any. *)
Definition save `{CanOpen, CanRename} (files : Files) (path : string) (clock : string -> nat -> Z) (tables : list (string * Table))
    (last_wal_lsn : Z) : outcome (option string * Files) :=
  let tmp_path := path +:+ ".tmp" in
  if negb (can_open tmp_path) then Ret (Some ("Cannot open snapshot file for writing: " +:+ tmp_path), files) else
  bytes ← save_bytes clock tables last_wal_lsn;
  if can_rename tmp_path path then Ret (None, <[path := bytes]> (delete tmp_path files))
  else Ret (Some ("Cannot rename snapshot temp file to: " +:+ path), <[tmp_path := bytes]> files).

(** ** Reading *)

Definition loader (A : Type) : Type := list Z -> outcome (string + (A * list Z)).

#[export] Instance loader_ret : MRet loader := fun A a s => Ret (inr (a, s)).
#[export] Instance loader_bind : MBind loader := fun A B f m s =>
  res ← m s;
  match res with
  | inl err => Ret (inl err)
  | inr (a, s) => f a s
  end.

Definition load_fail {A} (err : string) : loader A := fun _ => Ret (inl err).
Definition load_lift {A} (o : outcome A) : loader A := fun s => a ← o; Ret (inr (a, s)).

(** [if (!file.read(buf, n)) { error; return; }] *)
Definition load_bytes (n : nat) (err : string) : loader (list Z) := fun s =>
  match read_bytes n s with
  | Some (bs, s) => Ret (inr (bs, s))
  | None => Ret (inl err)
  end.

Definition load_uint (n : nat) (err : string) : loader Z := bs ← load_bytes n err; mret (le_val bs).

Definition load_str (err : string) : loader string :=
  len ← load_uint 4 err;
  if MAX_STR <? len then load_fail err else
  bs ← load_bytes (Z.to_nat len) err;
  mret (bytes_string bs).

Fixpoint load_columns (n : nat) (err : string) (schema : Schema) : loader Schema :=
  match n with
  | O => mret schema
  | S n =>
      name ← load_str err;
      type_byte ← load_uint 1 err;
      max_len ← load_uint 2 err;
      load_columns n err (add_column schema name (dt_of_byte type_byte) max_len)
  end.

Definition load_value : loader Value :=
  type_byte ← load_uint 1 "Cannot read value type";
  match dt_of_byte type_byte with
  | INT => bs ← load_bytes 4 "Cannot read INT value"; mret (VInt (s32 (le_val bs)))
  | DECIMAL => bs ← load_bytes 8 "Cannot read DECIMAL value"; mret (VDec (le_val bs))
  | VARCHAR => s ← load_str "Cannot read VARCHAR value"; mret (VStr s)
  | DATETIME => bs ← load_bytes 8 "Cannot read DATETIME value"; mret (VDt (s64 (le_val bs)))
  | DT_raw b => mret (VRaw b)
  end.

Fixpoint load_values (n : nat) (row : Row) : loader Row :=
  match n with
  | O => mret row
  | S n => val ← load_value; load_values n (row ++ [val])
  end.

Section load.
Context `{malloc : Malloc}.

(** [clock r] is the time row number [r] is inserted. *)
Fixpoint load_rows (n : nat) (r : nat) (clock : nat -> Z) (table_name : string) (table : Table) : loader Table :=
  match n with
  | O => mret table
  | S n =>
      num_vals ← load_uint 4 ("Cannot read row values for table: " +:+ table_name);
      row ← load_values (Z.to_nat num_vals) [];
      res ← load_lift (Table.insert table (clock r) row);
      match fst res with
      | Some err => load_fail ("Cannot insert row during snapshot load: " +:+ err)
      | None => load_rows n (S r) clock table_name (snd res)
      end
  end.

Definition load_table (clock : string -> nat -> Z) : loader (string * Table) :=
  table_name ← load_str "Cannot read table name";
  num_cols ← load_uint 4 ("Cannot read column count for table: " +:+ table_name);
  schema ← load_columns (Z.to_nat num_cols) ("Cannot read column def for table: " +:+ table_name) Schema_empty;
  table ← load_lift (Table_new table_name schema DEFAULT_TTL_SECONDS);
  num_rows ← load_uint 8 ("Cannot read row count for table: " +:+ table_name);
  table ← load_rows (Z.to_nat num_rows) 0 (clock table_name) table_name table;
  mret (table_name, table).

Fixpoint load_tables (n : nat) (clock : string -> nat -> Z) (tables : gmap string Table) : loader (gmap string Table) :=
  match n with
  | O => mret tables
  | S n => p ← load_table clock; load_tables n clock (<[fst p := snd p]> tables)
  end.

(** The version that is printed when it could not be read is indeterminate in
    the code, zero here. *)
Definition load_file (clock : string -> nat -> Z) : loader (Z * gmap string Table) :=
  magic ← load_uint 8 "Invalid snapshot magic";
  if negb (magic =? SNAPSHOT_MAGIC) then load_fail "Invalid snapshot magic" else
  version ← load_uint 8 "Unsupported snapshot version: 0";
  if negb (version =? SNAPSHOT_VERSION) then load_fail ("Unsupported snapshot version: " +:+ to_string_Z version) else
  last_wal_lsn ← load_uint 8 "Cannot read WAL LSN from snapshot";
  num_tables ← load_uint 4 "Cannot read table count from snapshot";
  tables ← load_tables (Z.to_nat num_tables) clock ∅;
  mret (last_wal_lsn, tables).

(** [load(path)]: the error, or the LSN and the tables. The caller does not
    look at the tables of a failed load. *)
Definition load (files : Files) (path : string) (clock : string -> nat -> Z) : outcome (string + (Z * gmap string Table)) :=
  match files !! path with
  | None => Ret (inl ("Snapshot file not found: " +:+ path))
  | Some bytes =>
      res ← load_file clock bytes;
      Ret (match res with inl err => inl err | inr p => inr (fst p) end)
  end.
End load.
