(* ===== verification/SnapshotSpec.v ===== *)
(** * A snapshot restores what was visible

    Each reader undoes its writer; loading a saved database gives, table by
    table, the same schema and the rows that were visible when it was saved,
    with a new time to live. *)

From Stdlib Require Import ZArith Lia Ascii.
From stdpp Require Import base strings gmap numbers list list_numbers.
From S2P Require Import Prelude Cpp Common Schema Arena BPTree BPTreeRep BPTreeInsert Index Table TableRep TableSpec Lexer Parser Cache Executor JoinSpec ExecutorSpec SessionSpec Crc Wal Snapshot.
Open Scope string_scope.
Open Scope list_scope.
Open Scope Z_scope.

(** ** Reading back *)

(** [p] reads [bs] as [a], whatever follows. *)
Definition loads {A} (p : loader A) (bs : list Z) (a : A) : Prop := forall s, p (bs ++ s) = Ret (inr (a, s)).

Lemma loads_ret {A} (a : A) : loads (mret a) [] a.
Proof. by intros s. Qed.

Lemma loads_bind {A B} (p : loader A) (f : A -> loader B) bs bs' a b : loads p bs a -> loads (f a) bs' b -> loads (p ≫= f) (bs ++ bs') b.
Proof. intros Hp Hf s. unfold mbind, loader_bind. rewrite <- app_assoc, Hp. outcome_simpl. apply Hf. Qed.

Lemma loads_bytes n err bs : length bs = n -> loads (load_bytes n err) bs bs.
Proof. intros Hl s. unfold load_bytes. by rewrite read_bytes_app. Qed.

Lemma loads_uint (n : nat) err z : 0 <= z < 2 ^ (Z.of_nat n * 8) -> loads (load_uint n err) (le_bytes (Z.of_nat n) z) z.
Proof.
  intros Hz s. unfold load_uint, mbind, loader_bind, load_bytes. rewrite read_bytes_app by apply length_le_bytes.
  outcome_simpl. unfold loader_ret. by rewrite le_val_le_bytes by (lia || done).
Qed.

Lemma loads_str err s : str_size s <= MAX_STR -> loads (load_str err) (write_str s) s.
Proof.
  intros Hs. unfold MAX_STR in Hs. assert (0 <= str_size s) by (unfold str_size; lia). unfold write_str, load_str.
  rewrite (u32_small (str_size s)) by width_lia. rewrite take_ge by (rewrite length_string_bytes; unfold str_size; lia).
  eapply loads_bind; [apply (loads_uint 4); lia|]. unfold MAX_STR. destruct (Z.ltb_spec (10 * 1024 * 1024) (str_size s)); [lia|].
  rewrite <- (app_nil_r (string_bytes s)). eapply loads_bind; [apply loads_bytes; rewrite length_string_bytes; unfold str_size; lia|].
  intros t. unfold mret, loader_ret. by rewrite bytes_string_bytes.
Qed.

(** *** Columns: the rebuilt schema is the saved one *)

Lemma schema_ext s s' : schema_inv s -> schema_inv s' -> columns_ s = columns_ s' -> s = s'.
Proof.
  intros H H' E. destruct s as [cols idx offs size pk], s' as [cols' idx' offs' size' pk']. cbn in E. subst cols'.
  assert (idx = idx') as <-.
  { apply map_eq. intros n. pose proof (fun i => inv_index _ H n i) as H1. pose proof (fun i => inv_index _ H' n i) as H2. cbn in *.
    destruct (idx !! n) as [i|] eqn:E1, (idx' !! n) as [j|] eqn:E2; [|exfalso..|done].
    - symmetry. apply (proj2 (H2 i)), (proj1 (H1 i)). done.
    - pose proof (proj2 (H2 i) (proj1 (H1 i) eq_refl)). congruence.
    - pose proof (proj2 (H1 j) (proj1 (H2 j) eq_refl)). congruence. }
  f_equal; [exact (eq_trans (inv_offsets _ H) (eq_sym (inv_offsets _ H')))|exact (eq_trans (inv_row_size _ H) (eq_sym (inv_row_size _ H')))
    |exact (eq_trans (inv_pk _ H) (eq_sym (inv_pk _ H')))].
Qed.

(** A column the file format can hold. *)
Definition column_ok (c : ColumnDef) : Prop :=
  str_size (col_name c) <= MAX_STR /\ dt_named (col_type c) = true /\ is_u16 (max_len c) /\ (col_type c <> VARCHAR -> max_len c = 0).

Definition rebuild (s : Schema) (cols : list ColumnDef) : Schema :=
  foldl (fun s c => add_column s (col_name c) (col_type c) (max_len c)) s cols.

Lemma rebuild_columns cols : forall s, Forall column_ok cols -> columns_ (rebuild s cols) = columns_ s ++ cols.
Proof.
  induction cols as [|c cols IH]; intros s H; cbn; [by rewrite app_nil_r|]. apply Forall_cons in H as [(_ & _ & _ & Hm) H].
  unfold rebuild in IH. rewrite IH by done. cbn. rewrite <- app_assoc. cbn. do 2 f_equal. destruct c as [n ty ml]; cbn in *. f_equal.
  unfold dt_eqb. case_bool_decide; [done|]. symmetry. auto.
Qed.

Lemma rebuild_inv cols : forall s, Forall column_ok cols -> schema_inv s -> schema_inv (rebuild s cols).
Proof.
  induction cols as [|c cols IH]; intros s H Hs; [done|]. apply Forall_cons in H as [(_ & _ & Hm & _) H].
  apply (IH (add_column s (col_name c) (col_type c) (max_len c)) H). by apply add_column_inv.
Qed.

Lemma loads_columns err cols : forall s, Forall column_ok cols ->
  loads (load_columns (length cols) err s) (cols ≫= save_column) (rebuild s cols).
Proof.
  induction cols as [|c cols IH]; intros s H; [apply loads_ret|]. apply Forall_cons in H as [(Hn & Hty & Hm & _) H].
  cbn [length load_columns mbind list_bind]. unfold save_column. rewrite <- !app_assoc.
  eapply loads_bind; [by apply loads_str|]. eapply loads_bind; [apply (loads_uint 1); by destruct (col_type c)|].
  eapply loads_bind; [apply (loads_uint 2); unfold is_u16 in Hm; lia|]. rewrite dt_of_byte_of_dt by done. by apply IH.
Qed.

(** *** Values and rows *)

Definition value_saved (v : Value) : Prop :=
  value_wf v /\ match v with VStr s => str_size s <= MAX_STR | VRaw _ => False | _ => True end.

Lemma loads_value v : value_saved v -> loads load_value (save_value v) v.
Proof.
  intros [Hwf Hs]. unfold save_value, load_value. eapply loads_bind; [apply (loads_uint 1); by destruct v|].
  destruct v; cbn [value_type byte_of_dt value_wf] in *; [| | | |done];
    match goal with |- loads (match dt_of_byte ?b with _ => _ end) _ _ => let r := eval cbn in (dt_of_byte b) in change (dt_of_byte b) with r; cbv iota end.
  - rewrite <- (app_nil_r (le_bytes 4 _)). eapply loads_bind; [apply loads_bytes, (length_le_bytes 4)|]. intros s. unfold mret, loader_ret.
    rewrite le_val_bytes by lia. change (4 * 8) with 32. by rewrite s32_mod, s32_small.
  - rewrite <- (app_nil_r (le_bytes 8 _)). eapply loads_bind; [apply loads_bytes, (length_le_bytes 8)|]. intros s. unfold mret, loader_ret.
    rewrite le_val_le_bytes by (unfold is_u64 in *; lia). done.
  - rewrite <- (app_nil_r (write_str _)). eapply loads_bind; [by apply loads_str|]. by intros s.
  - rewrite <- (app_nil_r (le_bytes 8 _)). eapply loads_bind; [apply loads_bytes, (length_le_bytes 8)|]. intros s. unfold mret, loader_ret.
    rewrite le_val_bytes by lia. change (8 * 8) with 64. by rewrite s64_mod, s64_small.
Qed.

Lemma loads_values vs : forall acc, Forall value_saved vs -> loads (load_values (length vs) acc) (vs ≫= save_value) (acc ++ vs).
Proof.
  induction vs as [|v vs IH]; intros acc H; [rewrite app_nil_r; apply loads_ret|]. apply Forall_cons in H as [Hv H].
  cbn [length load_values mbind list_bind]. eapply loads_bind; [by apply loads_value|]. rewrite (cons_middle v acc vs), app_assoc. by apply IH.
Qed.

(** ** Tables *)

(** As [loads], but memory may run out. *)
Definition loads_or_oom {A} (p : loader A) (bs : list Z) (P : A -> Prop) : Prop :=
  forall s, p (bs ++ s) = Throw bad_alloc \/ exists a, P a /\ p (bs ++ s) = Ret (inr (a, s)).

Lemma oom_bind_loads {A B} (p : loader A) (f : A -> loader B) bs bs' a P :
  loads p bs a -> loads_or_oom (f a) bs' P -> loads_or_oom (p ≫= f) (bs ++ bs') P.
Proof.
  intros Hp Hf s. assert (E : (p ≫= f) ((bs ++ bs') ++ s) = f a (bs' ++ s)); [|rewrite E; apply Hf].
  unfold mbind, loader_bind. by rewrite <- app_assoc, Hp.
Qed.

Lemma oom_bind {A B} (p : loader A) (f : A -> loader B) bs bs' (Q : A -> Prop) P :
  loads_or_oom p bs Q -> (forall a, Q a -> loads_or_oom (f a) bs' P) -> loads_or_oom (p ≫= f) (bs ++ bs') P.
Proof.
  intros Hp Hf s. destruct (Hp (bs' ++ s)) as [E|(a & Ha & E)].
  - left. unfold mbind, loader_bind. by rewrite <- app_assoc, E.
  - assert (E' : (p ≫= f) ((bs ++ bs') ++ s) = f a (bs' ++ s)); [|rewrite E'; by apply Hf].
    unfold mbind, loader_bind. by rewrite <- app_assoc, E.
Qed.

Lemma oom_ret {A} (a : A) (P : A -> Prop) : P a -> loads_or_oom (mret a) [] P.
Proof. intros Ha s. right. by exists a. Qed.

Lemma oom_lift {A B} (o : outcome A) (f : A -> loader B) bs P (Q : A -> Prop) : (o = Throw bad_alloc \/ exists a, Q a /\ o = Ret a) ->
  (forall a, Q a -> loads_or_oom (f a) bs P) -> loads_or_oom (load_lift o ≫= f) bs P.
Proof.
  intros Ho Hf s. unfold mbind, loader_bind, load_lift. destruct Ho as [->|(a & Ha & ->)]; [by left|]. outcome_simpl. by apply Hf.
Qed.

(** The rows as they are after loading. *)
Definition reinserted (clock : nat -> Z) (rows : list Row) : list stored :=
  imap (fun i vals => mkStored vals (clock i + DEFAULT_TTL_SECONDS) true) rows.

Definition row_saved (s : Schema) (row : Row) : Prop := row_fits s row /\ Forall value_saved row /\ key_sane row.

Section load.
Context `{malloc : Malloc}.

Lemma loads_rows name s rows : Forall (row_saved s) rows -> columns_ s <> [] -> Z.of_nat (num_columns s) < 2 ^ 32 ->
  forall clock r t rs, table_ok name t (mkATable s rs) -> Z.of_nat (length rs + length rows) < 2 ^ 63 ->
  (forall i, is_s64 (clock i + DEFAULT_TTL_SECONDS)) ->
  loads_or_oom (load_rows (length rows) r clock name t) (rows ≫= save_row)
    (fun t' => table_ok name t' (mkATable s (rs ++ reinserted (fun i => clock (r + i)%nat) rows))).
Proof.
  intros Hrows Hc Hn. induction Hrows as [|row rows (Hfit & Hsaved & Hkey) _ IH]; intros clock r t rs Hok Hlen Hclock.
  { apply oom_ret. by rewrite app_nil_r. }
  cbn [length load_rows mbind list_bind]. unfold save_row. rewrite <- app_assoc.
  assert (Hlr : length row = num_columns s) by (symmetry; by eapply Forall2_length).
  rewrite u32_small by (rewrite Hlr; width_lia).
  eapply oom_bind_loads; [apply (loads_uint 4); rewrite Hlr; lia|]. rewrite Nat2Z.id.
  eapply oom_bind_loads; [by apply loads_values|]. cbn [app]. pose proof Hok as [T Es Ettl En]. cbn [at_schema at_rows] in *.
  assert (Hv : validate_row s row = None) by by apply validate_row_fits.
  apply (oom_lift _ _ _ _ (fun res => fst res = None /\ table_ok name (snd res) (mkATable s (rs ++ [mkStored row (clock r + DEFAULT_TTL_SECONDS) true])))).
  - pose proof (insert_rep_table (Hix := fun dt => BPTree_index (key_ok dt)) t rs (clock r) row T) as Hins. rewrite Es, Ettl, Hv in Hins.
    destruct Hins as [->|(t' & -> & Es' & En' & Et' & T')]; [|by apply key_of_valid|apply Hclock|cbn [length] in Hlen; lia|by left|].
    { eapply Forall_impl; [exact Hsaved|]. by intros v [? _]. }
    right. eexists. split; [|done]. cbn [fst snd]. split; [done|]. change (0 <? DEFAULT_TTL_SECONDS) with true in T'. cbv iota in T'.
    split; cbn [at_rows at_schema]; [done|congruence..].
  - intros [err t'] [-> Hok']. cbn [fst snd] in *.
    assert (E : rs ++ reinserted (fun i => clock (r + i)%nat) (row :: rows) =
                (rs ++ [mkStored row (clock r + DEFAULT_TTL_SECONDS) true]) ++ reinserted (fun i => clock (S r + i)%nat) rows).
    { unfold reinserted. rewrite imap_cons, <- app_assoc. cbn [app]. rewrite Nat.add_0_r. do 2 f_equal. apply imap_ext. intros. cbn. do 3 f_equal. lia. }
    rewrite E. apply IH; [done| |done]. rewrite length_app. cbn [length] in *. lia.
Qed.

(** What the format requires of a table. *)
Definition saveable (name : string) (a : atable) : Prop :=
  str_size name <= MAX_STR /\ Forall column_ok (columns_ (at_schema a)) /\ Z.of_nat (num_columns (at_schema a)) < 2 ^ 32.

Lemma visible_stored clock rs x : x ∈ visible clock rs -> exists r, r ∈ rs /\ x = st_vals r.
Proof.
  unfold visible. generalize 0%nat as i. induction rs as [|r rs IH]; intros i; cbn [select]; [by intros ?%elem_of_nil|].
  destruct (_ && _); [intros [->|Hx]%elem_of_cons|intros Hx].
  - exists r. split; [by left|done].
  - destruct (IH _ Hx) as (r' & ? & ?). exists r'. split; [by right|done].
  - destruct (IH _ Hx) as (r' & ? & ?). exists r'. split; [by right|done].
Qed.

Lemma visible_le clock rs : (length (visible clock rs) <= length rs)%nat.
Proof.
  unfold visible. generalize 0%nat as i. induction rs as [|r rs IH]; intros i; cbn; [lia|]. specialize (IH (S i)). destruct (_ && _); cbn; lia.
Qed.

Lemma value_fits_saved c v : column_ok c -> value_fits c v -> value_wf v -> value_saved v.
Proof.
  intros (_ & Hty & Hm & _) [Ety Hlen] Hwf. split; [done|]. destruct v; try done; cbn in *.
  - specialize (Hlen (eq_sym Ety)). unfold MAX_STR, is_u16 in *. lia.
  - by rewrite <- Ety in Hty.
Qed.

Lemma visible_saved name t a clock : table_ok name t a -> saveable name a -> Forall (row_saved (at_schema a)) (visible clock (at_rows a)).
Proof.
  intros [T Es _ _] (_ & Hcols & _). apply Forall_forall. intros x (r & Hr & ->)%visible_stored.
  pose proof (tr_wf _ _ T) as Hwf. pose proof (tr_keys _ _ T) as Hk. rewrite Es in *. rewrite Forall_forall in Hwf. rewrite Forall_forall in Hk.
  specialize (Hwf r Hr). specialize (Hk r Hr). destruct Hwf as (Hfit & Hvals & _). split; [done|]. split.
  - clear Hk. unfold row_fits in Hfit. revert Hcols Hvals. induction Hfit as [|c v cs vs Hcv _ IH]; intros Hcols Hvals; [constructor|].
    apply Forall_cons in Hcols as [Hc Hcols]. apply Forall_cons in Hvals as [Hv Hvals]. constructor; [by eapply value_fits_saved|by apply IH].
  - unfold key_sane, row_key in *. destruct (st_vals r) as [|v vs]; [done|]. destruct Hk as [Hty Hk]. by split.
Qed.

(** A table after a save and a load. *)
Definition refreshed (save_clock load_clock : nat -> Z) (a : atable) : atable :=
  mkATable (at_schema a) (reinserted load_clock (visible save_clock (at_rows a))).

Lemma table_roundtrip name t a sc lc : table_ok name t a -> saveable name a -> (forall i, is_s64 (lc name i + DEFAULT_TTL_SECONDS)) ->
  exists bytes, save_table (sc name) name t = Ret bytes /\
    loads_or_oom (load_table lc) bytes (fun p => p.1 = name /\ table_ok name p.2 (refreshed (sc name) (lc name) a)).
Proof.
  intros Hok Hsv Hclock. pose proof Hsv as (Hname & Hcols & Hn). pose proof Hok as [T Es _ _].
  unfold save_table. rewrite (scan_visible _ _ _ Hok), Es. outcome_simpl. eexists. split; [reflexivity|]. unfold load_table.
  eapply oom_bind_loads; [by apply loads_str|]. rewrite u32_small by width_lia.
  eapply oom_bind_loads; [apply (loads_uint 4); lia|]. rewrite Nat2Z.id.
  eapply oom_bind_loads; [by apply loads_columns|].
  assert (Er : rebuild Schema_empty (columns_ (at_schema a)) = at_schema a).
  { apply schema_ext; [by apply rebuild_inv, schema_inv_empty|rewrite <- Es; apply (tr_schema _ _ T)|]. by rewrite rebuild_columns. }
  rewrite Er. rewrite <- Es in Hcols, Hn |- *. pose proof (tr_schema _ _ T) as Hs. pose proof (tr_layout _ _ T) as Hl. pose proof (tr_cols _ _ T) as Hc.
  apply (oom_lift _ _ _ _ (fun t0 => table_ok name t0 (mkATable (schema_ t) []))).
  { destruct (Table_new_cases name (schema_ t) DEFAULT_TTL_SECONDS Hs Hc) as [->|[t0 E]]; [by left|right]. exists t0. split; [|done].
    destruct (Table_new_rep (Hix := fun dt => BPTree_index (key_ok dt)) name (schema_ t) DEFAULT_TTL_SECONDS t0 Hs Hl Hc E) as (T0 & E1 & E2 & E3). by split. }
  intros t0 Hok0. pose proof (visible_saved _ _ _ (sc name) Hok Hsv) as Hrows. rewrite <- Es in Hrows.
  assert (Hlen : Z.of_nat (length (visible (sc name) (at_rows a))) < 2 ^ 63).
  { eapply Z.le_lt_trans; [|apply (tr_bound _ _ T)]. apply inj_le, visible_le. }
  rewrite u64_small by width_lia. eapply oom_bind_loads; [apply (loads_uint 8); lia|]. rewrite Nat2Z.id.
  rewrite <- (app_nil_r (_ ≫= save_row)). eapply oom_bind; [apply (loads_rows name (schema_ t)); done|].
  intros t1 Hok1. apply oom_ret. split; [done|]. cbn [snd]. unfold refreshed. rewrite <- Es. exact Hok1.
Qed.

(** ** The whole file *)

Definition refresh_all (sc lc : string -> nat -> Z) (db : gmap string atable) (dbl : list (string * atable)) : gmap string atable :=
  foldl (fun d q => <[q.1 := refreshed (sc q.1) (lc q.1) q.2]> d) db dbl.

Lemma tables_roundtrip sc lc tabs dbl : (forall n i, is_s64 (lc n i + DEFAULT_TTL_SECONDS)) ->
  Forall2 (fun p q => p.1 = q.1 /\ table_ok q.1 p.2 q.2 /\ saveable q.1 q.2) tabs dbl ->
  exists bytes, save_tables sc tabs = Ret bytes /\ forall acc dacc, db_rep acc dacc ->
    loads_or_oom (load_tables (length tabs) lc acc) bytes (fun acc' => db_rep acc' (refresh_all sc lc dacc dbl)).
Proof.
  intros Hclock. induction 1 as [|[n t] [n' a] tabs dbl (E & Hok & Hsv) _ (rest & Er & IH)]; cbn [save_tables fst snd] in *.
  - exists []. split; [done|]. intros. by apply oom_ret.
  - subst n'. destruct (table_roundtrip n t a sc lc Hok Hsv (Hclock n)) as (bytes & -> & Hload). outcome_simpl. rewrite Er. outcome_simpl.
    exists (bytes ++ rest). split; [done|]. intros acc dacc R. cbn [length load_tables]. eapply oom_bind; [exact Hload|].
    intros [n' t'] [-> Hok']. cbn [fst snd] in *. apply IH. by apply db_rep_insert.
Qed.

Definition refreshed_db (sc lc : string -> nat -> Z) (db : gmap string atable) : gmap string atable :=
  map_imap (fun n a => Some (refreshed (sc n) (lc n) a)) db.

Lemma refresh_all_lookup sc lc dbl : forall d n, NoDup dbl.*1 ->
  refresh_all sc lc d dbl !! n =
    match list_to_map (M := gmap string atable) dbl !! n with Some a => Some (refreshed (sc n) (lc n) a) | None => d !! n end.
Proof.
  induction dbl as [|[m a] dbl IH]; intros d n Hnd; cbn [refresh_all foldl fst snd].
  { change (list_to_map (M := gmap string atable) []) with (∅ : gmap string atable). by rewrite lookup_empty. }
  rewrite fmap_cons in Hnd. apply NoDup_cons in Hnd as [Hm Hnd]. unfold refresh_all in IH. rewrite IH by done.
  change (list_to_map (M := gmap string atable) ((m, a) :: dbl)) with (<[m := a]> (list_to_map (M := gmap string atable) dbl)).
  destruct (decide (m = n)) as [->|Hne].
  - rewrite (not_elem_of_list_to_map_1 (M := gmap string)) by done. by rewrite !lookup_insert_eq.
  - by rewrite !lookup_insert_ne by done.
Qed.

Lemma refresh_all_db sc lc db dbl : Permutation dbl (map_to_list db) -> refresh_all sc lc ∅ dbl = refreshed_db sc lc db.
Proof.
  intros HP. assert (Hnd : NoDup dbl.*1) by (rewrite HP; apply NoDup_fst_map_to_list).
  apply map_eq. intros n. rewrite refresh_all_lookup by done. rewrite (list_to_map_proper dbl (map_to_list db)) by done.
  rewrite list_to_map_to_list. unfold refreshed_db. rewrite map_lookup_imap, lookup_empty. by destruct (db !! n).
Qed.

(** The abstract tables in the order of the concrete ones. *)
Lemma order_tables tables db order : db_rep tables db -> Permutation order (map_to_list tables) ->
  exists dbl, Permutation dbl (map_to_list db) /\ Forall2 (fun p q => p.1 = q.1 /\ table_ok q.1 p.2 q.2) order dbl.
Proof.
  intros R HP. exists (omap (fun p => a ← db !! p.1; Some (p.1, a)) order).
  assert (Hin : forall p, p ∈ order <-> tables !! p.1 = Some p.2) by (intros [n t]; by rewrite HP, elem_of_map_to_list).
  assert (HF : Forall2 (fun p q => p.1 = q.1 /\ table_ok q.1 p.2 q.2) order (omap (fun p => a ← db !! p.1; Some (p.1, a)) order)).
  { assert (Hsub : forall p, p ∈ order -> tables !! p.1 = Some p.2) by (intros; by apply Hin). clear HP Hin.
    induction order as [|[n t] order IH]; cbn [omap list_omap]; [constructor|].
    destruct (db_rep_lookup _ _ n R) as [[E _]|(t' & a & E & Ea & Hok)]; pose proof (Hsub (n, t) ltac:(by left)) as Hnt; cbn in *; [congruence|].
    rewrite Ea. cbn. constructor; [|apply IH; intros; apply Hsub; by right]. cbn. split; [done|]. congruence. }
  split; [|done].
  assert (E1 : (omap (fun p => a ← db !! p.1; Some (p.1, a)) order).*1 = order.*1).
  { clear -HF. induction HF as [|p q ps qs [E _] _ IH]; [done|]. by rewrite !fmap_cons, E, IH. }
  apply NoDup_Permutation; [apply (NoDup_fmap_1 fst); rewrite E1, HP; apply NoDup_fst_map_to_list|apply NoDup_map_to_list|].
  intros [n a]. rewrite elem_of_map_to_list, list_elem_of_omap. split.
  - intros ([m t] & _ & E). cbn in E. destruct (db !! m) eqn:Em; cbn in E; [|done]. by injection E as -> ->.
  - intros Ea. destruct (db_rep_lookup _ _ n R) as [[_ E]|(t & a' & Et & Ea' & _)]; [congruence|]. exists (n, t). split; [by apply Hin|]. cbn. by rewrite Ea.
Qed.

Definition rep_saveable (db : gmap string atable) : Prop := forall n a, db !! n = Some a -> saveable n a.

Lemma file_roundtrip tables db order sc lc last : db_rep tables db -> Permutation order (map_to_list tables) -> rep_saveable db ->
  Z.of_nat (length order) < 2 ^ 32 -> is_u64 last -> (forall n i, is_s64 (lc n i + DEFAULT_TTL_SECONDS)) ->
  exists bytes, save_bytes sc order last = Ret bytes /\
    loads_or_oom (load_file lc) bytes (fun p => p.1 = last /\ db_rep p.2 (refreshed_db sc lc db)).
Proof.
  intros R HP Hsv Hlen Hlast Hclock. destruct (order_tables tables db order R HP) as (dbl & HPd & HF).
  destruct (tables_roundtrip sc lc order dbl Hclock) as (body & Eb & Hload).
  { assert (Hall : forall q, q ∈ dbl -> saveable q.1 q.2) by (intros [n a]; rewrite HPd, elem_of_map_to_list; apply Hsv).
    clear -HF Hall. induction HF as [|p q ps qs [E Hok] _ IH]; constructor; [split; [done|split; [done|apply Hall; by left]]|apply IH; intros; apply Hall; by right]. }
  unfold save_bytes. rewrite Eb. outcome_simpl. eexists. split; [reflexivity|]. unfold load_file.
  eapply oom_bind_loads; [apply (loads_uint 8); unfold SNAPSHOT_MAGIC; lia|]. rewrite Z.eqb_refl. cbn [negb].
  eapply oom_bind_loads; [apply (loads_uint 8); unfold SNAPSHOT_VERSION; lia|]. rewrite Z.eqb_refl. cbn [negb].
  eapply oom_bind_loads; [apply (loads_uint 8); unfold is_u64 in Hlast; lia|]. rewrite u32_small by width_lia.
  eapply oom_bind_loads; [apply (loads_uint 4); lia|]. rewrite Nat2Z.id, <- (app_nil_r body).
  eapply oom_bind; [apply (Hload ∅ ∅); intros n; rewrite !lookup_empty; constructor|]. intros acc Hacc. apply oom_ret. cbn.
  split; [done|]. by rewrite <- (refresh_all_db sc lc db dbl HPd).
Qed.
End load.

(** ** Property *)

(** C20: Round trip: a snapshot of a represented database, in whatever order
    the hash map lists its tables, loads back — unless memory runs out — as a
    represented database: each table under its name, with the same schema,
    offsets and name index included, and exactly the rows visible at the save,
    in order, each with a new time to live; the LSN comes back too. *)
Theorem snapshot_roundtrip `{malloc : Malloc, CanOpen, CanRename} tables db order files path sc lc last :
  db_rep tables db -> Permutation order (map_to_list tables) -> rep_saveable db -> Z.of_nat (length order) < 2 ^ 32 -> is_u64 last ->
  (forall n i, is_s64 (lc n i + DEFAULT_TTL_SECONDS)) -> can_open (path +:+ ".tmp") = true -> can_rename (path +:+ ".tmp") path = true ->
  exists files', save files path sc order last = Ret (None, files') /\
    (load files' path lc = Throw bad_alloc \/
     exists tables', load files' path lc = Ret (inr (last, tables')) /\ db_rep tables' (refreshed_db sc lc db)).
Proof.
  intros R HP Hsv Hlen Hlast Hclock Ho Hr. destruct (file_roundtrip tables db order sc lc last R HP Hsv Hlen Hlast Hclock) as (bytes & Eb & Hload).
  unfold save. rewrite Ho, Eb, Hr. cbn [negb]. outcome_simpl. eexists. split; [done|]. unfold load. rewrite lookup_insert_eq.
  destruct (Hload []) as [E|([l t] & [E1 E2] & E)]; rewrite app_nil_r in E; rewrite E; [by left|right]. outcome_simpl. cbn in *. subst l. by exists t.
Qed.

#[export] Instance rename_always : CanRename := fun _ _ => true.

Definition setup_steps : list step := uncached 100 <$> sample_setup.
Definition setup_db : gmap string atable := Eval vm_compute in abs_final ∅ setup_steps.

(** The entries of the concrete map [m], one by one. *)
Ltac solve_saveable m :=
  let n := fresh "n" in let a := fresh "a" in let H := fresh "H" in let Hne := fresh "Hne" in let E := fresh "E" in
  intros n a H; apply elem_of_map_to_list in H; revert H;
  (let l := eval vm_compute in (map_to_list m) in assert (E : map_to_list m = l) by (vm_compute; reflexivity); rewrite E; clear E);
  intros H; apply list_elem_of_In in H; cbn [In] in H;
  repeat (destruct H as [[= <- <-]|H]; [split; [vm_compute; discriminate|split; [|reflexivity]];
    repeat (constructor; [split; [vm_compute; discriminate|split; [reflexivity|split; [unfold is_u16; cbn; lia|intros Hne; first [reflexivity|by destruct Hne]]]]|]); constructor|]);
  destruct H.

Lemma setup_saveable : rep_saveable setup_db.
Proof.
  solve_saveable setup_db.
Qed.

(** The tables of the sample session at time 200, loaded at time 300. *)
Lemma snapshot_roundtrip_witness : exists ex, db_rep (tables_ ex) setup_db /\ exists files',
  save ∅ "snapshot.dat" (fun _ _ => 200) (map_to_list (tables_ ex)) 4 = Ret (None, files') /\
    (load files' "snapshot.dat" (fun _ _ => 300) = Throw bad_alloc \/
     exists tables', load files' "snapshot.dat" (fun _ _ => 300) = Ret (inr (4, tables')) /\
       db_rep tables' (refreshed_db (fun _ _ => 200) (fun _ _ => 300) setup_db)).
Proof.
  destruct Executor_new_rep as [R C].
  assert (Hok : session_ok ∅ setup_steps) by (unfold setup_steps; solve_session_ok (uncached 100 <$> sample_setup)).
  assert (Ek : keys_asked setup_steps = []) by (vm_compute; reflexivity).
  destruct (once_session_refines setup_steps _ _ _ R C eq_refl Hok) as [E|(results & ex & E & _ & Rex)];
    [rewrite Ek; constructor|rewrite Ek; by intros ? ?%elem_of_nil|vm_compute in E; discriminate E|].
  exists ex. assert (Edb : abs_final ∅ setup_steps = setup_db) by (vm_compute; reflexivity). rewrite Edb in Rex. split; [exact Rex|].
  apply (snapshot_roundtrip (tables_ ex) setup_db); [exact Rex|reflexivity|exact setup_saveable| |unfold is_u64; lia|intros; unfold is_s64, DEFAULT_TTL_SECONDS; lia|reflexivity|reflexivity].
  destruct (order_tables _ _ _ Rex (reflexivity _)) as (dbl & HP & HF). rewrite (Forall2_length _ _ _ HF), HP. vm_compute. reflexivity.
Defined.
