(* ===== verification/Database.v ===== *)
(** * database.{h,cpp}: execution with a log and snapshots

    A [Database] owns the executor and, when it has a directory, the log
    writer. The file system is threaded through; [table_order] is the order in
    which the hash map of tables is iterated. The TTL sweeper it starts and
    stops is in Ttl.v and Background.v; console output and the creation of the directory are
    left out. *)

From Stdlib Require Import ZArith Lia Ascii.
From stdpp Require Import base strings gmap numbers list list_numbers.
From S2P Require Import Prelude Cpp Common Schema Arena BPTree Table Lexer Parser Cache Executor Crc Wal Snapshot.
Open Scope string_scope.
Open Scope list_scope.
Open Scope Z_scope.

(** ** Which statements are logged *)

Definition is_mutating_sql (sql : string) : bool :=
  let rest := snd (span isspace sql) in
  if String.eqb rest "" then false else
  let word := string_map toupper (fst (span isalpha rest)) in
  String.eqb word "CREATE" || String.eqb word "INSERT".

(** ** State *)

Record Database := mkDatabase {
  data_dir_ : string;
  executor_ : Executor;
  wal_writer_ : option WALWriter;
  snapshot_lsn_ : Z;
  recovered_wal_records_ : Z;
}.

Definition persistent (d : Database) : bool := negb (String.eqb (data_dir_ d) "").

Class TableOrder := table_order : gmap string Table -> list (string * Table).

Definition snapshot_path (dir : string) : string := dir +:+ "/snapshot.dat".
Definition wal_path (dir : string) : string := dir +:+ "/wal.log".

(** The times of a recovery: when each row of the snapshot is inserted, and
    those read by the record with a given LSN. *)
Record RecoveryClocks := mkRecovery { rk_load : string -> nat -> Z; rk_replay : Z -> Clocks }.

Section database.
Context `{malloc : Malloc, StdHash, CanOpen, CanRename, TableOrder}.

(** ** Recovery *)

(** The first step: the tables of a snapshot that loads. *)
Definition recover_snapshot (d : Database) (files : Files) (load_clock : string -> nat -> Z) : outcome Database :=
  let path := snapshot_path (data_dir_ d) in
  match files !! path with
  | None => Ret d
  | Some _ =>
      result ← load files path load_clock;
      match result with
      | inl _ => Ret d
      | inr (last_wal_lsn, tables) =>
          let ex := map_fold (fun name table ex => restore_table ex name table) (executor_ d) tables in
          Ret (mkDatabase (data_dir_ d) ex (wal_writer_ d) last_wal_lsn (recovered_wal_records_ d))
      end
  end.

(** The callback of the second step. *)
Definition replay_record (snapshot_lsn : Z) (clocks : Z -> Clocks) (rec : WALRecord) (ex : Executor) : outcome (Executor * bool) :=
  if lsn rec <=? snapshot_lsn then Ret (ex, true) else
  result ← execute_sql ex (clocks (lsn rec)) (sql rec);
  Ret (snd result, true).

Definition recover (d : Database) (files : Files) (rk : RecoveryClocks) : outcome Database :=
  d ← recover_snapshot d files (rk_load rk);
  match files !! wal_path (data_dir_ d) with
  | None => Ret d
  | Some _ =>
      res ← replay files (wal_path (data_dir_ d)) (replay_record (snapshot_lsn_ d) (rk_replay rk)) (executor_ d);
      Ret (mkDatabase (data_dir_ d) (fst res) (wal_writer_ d) (snapshot_lsn_ d) (snd res))
  end.

(** The constructor. *)
Definition Database_new (data_dir : string) (files : Files) (rk : RecoveryClocks) : outcome (Database * Files) :=
  let d := mkDatabase data_dir Executor_new None 0 0 in
  if persistent d then
    d ← recover d files rk;
    w ← WALWriter_new files (wal_path data_dir);
    Ret (mkDatabase (data_dir_ d) (executor_ d) (Some (fst w)) (snapshot_lsn_ d) (recovered_wal_records_ d), snd w)
  else Ret (d, files).

(** ** Execution *)

Definition with_executor (d : Database) (ex : Executor) : Database :=
  mkDatabase (data_dir_ d) ex (wal_writer_ d) (snapshot_lsn_ d) (recovered_wal_records_ d).

(** Write-ahead: the log first. *)
Definition log_sql (d : Database) (files : Files) (sql : string) : Database * Files :=
  match wal_writer_ d with
  | Some w =>
      if persistent d && is_mutating_sql sql then
        let '(_, w, files) := append w files sql in
        (mkDatabase (data_dir_ d) (executor_ d) (Some w) (snapshot_lsn_ d) (recovered_wal_records_ d), files)
      else (d, files)
  | None => (d, files)
  end.

Definition Database_execute (d : Database) (files : Files) (clocks : Clocks) (sql : string) : outcome (QueryResult * Database * Files) :=
  let (d, files) := log_sql d files sql in
  res ← execute_sql (executor_ d) clocks sql;
  Ret (fst res, with_executor d (snd res), files).

(** ** Snapshots *)

Definition snapshot_lsn_now (d : Database) : Z :=
  match wal_writer_ d with Some w => u64 (current_lsn w - 1) | None => 0 end.

(** [take_snapshot(error)]: the error when it returns false. *)
Definition take_snapshot (d : Database) (files : Files) (clock : string -> nat -> Z) : outcome (option string * Database * Files) :=
  if negb (persistent d) then Ret (Some "Persistence not enabled", d, files) else
  let lsn := snapshot_lsn_now d in
  res ← save files (snapshot_path (data_dir_ d)) clock (table_order (tables_ (executor_ d))) lsn;
  match fst res with
  | Some error => Ret (Some error, d, snd res)
  | None =>
      match wal_writer_ d with
      | None => Ret (None, mkDatabase (data_dir_ d) (executor_ d) None lsn (recovered_wal_records_ d), snd res)
      | Some w =>
          let (w, files) := truncate w (snd res) in
          Ret (None, mkDatabase (data_dir_ d) (executor_ d) (Some w) lsn (recovered_wal_records_ d), files)
      end
  end.

(** The destructor: a last snapshot. *)
Definition Database_delete (d : Database) (files : Files) (clock : string -> nat -> Z) : outcome Files :=
  if persistent d then res ← take_snapshot d files clock; Ret (snd res) else Ret files.
End database.
