(* ===== verification/Logged.v ===== *)
(** * Every statement that changes the database is logged

    [is_mutating_sql] looks at the first word of the text, the parser at its
    first token: a text that parses to a CREATE TABLE or an INSERT is always
    classified as mutating, so what is not logged changes nothing. *)

From Stdlib Require Import ZArith Lia Ascii.
From stdpp Require Import base strings gmap numbers list list_numbers.
From S2P Require Import Prelude Cpp Common Schema Arena BPTree Table Lexer LexerSpec Parser Cache Executor Wal Snapshot Database.
Open Scope string_scope.
Open Scope list_scope.
Open Scope Z_scope.

(** ** The parser: what a statement starts with *)

(** Every statement [p] returns satisfies [P]. *)
Definition yields {A} (p : parser A) (P : A -> Prop) : Prop := forall s r s', run_parser p s = Ret (Some r, s') -> P r.

Lemma yields_bind {A B} (p : parser A) (f : A -> parser B) P : (forall a, yields (f a) P) -> yields (p ≫= f) P.
Proof.
  intros Hf s r s'. unfold run_parser, mbind, parser_bind. destruct (p s) as [[[a|] s1]| | |]; outcome_simpl; try done.
  cbn [fst snd]. intros E. by apply (Hf a s1 r s').
Qed.

Lemma yields_ret {A} (a : A) (P : A -> Prop) : P a -> yields (mret a) P.
Proof. intros Ha s r s' [= <- _]. done. Qed.

Lemma yields_fail {A} msg (P : A -> Prop) : yields (fail msg) P.
Proof. by intros s r s' [=]. Qed.

Definition is_select (stmt : Statement) : Prop := match stmt with SELECT _ => True | _ => False end.

Lemma parse_select_yields : yields parse_select is_select.
Proof. unfold parse_select. repeat (apply yields_bind; intros ?). by apply yields_ret. Qed.

Lemma parse_first_token s stmt s' : run_parser parse s = Ret (Some stmt, s') ->
  is_select stmt \/ tk_type (current_token s) = KW_CREATE \/ tk_type (current_token s) = KW_INSERT.
Proof.
  unfold run_parser, parse, current, mbind, parser_bind. outcome_simpl. cbn [fst snd].
  destruct (tk_type (current_token s)) eqn:E; intros H; try discriminate H; auto. left. by apply (parse_select_yields _ _ _ H).
Qed.

(** ** The lexer: the first token *)

Lemma tokenize_loop_prefix fuel : forall l tokens error ts e, tokenize_loop fuel l tokens error = Ret (ts, e) -> tokens `prefix_of` ts.
Proof.
  induction fuel as [|fuel IH]; intros l tokens error ts e; cbn [tokenize_loop]; [done|].
  destruct (rest l); [intros [= <- _]; by apply prefix_app_r|]. destruct (rest (skip_whitespace l)) as [|c1 s1]; [intros [= <- _]; by apply prefix_app_r|].
  destruct (next_token _ _ _) as [[t l'] err]. intros H. apply IH in H. etransitivity; [|exact H]. by apply prefix_app_r.
Qed.

Lemma skip_loop_span s : forall l, rest l = s -> rest (skip_loop s l) = snd (span isspace s).
Proof.
  induction s as [|c s IH]; intros l Hl; [done|]. cbn [skip_loop span]. destruct (isspace c) eqn:E; [|done].
  rewrite IH by apply rest_step. by destruct (span isspace s).
Qed.

Lemma ident_loop_span s : forall l acc, fst (ident_loop s l acc) = acc +:+ fst (span is_ident_char s).
Proof.
  induction s as [|c s IH]; intros l acc; cbn [ident_loop span]; [by rewrite app_empty_r|].
  destruct (is_ident_char c) eqn:E; [|by rewrite app_empty_r]. rewrite IH. destruct (span is_ident_char s) as [a b]. cbn [fst]. by rewrite app_snoc.
Qed.

(** A word of letters is read the same by both scanners. *)
Lemma toupper_alpha c : isupper (toupper c) = true -> isalpha c = true.
Proof. unfold toupper, isalpha. destruct (islower c) eqn:E; [intros _; apply orb_true_r|]. intros ->. done. Qed.

Lemma span_word s : string_forall isupper (string_map toupper (fst (span is_ident_char s))) = true ->
  fst (span isalpha s) = fst (span is_ident_char s).
Proof.
  induction s as [|c s IH]; [done|]. cbn [span]. unfold is_ident_char at 1 3. unfold isalnum.
  destruct (isalpha c) eqn:Ea; cbn [orb].
  - destruct (span is_ident_char s) as [a b], (span isalpha s) as [a' b']. cbn [fst string_map] in *. unfold string_forall in *.
    cbn [String.list_ascii_of_string forallb]. intros [_ H]%andb_true_iff. by rewrite IH.
  - destruct (isdigit c || char_eqb c "_") eqn:Ed; [|done].
    destruct (span is_ident_char s) as [a b]. cbn [fst string_map]. unfold string_forall. cbn [String.list_ascii_of_string forallb].
    intros [H _]%andb_true_iff. apply toupper_alpha in H. congruence.
Qed.

Definition mutating_kw (t : TokenType) : Prop := t = KW_CREATE \/ t = KW_INSERT.

Lemma keyword_mutating w t : KEYWORDS !! w = Some t -> mutating_kw t -> w = "CREATE" \/ w = "INSERT".
Proof.
  unfold KEYWORDS. intros H%elem_of_list_to_map_2 Ht. unfold mutating_kw in Ht.
  repeat (apply elem_of_cons in H as [[= -> ->]|H]; [by first [left; reflexivity|right; reflexivity|destruct Ht]|]). by apply elem_of_nil in H.
Qed.

Lemma next_token_mutating c s l : rest l = String c s -> mutating_kw (tk_type (fst (fst (next_token c s l)))) ->
  let w := string_map toupper (fst (span isalpha (String c s))) in w = "CREATE" \/ w = "INSERT".
Proof.
  intros Hl. unfold next_token. destruct (isdigit c).
  { unfold read_number. destruct (number_loop _ _ _ _) as [[n []] l']; cbn; intros [?|?]; done. }
  destruct (char_eqb c "-" && starts_digit s).
  { unfold read_negative, read_number. destruct (number_loop _ _ _ _) as [[n []] l']; cbn; destruct (_ || _); intros [?|?]; done. }
  destruct (isalpha c || char_eqb c "_").
  { unfold read_identifier_or_keyword. pose proof (ident_loop_span (rest l) l "") as Hi. rewrite app_empty_l, Hl in Hi.
    destruct (ident_loop (rest l) l "") as [ident l'] eqn:Ei. rewrite Hl in Ei. rewrite Ei in Hi. cbn [fst] in Hi.
    destruct (KEYWORDS !! string_map toupper ident) as [kw|] eqn:Ek; cbn [fst tk_type]; [|intros [?|?]; done]. intros Hkw.
    pose proof (keyword_mutating _ _ Ek Hkw) as Hw. rewrite span_word; rewrite <- Hi; [done|]. by destruct Hw as [->| ->]. }
  destruct (char_eqb c squote || char_eqb c dquote).
  { unfold read_string. destruct (string_loop _ _ _ _) as [[str closed] l']; cbn; intros [?|?]; done. }
  unfold read_symbol. repeat (case_match; cbn [fst tk_type]; try (intros [?|?]; done)); intros [?|?]; done.
Qed.

(** ** The property *)

Lemma mutating_logged text stmt : parse_sql text = Ret (inr stmt) -> ~ is_select stmt -> is_mutating_sql text = true.
Proof.
  unfold parse_sql, tokenize. intros H Hns.
  destruct (tokenize_loop _ _ _ _) as [[ts e]| | |] eqn:Et; outcome_simpl; try discriminate H.
  cbn [mbind outcome_bind fst snd] in H. destruct (negb (String.eqb e "")); [done|].
  destruct (parse (Parser_new ts)) as [[[r|] s']| | |] eqn:Ep; cbn [mbind outcome_bind fst snd] in H; try discriminate H. injection H as ->.
  assert (Hkw : mutating_kw (tk_type (current_token (Parser_new ts)))) by (destruct (parse_first_token _ _ _ Ep) as [?|?]; done).
  clear Ep Hns. cbn [tokenize_loop rest Lexer_new] in Et. unfold is_mutating_sql.
  destruct text as [|c0 s0]; [injection Et as <- _; by destruct Hkw|]. set (text := String c0 s0) in *.
  unfold skip_whitespace in Et. change (Lexer_new text) with (mkLexer text 1 1) in Et. change (rest (mkLexer text 1 1)) with text in Et.
  rewrite skip_loop_span in Et by reflexivity. destruct (snd (span isspace text)) as [|c s] eqn:Es; [injection Et as <- _; by destruct Hkw|].
  pose proof (skip_loop_span text (mkLexer text 1 1) eq_refl) as Hr. rewrite Es in Hr.
  pose proof (next_token_mutating c s _ Hr) as Hn. destruct (next_token c s _) as [[t l'] err]. cbn [fst] in Hn.
  apply tokenize_loop_prefix in Et as [ts' ->]. cbn in Hkw. specialize (Hn Hkw). cbn [String.eqb].
  by destruct Hn as [->| ->].
Qed.

(** C27: Write-ahead covers every change: if a text parses to anything but a
    SELECT, [is_mutating_sql] says it is to be logged. *)
Theorem mutating_statements_logged text stmt : parse_sql text = Ret (inr stmt) -> ~ is_select stmt -> is_mutating_sql text = true.
Proof. exact (mutating_logged text stmt). Qed.

Lemma mutating_statements_logged_witness : is_mutating_sql "  insert into t values (1)" = true.
Proof.
  eapply (mutating_statements_logged "  insert into t values (1)" (INSERT (mkInsert "t" [["1"]]))); [vm_compute; reflexivity|exact (fun H => H)].
Defined.
