(* ===== verification/Wire.v ===== *)
(** * Sockets and length-prefixed messages

    Both ends of a connection send a message as its length, four bytes in
    network order, and its text ([send_message], [recv_message] of
    [server/network/tcp_server.cpp]; the client repeats them as [wire_send] and
    [wire_recv]). The kernel may take or deliver fewer bytes than asked: what
    each [::send] accepts is an interface, and the bytes to receive come as a
    list of chunks. *)

From Stdlib Require Import ZArith Lia.
From stdpp Require Import base strings gmap numbers list list_numbers.
From S2P Require Import Prelude Cpp.
Open Scope string_scope.
Open Scope list_scope.
Open Scope Z_scope.

(** ** Sockets *)

(** A connected socket: the chunks that successive reads will find (an empty
    chunk is a failed read, no chunk the end of the stream), the bytes sent so
    far, how many calls of [::send] were made, and whether it was closed. *)
Record Socket := mkSocket {
  inbox : list (list Z);
  outbox : list Z;
  sends : nat;
  closed : bool;
}.

(** What the [i]-th [::send] on a connection returns when it is given enough
    bytes: how many it takes, or zero or less when it fails. *)
Class Kernel := send_result : nat -> Z.

(** A kernel whose connections never fail. *)
Class KernelAccepts `{Kernel} : Prop := send_accepts : forall i, 0 < send_result i.

(** [::send(fd, ptr, n, ...)] for [n] bytes; [None] when it returns at most 0. *)
Definition sys_send `{Kernel} (s : Socket) (data : list Z) : option nat * Socket :=
  let k := send_result (sends s) in
  if k <=? 0 then (None, mkSocket (inbox s) (outbox s) (S (sends s)) (closed s))
  else let n := Nat.min (Z.to_nat k) (length data) in
       (Some n, mkSocket (inbox s) (outbox s ++ take n data) (S (sends s)) (closed s)).

(** [::recv(fd, ptr, n, 0)]: the bytes it delivers; [None] when it returns at most 0. *)
Definition sys_recv (s : Socket) (n : nat) : option (list Z) * Socket :=
  match inbox s with
  | [] => (None, s)
  | [] :: cs => (None, mkSocket cs (outbox s) (sends s) (closed s))
  | c :: cs =>
      (Some (take n c), mkSocket (if (length c <=? n)%nat then cs else drop n c :: cs) (outbox s) (sends s) (closed s))
  end.

Definition close (s : Socket) : Socket := mkSocket (inbox s) (outbox s) (sends s) true.

(** ** Whole buffers *)

(** [while (sent < size) { n = ::send(...); if (n <= 0) return false; sent += n; }]
    on the bytes still to send. *)
Fixpoint send_loop `{Kernel} (fuel : nat) (s : Socket) (data : list Z) : outcome (bool * Socket) :=
  match fuel with
  | O => Diverge
  | S fuel =>
      match data with
      | [] => Ret (true, s)
      | _ => match sys_send s data with
             | (None, s) => Ret (false, s)
             | (Some n, s) => send_loop fuel s (drop n data)
             end
      end
  end.

(** [while (rcvd < len) { n = ::recv(...); if (n <= 0) return false; rcvd += n; }]
    with [want] bytes still to read into [buf]. *)
Fixpoint recv_loop (fuel : nat) (s : Socket) (want : nat) (buf : list Z) : outcome (option (list Z) * Socket) :=
  match fuel with
  | O => Diverge
  | S fuel =>
      if (want =? 0)%nat then Ret (Some buf, s) else
      match sys_recv s want with
      | (None, s) => Ret (None, s)
      | (Some bs, s) => recv_loop fuel s (want - length bs) (buf ++ bs)
      end
  end.

(** ** Messages *)

Definition MAX_MESSAGE : Z := 10 * 1024 * 1024.

(** The image of [htonl(v)] in memory, and [ntohl] of such an image. *)
Definition htonl_bytes (v : Z) : list Z := reverse (le_bytes 4 v).
Definition ntohl_val (bs : list Z) : Z := le_val (reverse bs).

Definition send_message `{Kernel} (s : Socket) (msg : string) : outcome (bool * Socket) :=
  h ← send_loop 5 s (htonl_bytes (u32 (str_size msg)));
  if fst h : bool then send_loop (S (String.length msg)) (snd h) (string_bytes msg) else Ret (false, snd h).

(** [recv_message(fd, msg)]: the message when it returns true. *)
Definition recv_message (s : Socket) : outcome (option string * Socket) :=
  h ← recv_loop 5 s 4 [];
  match fst h with
  | None => Ret (None, snd h)
  | Some bs =>
      let len := ntohl_val bs in
      if MAX_MESSAGE <? len then Ret (None, snd h) else
      p ← recv_loop (S (Z.to_nat len)) (snd h) (Z.to_nat len) [];
      match fst p with
      | None => Ret (None, snd p)
      | Some bs => Ret (Some (bytes_string bs), snd p)
      end
  end.

(** ** What the loops do *)

Definition frame (msg : string) : list Z := htonl_bytes (u32 (str_size msg)) ++ string_bytes msg.

(** The bytes that will arrive, whatever the chunks. *)
Definition stream (s : Socket) : list Z := concat (inbox s).
Definition no_failed_read (s : Socket) : Prop := Forall (fun c => c <> []) (inbox s).

(** [s'] is [s] after [bs] went out. *)
Definition sent (s : Socket) (bs : list Z) (s' : Socket) : Prop :=
  inbox s' = inbox s /\ outbox s' = outbox s ++ bs /\ closed s' = closed s.

(** [s'] is [s] after [n] bytes came in. *)
Definition received (s : Socket) (n : nat) (s' : Socket) : Prop :=
  stream s' = drop n (stream s) /\ no_failed_read s' /\ outbox s' = outbox s /\ closed s' = closed s.

Lemma sent_trans s bs s1 cs s2 : sent s bs s1 -> sent s1 cs s2 -> sent s (bs ++ cs) s2.
Proof. intros (A1 & A2 & A3) (B1 & B2 & B3). repeat split; [congruence|by rewrite B2, A2, <- (assoc_L app)|congruence]. Qed.

Lemma length_htonl_bytes v : length (htonl_bytes v) = 4%nat.
Proof. unfold htonl_bytes. rewrite length_reverse. apply (length_le_bytes 4). Qed.

Lemma ntohl_htonl v : is_u32 v -> ntohl_val (htonl_bytes v) = v.
Proof.
  intros Hv. unfold ntohl_val, htonl_bytes. rewrite reverse_involutive, (le_val_bytes 4) by lia.
  apply Z.mod_small. exact Hv.
Qed.

Lemma length_frame msg : length (frame msg) = (4 + String.length msg)%nat.
Proof. unfold frame. by rewrite length_app, length_htonl_bytes, length_string_bytes. Qed.

Section sending.
Context `{Kernel}.

(** A send writes a prefix: all of it when it returns true. *)
Lemma send_loop_prefix fuel : forall s data, (length data < fuel)%nat ->
  exists b k s', send_loop fuel s data = Ret (b, s') /\ sent s (take k data) s' /\ (b = true -> (length data <= k)%nat) /\
    (KernelAccepts -> b = true).
Proof.
  induction fuel as [|fuel IH]; intros s data Hf; [lia|]. destruct data as [|x data].
  - exists true, 0%nat, s. cbn. unfold sent. by rewrite app_nil_r.
  - cbn [send_loop]. unfold sys_send. destruct (Z.leb_spec (send_result (sends s)) 0) as [Hle|Hlt].
    + eexists false, 0%nat, _. split; [done|]. split; [repeat split; cbn; by rewrite app_nil_r|]. split; [done|].
      intros Ha. specialize (Ha (sends s)). lia.
    + set (n := Nat.min _ _). cbv zeta.
      assert (Hn : (1 <= n <= length (x :: data))%nat) by (unfold n; cbn [length]; lia).
      edestruct (IH (mkSocket (inbox s) (outbox s ++ take n (x :: data)) (S (sends s)) (closed s)) (drop n (x :: data))) as (b & k & s' & E & Hs & Hb & Ha).
      { rewrite length_drop. lia. }
      exists b, (n + k)%nat, s'. split; [exact E|]. split; [|split; [|exact Ha]].
      * rewrite <- (take_take_drop _ n k). eapply sent_trans; [|exact Hs]. by repeat split.
      * intros ->. specialize (Hb eq_refl). rewrite length_drop in Hb. lia.
Qed.

Lemma send_loop_all `{!KernelAccepts} fuel s data : (length data < fuel)%nat -> exists s', send_loop fuel s data = Ret (true, s') /\ sent s data s'.
Proof.
  intros Hf. destruct (send_loop_prefix fuel s data Hf) as (b & k & s' & E & Hs & Hb & Ha).
  rewrite (Ha _) in *. exists s'. split; [done|]. by rewrite take_ge in Hs by auto.
Qed.

Lemma send_message_all `{!KernelAccepts} s msg : exists s', send_message s msg = Ret (true, s') /\ sent s (frame msg) s'.
Proof.
  unfold send_message. destruct (send_loop_all 5 s (htonl_bytes (u32 (str_size msg)))) as (s1 & -> & S1); [by rewrite length_htonl_bytes; lia|].
  outcome_simpl. cbn [fst snd]. destruct (send_loop_all (S (String.length msg)) s1 (string_bytes msg)) as (s2 & -> & S2).
  { rewrite length_string_bytes. lia. }
  exists s2. split; [done|]. exact (sent_trans _ _ _ _ _ S1 S2).
Qed.
End sending.

(** A read of [want] bytes takes them off the stream, and fails only when the
    stream is shorter. *)
Lemma recv_loop_spec fuel : forall s want buf, (want < fuel)%nat -> no_failed_read s ->
  exists s', received s want s' /\
    recv_loop fuel s want buf = Ret (if (want <=? length (stream s))%nat then Some (buf ++ take want (stream s)) else None, s').
Proof.
  induction fuel as [|fuel IH]; intros s want buf Hf Hn; [lia|]. cbn [recv_loop].
  destruct (Nat.eqb_spec want 0) as [->|Hw].
  { exists s. split; [by repeat split; rewrite ?drop_0|]. cbn. by rewrite app_nil_r. }
  unfold no_failed_read, stream, sys_recv in *. destruct (inbox s) as [|c cs] eqn:Ei.
  - exists s. unfold received, stream, no_failed_read. rewrite Ei. cbn. rewrite drop_nil. split; [done|]. by rewrite leb_correct_conv by lia.
  - apply Forall_cons in Hn as [Hc Hcs]. destruct c as [|x c]; [done|]. cbn [concat].
    set (l := x :: c) in *. set (s1 := mkSocket _ _ _ _).
    assert (R1 : received s (length (take want l)) s1).
    { unfold received, stream, no_failed_read. rewrite Ei. cbn [concat]. rewrite length_take.
      unfold s1. cbn [inbox outbox closed]. destruct (Nat.leb_spec (length l) want).
      - rewrite Nat.min_r, drop_app_length by lia. by repeat split.
      - rewrite Nat.min_l by lia. cbn [concat]. rewrite drop_app_le by lia. repeat split. constructor; [|done].
        intros E. apply (f_equal length) in E. rewrite length_drop in E. cbn [length] in *. lia. }
    destruct R1 as (Rs & Rn & Ro & Rc). unfold stream in Rs. rewrite Ei in Rs. cbn [concat] in Rs. fold l in Rs.
    assert (Hl : (1 <= length (take want l) <= want)%nat) by (rewrite length_take; unfold l; cbn [length]; lia).
    destruct (IH s1 (want - length (take want l))%nat (buf ++ take want l)) as (s2 & (Q1 & Q2 & Q3 & Q4) & E); [lia|done|].
    exists s2. split.
    { unfold received. split; [|repeat split; [done|congruence|congruence]].
      unfold stream in *. rewrite Ei, Q1, Rs, drop_drop. cbn [concat]. f_equal. lia. }
    rewrite E. unfold stream. rewrite Rs, length_drop. f_equal. f_equal.
    pose proof (length_take l want) as Ht. pose proof (length_app l (concat cs)) as Happ.
    destruct (Nat.leb_spec want (length (l ++ concat cs))) as [Hle|Hgt].
    + rewrite leb_correct by lia. rewrite <- (assoc_L app). do 2 f_equal.
      assert (E2 : take want (l ++ concat cs) = take (length (take want l) + (want - length (take want l))) (l ++ concat cs)) by (f_equal; lia).
      rewrite E2, <- take_take_drop.
      f_equal. rewrite take_app_le by lia. rewrite Ht. destruct (Nat.min_spec want (length l)) as [[? ->]|[? ->]]; [done|].
      by rewrite !take_ge by lia.
    + rewrite leb_correct_conv by lia. done.
Qed.

(** ** The messages in a stream of bytes *)

(** The first message and what follows it; none when the stream is too short
    or the length too large. *)
Definition first_message (bs : list Z) : option (string * list Z) :=
  if (length bs <? 4)%nat then None else
  let len := ntohl_val (take 4 bs) in
  if MAX_MESSAGE <? len then None else
  let n := Z.to_nat len in
  if (length bs - 4 <? n)%nat then None else Some (bytes_string (take n (drop 4 bs)), drop n (drop 4 bs)).

Fixpoint read_messages (fuel : nat) (bs : list Z) : list string :=
  match fuel with
  | O => []
  | S fuel => match first_message bs with None => [] | Some (m, rest) => m :: read_messages fuel rest end
  end.

(** A message has at least four bytes, so the length is enough fuel. *)
Definition messages (bs : list Z) : list string := read_messages (S (length bs)) bs.

Lemma recv_message_spec s : no_failed_read s -> exists s', no_failed_read s' /\ outbox s' = outbox s /\ closed s' = closed s /\
  match first_message (stream s) with
  | None => recv_message s = Ret (None, s')
  | Some (m, rest) => recv_message s = Ret (Some m, s') /\ stream s' = rest
  end.
Proof.
  intros Hn. unfold recv_message, first_message.
  destruct (recv_loop_spec 5 s 4 []) as (s1 & (R1 & R2 & R3 & R4) & ->); [lia|done|]. outcome_simpl. cbn [fst snd app].
  destruct (Nat.leb_spec 4 (length (stream s))) as [H4|H4]; [rewrite (proj2 (Nat.ltb_ge _ _)) by lia|rewrite (proj2 (Nat.ltb_lt _ _)) by lia; by exists s1].
  destruct (Z.ltb_spec MAX_MESSAGE (ntohl_val (take 4 (stream s)))); [by exists s1|]. set (len := Z.to_nat _).
  destruct (recv_loop_spec (S len) s1 len []) as (s2 & (Q1 & Q2 & Q3 & Q4) & ->); [lia|done|]. outcome_simpl. cbn [fst snd app].
  rewrite R1, length_drop in *. exists s2. split; [done|]. split; [congruence|]. split; [congruence|].
  destruct (Nat.leb_spec len (length (stream s) - 4)); [rewrite (proj2 (Nat.ltb_ge _ _)) by lia|rewrite (proj2 (Nat.ltb_lt _ _)) by lia]; done.
Qed.

Lemma first_message_shorter bs m rest : first_message bs = Some (m, rest) -> (length rest + 4 <= length bs)%nat.
Proof.
  unfold first_message. destruct (Nat.ltb_spec (length bs) 4); [done|]. destruct (MAX_MESSAGE <? _); [done|].
  destruct (Nat.ltb_spec (length bs - 4) (Z.to_nat (ntohl_val (take 4 bs)))); [done|]. intros [= <- <-].
  rewrite !length_drop. lia.
Qed.

Lemma first_message_frame msg rest : str_size msg <= MAX_MESSAGE -> first_message (frame msg ++ rest) = Some (msg, rest).
Proof.
  intros Hm. unfold first_message, frame, MAX_MESSAGE in *.
  assert (Hu : is_u32 (str_size msg)) by (unfold is_u32, str_size in *; lia). rewrite u32_small by done.
  rewrite <- (assoc_L app). rewrite (proj2 (Nat.ltb_ge _ 4)) by (rewrite length_app, length_htonl_bytes; lia).
  rewrite take_app_length', drop_app_length', ntohl_htonl by (done || apply length_htonl_bytes).
  destruct (Z.ltb_spec (10 * 1024 * 1024) (str_size msg)); [lia|].
  assert (Hb : length (string_bytes msg) = Z.to_nat (str_size msg)) by (rewrite length_string_bytes; unfold str_size; lia).
  rewrite (proj2 (Nat.ltb_ge _ _)) by (rewrite !length_app, length_htonl_bytes; lia).
  by rewrite take_app_length', drop_app_length', bytes_string_bytes.
Qed.

(** A longer message is refused after its header. *)
Lemma first_message_oversized msg rest : MAX_MESSAGE < str_size msg < 2 ^ 32 -> first_message (frame msg ++ rest) = None.
Proof.
  intros Hm. unfold first_message, frame, MAX_MESSAGE in *.
  assert (Hu : is_u32 (str_size msg)) by (unfold is_u32; lia). rewrite u32_small by done.
  rewrite <- (assoc_L app). rewrite (proj2 (Nat.ltb_ge _ 4)) by (rewrite length_app, length_htonl_bytes; lia).
  rewrite take_app_length', ntohl_htonl by (done || apply length_htonl_bytes). destruct (Z.ltb_spec (10 * 1024 * 1024) (str_size msg)); [done|lia].
Qed.

Lemma read_messages_frames ms : forall fuel rest, Forall (fun m => str_size m <= MAX_MESSAGE) ms -> (length ((ms ≫= frame) ++ rest) < fuel)%nat ->
  exists fuel', read_messages fuel ((ms ≫= frame) ++ rest) = ms ++ read_messages fuel' rest /\ (length rest < fuel')%nat.
Proof.
  induction ms as [|m ms IH]; intros fuel rest Hm Hf; [by exists fuel|].
  apply Forall_cons in Hm as [Hm Hms]. cbn [mbind list_bind] in *. fold (mbind (M := list) frame ms) in *.
  rewrite <- (assoc_L app) in *. destruct fuel as [|fuel]; [lia|]. cbn [read_messages]. rewrite first_message_frame by done.
  rewrite length_app in Hf. pose proof (length_frame m).
  destruct (IH fuel rest Hms) as (fuel' & -> & ?); [lia|]. by exists fuel'.
Qed.

Lemma messages_frames ms : Forall (fun m => str_size m <= MAX_MESSAGE) ms -> messages (ms ≫= frame) = ms.
Proof.
  intros Hm. unfold messages. destruct (read_messages_frames ms (S (length (ms ≫= frame))) [] Hm) as (fuel' & E & ?).
  { rewrite app_nil_r. lia. }
  rewrite app_nil_r in E. rewrite E. destruct fuel'; cbn; by rewrite app_nil_r.
Qed.
