(* ===== verification/Network.v ===== *)
(** * The TCP server's connections ([server/network/tcp_server.cpp])

    [handle_client] reads queries off a connection, runs them on the executor
    and sends back their results as text, until the client leaves. The calls
    that open the listening socket are left out. *)

From Stdlib Require Import ZArith Lia Ascii.
From stdpp Require Import base strings gmap numbers list list_numbers.
From S2P Require Import Prelude Cpp Common Schema Arena BPTree Table Lexer Parser Cache Executor Wire.
Open Scope string_scope.
Open Scope list_scope.
Open Scope Z_scope.

(** ** Results as text *)

Definition tab : ascii := code_ascii 9.
Definition carriage : ascii := code_ascii 13.
Definition semicolon_char : ascii := ";"%char.

(** [for (i...) { if (i > 0) oss << sep; oss << fields[i]; }] *)
Fixpoint join_fields (sep : ascii) (fields : list string) : string :=
  match fields with
  | [] => ""
  | [f] => f
  | f :: fs => f +:+ String sep (join_fields sep fs)
  end.

(** [... ; oss << "\n";] *)
Definition line_of (fields : list string) : string := join_fields tab fields +:+ String newline "".

Definition lines_of (rows : list (list string)) : string := foldr (fun r s => line_of r +:+ s) "" rows.

Definition format_result (result : QueryResult) : outcome string :=
  if negb (success result) then Ret ("ERROR: " +:+ error result +:+ String newline "")
  else match column_names result with
       | [] => Ret (message result +:+ String newline "")
       | names =>
           texts ← mapM (mapM to_string) (rows result);
           Ret (line_of names +:+ lines_of texts)
       end.

(** ** Connections *)

(** [while (!s.empty() && p(s.back())) s.pop_back();] *)
Fixpoint trim_end (p : ascii -> bool) (s : string) : string :=
  match s with
  | EmptyString => EmptyString
  | String c s => let t := trim_end p s in if String.eqb t "" && p c then "" else String c t
  end.

Definition query_end (c : ascii) : bool := char_eqb c newline || char_eqb c carriage || char_eqb c semicolon_char.
Definition is_exit (query : string) : bool :=
  let upper := string_map toupper query in String.eqb upper "EXIT" || String.eqb upper "QUIT".

Definition BYE : string := "BYE" +:+ String newline "".

Section server.
Context `{Malloc, StdHash, Kernel}.

(** [clocks i] are the times the [i]-th executed query reads. *)
Fixpoint client_loop (fuel : nat) (clocks : nat -> Clocks) (i : nat) (executor : Executor) (s : Socket) : outcome (Executor * Socket) :=
  match fuel with
  | O => Diverge
  | S fuel =>
      r ← recv_message s;
      match fst r with
      | None => Ret (executor, snd r)
      | Some query =>
          let query := trim_end query_end query in
          if String.eqb query "" then client_loop fuel clocks i executor (snd r)
          else if is_exit query then sm ← send_message (snd r) BYE; Ret (executor, snd sm)
          else
            result ← execute_sql executor (clocks i) query;
            response ← format_result (fst result);
            sm ← send_message (snd r) response;
            if fst sm : bool then client_loop fuel clocks (S i) (snd result) (snd sm) else Ret (snd result, snd sm)
      end
  end.

(** A message has at least four bytes, so the length of the stream is enough fuel. *)
Definition handle_client (clocks : nat -> Clocks) (executor : Executor) (s : Socket) : outcome (Executor * Socket) :=
  r ← client_loop (S (length (stream s))) clocks 0 executor s;
  Ret (fst r, close (snd r)).
End server.
