(* ===== verification/NetworkSpec.v ===== *)
(** * Connections answer every query, in order

    Whatever the sizes in which the kernel delivers and takes bytes, a
    connection runs the queries the client framed, in order, and its answers
    are the framed texts of their results. *)

From Stdlib Require Import ZArith Lia Ascii.
From stdpp Require Import base strings gmap numbers list list_numbers.
From S2P Require Import Prelude Cpp Common Schema Arena BPTree Table TableSpec Lexer Parser Cache Executor JoinSpec Wire Network.
Open Scope string_scope.
Open Scope list_scope.
Open Scope Z_scope.

Section connections.
Context `{Malloc, StdHash}.

(** ** What a connection means *)

(** Run a query and format its result. *)
Definition respond (clocks : Clocks) (executor : Executor) (query : string) : outcome (string * Executor) :=
  result ← execute_sql executor clocks query;
  response ← format_result (fst result);
  Ret (response, snd result).

(** The responses to the messages of a client, and the executor left. *)
Fixpoint responses (clocks : nat -> Clocks) (i : nat) (executor : Executor) (queries : list string) : outcome (list string * Executor) :=
  match queries with
  | [] => Ret ([], executor)
  | query :: queries =>
      let query := trim_end query_end query in
      if String.eqb query "" then responses clocks i executor queries
      else if is_exit query then Ret ([BYE], executor)
      else
        r ← respond (clocks i) executor query;
        rs ← responses clocks (S i) (snd r) queries;
        Ret (fst r :: fst rs, snd rs)
  end.

Context `{Kernel}.

(** What the loop does with a stream, in terms of the messages in it. *)
Definition serves (clocks : nat -> Clocks) (i : nat) (executor : Executor) (queries : list string) (s : Socket) (o : outcome (Executor * Socket)) : Prop :=
  match responses clocks i executor queries with
  | Ret (rs, executor') => exists s', o = Ret (executor', s') /\ outbox s' = outbox s ++ (rs ≫= frame)
  | Throw e => o = Throw e
  | Undef => o = Undef
  | Diverge => o = Diverge
  end.

Lemma client_loop_serves `{!KernelAccepts} clocks : forall fuel i executor s, no_failed_read s -> (length (stream s) < fuel)%nat ->
  serves clocks i executor (read_messages fuel (stream s)) s (client_loop fuel clocks i executor s).
Proof.
  induction fuel as [|fuel IH]; intros i executor s Hn Hf; [lia|]. cbn [client_loop read_messages].
  destruct (recv_message_spec s Hn) as (s1 & R2 & R3 & R4 & Hr).
  destruct (first_message (stream s)) as [[q rest]|] eqn:Eq.
  2: { rewrite Hr. outcome_simpl. unfold serves. cbn. exists s1. split; [done|]. by rewrite R3, app_nil_r. }
  destruct Hr as [-> R1]. outcome_simpl. cbn [fst snd]. apply first_message_shorter in Eq.
  unfold serves. cbn [responses]. cbv zeta. rewrite <- R1 in *.
  destruct (String.eqb _ ""); [rewrite <- R3; apply (IH i executor s1 R2); lia|].
  destruct (is_exit _).
  { destruct (send_message_all s1 BYE) as (s2 & -> & S1 & S2 & S3). outcome_simpl. cbn [fst snd]. exists s2. split; [done|].
    cbn [mbind list_bind]. by rewrite S2, R3, app_nil_r. }
  unfold respond. destruct (execute_sql _ _ _) as [re|e| |]; outcome_simpl; try done.
  destruct (format_result (fst re)) as [resp|e| |]; outcome_simpl; try done. cbn [fst snd].
  destruct (send_message_all s1 resp) as (s2 & -> & S1 & S2 & S3). outcome_simpl. cbn [fst snd].
  assert (Es : stream s2 = stream s1) by (unfold stream; by rewrite S1).
  specialize (IH (S i) (snd re) s2). unfold serves in IH. unfold no_failed_read in *. rewrite S1, Es in IH.
  specialize (IH R2 ltac:(lia)). destruct (responses _ _ _ _) as [[rs ex']|e| |]; outcome_simpl; try exact IH. cbn [fst snd].
  destruct IH as (s' & -> & Ho). exists s'. split; [done|]. rewrite Ho, S2, R3. cbn [mbind list_bind]. by rewrite <- !(assoc_L app).
Qed.

Lemma handle_client_serves `{!KernelAccepts} clocks executor s : no_failed_read s ->
  match responses clocks 0 executor (messages (stream s)) with
  | Ret (rs, executor') =>
      exists s', handle_client clocks executor s = Ret (executor', s') /\ outbox s' = outbox s ++ (rs ≫= frame) /\ closed s' = true
  | Throw e => handle_client clocks executor s = Throw e
  | Undef => handle_client clocks executor s = Undef
  | Diverge => handle_client clocks executor s = Diverge
  end.
Proof.
  intros Hn. pose proof (client_loop_serves clocks (S (length (stream s))) 0 executor s Hn ltac:(lia)) as Hl.
  unfold serves, handle_client in *. fold (messages (stream s)) in Hl. destruct (responses _ _ _ _) as [[rs ex']|e| |]; [|by rewrite Hl..].
  destruct Hl as (s' & -> & Ho). by exists (close s').
Qed.

(** C14: A connection answers its queries in order: whatever bytes the peer
    sends, in chunks of any sizes, and however many bytes at a time the kernel
    takes, [handle_client] sends exactly the framed responses to the trimmed,
    non-empty messages in the stream, up to EXIT or a message that is cut short
    or over 10 MB, each run on the executor the ones before left, and then
    closes the socket; an exception of the executor ends it without. *)
Theorem connection_serves `{!KernelAccepts} clocks executor s : no_failed_read s ->
  match responses clocks 0 executor (messages (stream s)) with
  | Ret (rs, executor') =>
      exists s', handle_client clocks executor s = Ret (executor', s') /\ outbox s' = outbox s ++ (rs ≫= frame) /\ closed s' = true
  | Throw e => handle_client clocks executor s = Throw e
  | Undef => handle_client clocks executor s = Undef
  | Diverge => handle_client clocks executor s = Diverge
  end.
Proof. exact (handle_client_serves clocks executor s). Qed.
End connections.

(** A kernel that takes three bytes per call, and a peer whose bytes arrive one
    at a time. *)
#[export] Instance kernel_by_three : Kernel := fun _ => 3.
#[export] Instance kernel_by_three_accepts : KernelAccepts.
Proof. by intros i. Qed.

Definition trickle (bs : list Z) : Socket := mkSocket (map (fun b => [b]) bs) [] 0 false.

Lemma trickle_no_failed_read bs : no_failed_read (trickle bs).
Proof. unfold no_failed_read. cbn. apply Forall_map, Forall_true. done. Qed.

Lemma trickle_stream bs : stream (trickle bs) = bs.
Proof. unfold stream. cbn. induction bs as [|b bs IH]; [done|]. cbn. by rewrite IH. Qed.

Definition sample_clocks : nat -> Clocks := fun i => mkClocks (fun _ => Z.of_nat i) (fun _ => Z.of_nat i) (fun _ => Z.of_nat i).
Definition sample_queries : list string :=
  ["CREATE TABLE users (id INT, name VARCHAR(10));" ; ""; "INSERT INTO users VALUES (1, 'ann'), (2, 'bob')"; "SELECT name FROM users WHERE id = 2"; "SELECT * FROM logs"].

Definition nl : string := String newline "".
Definition sample_answers : list string :=
  ["Table USERS created" +:+ nl; "2 rows inserted" +:+ nl; "NAME" +:+ nl +:+ "bob" +:+ nl; "ERROR: Table not found: LOGS" +:+ nl].

(** From the first component of an outcome to the outcome. *)
Lemma fst_outcome {A B} (o : outcome (A * B)) a : fst <$> o = Ret a -> exists b, o = Ret (a, b).
Proof. destruct o as [[a' b]| | |]; cbn; [|done..]. intros [= ->]. by exists b. Qed.

Lemma connection_serves_witness : exists executor' s',
  handle_client sample_clocks Executor_new (trickle (sample_queries ≫= frame)) = Ret (executor', s') /\
  outbox s' = sample_answers ≫= frame /\ closed s' = true.
Proof.
  pose proof (connection_serves sample_clocks Executor_new (trickle (sample_queries ≫= frame)) (trickle_no_failed_read _)) as H.
  rewrite trickle_stream, messages_frames in H by (repeat constructor; vm_compute; discriminate).
  assert (E : fst <$> responses sample_clocks 0 Executor_new sample_queries = Ret sample_answers) by (vm_compute; reflexivity).
  apply fst_outcome in E as [executor' E]. rewrite E in H. exists executor'. exact H.
Defined.

(** An exception of the executor leaves the connection open and unanswered. *)
Example exception_leaves_socket :
  handle_client sample_clocks Executor_new (trickle (frame "CREATE TABLE t (a VARCHAR(99999999999))")) = Throw out_of_range.
Proof. vm_compute. reflexivity. Qed.

(** An empty statement gets no answer. *)
Example empty_statement_unanswered : exists s',
  handle_client sample_clocks Executor_new (trickle (frame ";")) = Ret (Executor_new, s') /\ outbox s' = [].
Proof. eexists. split; [vm_compute; reflexivity|reflexivity]. Qed.
