(* ===== verification/Client.v ===== *)
(** * The client library and shell ([client/flexql_api.cpp], [client/main.cpp])

    The C API: connect, send a statement and hand the rows of the answer to a
    callback, close; and the shell's loop over it. Pointers that may be null are
    options, the callback is a function on the caller's data. C strings are
    taken to hold no NUL byte: the statement is the text up to its NUL, and a
    field with a NUL in it, which only another client could store, would reach
    the callback cut. *)

From Stdlib Require Import ZArith Lia Ascii.
From stdpp Require Import base strings gmap numbers list list_numbers.
From S2P Require Import Prelude Cpp Common Schema Arena BPTree Table Lexer Parser Cache Executor Wire Network.
Open Scope string_scope.
Open Scope list_scope.
Open Scope Z_scope.

Definition FLEXQL_OK : Z := 0.
Definition FLEXQL_ERROR : Z := 1.
Definition FLEXQL_MISUSE : Z := 3.

(** [struct FlexQL]; no socket stands for a negative descriptor. *)
Record FlexQL := mkFlexQL {
  fd : option Socket;
  host : string;
  port : Z;
  last_error : string;
}.

(** [int callback(void *data, int columnCount, char **values, char **names)],
    the column count being the length of the lists. *)
Definition flexql_callback (A : Type) : Type := A -> list string -> list string -> A * Z.

(** ** Reading an answer *)

(** [while (start < size) { end = s.find(sep, start); ... }]: the pieces of [s]
    between separators, the last one only when it is not empty; [piece] is what
    was read of the current one. *)
Fixpoint split_from (sep : ascii) (piece : string) (s : string) : list string :=
  match s with
  | EmptyString => if String.eqb piece "" then [] else [piece]
  | String c s => if char_eqb c sep then piece :: split_from sep "" s else split_from sep (piece +:+ String c "") s
  end.

Definition split (sep : ascii) (s : string) : list string := split_from sep "" s.

(** [while (vals.size() < ncols) vals.emplace_back("")], then the first [ncols]. *)
Definition pad (ncols : nat) (vals : list string) : list string := take ncols (vals ++ replicate (ncols - length vals) "").

(** The loop over the lines after the header. *)
Fixpoint deliver {A} (callback : flexql_callback A) (col_names : list string) (lines : list string) (arg : A) : A :=
  match lines with
  | [] => arg
  | line :: lines =>
      if String.eqb line "" then deliver callback col_names lines arg
      else
        let '(arg, rc) := callback arg (pad (length col_names) (split tab line)) col_names in
        if rc =? 0 then deliver callback col_names lines arg else arg
  end.

Definition parse_response {A} (callback : flexql_callback A) (response : string) (arg : A) : A :=
  match split newline response with
  | header :: ((_ :: _) as lines) => deliver callback (split tab header) lines arg
  | _ => arg
  end.

(** ** The API *)

Class Network := {
  socket_ok : bool;
  inet_pton_ok : string -> bool;
  connect : string -> Z -> option Socket;
}.

Section api.
Context `{Kernel}.

(** [wire_send] and [wire_recv] repeat the server's loops. *)
Definition wire_send (s : Socket) (msg : string) : outcome (bool * Socket) :=
  h ← send_loop 5 s (htonl_bytes (u32 (str_size msg)));
  if fst h : bool then send_loop (S (String.length msg)) (snd h) (string_bytes msg) else Ret (false, snd h).

Definition wire_recv (s : Socket) : outcome (option string * Socket) :=
  h ← recv_loop 5 s 4 [];
  match fst h with
  | None => Ret (None, snd h)
  | Some bs =>
      let len := ntohl_val bs in
      if 10 * 1024 * 1024 <? len then Ret (None, snd h) else
      p ← recv_loop (S (Z.to_nat len)) (snd h) (Z.to_nat len) [];
      match fst p with
      | None => Ret (None, snd p)
      | Some bs => Ret (Some (bytes_string bs), snd p)
      end
  end.

(** The return code and the handle stored in [*db]. *)
Definition flexql_open `{Network} (host : option string) (port : Z) : Z * option FlexQL :=
  match host with
  | None => (FLEXQL_MISUSE, None)
  | Some host =>
      if negb socket_ok then (FLEXQL_ERROR, None)
      else if negb (inet_pton_ok host) then (FLEXQL_ERROR, None)
      else match connect host (u16 port) with
           | None => (FLEXQL_ERROR, None)
           | Some s => (FLEXQL_OK, Some (mkFlexQL (Some s) host port ""))
           end
  end.

(** The return code and what becomes of the socket; the handle is deleted. *)
Definition flexql_close (db : option FlexQL) : outcome (Z * option Socket) :=
  match db with
  | None => Ret (FLEXQL_MISUSE, None)
  | Some db =>
      match fd db with
      | None => Ret (FLEXQL_OK, None)
      | Some s =>
          sm ← wire_send s "EXIT";
          rm ← wire_recv (snd sm);
          Ret (FLEXQL_OK, Some (close (snd rm)))
      end
  end.

Definition with_fd (s : Socket) (db : FlexQL) : FlexQL := mkFlexQL (Some s) (host db) (port db) (last_error db).

(** What a call of [flexql_exec] leaves: its return code, [*errmsg], the handle
    and the callback's data. *)
Record exec_result (A : Type) := mkExecResult { rc : Z; errmsg : option string; handle : option FlexQL; data : A }.
Arguments mkExecResult {A}.

Definition flexql_exec {A} (db : option FlexQL) (sql : option string) (callback : option (flexql_callback A)) (arg : A)
    : outcome (exec_result A) :=
  match db, sql with
  | Some h, Some sql =>
      match fd h with
      | None => Ret (mkExecResult FLEXQL_ERROR None db arg)
      | Some s =>
          sm ← wire_send s sql;
          if negb (fst sm) then Ret (mkExecResult FLEXQL_ERROR (Some "Failed to send query") (Some (with_fd (snd sm) h)) arg) else
          rm ← wire_recv (snd sm);
          let h := with_fd (snd rm) h in
          match fst rm with
          | None => Ret (mkExecResult FLEXQL_ERROR (Some "Failed to receive response") (Some h) arg)
          | Some response =>
              if String.prefix "ERROR: " response then
                Ret (mkExecResult FLEXQL_ERROR (Some (String.substring 7 (String.length response - 7) response)) (Some h) arg)
              else
                Ret (mkExecResult FLEXQL_OK None (Some h)
                       (match callback with Some callback => parse_response callback response arg | None => arg end))
          end
      end
  | _, _ => Ret (mkExecResult FLEXQL_MISUSE None db arg)
  end.
End api.
Arguments rc {A}.
Arguments errmsg {A}.
Arguments handle {A}.
Arguments data {A}.

(** ** The shell *)

(** What was printed, and the static [header_printed] of [print_callback]. *)
Record Shell := mkShell { stdout : string; stderr : string; header_printed : bool }.

Definition print_callback : flexql_callback Shell := fun sh values col_names =>
  let header := if header_printed sh then "" else line_of col_names +:+ line_of (map (fun _ => "--------") col_names) in
  (mkShell (stdout sh +:+ header +:+ line_of values) (stderr sh) true, 0).

Definition print_out (text : string) (sh : Shell) : Shell := mkShell (stdout sh +:+ text) (stderr sh) (header_printed sh).
Definition print_err (text : string) (sh : Shell) : Shell := mkShell (stdout sh) (stderr sh +:+ text) (header_printed sh).

Definition shell_blank (c : ascii) : bool :=
  char_eqb c " "%char || char_eqb c tab || char_eqb c newline || char_eqb c carriage || char_eqb c semicolon_char.

(** The loop of [main] over the lines of the standard input. *)
Fixpoint repl `{Kernel} (input : list string) (db : option FlexQL) (sh : Shell) : outcome (option FlexQL * Shell) :=
  let sh := print_out "flexql> " sh in
  match input with
  | [] => Ret (db, sh)
  | line :: input =>
      let line := trim_end shell_blank line in
      if String.eqb line "" then repl input db sh
      else
        let upper := string_map toupper line in
        if String.eqb upper "EXIT" || String.eqb upper "QUIT" || String.eqb upper "\Q" then Ret (db, sh)
        else
          r ← flexql_exec db (Some line) (Some print_callback) sh;
          let sh := data r in
          let sh := if rc r =? FLEXQL_OK then sh
                    else match errmsg r with
                         | Some e => print_err ("Error: " +:+ e +:+ String newline "") sh
                         | None => print_err ("Error executing query." +:+ String newline "") sh
                         end in
          repl input (handle r) (print_out (String newline "") sh)
  end.

(** [main]: the exit code, the output, and what became of the socket. *)
Definition client_main `{Kernel, Network} (argv : list string) (input : list string) : outcome (Z * Shell * option Socket) :=
  let host := default "127.0.0.1" (argv !! 0%nat) in
  port ← (match argv !! 1%nat with Some arg => atoi arg | None => Ret 9876 end);
  let place := host +:+ ":" +:+ to_string_Z port in
  let sh := print_out ("FlexQL Client v1.0" +:+ String newline ("Connecting to " +:+ place +:+ "..." +:+ String newline "")) (mkShell "" "" false) in
  let (rc, db) := flexql_open (Some host) port in
  if negb (rc =? FLEXQL_OK) then Ret (1, print_err ("Failed to connect to server at " +:+ place +:+ String newline "") sh, None) else
  r ← repl input db (print_out ("Connected. Type SQL queries or EXIT to quit." +:+ String newline (String newline "")) sh);
  c ← flexql_close (fst r);
  Ret (0, print_out ("Goodbye." +:+ String newline "") (snd r), snd c).
