(* ===== verification/ClientSpec.v ===== *)
(** * The client sees what the executor answered

    The text of a result splits back into its header, rows and fields, so the
    callback of [flexql_exec] gets the rows of the executor's answer, and a
    failed statement its message. *)

From Stdlib Require Import ZArith Lia Ascii.
From stdpp Require Import base strings gmap numbers list list_numbers.
From S2P Require Import Prelude Cpp Common Schema Arena BPTree Table TableSpec Lexer LexerSpec Parser Cache Executor JoinSpec Wire Network NetworkSpec Client.
Open Scope string_scope.
Open Scope list_scope.
Open Scope Z_scope.

(** ** Splitting undoes joining *)

Definition lacks (c : ascii) (s : string) : bool := string_forall (fun d => negb (char_eqb d c)) s.

Lemma lacks_cons c d s : lacks c (String d s) = negb (char_eqb d c) && lacks c s.
Proof. done. Qed.

Lemma split_from_field sep f : forall piece s, lacks sep f = true ->
  split_from sep piece (f +:+ String sep s) = (piece +:+ f) :: split_from sep "" s.
Proof.
  induction f as [|c f IH]; intros piece s Hf.
  - rewrite app_empty_l, app_empty_r. cbn [split_from]. by rewrite char_eqb_refl.
  - rewrite lacks_cons in Hf. apply andb_prop in Hf as [Hc Hf]. apply negb_true_iff in Hc.
    rewrite app_cons. cbn [split_from]. by rewrite Hc, IH, app_snoc by done.
Qed.

Lemma split_from_last sep f : forall piece, lacks sep f = true ->
  split_from sep piece f = if String.eqb (piece +:+ f) "" then [] else [piece +:+ f].
Proof.
  induction f as [|c f IH]; intros piece Hf.
  - by rewrite app_empty_r.
  - rewrite lacks_cons in Hf. apply andb_prop in Hf as [Hc Hf]. apply negb_true_iff in Hc.
    cbn [split_from]. by rewrite Hc, IH, app_snoc by done.
Qed.

Lemma split_lines sep fs : Forall (fun f => lacks sep f = true) fs ->
  split sep (foldr (fun f s => f +:+ String sep s) "" fs) = fs.
Proof.
  induction 1 as [|f fs Hf _ IH]; [done|]. cbn [foldr]. unfold split in *.
  rewrite split_from_field, app_empty_l by done. by rewrite IH.
Qed.

(** A trailing empty field is lost; padding brings it back. *)
Lemma split_join sep fs : Forall (fun f => lacks sep f = true) fs ->
  exists k, fs = split sep (join_fields sep fs) ++ replicate k "" /\ (last fs <> Some "" -> k = 0%nat).
Proof.
  induction 1 as [|f fs Hf Hfs IH]; [by exists 0%nat|]. destruct fs as [|g fs].
  - cbn [join_fields]. unfold split. rewrite split_from_last, app_empty_l by done.
    destruct (String.eqb_spec f "") as [->|]; [exists 1%nat|exists 0%nat]; by split.
  - destruct IH as (k & IH & Hk). exists k. change (join_fields sep (f :: g :: fs)) with (f +:+ String sep (join_fields sep (g :: fs))).
    unfold split in *. rewrite split_from_field, app_empty_l by done. rewrite <- app_comm_cons, <- IH. split; [done|]. exact Hk.
Qed.

Lemma pad_split sep fs n : Forall (fun f => lacks sep f = true) fs -> length fs = n -> pad n (split sep (join_fields sep fs)) = fs.
Proof.
  intros Hf <-. destruct (split_join sep fs Hf) as (k & E & _). unfold pad. set (p := split _ _) in *.
  assert (Hl : length fs = (length p + k)%nat) by (rewrite E at 1; by rewrite length_app, length_replicate).
  rewrite Hl. replace (length p + k - length p)%nat with k by lia. rewrite <- E, take_ge; [done|lia].
Qed.

(** ** Prefixes *)

Lemma prefix_app_newline p s t : lacks newline p = true -> String.prefix p s = false -> String.prefix p (s +:+ String newline t) = false.
Proof.
  revert p. induction s as [|d s IH]; intros [|c p] Hp Hs; try (cbn in Hs; discriminate Hs).
  - rewrite lacks_cons in Hp. apply andb_prop in Hp as [Hc _]. apply negb_true_iff, char_eqb_neq in Hc.
    rewrite app_empty_l. cbn [String.prefix]. destruct (ascii_dec c newline); [done|reflexivity].
  - rewrite lacks_cons in Hp. apply andb_prop in Hp as [_ Hp]. rewrite app_cons. cbn [String.prefix] in *.
    destruct (ascii_dec c d); [by apply IH|done].
Qed.

Lemma prefix_app p s : String.prefix p (p +:+ s) = true.
Proof.
  induction p as [|c p IH]; [by destruct s|]. rewrite app_cons. cbn [String.prefix]. by destruct (ascii_dec c c).
Qed.

Lemma substring_all s : String.substring 0 (String.length s) s = s.
Proof. induction s as [|c s IH]; [done|]. cbn. by rewrite IH. Qed.

(** ** Answers *)

(** The rows a callback accepts: the next one only while it returns 0. *)
Fixpoint call_rows {A} (callback : flexql_callback A) (col_names : list string) (rows : list (list string)) (arg : A) : A :=
  match rows with
  | [] => arg
  | row :: rows => let '(arg, rc) := callback arg row col_names in if rc =? 0 then call_rows callback col_names rows arg else arg
  end.

(** What [flexql_exec] should leave of a result whose values print as [texts]. *)
Definition client_sees {A} (callback : flexql_callback A) (result : QueryResult) (texts : list (list string)) (arg : A) : Z * option string * A :=
  if negb (success result) then (FLEXQL_ERROR, Some (error result +:+ String newline ""), arg)
  else (FLEXQL_OK, None, call_rows callback (column_names result) texts arg).

Definition plain (s : string) : bool := lacks newline s && lacks tab s.

(** The text of the result says what the result is: no tab or newline in a
    name or value, no empty line, and no header or message that starts like an
    error. *)
Definition readable (result : QueryResult) (texts : list (list string)) : Prop :=
  success result = true ->
  match column_names result with
  | [] => lacks newline (message result) = true /\ String.prefix "ERROR: " (message result) = false /\ texts = []
  | names =>
      Forall (fun n => plain n = true) names /\ last names <> Some "" /\ String.prefix "ERROR: " (join_fields tab names) = false /\
      Forall (fun row => length row = length names /\ Forall (fun v => plain v = true) row /\ row <> [""]) texts
  end.

Lemma plain_fields s row : Forall (fun v => plain v = true) row -> s = newline \/ s = tab -> Forall (fun v => lacks s v = true) row.
Proof.
  intros Hr Hs. eapply Forall_impl; [exact Hr|]. intros v Hv. unfold plain in Hv. apply andb_prop in Hv as [? ?].
  by destruct Hs as [-> | ->].
Qed.

Lemma lacks_app c s t : lacks c (s +:+ t) = lacks c s && lacks c t.
Proof. induction s as [|d s IH]; [done|]. rewrite app_cons, !lacks_cons, IH. apply andb_assoc. Qed.

Lemma lacks_join c sep fs : c <> sep -> Forall (fun f => lacks c f = true) fs -> lacks c (join_fields sep fs) = true.
Proof.
  intros Hc. induction 1 as [|f fs Hf Hfs IH]; [done|]. destruct fs as [|g fs]; [done|].
  change (join_fields sep (f :: g :: fs)) with (f +:+ String sep (join_fields sep (g :: fs))).
  rewrite lacks_app, lacks_cons, Hf, IH. cbn. by rewrite (proj2 (char_eqb_neq sep c)) by congruence.
Qed.

Lemma lines_of_fold rows : lines_of rows = foldr (fun f s => f +:+ String newline s) "" (map (join_fields tab) rows).
Proof. induction rows as [|r rows IH]; [done|]. change (lines_of (r :: rows)) with (line_of r +:+ lines_of rows). rewrite IH. unfold line_of. by rewrite app_snoc. Qed.

Lemma split_answer names texts : Forall (fun n => plain n = true) names -> Forall (fun row => Forall (fun v => plain v = true) row) texts ->
  split newline (line_of names +:+ lines_of texts) = join_fields tab names :: map (join_fields tab) texts.
Proof.
  intros Hn Ht. unfold line_of. rewrite app_snoc, lines_of_fold.
  apply (split_lines newline (join_fields tab names :: map (join_fields tab) texts)).
  assert (Hrow : forall row, Forall (fun v => plain v = true) row -> lacks newline (join_fields tab row) = true).
  { intros row Hr. apply lacks_join; [done|]. apply (plain_fields _ _ Hr). by left. }
  constructor; [by apply Hrow|]. apply Forall_map. eapply Forall_impl; [exact Ht|]. exact Hrow.
Qed.

Lemma deliver_rows {A} (callback : flexql_callback A) names texts arg :
  Forall (fun row => length row = length names /\ Forall (fun v => plain v = true) row /\ row <> [""]) texts -> names <> [] ->
  deliver callback names (map (join_fields tab) texts) arg = call_rows callback names texts arg.
Proof.
  intros Ht Hn. revert arg. induction Ht as [|row texts (Hl & Hp & Hne) _ IH]; intros arg; [done|]. cbn [map deliver call_rows].
  destruct (String.eqb_spec (join_fields tab row) "") as [E|_].
  - exfalso. destruct row as [|f [|g row]]; [by destruct names| |by destruct f]. cbn in E. by subst f.
  - rewrite (pad_split tab row); [|apply (plain_fields _ _ Hp); by right|done].
    destruct (callback _ _ _) as [arg' rc]. destruct (rc =? 0); [apply IH|done].
Qed.

(** What the client makes of the formatted result. *)
Definition on_response {A} (callback : option (flexql_callback A)) (response : string) (arg : A) : Z * option string * A :=
  if String.prefix "ERROR: " response then (FLEXQL_ERROR, Some (String.substring 7 (String.length response - 7) response), arg)
  else (FLEXQL_OK, None, match callback with Some callback => parse_response callback response arg | None => arg end).

Lemma client_reads {A} (callback : flexql_callback A) result texts response arg :
  format_result result = Ret response -> mapM (mapM to_string) (rows result) = Ret texts -> readable result texts ->
  on_response (Some callback) response arg = client_sees callback result texts arg.
Proof.
  unfold format_result, client_sees, on_response, readable. intros Hf Ht Hr. destruct (success result); cbn [negb] in *.
  2: { injection Hf as <-. set (e := error result +:+ _). rewrite prefix_app.
       change (String.substring 7 (String.length ("ERROR: " +:+ e) - 7) ("ERROR: " +:+ e)) with (String.substring 0 (String.length e - 0) e).
       by rewrite Nat.sub_0_r, substring_all. }
  specialize (Hr eq_refl). destruct (column_names result) as [|n names].
  - injection Hf as <-. destruct Hr as (Hm & Hp & ->). rewrite prefix_app_newline by done. cbn [call_rows].
    unfold parse_response. pose proof (split_lines newline [message result]) as E. cbn [foldr] in E. by rewrite E by (by constructor).
  - rewrite Ht in Hf. injection Hf as <-. destruct Hr as (Hn & Hl & Hp & Hrows).
    assert (Hpre : String.prefix "ERROR: " (line_of (n :: names) +:+ lines_of texts) = false).
    { unfold line_of. rewrite app_snoc. by apply prefix_app_newline. }
    rewrite Hpre. unfold parse_response.
    rewrite split_answer; [|done|by eapply Forall_impl; [exact Hrows|]; intros row (_ & ? & _)].
    destruct (split_join tab (n :: names)) as (k & E & Hk); [apply (plain_fields _ _ Hn); by right|].
    rewrite (Hk Hl), app_nil_r in E. rewrite <- E. destruct texts as [|row texts]; [done|].
    cbn [map]. f_equal. exact (deliver_rows callback (n :: names) (row :: texts) arg Hrows ltac:(done)).
Qed.

(** ** A statement over the wire *)

Section api.
Context `{Kernel, !KernelAccepts}.

Lemma exec_on_socket {A} (h : FlexQL) s sql (callback : option (flexql_callback A)) arg response rest :
  fd h = Some s -> no_failed_read s -> stream s = frame response ++ rest -> str_size response <= MAX_MESSAGE ->
  let '(rc, errmsg, arg') := on_response callback response arg in
  exists s', flexql_exec (Some h) (Some sql) callback arg = Ret (mkExecResult A rc errmsg (Some (with_fd s' h)) arg') /\
    outbox s' = outbox s ++ frame sql /\ stream s' = rest /\ no_failed_read s'.
Proof.
  intros Hh Hn Hs Hm. unfold on_response, flexql_exec. rewrite Hh.
  change (wire_send s sql) with (send_message s sql). destruct (send_message_all s sql) as (s1 & -> & S1 & S2 & S3).
  outcome_simpl. cbn [fst snd negb]. change (wire_recv s1) with (recv_message s1).
  destruct (recv_message_spec s1) as (s2 & R1 & R2 & R3 & R4); [unfold no_failed_read; by rewrite S1|].
  unfold stream in R4 at 1. rewrite S1 in R4. fold (stream s) in R4. rewrite Hs, first_message_frame in R4 by done.
  destruct R4 as [-> R4]. outcome_simpl. cbn [fst snd].
  destruct (String.prefix "ERROR: " response); exists s2; (split; [done|]); (split; [congruence|done]).
Qed.
End api.

(** ** A session over the wire *)

Section session.
Context `{Malloc, StdHash, Kernel, !KernelAccepts}.

(** The executor on the trimmed statements, without a network. *)
Fixpoint run_queries (clocks : nat -> Clocks) (i : nat) (executor : Executor) (sqls : list string) : outcome (list QueryResult * Executor) :=
  match sqls with
  | [] => Ret ([], executor)
  | sql :: sqls =>
      r ← execute_sql executor (clocks i) (trim_end query_end sql);
      rs ← run_queries clocks (S i) (snd r) sqls;
      Ret (fst r :: fst rs, snd rs)
  end.

(** A client that runs statements one after the other: the codes and messages
    it gets, the callback's data and the handle. *)
Fixpoint exec_all {A} (db : option FlexQL) (sqls : list string) (callback : flexql_callback A) (arg : A)
    : outcome (list (Z * option string) * A * option FlexQL) :=
  match sqls with
  | [] => Ret ([], arg, db)
  | sql :: sqls =>
      r ← flexql_exec db (Some sql) (Some callback) arg;
      rs ← exec_all (handle r) sqls callback (data r);
      Ret ((rc r, errmsg r) :: fst (fst rs), snd (fst rs), snd rs)
  end.

(** What that client should get of the results, printing as [texts]. *)
Fixpoint see_all {A} (callback : flexql_callback A) (answers : list (QueryResult * list (list string))) (arg : A) : list (Z * option string) * A :=
  match answers with
  | [] => ([], arg)
  | (result, texts) :: answers =>
      let '(code, arg) := client_sees callback result texts arg in
      let '(codes, arg) := see_all callback answers arg in (code :: codes, arg)
  end.

(** A statement the server runs: not blank, not EXIT, and of bounded size. *)
Definition sendable (sql : string) : Prop :=
  str_size sql <= MAX_MESSAGE /\ trim_end query_end sql <> "" /\ is_exit (trim_end query_end sql) = false.

(** A result the client can read. *)
Definition answer_ok (result : QueryResult) (texts : list (list string)) : Prop :=
  mapM (mapM to_string) (rows result) = Ret texts /\ readable result texts /\
  exists response, format_result result = Ret response /\ str_size response <= MAX_MESSAGE.

Lemma run_queries_length clocks sqls : forall i executor results executor',
  run_queries clocks i executor sqls = Ret (results, executor') -> length results = length sqls.
Proof.
  induction sqls as [|sql sqls IH]; intros i executor results executor' Hr; [by injection Hr as <- _|].
  cbn [run_queries] in Hr. apply bind_Ret_inv in Hr as (r & _ & Hr). apply bind_Ret_inv in Hr as ([rs ex] & Hr & E).
  injection E as <- _. cbn. f_equal. by eapply IH.
Qed.

Lemma responses_of_run clocks sqls : forall i executor results executor',
  Forall sendable sqls -> run_queries clocks i executor sqls = Ret (results, executor') ->
  Forall (fun r => exists response, format_result r = Ret response) results ->
  exists rs, mapM format_result results = Ret rs /\ responses clocks i executor (sqls ++ ["EXIT"]) = Ret (rs ++ [BYE], executor').
Proof.
  induction sqls as [|sql sqls IH]; intros i executor results executor' Hs Hr Hf.
  - injection Hr as <- <-. exists []. done.
  - apply Forall_cons in Hs as [(Hs1 & Hs2 & Hs3) Hs]. cbn [run_queries] in Hr.
    apply bind_Ret_inv in Hr as ([result ex1] & Ex & Hr). apply bind_Ret_inv in Hr as ([results1 ex2] & Hr & E).
    cbn [fst snd] in *. injection E as <- <-. apply Forall_cons in Hf as [[response Hf1] Hf].
    destruct (IH (S i) ex1 results1 ex2 Hs Hr Hf) as (rs & Erf & Er). exists (response :: rs).
    split; [cbn [mapM]; rewrite Hf1, Erf; done|]. rewrite <- app_comm_cons. cbn [responses]. cbv zeta.
    destruct (String.eqb_spec (trim_end query_end sql) ""); [done|]. rewrite Hs3. unfold respond. rewrite Ex. outcome_simpl. cbn [fst snd].
    rewrite Hf1. outcome_simpl. cbn [fst snd]. by rewrite Er.
Qed.

Lemma exec_all_sees {A} (callback : flexql_callback A) answers : forall sqls rs (h : FlexQL) s arg rest, length sqls = length answers ->
  Forall (fun a => answer_ok (fst a) (snd a)) answers -> mapM format_result (map fst answers) = Ret rs ->
  fd h = Some s -> no_failed_read s -> stream s = (rs ≫= frame) ++ rest ->
  exists s', exec_all (Some h) sqls callback arg = Ret (see_all callback answers arg, Some (with_fd s' h)) /\
    outbox s' = outbox s ++ (sqls ≫= frame) /\ stream s' = rest /\ no_failed_read s'.
Proof.
  induction answers as [|[result texts] answers IH]; intros sqls rs h s arg rest Hl Ha Hrs Hh Hn Hs.
  - destruct sqls; [|done]. injection Hrs as <-. exists s. cbn. rewrite app_nil_r. repeat split; try done.
    unfold with_fd. rewrite <- Hh. by destruct h.
  - destruct sqls as [|sql sqls]; [done|]. apply Forall_cons in Ha as [(Ht & Hread & response & Hf & Hm) Ha]. cbn [fst snd] in *.
    cbn [map mapM fst] in Hrs. rewrite Hf in Hrs. apply bind_Ret_inv in Hrs as (? & [= <-] & Hrs).
    apply bind_Ret_inv in Hrs as (rs1 & Hrs & E). injection E as <-. cbn [mbind list_bind] in Hs. fold (mbind (M := list) frame rs1) in Hs.
    rewrite <- (assoc_L app) in Hs.
    pose proof (exec_on_socket h s sql (Some callback) arg response _ Hh Hn Hs Hm) as Hx.
    rewrite (client_reads callback result texts response arg Hf Ht Hread) in Hx. cbn [exec_all see_all].
    destruct (client_sees callback result texts arg) as [[code msg] arg1]. destruct Hx as (s1 & -> & O1 & S1 & N1).
    outcome_simpl. cbn [rc errmsg handle data].
    destruct (IH sqls rs1 (with_fd s1 h) s1 arg1 rest ltac:(by injection Hl) Ha Hrs eq_refl N1 S1) as (s2 & -> & O2 & S2 & N2).
    outcome_simpl. cbn [fst snd]. exists s2. destruct (see_all callback answers arg1) as [codes arg2]. cbn [fst snd].
    split; [done|]. split; [|done]. rewrite O2, O1. cbn [mbind list_bind]. by rewrite (assoc_L app).
Qed.

Lemma see_all_length {A} (callback : flexql_callback A) answers arg : length (fst (see_all callback answers arg)) = length answers.
Proof.
  revert arg. induction answers as [|[r t] answers IH]; intros arg; [done|]. cbn [see_all].
  destruct (client_sees _ _ _ _) as [code arg1]. specialize (IH arg1). destruct (see_all _ _ _). cbn in *. by rewrite IH.
Qed.

Lemma close_says_bye (h : FlexQL) s : fd h = Some s -> no_failed_read s -> stream s = frame BYE ->
  exists s', flexql_close (Some h) = Ret (FLEXQL_OK, Some s') /\ outbox s' = outbox s ++ frame "EXIT" /\ stream s' = [] /\ closed s' = true.
Proof.
  intros Hh Hn Hs. unfold flexql_close. rewrite Hh. change (wire_send s "EXIT") with (send_message s "EXIT").
  destruct (send_message_all s "EXIT") as (s1 & -> & S1 & S2 & S3). outcome_simpl. cbn [fst snd].
  change (wire_recv s1) with (recv_message s1). destruct (recv_message_spec s1) as (s2 & R1 & R2 & R3 & R4); [unfold no_failed_read; by rewrite S1|].
  unfold stream in R4 at 1. rewrite S1 in R4. fold (stream s) in R4. rewrite Hs, <- (app_nil_r (frame BYE)), first_message_frame in R4 by done.
  destruct R4 as [-> R4]. outcome_simpl. cbn [fst snd]. exists (close s2). split; [done|]. cbn. split; [congruence|done].
Qed.

(** C12: End to end: a client that runs statements over a connection and closes
    it gets, for each, the code, message and rows of the result the executor
    computes for that statement, in order: whatever the sizes in which the
    kernel moves the bytes, for statements and answers of up to 10 MB whose
    text has no tabs, newlines or blank lines inside. The server reads just the
    bytes the client writes, and the client just the bytes the server writes. *)
Theorem session_over_the_wire {A} (callback : flexql_callback A) clocks executor sqls answers executor' ss :
  Forall sendable sqls -> run_queries clocks 0 executor sqls = Ret (map fst answers, executor') ->
  Forall (fun a => answer_ok (fst a) (snd a)) answers ->
  no_failed_read ss -> outbox ss = [] -> stream ss = (sqls ++ ["EXIT"]) ≫= frame ->
  exists ss', handle_client clocks executor ss = Ret (executor', ss') /\ closed ss' = true /\
    forall (h : FlexQL) cs arg, fd h = Some cs -> no_failed_read cs -> outbox cs = [] -> stream cs = outbox ss' ->
    exists h' cs', exec_all (Some h) sqls callback arg = Ret (see_all callback answers arg, Some h') /\
      flexql_close (Some h') = Ret (FLEXQL_OK, Some cs') /\ closed cs' = true /\ stream cs' = [] /\ outbox cs' = stream ss.
Proof.
  intros Hs Hr Ha Hn Ho Hstream.
  assert (Hf : Forall (fun r => exists response, format_result r = Ret response) (map fst answers)).
  { apply Forall_map. eapply Forall_impl; [exact Ha|]. intros [r t] (_ & _ & response & Hf & _). by exists response. }
  destruct (responses_of_run clocks sqls 0 executor _ executor' Hs Hr Hf) as (rs & Ers & Eresp).
  assert (Hms : messages (stream ss) = sqls ++ ["EXIT"]).
  { rewrite Hstream. apply messages_frames. apply Forall_app. split; [|by constructor].
    eapply Forall_impl; [exact Hs|]. by intros sql (? & _). }
  pose proof (handle_client_serves clocks executor ss Hn) as Hserve. rewrite Hms, Eresp in Hserve.
  destruct Hserve as (ss' & E & Oss & Css). exists ss'. split; [done|]. split; [done|].
  intros h cs arg Hh Hcn Hco Hcs. rewrite Oss, Ho, bind_app in Hcs. cbn [app] in Hcs.
  assert (Hl : length sqls = length answers).
  { rewrite <- (length_map fst answers). symmetry. by eapply run_queries_length. }
  destruct (exec_all_sees callback answers sqls rs h cs arg _ Hl Ha Ers Hh Hcn Hcs) as (s1 & E1 & O1 & S1 & N1).
  destruct (close_says_bye (with_fd s1 h) s1 eq_refl N1) as (cs' & E2 & O2 & S2 & C2); [by rewrite S1; apply app_nil_r|].
  exists (with_fd s1 h), cs'. split; [done|]. split; [done|]. split; [done|]. split; [done|].
  rewrite O2, O1, Hco, Hstream, bind_app. cbn [mbind list_bind app]. by rewrite app_nil_r.
Qed.
End session.

(** *** A concrete session *)

Definition collect_rows : flexql_callback (list (list string * list string)) := fun rows values names => (rows ++ [(names, values)], 0).

Definition session_sqls : list string :=
  ["CREATE TABLE users (id INT, name VARCHAR(10));"; "INSERT INTO users VALUES (1, 'ann'), (2, ''), (3, 'cy')"; "SELECT name, id FROM users"; "SELECT * FROM logs"].

Definition session_answers : list (QueryResult * list (list string)) :=
  [(done_with "Table USERS created", []); (done_with "3 rows inserted", []);
   (selected ["NAME"; "ID"] [[VStr "ann"; VInt 1]; [VStr ""; VInt 2]; [VStr "cy"; VInt 3]], [["ann"; "1"]; [""; "2"]; ["cy"; "3"]]);
   (failed "Table not found: LOGS", [])].

Definition session_handle (s : Socket) : FlexQL := mkFlexQL (Some s) "127.0.0.1" 9876 "".

Lemma session_answers_ok : Forall (fun a => answer_ok (fst a) (snd a)) session_answers.
Proof.
  repeat apply Forall_cons_2; [..|apply Forall_nil_2]; cbn [fst snd]; (split; [vm_compute; reflexivity|]);
    (split; [|eexists; split; [vm_compute; reflexivity|vm_compute; discriminate]]); intros Hs; try discriminate Hs; cbn.
  1-2: by repeat split.
  split; [by repeat constructor|]. split; [done|]. split; [done|].
  repeat apply Forall_cons_2; [..|apply Forall_nil_2]; (split; [done|]); (split; [by repeat constructor|done]).
Qed.

Lemma session_sqls_sendable : Forall sendable session_sqls.
Proof.
  unfold session_sqls.
  repeat (apply Forall_cons_2; [split; [vm_compute; discriminate|split; [vm_compute; discriminate|vm_compute; reflexivity]]|]). apply Forall_nil_2.
Qed.

Lemma session_over_the_wire_witness : exists ss' h' cs', closed ss' = true /\
  exec_all (Some (session_handle (trickle (outbox ss')))) session_sqls collect_rows [] =
    Ret ([(0, None); (0, None); (0, None); (1, Some ("Table not found: LOGS" +:+ nl))],
         [(["NAME"; "ID"], ["ann"; "1"]); (["NAME"; "ID"], [""; "2"]); (["NAME"; "ID"], ["cy"; "3"])], Some h') /\
  flexql_close (Some h') = Ret (FLEXQL_OK, Some cs') /\ stream cs' = [].
Proof.
  assert (E : fst <$> run_queries sample_clocks 0 Executor_new session_sqls = Ret (map fst session_answers)) by (vm_compute; reflexivity).
  apply fst_outcome in E as [executor' E]. set (ss := trickle ((session_sqls ++ ["EXIT"]) ≫= frame)).
  destruct (session_over_the_wire collect_rows sample_clocks Executor_new session_sqls session_answers executor' ss) as (ss' & _ & Hc & H).
  - exact session_sqls_sendable.
  - exact E.
  - exact session_answers_ok.
  - apply trickle_no_failed_read.
  - reflexivity.
  - apply trickle_stream.
  - destruct (H (session_handle (trickle (outbox ss'))) (trickle (outbox ss')) [] eq_refl (trickle_no_failed_read _) eq_refl (trickle_stream _))
      as (h' & cs' & E1 & E2 & _ & E3 & _).
    exists ss', h', cs'. split; [exact Hc|]. split; [exact E1|]. by split.
Defined.

(** ** Answers the client gets wrong *)

(** An answer over 10 MB, which the server sends, is refused by the client. *)
Lemma oversized_answer_refused {A} `{Kernel, !KernelAccepts} (h : FlexQL) s sql (callback : flexql_callback A) arg response rest :
  fd h = Some s -> no_failed_read s -> stream s = frame response ++ rest -> MAX_MESSAGE < str_size response < 2 ^ 32 ->
  exists s', flexql_exec (Some h) (Some sql) (Some callback) arg =
    Ret (mkExecResult A FLEXQL_ERROR (Some "Failed to receive response") (Some (with_fd s' h)) arg).
Proof.
  intros Hh Hn Hs Hm. unfold flexql_exec. rewrite Hh.
  change (wire_send s sql) with (send_message s sql). destruct (send_message_all s sql) as (s1 & -> & S1 & S2 & S3).
  outcome_simpl. cbn [fst snd negb]. change (wire_recv s1) with (recv_message s1).
  destruct (recv_message_spec s1) as (s2 & R1 & R2 & R3 & R4); [unfold no_failed_read; by rewrite S1|].
  unfold stream in R4. rewrite S1 in R4. fold (stream s) in R4. rewrite Hs, first_message_oversized in R4 by done.
  rewrite R4. outcome_simpl. cbn [fst snd]. by exists s2.
Qed.

Definition answer_text (result : QueryResult) : string := match format_result result with Ret t => t | _ => "" end.

(** A row of one empty value is an empty line, which the client skips. *)
Example empty_row_dropped :
  parse_response collect_rows (answer_text (selected ["NAME"] [[VStr "ann"]; [VStr ""]; [VStr "cy"]])) [] = [(["NAME"], ["ann"]); (["NAME"], ["cy"])].
Proof. vm_compute. reflexivity. Qed.

(** A tab in a value moves the values after it by a column. *)
Example tab_shifts_columns :
  parse_response collect_rows (answer_text (selected ["NAME"; "ID"] [[VStr (String tab "x"); VInt 7]])) [] = [(["NAME"; "ID"], [""; "x"])].
Proof. vm_compute. reflexivity. Qed.

(** The shell prints the column names for its first answer only. *)
Example header_printed_once :
  stdout (call_rows print_callback ["B"] [["2"]] (call_rows print_callback ["A"] [["1"]] (mkShell "" "" false))) =
  "A" +:+ nl +:+ "--------" +:+ nl +:+ "1" +:+ nl +:+ "2" +:+ nl.
Proof. vm_compute. reflexivity. Qed.

(** The shell against the answers of the server: what is typed, and what shows. *)
Definition typed : list string := ["SELECT name, id FROM users;"; ""; "SELECT * FROM logs"; "quit"; "SELECT 1"].
Definition typed_answers : list Z :=
  (map answer_text [selected ["NAME"; "ID"] [[VStr "ann"; VInt 1]]; failed "Table not found: LOGS"] ++ [BYE]) ≫= frame.
Definition typed_net : Client.Network := {| socket_ok := true; inet_pton_ok := fun _ => true; connect := fun _ port => if port =? 9876 then Some (trickle typed_answers) else None |}.

Definition shown (r : Z * Shell * option Socket) : Z * string * string * option (list Z * bool) :=
  (fst (fst r), stdout (snd (fst r)), stderr (snd (fst r)), option_map (fun s => (outbox s, closed s)) (snd r)).
Definition typed_requests : list Z := ["SELECT name, id FROM users"; "SELECT * FROM logs"; "EXIT"] ≫= frame.

Example shell_session : shown <$> @client_main _ typed_net [] typed =
  Ret (0, "FlexQL Client v1.0" +:+ nl +:+ "Connecting to 127.0.0.1:9876..." +:+ nl +:+ "Connected. Type SQL queries or EXIT to quit." +:+ nl +:+ nl +:+
         "flexql> NAME" +:+ String tab "ID" +:+ nl +:+ "--------" +:+ String tab "--------" +:+ nl +:+ "ann" +:+ String tab "1" +:+ nl +:+ nl +:+
         "flexql> flexql> " +:+ nl +:+ "flexql> Goodbye." +:+ nl,
       "Error: Table not found: LOGS" +:+ nl +:+ nl,
       Some (typed_requests, true)).
Proof. vm_compute. reflexivity. Qed.

Example shell_refused : (fun r : Z * Shell * option Socket => (fst (fst r), stderr (snd (fst r)))) <$> @client_main _ typed_net ["10.0.0.1"; "x1"] typed =
  Ret (1, "Failed to connect to server at 10.0.0.1:0" +:+ nl).
Proof. vm_compute. reflexivity. Qed.
