(* ===== verification/Benchmark.v ===== *)
(** * The benchmark program ([benchmark_flexql.cpp])

    A client of the server: it creates a table and inserts rows into it, one
    statement per batch, and then runs the unit tests its authors wrote for the
    SQL it relies on. Its state is the connection and what it has printed; the
    durations it measures are a parameter ([Timer]). *)

From Stdlib Require Import ZArith Lia Ascii.
From stdpp Require Import base strings gmap numbers list list_numbers.
From S2P Require Import Prelude Cpp Doubles Common Schema Arena BPTree Table Lexer Parser Cache Executor Wire Network Client.
Open Scope string_scope.
Open Scope list_scope.
Open Scope Z_scope.

Definition DEFAULT_INSERT_ROWS : Z := 10.
Definition INSERT_BATCH_SIZE : Z := 1.

(** ** The program's state *)

(** The handle, the standard output, and how many durations were measured. *)
Record Console := mkConsole { db : option FlexQL; stdout : string; measured : nat }.

(** [duration_cast<milliseconds>(end - start).count()], the [i]-th time. *)
Class Timer := elapsed_ms : nat -> Z.

Definition program (A : Type) : Type := Console -> outcome (A * Console).
#[export] Instance program_ret : MRet program := fun A a c => Ret (a, c).
#[export] Instance program_bind : MBind program := fun A B f p c => r ← p c; f (fst r) (snd r).

Definition endl : string := String newline "".
Definition print (text : string) : program unit := fun c => Ret (tt, mkConsole (db c) (stdout c +:+ text) (measured c)).
Definition elapsed `{Timer} : program Z := fun c => Ret (elapsed_ms (measured c), mkConsole (db c) (stdout c) (S (measured c))).

(** A computation on a signed 64-bit integer, undefined when it overflows. *)
Definition long_long (z : Z) : program Z := fun c => if (- 2 ^ 63 <=? z) && (z <? 2 ^ 63) then Ret (z, c) else Undef.

Section program.
Context `{Kernel, Timer}.

Definition exec {A} (sql : string) (callback : option (flexql_callback A)) (arg : A) : program (exec_result A) := fun c =>
  r ← flexql_exec (db c) (Some sql) callback arg; Ret (r, mkConsole (handle r) (stdout c) (measured c)).

(** [errMsg ? errMsg : "unknown error"] *)
Definition error_text (errMsg : option string) : string := default "unknown error" errMsg.

(** ** Running and checking statements *)

(** [data] is a [QueryStats *]. *)
Definition count_rows_callback : flexql_callback (option Z) := fun stats argv azColName =>
  (match stats with Some rows => Some (rows + 1) | None => None end, 0).

Definition run_exec (sql label : string) : program bool :=
  r ← exec (A := unit) sql None tt;
  ms ← elapsed;
  if negb (rc r =? FLEXQL_OK) then
    _ ← print ("[FAIL] " +:+ label +:+ " -> " +:+ error_text (errmsg r) +:+ endl); mret false
  else
    _ ← print ("[PASS] " +:+ label +:+ " (" +:+ to_string_Z ms +:+ " ms)" +:+ endl); mret true.

Definition run_query (sql label : string) : program bool :=
  r ← exec sql (Some count_rows_callback) (Some 0);
  ms ← elapsed;
  if negb (rc r =? FLEXQL_OK) then
    _ ← print ("[FAIL] " +:+ label +:+ " -> " +:+ error_text (errmsg r) +:+ endl); mret false
  else
    _ ← print ("[PASS] " +:+ label +:+ " | rows=" +:+ to_string_Z (default 0 (data r)) +:+ " | " +:+ to_string_Z ms +:+ " ms" +:+ endl); mret true.

(** The lambda of [query_rows]: the values of a row with bars between them. *)
Definition collect : flexql_callback (list string) := fun rows argv azColName => (rows ++ [join_fields "|" argv], 0).

(** The rows, when the query succeeded. *)
Definition query_rows (sql : string) : program (option (list string)) :=
  r ← exec sql (Some collect) [];
  if negb (rc r =? FLEXQL_OK) then
    _ ← print ("[FAIL] " +:+ sql +:+ " -> " +:+ error_text (errmsg r) +:+ endl); mret None
  else mret (Some (data r)).

Definition indented (rows : list string) : string := foldr (fun r s => "  " +:+ r +:+ endl +:+ s) "" rows.
Definition size_text (rows : list string) : string := to_string_Z (Z.of_nat (length rows)).

Definition assert_rows_equal (label : string) (actual expected : list string) : program bool :=
  if bool_decide (actual = expected) then _ ← print ("[PASS] " +:+ label +:+ endl); mret true
  else
    _ ← print ("[FAIL] " +:+ label +:+ endl +:+ "Expected (" +:+ size_text expected +:+ "):" +:+ endl +:+ indented expected +:+
               "Actual (" +:+ size_text actual +:+ "):" +:+ endl +:+ indented actual);
    mret false.

Definition expect_query_failure (sql label : string) : program bool :=
  r ← exec (A := unit) sql None tt;
  if rc r =? FLEXQL_OK then _ ← print ("[FAIL] " +:+ label +:+ " (expected failure, got success)" +:+ endl); mret false
  else _ ← print ("[PASS] " +:+ label +:+ endl); mret true.

Definition assert_row_count (label : string) (rows : list string) (expected_count : nat) : program bool :=
  if (length rows =? expected_count)%nat then _ ← print ("[PASS] " +:+ label +:+ endl); mret true
  else _ ← print ("[FAIL] " +:+ label +:+ " (expected " +:+ to_string_Z (Z.of_nat expected_count) +:+ ", got " +:+ size_text rows +:+ ")" +:+ endl); mret false.

(** ** The unit tests *)

(** [total_tests], [failed_tests] and [all_ok]. *)
Record Tally := mkTally { total_tests : Z; failed_tests : Z; all_ok : bool }.

(** The lambda [record]. *)
Definition record (result : bool) (t : Tally) : Tally :=
  if result then mkTally (total_tests t + 1) (failed_tests t) (all_ok t) else mkTally (total_tests t + 1) (failed_tests t + 1) false.

Definition recorded (test : program bool) (t : Tally) : program Tally := result ← test; mret (record result t).

(** [bool q = query_rows(db, sql, rows); record(q); if (q) record(check(rows));] *)
Definition query_checked (sql : string) (check : list string -> program bool) (t : Tally) : program Tally :=
  q ← query_rows sql;
  match q with
  | None => mret (record false t)
  | Some rows => recorded (check rows) (record true t)
  end.

(** The text and the call of the lambda [insert_test_user]. *)
Definition test_user_sql (id : Z) (name : string) (balance expires_at : Z) : string :=
  "INSERT INTO TEST_USERS VALUES (" +:+ to_string_Z id +:+ ", '" +:+ name +:+ "', " +:+ to_string_Z balance +:+ ", " +:+ to_string_Z expires_at +:+ ");".
Definition insert_test_user (id : Z) (name : string) (balance expires_at : Z) : program bool :=
  run_exec (test_user_sql id name balance expires_at) ("INSERT TEST_USERS ID=" +:+ to_string_Z id).

Definition join_sql : string :=
  "SELECT TEST_USERS.NAME, TEST_ORDERS.AMOUNT " +:+
  "FROM TEST_USERS INNER JOIN TEST_ORDERS ON TEST_USERS.ID = TEST_ORDERS.USER_ID " +:+
  "WHERE TEST_ORDERS.AMOUNT > 900;".

(** The tests, in order. *)
Definition data_level_tests : list (Tally -> program Tally) :=
  [recorded (run_exec "CREATE TABLE TEST_USERS(ID DECIMAL, NAME VARCHAR(64), BALANCE DECIMAL, EXPIRES_AT DECIMAL);" "CREATE TABLE TEST_USERS");
   recorded (insert_test_user 1 "Alice" 1200 1893456000);
   recorded (insert_test_user 2 "Bob" 450 1893456000);
   recorded (insert_test_user 3 "Carol" 2200 1893456000);
   recorded (insert_test_user 4 "Dave" 800 1893456000);
   query_checked "SELECT * FROM TEST_USERS;" (fun rows =>
     assert_rows_equal "Basic SELECT * validation" rows
       ["1|Alice|1200|1893456000"; "2|Bob|450|1893456000"; "3|Carol|2200|1893456000"; "4|Dave|800|1893456000"]);
   query_checked "SELECT NAME, BALANCE FROM TEST_USERS WHERE ID = 2;" (fun rows =>
     assert_rows_equal "Single-row value validation" rows ["Bob|450"]);
   query_checked "SELECT NAME FROM TEST_USERS WHERE BALANCE > 1000;" (fun rows =>
     assert_rows_equal "Filtered rows validation" rows ["Alice"; "Carol"]);
   query_checked "SELECT ID FROM TEST_USERS WHERE BALANCE > 5000;" (fun rows => assert_row_count "Empty result-set validation" rows 0);
   recorded (run_exec "CREATE TABLE TEST_ORDERS(ORDER_ID DECIMAL, USER_ID DECIMAL, AMOUNT DECIMAL, EXPIRES_AT DECIMAL);" "CREATE TABLE TEST_ORDERS");
   recorded (run_exec "INSERT INTO TEST_ORDERS VALUES (101, 1, 50, 1893456000);" "INSERT TEST_ORDERS ORDER_ID=101");
   recorded (run_exec "INSERT INTO TEST_ORDERS VALUES (102, 1, 150, 1893456000);" "INSERT TEST_ORDERS ORDER_ID=102");
   recorded (run_exec "INSERT INTO TEST_ORDERS VALUES (103, 3, 500, 1893456000);" "INSERT TEST_ORDERS ORDER_ID=103");
   query_checked join_sql (fun rows => assert_row_count "Join with no matches validation" rows 0);
   recorded (expect_query_failure "SELECT UNKNOWN_COLUMN FROM TEST_USERS;" "Invalid SQL should fail");
   recorded (expect_query_failure "SELECT * FROM MISSING_TABLE;" "Missing table should fail")].

Fixpoint run_tests (tests : list (Tally -> program Tally)) (t : Tally) : program Tally :=
  match tests with
  | [] => mret t
  | test :: tests => t ← test t; run_tests tests t
  end.

Definition summary (t : Tally) : string :=
  endl +:+ "Unit Test Summary: " +:+ to_string_Z (total_tests t - failed_tests t) +:+ "/" +:+ to_string_Z (total_tests t) +:+ " passed, " +:+
  to_string_Z (failed_tests t) +:+ " failed." +:+ endl +:+ endl.

Definition run_data_level_unit_tests : program bool :=
  _ ← print (endl +:+ "[[...Running Unit Tests...]]" +:+ endl +:+ endl);
  t ← run_tests data_level_tests (mkTally 0 0 true);
  _ ← print (summary t);
  mret (all_ok t).

(** ** The insertion benchmark *)

(** One row of a batch. *)
Definition user_values (id : Z) : string :=
  let i := to_string_Z id in
  "(" +:+ i +:+ ", 'user" +:+ i +:+ "'" +:+ ", 'user" +:+ i +:+ "@mail.com'" +:+
  ", " +:+ stream_double (dec_add (double_of_Z 1000) (double_of_Z (Z.rem id 10000))) +:+ ", 1893456000)".

(** The inner loop, with room for [k] more rows: its text and [inserted]. *)
Fixpoint batch_rows (k : nat) (inserted target_rows : Z) : string * Z :=
  match k with
  | O => ("", inserted)
  | S k =>
      if inserted <? target_rows then
        let id := inserted + 1 in
        let comma := if (0 <? k)%nat && (id <? target_rows) then "," else "" in
        let (text, inserted) := batch_rows k id target_rows in
        (user_values id +:+ comma +:+ text, inserted)
      else ("", inserted)
  end.

Definition batch_sql (inserted target_rows : Z) : string * Z :=
  let (text, inserted) := batch_rows (Z.to_nat INSERT_BATCH_SIZE) inserted target_rows in
  ("INSERT INTO BIG_USERS VALUES " +:+ text +:+ ";", inserted).

(** The outer loop; each round inserts a row at least. *)
Fixpoint insert_loop (fuel : nat) (inserted target_rows progress_step next_progress : Z) : program bool :=
  match fuel with
  | O => fun _ => Diverge
  | S fuel =>
      if inserted <? target_rows then
        let (sql, inserted) := batch_sql inserted target_rows in
        r ← exec (A := unit) sql None tt;
        if negb (rc r =? FLEXQL_OK) then
          _ ← print ("[FAIL] INSERT BIG_USERS batch -> " +:+ error_text (errmsg r) +:+ endl); mret false
        else if (next_progress <=? inserted) || (inserted =? target_rows) then
          _ ← print ("Progress: " +:+ to_string_Z inserted +:+ "/" +:+ to_string_Z target_rows +:+ endl);
          next_progress ← long_long (next_progress + progress_step);
          insert_loop fuel inserted target_rows progress_step next_progress
        else insert_loop fuel inserted target_rows progress_step next_progress
      else mret true
  end.

Definition run_insert_benchmark (target_rows : Z) : program bool :=
  created ← run_exec "CREATE TABLE BIG_USERS(ID DECIMAL, NAME VARCHAR(64), EMAIL VARCHAR(64), BALANCE DECIMAL, EXPIRES_AT DECIMAL);" "CREATE TABLE BIG_USERS";
  if negb created then mret false else
  _ ← print (endl +:+ "Starting insertion benchmark for " +:+ to_string_Z target_rows +:+ " rows..." +:+ endl);
  let progress_step := if Z.quot target_rows 10 <=? 0 then 1 else Z.quot target_rows 10 in
  ok ← insert_loop (S (Z.to_nat target_rows)) 0 target_rows progress_step progress_step;
  if negb ok then mret false else
  ms ← elapsed;
  throughput ← (if 0 <? ms then x ← long_long (target_rows * 1000); mret (Z.quot x ms) else mret target_rows);
  _ ← print ("[PASS] INSERT benchmark complete" +:+ endl +:+ "Rows inserted: " +:+ to_string_Z target_rows +:+ endl +:+
             "Elapsed: " +:+ to_string_Z ms +:+ " ms" +:+ endl +:+ "Throughput: " +:+ to_string_Z throughput +:+ " rows/sec" +:+ endl);
  mret true.

(** ** [main] *)

(** The rows to insert, or the tests alone, or no valid number. *)
Inductive mode := Insert_rows (n : Z) | Unit_tests_only | Invalid_count.

Definition parse_mode (args : list string) : outcome mode :=
  match args with
  | [] => Ret (Insert_rows DEFAULT_INSERT_ROWS)
  | arg1 :: _ =>
      if String.eqb arg1 "--unit-test" then Ret Unit_tests_only
      else n ← atoll arg1; Ret (if n <=? 0 then Invalid_count else Insert_rows n)
  end.

(** [flexql_close(db)]: what becomes of the socket. *)
Definition close_db : program (option Socket) := fun c =>
  r ← flexql_close (db c); Ret (snd r, mkConsole None (stdout c) (measured c)).

(** The exit code, and the socket at the end. *)
Definition benchmark (m : mode) : program (Z * option Socket) :=
  _ ← print ("Connected to FlexQL" +:+ endl);
  match m with
  | Insert_rows n =>
      _ ← print ("Running SQL subset checks plus insertion benchmark..." +:+ endl +:+ "Target insert rows: " +:+ to_string_Z n +:+ endl +:+ endl);
      inserted ← run_insert_benchmark n;
      if negb inserted then s ← close_db; mret (1, s) else
      ok ← run_data_level_unit_tests;
      s ← close_db;
      mret (if (ok : bool) then 0 else 1, s)
  | _ => ok ← run_data_level_unit_tests; s ← close_db; mret (if (ok : bool) then 0 else 1, s)
  end.

Definition main `{Client.Network} (args : list string) : outcome (Z * option Socket * Console) :=
  m ← parse_mode args;
  match m with
  | Invalid_count => Ret (1, None, mkConsole None ("Invalid row count. Use a positive integer or --unit-test." +:+ endl) 0)
  | _ =>
      let '(rc, db) := flexql_open (Some "127.0.0.1") 9000 in
      if negb (rc =? FLEXQL_OK) then Ret (1, None, mkConsole None ("Cannot open FlexQL" +:+ endl) 0)
      else benchmark m (mkConsole db "" 0)
  end.
End program.
