(* ===== verification/BenchmarkClient.v ===== *)
(** * The client's side of the benchmark

    Given the right responses, the benchmark sends these statements, passes
    each of its tests, closes the connection and exits with 0. *)

From Stdlib Require Import ZArith Lia Ascii.
From stdpp Require Import base strings gmap numbers list list_numbers.
From S2P Require Import Prelude Cpp Doubles Common Schema Arena BPTree Table TableSpec Lexer LexerSpec Parser ParserSpec Cache CacheSpec Executor JoinSpec ExecutorSpec SessionSpec Wire Network NetworkSpec Client ClientSpec Benchmark.
Open Scope string_scope.
Open Scope list_scope.
Open Scope Z_scope.

(** ** What the program says on the wire *)

(** Statements and the responses to them. *)
Abbreviation dialogue := (list (string * string)).

Section client.
Context `{kernel : Kernel, accepts : !KernelAccepts, timer : Timer}.

(** The program, given these responses, sends these statements, reads no
    further, returns [a] and prints something that ends with [last]. *)
Definition talks {A} (m : program A) (d : dialogue) (a : A) (last : string) : Prop := forall c h s tail,
  db c = Some h -> fd h = Some s -> no_failed_read s -> stream s = (d.*2 ≫= frame) ++ tail ->
  exists c' h' s' text, m c = Ret (a, c') /\ db c' = Some h' /\ fd h' = Some s' /\ no_failed_read s' /\ stream s' = tail /\
    outbox s' = outbox s ++ (d.*1 ≫= frame) /\ stdout c' = stdout c +:+ (text +:+ last).

Lemma talks_ret {A} (a : A) : talks (mret a) [] a "".
Proof. intros c h s tail Hc Hh Hn Hs. exists c, h, s, "". cbn in *. by rewrite app_nil_r, app_empty_r. Qed.

Lemma talks_bind {A B} (m : program A) (f : A -> program B) d1 d2 a b l1 l2 : talks m d1 a l1 -> talks (f a) d2 b l2 -> talks (m ≫= f) (d1 ++ d2) b l2.
Proof.
  intros Hm Hf c h s tail Hc Hh Hn Hs. rewrite fmap_app, bind_app, <- (assoc_L app) in Hs.
  destruct (Hm c h s _ Hc Hh Hn Hs) as (c1 & h1 & s1 & t1 & E1 & C1 & H1 & N1 & S1 & O1 & P1).
  destruct (Hf c1 h1 s1 tail C1 H1 N1 S1) as (c2 & h2 & s2 & t2 & E2 & C2 & H2 & N2 & S2 & O2 & P2).
  exists c2, h2, s2, ((t1 +:+ l1) +:+ t2). unfold mbind, program_bind in *. rewrite E1. outcome_simpl. cbn [fst snd]. split; [exact E2|].
  do 4 (split; [done|]). split; [by rewrite O2, O1, fmap_app, bind_app, (assoc_L app)|]. by rewrite P2, P1, !app_assoc_str.
Qed.

(** A step without a statement, and a last step that returns. *)
Lemma talks_then {A B} (m : program A) (f : A -> program B) d a b l1 l2 : talks m [] a l1 -> talks (f a) d b l2 -> talks (m ≫= f) d b l2.
Proof. exact (talks_bind m f [] d a b l1 l2). Qed.

Lemma talks_end {A B} (m : program A) (b : B) d a l : talks m d a l -> talks (_ ← m; mret b) d b l.
Proof.
  intros Hm c h s tail Hc Hh Hn Hs. destruct (Hm c h s _ Hc Hh Hn Hs) as (c1 & h1 & s1 & t1 & E1 & R). exists c1, h1, s1, t1.
  unfold mbind, program_bind in *. rewrite E1. done.
Qed.

Lemma talks_some {A} (m : program A) d a l : talks m d a l -> talks m d a "".
Proof.
  intros Hm c h s tail Hc Hh Hn Hs. destruct (Hm c h s _ Hc Hh Hn Hs) as (c1 & h1 & s1 & t1 & E1 & C1 & H1 & N1 & S1 & O1 & P1).
  exists c1, h1, s1, (t1 +:+ l). by rewrite app_empty_r.
Qed.

Lemma talks_print text : talks (print text) [] tt text.
Proof. intros c h s tail Hc Hh Hn Hs. exists (mkConsole (db c) (stdout c +:+ text) (measured c)), h, s, "". cbn in *. by rewrite app_nil_r. Qed.


(** A duration, whatever it is. *)
Lemma talks_timed {B} (f : Z -> program B) d b l : (forall ms, talks (f ms) d b l) -> talks (elapsed ≫= f) d b l.
Proof.
  intros Hf c h s tail Hc Hh Hn Hs. unfold mbind, program_bind, elapsed. outcome_simpl. cbn [fst snd].
  exact (Hf _ (mkConsole (db c) (stdout c) (S (measured c))) h s tail Hc Hh Hn Hs).
Qed.

Lemma talks_long_long z : - 2 ^ 63 <= z < 2 ^ 63 -> talks (long_long z) [] z "".
Proof.
  intros Hz c h s tail Hc Hh Hn Hs. exists c, h, s, "". unfold long_long. rewrite (proj2 (Z.leb_le _ _)), (proj2 (Z.ltb_lt _ _)) by lia.
  cbn in *. by rewrite app_nil_r, app_empty_r.
Qed.

Lemma talks_exec {A B} sql (callback : option (flexql_callback A)) arg response (f : exec_result A -> program B) d b l :
  str_size response <= MAX_MESSAGE ->
  (forall h, let '(rc, errmsg, arg') := on_response callback response arg in talks (f (mkExecResult A rc errmsg (Some h) arg')) d b l) ->
  talks (exec sql callback arg ≫= f) ((sql, response) :: d) b l.
Proof.
  intros Hm Hf c h s tail Hc Hh Hn Hs. cbn [fmap list_fmap snd fst] in *. unfold mbind in Hs. cbn [list_bind] in Hs. fold (mbind (M := list) frame d.*2) in Hs.
  rewrite <- (assoc_L app) in Hs. pose proof (exec_on_socket h s sql callback arg response _ Hh Hn Hs Hm) as Hx.
  destruct (on_response callback response arg) as [[code msg] arg']. destruct Hx as (s1 & E & O1 & S1 & N1).
  unfold mbind at 1, program_bind, exec. rewrite Hc, E. outcome_simpl. cbn [fst snd handle].
  destruct (Hf (with_fd s1 h) (mkConsole (Some (with_fd s1 h)) (stdout c) (measured c)) (with_fd s1 h) s1 tail eq_refl eq_refl N1 S1)
    as (c2 & h2 & s2 & t2 & E2 & C2 & H2 & N2 & S2 & O2 & P2).
  exists c2, h2, s2, t2. split; [exact E2|]. do 4 (split; [done|]). split; [|done]. rewrite O2, O1. cbn [mbind list_bind]. by rewrite (assoc_L app).
Qed.

(** *** The checks *)

Definition ok_response (response : string) : Prop := String.prefix "ERROR: " response = false /\ str_size response <= MAX_MESSAGE.

Lemma run_exec_talks sql label response : ok_response response -> talks (run_exec sql label) [(sql, response)] true "".
Proof.
  intros [Hp Hm]. unfold run_exec. apply talks_exec; [done|]. intros h. unfold on_response. rewrite Hp. apply talks_timed. intros ms.
  eapply talks_some, talks_end, talks_print.
Qed.

Lemma query_rows_talks sql response rows : ok_response response -> parse_response collect response [] = rows ->
  talks (query_rows sql) [(sql, response)] (Some rows) "".
Proof. intros [Hp Hm] Hr. unfold query_rows. apply talks_exec; [done|]. intros h. unfold on_response. rewrite Hp, Hr. apply talks_ret. Qed.

Lemma expect_failure_talks sql label response : String.prefix "ERROR: " response = true -> str_size response <= MAX_MESSAGE ->
  talks (expect_query_failure sql label) [(sql, response)] true "".
Proof.
  intros Hp Hm. unfold expect_query_failure. apply talks_exec; [done|]. intros h. unfold on_response. rewrite Hp.
  eapply talks_some, talks_end, talks_print.
Qed.

Lemma assert_equal_talks label rows : talks (assert_rows_equal label rows rows) [] true "".
Proof. unfold assert_rows_equal. rewrite bool_decide_true by done. eapply talks_some, talks_end, talks_print. Qed.

Lemma assert_count_talks label rows n : length rows = n -> talks (assert_row_count label rows n) [] true "".
Proof. intros <-. unfold assert_row_count. rewrite Nat.eqb_refl. eapply talks_some, talks_end, talks_print. Qed.

(** *** The tests *)

(** One more test passed. *)
Definition passed (t : Tally) : Tally := record true t.

Lemma recorded_talks test d t : talks test d true "" -> talks (recorded test t) d (passed t) "".
Proof. intros Ht. rewrite <- (app_nil_r d). eapply talks_bind; [exact Ht|apply talks_ret]. Qed.

Lemma query_checked_talks sql check response rows t : ok_response response -> parse_response collect response [] = rows ->
  talks (check rows) [] true "" -> talks (query_checked sql check t) [(sql, response)] (passed (passed t)) "".
Proof.
  intros Hr E Hc. unfold query_checked. change [(sql, response)] with ([(sql, response)] ++ @nil (string * string)).
  eapply talks_bind; [by apply query_rows_talks|]. by apply recorded_talks.
Qed.

Lemma tests_nil_talks t : talks (run_tests [] t) [] t "".
Proof. apply talks_ret. Qed.

Lemma tests_cons_talks test tests d1 d2 t t1 t2 : talks (test t) d1 t1 "" -> talks (run_tests tests t1) d2 t2 "" ->
  talks (run_tests (test :: tests) t) (d1 ++ d2) t2 "".
Proof. intros H1 H2. cbn [run_tests]. eapply talks_bind; [exact H1|exact H2]. Qed.

(** ** The dialogues *)

Definition create_users_sql : string := "CREATE TABLE TEST_USERS(ID DECIMAL, NAME VARCHAR(64), BALANCE DECIMAL, EXPIRES_AT DECIMAL);".
Definition create_orders_sql : string := "CREATE TABLE TEST_ORDERS(ORDER_ID DECIMAL, USER_ID DECIMAL, AMOUNT DECIMAL, EXPIRES_AT DECIMAL);".
Definition create_big_sql : string := "CREATE TABLE BIG_USERS(ID DECIMAL, NAME VARCHAR(64), EMAIL VARCHAR(64), BALANCE DECIMAL, EXPIRES_AT DECIMAL);".
Definition one_row : string := "1 rows inserted" +:+ endl.
Definition tsv (rows : list (list string)) : string := lines_of rows.

Definition unit_dialogue : dialogue :=
  [(create_users_sql, "Table TEST_USERS created" +:+ endl);
   (test_user_sql 1 "Alice" 1200 1893456000, one_row);
   (test_user_sql 2 "Bob" 450 1893456000, one_row);
   (test_user_sql 3 "Carol" 2200 1893456000, one_row);
   (test_user_sql 4 "Dave" 800 1893456000, one_row);
   ("SELECT * FROM TEST_USERS;", tsv [["ID"; "NAME"; "BALANCE"; "EXPIRES_AT"]; ["1"; "Alice"; "1200"; "1893456000"]; ["2"; "Bob"; "450"; "1893456000"];
     ["3"; "Carol"; "2200"; "1893456000"]; ["4"; "Dave"; "800"; "1893456000"]]);
   ("SELECT NAME, BALANCE FROM TEST_USERS WHERE ID = 2;", tsv [["NAME"; "BALANCE"]; ["Bob"; "450"]]);
   ("SELECT NAME FROM TEST_USERS WHERE BALANCE > 1000;", tsv [["NAME"]; ["Alice"]; ["Carol"]]);
   ("SELECT ID FROM TEST_USERS WHERE BALANCE > 5000;", tsv [["ID"]]);
   (create_orders_sql, "Table TEST_ORDERS created" +:+ endl);
   ("INSERT INTO TEST_ORDERS VALUES (101, 1, 50, 1893456000);", one_row);
   ("INSERT INTO TEST_ORDERS VALUES (102, 1, 150, 1893456000);", one_row);
   ("INSERT INTO TEST_ORDERS VALUES (103, 3, 500, 1893456000);", one_row);
   (join_sql, tsv [["TEST_USERS.NAME"; "TEST_ORDERS.AMOUNT"]]);
   ("SELECT UNKNOWN_COLUMN FROM TEST_USERS;", "ERROR: Unknown column: UNKNOWN_COLUMN" +:+ endl);
   ("SELECT * FROM MISSING_TABLE;", "ERROR: Table not found: MISSING_TABLE" +:+ endl)].

Definition all_passed : Tally := mkTally 21 0 true.

Lemma tests_talk : talks (run_tests data_level_tests (mkTally 0 0 true)) unit_dialogue all_passed "".
Proof.
  change all_passed with (Nat.iter 21 passed (mkTally 0 0 true)).
  unfold data_level_tests, unit_dialogue.
  repeat lazymatch goal with
  | |- talks (run_tests (_ :: _) _) (?p :: ?d) _ _ => change (p :: d) with ([p] ++ d); eapply tests_cons_talks;
      [lazymatch goal with
       | |- talks (query_checked _ _ _) _ _ _ => eapply query_checked_talks; [split; [vm_compute; reflexivity|vm_compute; discriminate]|vm_compute; reflexivity|apply assert_equal_talks || (apply assert_count_talks; reflexivity)]
       | _ => apply recorded_talks; first [apply run_exec_talks; split; [vm_compute; reflexivity|vm_compute; discriminate]|apply expect_failure_talks; [vm_compute; reflexivity|vm_compute; discriminate]]
       end|]
  end.
  apply tests_nil_talks.
Qed.

Lemma unit_tests_talk : talks run_data_level_unit_tests unit_dialogue true (summary all_passed).
Proof.
  unfold run_data_level_unit_tests. eapply talks_then; [apply talks_print|]. rewrite <- (app_nil_r unit_dialogue).
  eapply talks_bind; [exact tests_talk|]. eapply talks_end, talks_print.
Qed.

(** *** The insertions *)

Definition insert_sql (id : Z) : string := "INSERT INTO BIG_USERS VALUES " +:+ user_values id +:+ ";".
Definition row_ids (n : Z) : list Z := Z.of_nat <$> seq 1 (Z.to_nat n).
Definition rows_dialogue (ids : list Z) : dialogue := (fun id => (insert_sql id, one_row)) <$> ids.

Lemma batch_sql_one inserted n : inserted < n -> batch_sql inserted n = (insert_sql (inserted + 1), inserted + 1).
Proof.
  intros Hn. unfold batch_sql, insert_sql. change (Z.to_nat INSERT_BATCH_SIZE) with 1%nat. cbn [batch_rows]. rewrite (proj2 (Z.ltb_lt _ _)) by done.
  change (0 <? 0)%nat with false. cbn [andb]. by rewrite !app_empty_r.
Qed.

Lemma one_row_ok : ok_response one_row.
Proof. split; [vm_compute; reflexivity|vm_compute; discriminate]. Qed.

Lemma insert_loop_talks n step k : forall fuel i next, (k < fuel)%nat -> Z.of_nat (i + k) = n -> n < 2 ^ 61 -> 1 <= step <= n ->
  ((0 < k)%nat -> 0 <= next <= Z.of_nat i + step) ->
  talks (insert_loop fuel (Z.of_nat i) n step next) (rows_dialogue (Z.of_nat <$> seq (S i) k)) true "".
Proof.
  induction k as [|k IH]; intros [|fuel] i next Hf Hn Hmax Hst Hnext; try lia; cbn [insert_loop].
  { rewrite (proj2 (Z.ltb_ge _ _)) by lia. apply talks_ret. }
  specialize (Hnext ltac:(lia)). rewrite (proj2 (Z.ltb_lt _ _)), batch_sql_one by lia. replace (Z.of_nat i + 1) with (Z.of_nat (S i)) by lia.
  cbn [seq fmap list_fmap rows_dialogue]. apply talks_exec; [apply one_row_ok|]. intros h. unfold on_response. rewrite (proj1 one_row_ok).
  cbn [rc]. change (negb (FLEXQL_OK =? FLEXQL_OK)) with false. cbv iota.
  destruct ((next <=? Z.of_nat (S i)) || (Z.of_nat (S i) =? n)) eqn:Ep.
  - eapply talks_then; [apply talks_print|]. eapply talks_then; [apply talks_long_long; lia|]. apply (IH fuel (S i)); try lia.
    intros Hk. apply orb_true_iff in Ep as [Ep%Z.leb_le|Ep%Z.eqb_eq]; lia.
  - apply (IH fuel (S i)); lia.
Qed.

Definition insert_dialogue (n : Z) : dialogue := (create_big_sql, "Table BIG_USERS created" +:+ endl) :: rows_dialogue (row_ids n).

Lemma insert_benchmark_talks n : 0 < n < 2 ^ 53 -> talks (run_insert_benchmark n) (insert_dialogue n) true "".
Proof.
  intros Hn. unfold run_insert_benchmark, insert_dialogue. set (first := _ +:+ endl).
  change (?p :: ?d) with ([p] ++ d). eapply talks_bind.
  { apply run_exec_talks. split; [vm_compute; reflexivity|vm_compute; discriminate]. }
  cbn [negb]. eapply talks_then; [apply talks_print|]. set (step := if _ <=? 0 then 1 else _).
  assert (Hstep : 1 <= step <= n).
  { unfold step. destruct (Z.leb_spec (Z.quot n 10) 0); [lia|]. rewrite Z.quot_div_nonneg by lia. rewrite Z.quot_div_nonneg in H by lia.
    split; [lia|]. apply Z.div_le_upper_bound; lia. }
  rewrite <- (app_nil_r (rows_dialogue _)). eapply talks_bind.
  { apply (insert_loop_talks n step (Z.to_nat n) (S (Z.to_nat n)) 0); lia. }
  cbn [negb]. apply talks_timed. intros ms. destruct (0 <? ms).
  - eapply talks_then; [eapply talks_then; [apply talks_long_long; lia|apply talks_ret]|]. eapply talks_some, talks_end, talks_print.
  - eapply talks_then; [apply talks_ret|]. eapply talks_some, talks_end, talks_print.
Qed.

(** ** The whole program *)

Definition mode_dialogue (m : mode) : dialogue := match m with Insert_rows n => insert_dialogue n | _ => [] end ++ unit_dialogue.
Definition mode_ok (m : mode) : Prop := match m with Insert_rows n => 0 < n < 2 ^ 53 | Unit_tests_only => True | Invalid_count => False end.
Definition mode_args (m : mode) : list string := match m with Insert_rows n => [to_string_Z n] | _ => ["--unit-test"] end.

Lemma parse_mode_args m : mode_ok m -> parse_mode (mode_args m) = Ret m.
Proof.
  destruct m as [n| |]; [|done|done]. cbn [mode_ok mode_args parse_mode]. intros Hn. unfold to_string_Z. rewrite (proj2 (Z.ltb_ge n 0)) by lia.
  destruct (to_string_nonneg_spec n) as (c & ds & E & Hd & Hv); [lia|]. rewrite E.
  assert (Hc : isdigit c = true) by (unfold string_forall in Hd; cbn in Hd; by apply andb_true_iff in Hd as [? _]).
  destruct (String.eqb_spec (String c ds) "--unit-test") as [[= -> _]|_]; [by vm_compute in Hc|].
  assert (El : strtol (String c ds) = Some n).
  { rewrite <- (strtol_to_string n). unfold to_string_Z. rewrite (proj2 (Z.ltb_ge n 0)) by lia. by rewrite E. }
  unfold atoll. rewrite El, (proj2 (Z.leb_le (- 2 ^ 63) n)), (proj2 (Z.leb_le n (2 ^ 63 - 1))) by lia. outcome_simpl. cbn [andb].
  outcome_simpl. by rewrite (proj2 (Z.leb_gt n 0)) by lia.
Qed.

(** The connection is closed after the last statement, and the exit code says so. *)
Definition ends {A} (Q : program (A * option Socket)) (d : dialogue) (a : A) (last : string) : Prop := forall c h s,
  db c = Some h -> fd h = Some s -> no_failed_read s -> stream s = (d.*2 ++ [BYE]) ≫= frame ->
  exists s' c' text, Q c = Ret ((a, Some s'), c') /\ closed s' = true /\ stream s' = [] /\
    outbox s' = outbox s ++ ((d.*1 ++ ["EXIT"]) ≫= frame) /\ stdout c' = text +:+ last.

Lemma ends_bind {A B} (m : program A) (Q : A -> program (B * option Socket)) d1 d2 a b l1 l2 :
  talks m d1 a l1 -> ends (Q a) d2 b l2 -> ends (m ≫= Q) (d1 ++ d2) b l2.
Proof.
  intros Hm HQ c h s Hc Hh Hn Hs. rewrite !fmap_app, <- !(assoc_L app), bind_app in Hs |- *.
  destruct (Hm c h s _ Hc Hh Hn Hs) as (c1 & h1 & s1 & t1 & E1 & C1 & H1 & N1 & S1 & O1 & P1).
  destruct (HQ c1 h1 s1 C1 H1 N1 S1) as (s2 & c2 & t2 & E2 & K2 & S2 & O2 & P2).
  exists s2, c2, t2. unfold mbind at 1, program_bind. rewrite E1. outcome_simpl. cbn [fst snd]. split; [exact E2|].
  split; [done|]. split; [done|]. split; [|done]. by rewrite O2, O1, <- (assoc_L app).
Qed.

Lemma close_ends {A B} (m : program A) (f : A -> B) d a last : talks m d a last -> ends (x ← m; s ← close_db; mret (f x, s)) d (f a) last.
Proof.
  intros Hm c h s Hc Hh Hn Hs. rewrite bind_app in Hs. destruct (Hm c h s _ Hc Hh Hn Hs) as (c1 & h1 & s1 & t1 & E1 & C1 & H1 & N1 & S1 & O1 & P1).
  destruct (close_says_bye h1 s1 H1 N1) as (s2 & E2 & O2 & S2 & C2); [rewrite S1; apply app_nil_r|].
  exists s2, (mkConsole None (stdout c1) (measured c1)), (stdout c +:+ t1). unfold mbind at 1, program_bind. rewrite E1. outcome_simpl. cbn [fst snd].
  unfold mbind at 1, program_bind, close_db. rewrite C1, E2. outcome_simpl. cbn [fst snd]. split; [done|]. split; [done|]. split; [done|].
  split; [|cbn [stdout]; by rewrite P1, !app_assoc_str]. rewrite O2, O1, bind_app, (assoc_L app). f_equal.
Qed.

(** The program's exit, its last words and what it sent, from the responses. *)
Lemma benchmark_ends m : mode_ok m -> ends (benchmark m) (mode_dialogue m) 0 (summary all_passed).
Proof.
  intros Hm. unfold benchmark. change (mode_dialogue m) with ([] ++ mode_dialogue m). eapply ends_bind; [apply talks_print|].
  destruct m as [n| |]; [| |done].
  - change (mode_dialogue (Insert_rows n)) with ([] ++ insert_dialogue n ++ unit_dialogue). eapply ends_bind; [apply talks_print|].
    eapply ends_bind; [by apply insert_benchmark_talks|]. cbn [negb].
    exact (close_ends _ (fun ok : bool => if ok then 0 else 1) _ true _ unit_tests_talk).
  - exact (close_ends _ (fun ok : bool => if ok then 0 else 1) _ true _ unit_tests_talk).
Qed.
End client.
