(* ===== verification/BenchmarkServer.v ===== *)
(** * The server's side of the benchmark

    What the server answers to a dialogue it has not cached: a connection whose
    queries are all different is answered from the tables; statements on some
    tables do not depend on what the others hold, nor, while no row expires,
    on the time. *)

From Stdlib Require Import ZArith Lia Ascii.
From stdpp Require Import base strings gmap numbers list list_numbers.
From S2P Require Import Prelude Cpp Doubles Common Schema Arena BPTree Index Table TableRep TableSpec Lexer LexerSpec Parser ParserSpec Cache CacheSpec Executor JoinSpec ExecutorSpec SessionSpec Wire Network NetworkSpec Client ClientSpec Benchmark BenchmarkClient.
Open Scope string_scope.
Open Scope list_scope.
Open Scope Z_scope.

(** ** Databases alike on some tables *)

(** Rows inserted from [t0] on have not expired when a query reads them. *)
Definition unexpired (t0 : Z) (ck : Clocks) : Prop :=
  forall i, t0 <= ck_insert ck i /\ ck_left ck i <= t0 + DEFAULT_TTL_SECONDS /\ ck_right ck i <= t0 + DEFAULT_TTL_SECONDS.

Section alike.
Context (names : list string) (t1 t2 : Z).

Definition same_rows (rs1 rs2 : list stored) : Prop := st_vals <$> rs1 = st_vals <$> rs2 /\ fresh_rows t1 rs1 /\ fresh_rows t2 rs2.
Definition alike_table (a1 a2 : option atable) : Prop :=
  match a1, a2 with
  | None, None => True
  | Some a1, Some a2 => at_schema a1 = at_schema a2 /\ same_rows (at_rows a1) (at_rows a2)
  | _, _ => False
  end.
Definition alike (db1 db2 : gmap string atable) : Prop := forall n, n ∈ names -> alike_table (db1 !! n) (db2 !! n).

(** The tables a statement names. *)
Definition touches (stmt : Statement) : list string :=
  match stmt with
  | CREATE_TABLE c => [to_upper (ct_table_name c)]
  | INSERT i => [to_upper (in_table_name i)]
  | SELECT s => to_upper (se_table_name s) :: match se_join s with Some j => [to_upper (j_right_table j)] | None => [] end
  end.

Lemma alike_insert db1 db2 n a1 a2 : alike db1 db2 -> alike_table (Some a1) (Some a2) -> alike (<[n := a1]> db1) (<[n := a2]> db2).
Proof.
  intros H Ha m Hm. destruct (decide (n = m)) as [<-|]; [by rewrite !lookup_insert_eq|]. rewrite !lookup_insert_ne by done. by apply H.
Qed.

Lemma same_rows_visible ck1 ck2 rs1 rs2 : same_rows rs1 rs2 -> (forall i, ck1 i <= t1 + DEFAULT_TTL_SECONDS) -> (forall i, ck2 i <= t2 + DEFAULT_TTL_SECONDS) ->
  visible ck1 rs1 = visible ck2 rs2.
Proof. intros (E & H1 & H2) C1 C2. by rewrite (visible_fresh t1), (visible_fresh t2), E. Qed.

Lemma same_rows_batch ck1 ck2 s batch : (forall i, t1 <= ck1 i) -> (forall i, t2 <= ck2 i) -> forall rs1 rs2 n, same_rows rs1 rs2 ->
  (abs_batch ck1 s rs1 batch n).1 = (abs_batch ck2 s rs2 batch n).1 /\ same_rows (abs_batch ck1 s rs1 batch n).2 (abs_batch ck2 s rs2 batch n).2.
Proof.
  intros C1 C2. induction batch as [|lits batch IH]; intros rs1 rs2 n H; cbn [abs_batch]; [done|].
  destruct (negb _); [done|]. destruct (abs_row _ _) as [|row]; [done|]. destruct (validate_row _ _); [done|]. apply IH.
  destruct H as (E & F1 & F2). split; [by rewrite !fmap_app, E|]. specialize (C1 n). specialize (C2 n).
  split; (apply Forall_app; split; [done|]; constructor; [|constructor]); cbn; lia.
Qed.

Lemma same_rows_distinct rs1 rs2 : same_rows rs1 rs2 -> distinct_keys rs2 -> distinct_keys rs1.
Proof.
  intros (E & _) H i j ri rj Hij Hi Hj. assert (Hv : forall k r, rs1 !! k = Some r -> exists r', rs2 !! k = Some r' /\ row_key r' = row_key r).
  { intros k r Hk. assert (Hm : (st_vals <$> rs2) !! k = Some (st_vals r)) by (rewrite <- E, list_lookup_fmap, Hk; done).
    rewrite list_lookup_fmap in Hm. destruct (rs2 !! k) as [r'|]; [|done]. injection Hm as Hm. exists r'. split; [done|]. unfold row_key. by rewrite Hm. }
  destruct (Hv i ri Hi) as (ri' & Hi' & <-), (Hv j rj Hj) as (rj' & Hj' & <-). by eapply H.
Qed.

Lemma alike_execute db1 db2 ck1 ck2 stmt : alike db1 db2 -> Forall (fun n => n ∈ names) (touches stmt) -> unexpired t1 ck1 -> unexpired t2 ck2 ->
  (forall i, is_s64 (ck_insert ck1 i + DEFAULT_TTL_SECONDS)) -> stmt_ok db2 ck2 stmt ->
  stmt_ok db1 ck1 stmt /\ uses_index db1 stmt = uses_index db2 stmt /\ (abs_execute db1 ck1 stmt).1 = (abs_execute db2 ck2 stmt).1 /\
  alike (abs_execute db1 ck1 stmt).2 (abs_execute db2 ck2 stmt).2.
Proof.
  intros Ha Hn C1 C2 Hs Hok. destruct stmt as [c|i|s]; cbn [touches stmt_ok abs_execute fst snd uses_index] in *; apply Forall_cons in Hn as [Hn Hns];
    pose proof (Ha _ Hn) as Ht; unfold alike_table in Ht.
  - split; [done|]. split; [done|]. unfold abs_create. destruct (db1 !! _), (db2 !! _); try done. destruct (create_columns _ _); [done|]. cbn [fst snd].
    split; [done|]. apply alike_insert; [done|]. split; [done|]. split; [done|]. split; constructor.
  - unfold insert_ok, abs_insert in *. destruct (db1 !! _) as [a1|], (db2 !! _) as [a2|]; try done. destruct Ht as [Es Hr].
    destruct (same_rows_batch (ck_insert ck1) (ck_insert ck2) (at_schema a2) (in_batch_values i) (fun j => proj1 (C1 j)) (fun j => proj1 (C2 j)) _ _ 0 Hr) as [E1 E2].
    rewrite Es. destruct (abs_batch (ck_insert ck1) _ _ _ _) as [[e1 n1] r1], (abs_batch (ck_insert ck2) _ _ _ _) as [[e2 n2] r2]. cbn [fst snd] in *.
    injection E1 as -> ->. destruct Hok as (Hk & Hl & _). split.
    { split; [done|]. split; [|done]. destruct Hr as [El%(f_equal length) _]. rewrite !length_fmap in El. by rewrite El. }
    split; [done|]. split; [done|]. by apply alike_insert.
  - unfold select_ok, abs_select in *. destruct (db1 !! _) as [a1|], (db2 !! _) as [a2|]; try done. destruct Ht as [Es Hr].
    assert (Hv : forall (f : Clocks -> nat -> Z) b1 b2, f = ck_left \/ f = ck_right -> same_rows b1 b2 -> visible (f ck1) b1 = visible (f ck2) b2).
    { intros f b1 b2 Hf Hb. apply same_rows_visible; [done|intros i; specialize (C1 i)|intros i; specialize (C2 i)]; destruct Hf as [->| ->]; lia. }
    destruct (se_join s) as [j|].
    + apply Forall_cons in Hns as [Hnr _]. pose proof (Ha _ Hnr) as Hj. unfold alike_table in Hj. unfold abs_join. rewrite Es. do 2 (split; [done|]).
      split; [|done]. destruct (db1 !! to_upper (j_right_table j)) as [b1|], (db2 !! to_upper (j_right_table j)) as [b2|]; try done. destruct Hj as [-> Hjr].
      rewrite (Hv ck_left _ _ (or_introl eq_refl) Hr), (Hv ck_right _ _ (or_intror eq_refl) Hjr). done.
    + unfold where_ok in *. rewrite Es. split; [|split; [done|split; [|done]]].
      { intros Hp. destruct (Hok Hp) as [Hd Hl]. split; [by eapply same_rows_distinct|done]. }
      unfold abs_plain. by rewrite Es, (Hv ck_left _ _ (or_introl eq_refl) Hr).
Qed.
End alike.

(** ** A connection whose queries are all different *)

(** A statement as the client sends it, and as the server reads it. *)
Abbreviation plan := (list (string * Statement)).

Definition understood (p : string * Statement) : Prop :=
  let query := trim_end query_end p.1 in parse_sql query = Ret (inr p.2) /\ query <> "" /\ is_exit query = false /\ str_size p.1 <= MAX_MESSAGE.

Fixpoint steps_at (clocks : nat -> Clocks) (i : nat) (p : plan) : list step :=
  match p with
  | [] => []
  | q :: p => mkStep (clocks i) q.2 (trim_end query_end q.1) :: steps_at clocks (S i) p
  end.

Lemma steps_at_app clocks p1 p2 : forall i, steps_at clocks i (p1 ++ p2) = steps_at clocks i p1 ++ steps_at clocks (i + length p1) p2.
Proof.
  induction p1 as [|q p1 IH]; intros i; cbn [steps_at app length]; [by rewrite Nat.add_0_r|]. rewrite IH. by rewrite Nat.add_succ_r.
Qed.

(** Every answer the executor may give is this text. *)
Definition prints (p : bool * QueryResult) (text : string) : Prop := forall res, same_answer p.1 res p.2 -> format_result res = Ret text.

Section once.
Context `{malloc : Malloc, StdHashLaws}.

Lemma connection_once clocks p : forall i ex db cs texts, Forall understood p ->
  db_rep (tables_ ex) db -> cache_rep (cache_ ex) cs -> 0 < capacity_ (cache_ ex) -> session_ok db (steps_at clocks i p) ->
  NoDup (keys_asked (steps_at clocks i p)) -> absent (keys_asked (steps_at clocks i p)) cs ->
  Forall2 prints (abs_session db (steps_at clocks i p)) texts ->
  responses clocks i ex (p.*1 ++ ["EXIT"]) = Throw bad_alloc \/
  exists ex', responses clocks i ex (p.*1 ++ ["EXIT"]) = Ret (texts ++ [BYE], ex') /\ db_rep (tables_ ex') (abs_final db (steps_at clocks i p)).
Proof.
  induction p as [|[sql stmt] p IH]; intros i ex db cs texts Hu R C Hcap Hok Hnd Habs Htexts; cbn [steps_at abs_session session_ok fst snd sp_clocks sp_stmt fmap list_fmap app] in *.
  { apply Forall2_nil_inv_l in Htexts as ->. right. exists ex. split; [reflexivity|exact R]. }
  apply Forall_cons in Hu as [(Hp & Hne & Hx & _) Hu]. cbn [fst snd] in *. destruct Hok as [Hok Hrest].
  apply Forall2_cons_inv_l in Htexts as (text & texts' & Ht & Htexts & ->).
  cbn [responses]. cbv zeta. destruct (String.eqb_spec (trim_end query_end sql) "") as [?|_]; [done|]. rewrite Hx. unfold respond, execute_sql. rewrite Hp.
  outcome_simpl. destruct (execute_once ex db cs (mkStep (clocks i) stmt (trim_end query_end sql)) _ R C Hcap Hok Hnd Habs) as [E|(res & ex' & cs' & E & Hres & R' & C' & Hcap' & Hnd' & Habs')];
    cbn [sp_clocks sp_stmt sp_raw] in E; rewrite E; [by left|]. outcome_simpl. cbn [fst snd]. rewrite (Ht res Hres). outcome_simpl. cbn [fst snd].
  destruct (IH (S i) ex' _ cs' texts' Hu R' C' Hcap' Hrest Hnd' Habs' Htexts) as [->|(ex'' & -> & R'')]; [by left|right]. outcome_simpl. cbn [fst snd].
  exists ex''. by split.
Qed.
End once.

(** The same statements at other times, on tables that are alike. *)
Lemma alike_session names t1 t2 clocks1 clocks2 p : forall i1 i2 db1 db2, Forall (fun q => Forall (fun n => n ∈ names) (touches q.2)) p ->
  (forall i, i1 <= i -> unexpired t1 (clocks1 i) /\ forall j, is_s64 (ck_insert (clocks1 i) j + DEFAULT_TTL_SECONDS))%nat ->
  (forall i, unexpired t2 (clocks2 i)) -> alike names t1 t2 db1 db2 -> session_ok db2 (steps_at clocks2 i2 p) ->
  session_ok db1 (steps_at clocks1 i1 p) /\ abs_session db1 (steps_at clocks1 i1 p) = abs_session db2 (steps_at clocks2 i2 p).
Proof.
  induction p as [|q p IH]; intros i1 i2 db1 db2 Hn C1 C2 Ha Hok; cbn [steps_at session_ok abs_session sp_clocks sp_stmt] in *; [done|].
  apply Forall_cons in Hn as [Hq Hn]. destruct Hok as [Hok Hrest]. destruct (C1 i1 ltac:(lia)) as [U1 S1].
  destruct (alike_execute names t1 t2 db1 db2 (clocks1 i1) (clocks2 i2) q.2 Ha Hq U1 (C2 i2) S1 Hok) as (Hok1 & Eu & Er & Ha').
  destruct (IH (S i1) (S i2) _ _ Hn (fun i Hi => C1 i ltac:(lia)) C2 Ha' Hrest) as [Hs Ea].
  by rewrite Eu, Er, Ea.
Qed.

(** Tables no statement names stay as they are. *)
Lemma untouched_execute db ck stmt n : n ∉ touches stmt -> (abs_execute db ck stmt).2 !! n = db !! n.
Proof.
  intros Hn. destruct stmt as [c|i|s]; cbn [touches abs_execute snd] in *; [| |done]; apply not_elem_of_cons in Hn as [Hn _].
  - unfold abs_create. destruct (db !! to_upper (ct_table_name c)); [done|]. destruct (create_columns _ _); [done|]. by apply lookup_insert_ne.
  - unfold abs_insert. destruct (db !! to_upper (in_table_name i)); [|done]. destruct (abs_batch _ _ _ _ _) as [[? ?] ?]. by apply lookup_insert_ne.
Qed.

Lemma untouched_session clocks p n : forall i db, Forall (fun q => n ∉ touches q.2) p -> abs_final db (steps_at clocks i p) !! n = db !! n.
Proof.
  induction p as [|q p IH]; intros i db Hn; cbn [steps_at]; [done|]. apply Forall_cons in Hn as [Hq Hn]. unfold abs_final in *. cbn [foldl sp_clocks sp_stmt].
  by rewrite IH, untouched_execute.
Qed.

(** ** The unit tests *)

Definition plan_of (sqls : list string) : plan := (fun sql => (sql, stmt_of (trim_end query_end sql))) <$> sqls.
Definition unit_plan : plan := plan_of unit_dialogue.*1.
Definition test_tables : list string := ["TEST_USERS"; "TEST_ORDERS"; "MISSING_TABLE"].

Definition understands (p : string * Statement) : bool :=
  let query := trim_end query_end p.1 in
  match parse_sql query with Ret (inr _) => true | _ => false end && negb (String.eqb query "") && negb (is_exit query) && (str_size p.1 <=? MAX_MESSAGE).

Lemma understands_plan sqls : forallb understands (plan_of sqls) = true -> Forall understood (plan_of sqls).
Proof.
  intros H. apply forallb_Forall in H. unfold plan_of in *. rewrite Forall_fmap in *. eapply Forall_impl; [exact H|]. intros sql Hs.
  unfold compose, understands, understood, stmt_of in *. cbn [fst snd] in *. apply andb_true_iff in Hs as [Hs Hm%Z.leb_le].
  apply andb_true_iff in Hs as [Hs Hx%negb_true_iff]. apply andb_true_iff in Hs as [Hp Hn%negb_true_iff]. split; [|by split; [apply String.eqb_neq|]].
  destruct (parse_sql _) as [[]| | |]; done.
Qed.

Lemma unit_plan_understood : Forall understood unit_plan.
Proof. apply understands_plan. vm_compute. reflexivity. Qed.

Lemma unit_plan_queries : unit_plan.*1 = unit_dialogue.*1.
Proof. done. Qed.

Lemma unit_plan_tables : Forall (fun q => Forall (fun n => n ∈ test_tables) (touches q.2)) unit_plan.
Proof. refine (bool_decide_eq_true_1 _ _). vm_compute. reflexivity. Qed.

(** An answer of at most one row has one text, however it was found. *)
Definition printed (p : bool * QueryResult) (text : string) : bool :=
  (negb p.1 || (length (rows p.2) <=? 1)%nat) && match format_result p.2 with Ret t => String.eqb t text | _ => false end.

Lemma printed_prints p text : printed p text = true -> prints p text.
Proof.
  unfold printed. intros [Ho Hf]%andb_true_iff res Hres. destruct (format_result p.2) as [t| | |] eqn:E; [|done..]. apply String.eqb_eq in Hf as ->.
  rewrite <- E. f_equal. apply same_answer_eq. destruct Hres as (? & ? & ? & ? & Hr). do 4 (split; [done|]). destruct p.1; [|done].
  cbn [negb orb] in Ho. destruct (rows p.2) as [|r [|]]; [by apply Permutation_nil_r|by apply Permutation_singleton_r|done].
Qed.

Fixpoint all_printed (answers : list (bool * QueryResult)) (texts : list string) : bool :=
  match answers, texts with
  | [], [] => true
  | p :: answers, t :: texts => printed p t && all_printed answers texts
  | _, _ => false
  end.

Lemma all_printed_prints answers : forall texts, all_printed answers texts = true -> Forall2 prints answers texts.
Proof.
  induction answers as [|p answers IH]; intros [|t texts] H; try done; cbn [all_printed] in H. apply andb_true_iff in H as [H1 H2].
  constructor; [by apply printed_prints|by apply IH].
Qed.

Definition still (now : Z) : nat -> Clocks := fun _ => at_time now.

Lemma unit_answers : Forall2 prints (abs_session ∅ (steps_at (still 100) 0 unit_plan)) unit_dialogue.*2.
Proof. apply all_printed_prints. vm_compute. reflexivity. Qed.

Fixpoint keys_differ (rs : list stored) : bool :=
  match rs with [] => true | r :: rs => forallb (fun r' => negb (value_eqb (row_key r) (row_key r'))) rs && keys_differ rs end.

Lemma keys_differ_distinct rs : keys_differ rs = true -> distinct_keys rs.
Proof.
  induction rs as [|r rs IH]; intros H i j ri rj Hij Hi Hj; [done|]. cbn [keys_differ] in H. apply andb_true_iff in H as [H1 H2].
  destruct j as [|j]; [lia|]. cbn in Hj. destruct i as [|i]; cbn in Hi; [|eapply (IH H2 i j); [lia|done|done]]. injection Hi as <-.
  apply forallb_Forall in H1. eapply Forall_lookup_1 in H1; [|exact Hj]. by apply negb_true_iff.
Qed.

Lemma unit_session_ok : session_ok ∅ (steps_at (still 100) 0 unit_plan).
Proof.
  let l := eval vm_compute in (steps_at (still 100) 0 unit_plan) in assert (E : steps_at (still 100) 0 unit_plan = l) by (vm_compute; reflexivity); rewrite E; clear E.
  cbn [session_ok sp_clocks sp_stmt stmt_ok].
  repeat (split; [first [solve [solve_stmt_ok]|
    solve [unfold select_ok; cbn [se_join se_table_name]; eval_lookup; exact I]|
    unfold select_ok; cbn [se_join se_where se_table_name]; eval_lookup; intros _; split; [apply keys_differ_distinct; vm_compute; reflexivity|vm_compute; by split]]|]).
  exact I.
Qed.

(** ** The insertions *)

Definition balance (id : Z) : Z := 1000 + Z.rem id 10000.
Definition user_name (id : Z) : string := "user" +:+ to_string_Z id.
Definition user_email (id : Z) : string := user_name id +:+ "@mail.com".
Definition expires : string := "1893456000".

(** What an INSERT of the benchmark means, and the row it makes. *)
Definition big_insert (id : Z) : Statement :=
  INSERT (mkInsert "BIG_USERS" [[to_string_Z id; user_name id; user_email id; to_string_Z (balance id); expires]]).
Definition big_row (id : Z) : Row :=
  [VDec (double_of_Z id); VStr (user_name id); VStr (user_email id); VDec (double_of_Z (balance id)); VDec (double_of_Z 1893456000)].

(** *** Reading the text *)

Lemma trim_end_keep f s c : f c = false -> trim_end f (s +:+ String c "") = s +:+ String c "".
Proof.
  intros Hc. induction s as [|a s IH]; [rewrite app_empty_l; cbn [trim_end]; by rewrite Hc, andb_false_r|]. rewrite app_cons. cbn [trim_end]. rewrite IH. by destruct s.
Qed.

Lemma trim_end_drop f s c d : f c = false -> f d = true -> trim_end f (s +:+ String c (String d "")) = s +:+ String c "".
Proof.
  intros Hc Hd. induction s as [|a s IH]; [rewrite !app_empty_l; cbn [trim_end]; by rewrite Hd, Hc|]. rewrite !app_cons. cbn [trim_end]. rewrite IH. by destruct s.
Qed.

(** Text without quotes or backslashes is written as it is. *)
Definition plain (c : ascii) : bool := negb (char_eqb c squote || char_eqb c backslash).

Lemma escape_plain s : string_forall plain s = true -> escape s = s.
Proof.
  unfold string_forall. induction s as [|c s IH]; [done|]. cbn. intros [Hc Hs]%andb_true_iff. unfold plain in Hc. apply negb_true_iff in Hc.
  by rewrite Hc, IH.
Qed.

Lemma string_forall_app f a b : string_forall f (a +:+ b) = string_forall f a && string_forall f b.
Proof. unfold string_forall. by rewrite list_ascii_app, forallb_app. Qed.

Lemma digits_plain s : string_forall isdigit s = true -> string_forall plain s = true.
Proof.
  unfold string_forall. rewrite !forallb_Forall. intros H. eapply Forall_impl; [exact H|]. intros c Hc. unfold plain. apply negb_true_iff, orb_false_iff.
  split; apply char_eqb_neq; intros ->; by vm_compute in Hc.
Qed.

(** The lexemes of an INSERT, each with the white space after it. *)
Definition big_lexemes (id : Z) : list (lexeme * string) :=
  [((KW_INSERT, "INSERT"), " "); ((KW_INTO, "INTO"), " "); (ident "BIG_USERS", " "); ((KW_VALUES, "VALUES"), " "); ((LPAREN, "("), "");
   ((INT_LITERAL, to_string_Z id), ""); (comma, " "); (quoted (user_name id), ""); (comma, " "); (quoted (user_email id), ""); (comma, " ");
   ((INT_LITERAL, to_string_Z (balance id)), ""); (comma, " "); ((INT_LITERAL, expires), ""); (rparen, "")].

Section row.
Context (id : Z) (Hid : 0 < id < 2 ^ 53).

Lemma balance_bounds : 1000 <= balance id < 11000.
Proof. unfold balance. pose proof (Z.rem_bound_pos id 10000 ltac:(lia) ltac:(lia)). lia. Qed.

Lemma balance_text : stream_double (dec_add (double_of_Z 1000) (double_of_Z (Z.rem id 10000))) = to_string_Z (balance id).
Proof.
  pose proof balance_bounds. unfold balance in *. pose proof (Z.rem_bound_pos id 10000 ltac:(lia) ltac:(lia)).
  rewrite dec_add_integer by lia. apply stream_integer. lia.
Qed.

Lemma id_digits : string_forall isdigit (to_string_Z id) = true.
Proof.
  unfold to_string_Z. rewrite (proj2 (Z.ltb_ge id 0)) by lia. destruct (to_string_nonneg_spec id) as (c & ds & -> & Hd & _); [lia|]. done.
Qed.

Lemma names_plain : escape (user_name id) = user_name id /\ escape (user_email id) = user_email id.
Proof.
  pose proof (digits_plain _ id_digits) as Hd. unfold user_email, user_name. split; apply escape_plain; rewrite !string_forall_app, Hd; done.
Qed.

Lemma insert_sql_text : insert_sql id = write (big_lexemes id) +:+ ";".
Proof.
  unfold insert_sql, user_values. rewrite balance_text. cbn [write big_lexemes render fst snd ident comma rparen quoted]. destruct names_plain as [-> ->].
  unfold user_email, user_name. rewrite !app_empty_l. repeat (rewrite !app_cons || rewrite app_assoc_str || rewrite app_empty_l). reflexivity.
Qed.

Lemma big_lexemes_ok : written_ok (big_lexemes id) = true.
Proof.
  destruct names_plain. pose proof balance_bounds. cbn [big_lexemes written_ok fst snd lexeme_ok ident comma rparen quoted write render].
  rewrite !number_ok_to_string by lia. repeat (apply andb_true_intro; split); try reflexivity. unfold separate. by destruct ("" +:+ _).
Qed.

Lemma big_lexemes_spell : (big_lexemes id).*1 = spelling natural (big_insert id) ++ [].
Proof.
  pose proof balance_bounds. unfold big_insert. cbn [spelling in_batch_values in_table_name fmap list_fmap comma_sep row_lexemes app]. unfold natural.
  rewrite !number_ok_to_string by lia. reflexivity.
Qed.

Lemma insert_sql_trimmed : trim_end query_end (insert_sql id) = write (big_lexemes id).
Proof.
  rewrite insert_sql_text. assert (E : exists s, write (big_lexemes id) = s +:+ ")").
  { cbn [big_lexemes write render fst snd rparen]. eexists. rewrite <- !app_assoc_str, !app_empty_r. reflexivity. }
  destruct E as [s ->]. rewrite app_assoc_str. by apply trim_end_drop.
Qed.

Lemma big_understood : understood (insert_sql id, big_insert id).
Proof.
  unfold understood. cbn [fst snd]. rewrite insert_sql_trimmed. split.
  { destruct (tokenize_write "" (big_lexemes id) eq_refl big_lexemes_ok) as (ts & line & col & Et & Hts). rewrite app_empty_l in Et.
    eapply (parse_tokens natural false); [exact natural_style|reflexivity|exact Et|]. by rewrite Hts, big_lexemes_spell. }
  split; [done|]. split; [done|]. rewrite insert_sql_text. unfold str_size. pose proof balance_bounds.
  destruct names_plain as [E1 E2]. pose proof (to_string_short id 16 ltac:(lia)). pose proof (to_string_short (balance id) 5 ltac:(lia)).
  cbn [big_lexemes write render fst snd ident comma rparen quoted]. rewrite E1, E2. unfold user_email, user_name. unfold MAX_MESSAGE.
  repeat (rewrite length_app_str || cbn [String.length expires]). unfold expires. cbn [String.length]. lia.
Qed.

(** *** The row *)

Definition big_schema : Schema :=
  add_column (add_column (add_column (add_column (add_column Schema_empty "ID" DECIMAL 255) "NAME" VARCHAR 64) "EMAIL" VARCHAR 64) "BALANCE" DECIMAL 255) "EXPIRES_AT" DECIMAL 255.

Lemma literal_decimal z : 0 <= z < 2 ^ 53 -> literal (to_string_Z z) DECIMAL = inr (VDec (double_of_Z z)).
Proof. intros Hz. unfold literal, parse_literal. rewrite stod_to_string by done. done. Qed.

Lemma big_abs_row : abs_row (columns_ big_schema) [to_string_Z id; user_name id; user_email id; to_string_Z (balance id); expires] = inr (big_row id).
Proof.
  pose proof balance_bounds. cbn [big_schema columns_ add_column Schema_empty app abs_row col_type].
  rewrite !literal_decimal by lia. change expires with (to_string_Z 1893456000). rewrite literal_decimal by lia. reflexivity.
Qed.

Lemma big_row_valid : validate_row big_schema (big_row id) = None.
Proof.
  pose proof (to_string_short id 16 ltac:(lia)). apply validate_row_fits. unfold row_fits, big_row.
  assert (Hs : str_size (user_name id) <= 64 /\ str_size (user_email id) <= 64).
  { unfold user_email, user_name, str_size. rewrite !length_app_str. cbn [String.length]. lia. }
  cbn [big_schema columns_ add_column Schema_empty app].
  repeat (apply Forall2_cons_2; [split; [reflexivity|intros E; first [apply Hs|discriminate E]]|]). apply Forall2_nil_2.
Qed.
End row.

(** *** The session *)

Lemma session_ok_app s1 s2 : forall db, session_ok db s1 -> session_ok (abs_final db s1) s2 -> session_ok db (s1 ++ s2).
Proof. induction s1 as [|st s1 IH]; intros db H1 H2; cbn [session_ok app] in *; [done|]. destruct H1 as [? H1]. split; [done|by apply IH]. Qed.

Lemma abs_session_app s1 s2 : forall db, abs_session db (s1 ++ s2) = abs_session db s1 ++ abs_session (abs_final db s1) s2.
Proof. induction s1 as [|st s1 IH]; intros db; cbn [abs_session app]; [done|]. by rewrite IH. Qed.

Lemma abs_final_app s1 s2 db : abs_final db (s1 ++ s2) = abs_final (abs_final db s1) s2.
Proof. apply foldl_app. Qed.

Definition rows_plan (ids : list Z) : plan := (fun id => (insert_sql id, big_insert id)) <$> ids.
Definition fitting (ck : Clocks) : Prop := forall i, is_s64 (ck_insert ck i + DEFAULT_TTL_SECONDS).

Lemma big_insert_step db ck id rs : 0 < id < 2 ^ 53 -> db !! "BIG_USERS" = Some (mkATable big_schema rs) -> fitting ck -> Z.of_nat (length rs + 1) < 2 ^ 63 ->
  stmt_ok db ck (big_insert id) /\
  abs_execute db ck (big_insert id) = (done_with "1 rows inserted", <["BIG_USERS" := mkATable big_schema (rs ++ [mkStored (big_row id) (ck_insert ck 0 + DEFAULT_TTL_SECONDS) true])]> db).
Proof.
  intros Hid Hdb Hck Hl. unfold big_insert. cbn [stmt_ok abs_execute]. unfold insert_ok, abs_insert. cbn [in_table_name in_batch_values].
  change (to_upper "BIG_USERS") with "BIG_USERS". rewrite Hdb. cbn [at_schema at_rows abs_batch]. split.
  - split; [|done]. constructor; [|constructor]. rewrite big_abs_row by done. cbn. split; [done|]. apply double_sane. lia.
  - change (negb (length _ =? num_columns big_schema)%nat) with false. cbv iota. rewrite big_abs_row, big_row_valid by done. reflexivity.
Qed.

Lemma rows_session clocks ids : forall i db rs, Forall (fun id => 0 < id < 2 ^ 53) ids -> db !! "BIG_USERS" = Some (mkATable big_schema rs) ->
  (forall j, fitting (clocks j)) -> Z.of_nat (length rs + length ids) < 2 ^ 63 ->
  session_ok db (steps_at clocks i (rows_plan ids)) /\ Forall2 prints (abs_session db (steps_at clocks i (rows_plan ids))) (rows_dialogue ids).*2 /\
  exists rs', abs_final db (steps_at clocks i (rows_plan ids)) = <["BIG_USERS" := mkATable big_schema rs']> db /\ st_vals <$> rs' = (st_vals <$> rs) ++ (big_row <$> ids).
Proof.
  induction ids as [|id ids IH]; intros i db rs Hids Hdb Hck Hl; cbn [rows_plan fmap list_fmap steps_at session_ok abs_session rows_dialogue fst snd sp_clocks sp_stmt].
  { split; [done|]. split; [constructor|]. exists rs. by rewrite app_nil_r, insert_id. }
  apply Forall_cons in Hids as [Hid Hids]. cbn [length] in Hl. destruct (big_insert_step db (clocks i) id rs Hid Hdb (Hck i) ltac:(lia)) as [Hok E].
  set (rs1 := rs ++ _) in E. destruct (IH (S i) (<["BIG_USERS" := mkATable big_schema rs1]> db) rs1 Hids) as (H1 & H2 & rs' & H3 & H4).
  { apply lookup_insert_eq. }
  { done. }
  { unfold rs1. rewrite length_app. cbn. lia. }
  rewrite E. cbn [fst snd]. split; [by split|]. split.
  - constructor; [|exact H2]. apply printed_prints. reflexivity.
  - exists rs'. unfold abs_final in *. cbn [foldl sp_clocks sp_stmt]. rewrite E. cbn [snd]. split; [etrans; [exact H3|apply insert_insert_eq]|].
    unfold rs1 in H4. by rewrite H4, fmap_app, <- (assoc_L app).
Qed.

Definition big_plan (n : Z) : plan := plan_of [create_big_sql] ++ rows_plan (row_ids n).

Definition mode_plan (m : mode) : plan := match m with Insert_rows n => big_plan n | _ => [] end ++ unit_plan.

Lemma rows_plan_queries ids : (rows_plan ids).*1 = (rows_dialogue ids).*1.
Proof. unfold rows_plan, rows_dialogue. by rewrite <- !list_fmap_compose. Qed.

Lemma mode_plan_queries m : (mode_plan m).*1 = (mode_dialogue m).*1.
Proof.
  destruct m; [|done|done]. unfold mode_plan, mode_dialogue, big_plan, insert_dialogue. rewrite !fmap_app, rows_plan_queries. reflexivity.
Qed.

Lemma row_ids_bounds n : 0 < n < 2 ^ 53 -> Forall (fun id => 0 < id < 2 ^ 53) (row_ids n).
Proof. intros Hn. unfold row_ids. apply Forall_fmap, Forall_forall. intros k Hk%elem_of_seq. unfold compose. lia. Qed.

Lemma mode_plan_understood m : mode_ok m -> Forall understood (mode_plan m).
Proof.
  intros Hm. apply Forall_app. split; [|exact unit_plan_understood]. destruct m as [n| |]; [|done|done]. apply Forall_app. split; [apply understands_plan; vm_compute; reflexivity|].
  apply Forall_fmap. eapply Forall_impl; [by apply row_ids_bounds|]. intros id Hid. by apply big_understood.
Qed.

(** The SELECTs of the benchmark are all in its unit tests. *)
Lemma keys_asked_app s1 s2 : keys_asked (s1 ++ s2) = keys_asked s1 ++ keys_asked s2.
Proof. apply omap_app. Qed.

Lemma keys_any_time clocks clocks' p : forall i i', keys_asked (steps_at clocks i p) = keys_asked (steps_at clocks' i' p).
Proof.
  induction p as [|q p IH]; intros i i'; [done|]. unfold keys_asked in *. cbn [steps_at omap list_omap].
  rewrite (IH (S i) (S i')). reflexivity.
Qed.

Lemma rows_keys clocks ids : forall i, keys_asked (steps_at clocks i (rows_plan ids)) = [].
Proof. induction ids as [|id ids IH]; intros i; [done|]. exact (IH (S i)). Qed.

Lemma unit_keys clocks i : NoDup (keys_asked (steps_at clocks i unit_plan)).
Proof. rewrite (keys_any_time clocks (still 0) unit_plan i 0). refine (bool_decide_eq_true_1 _ _). vm_compute. reflexivity. Qed.

Lemma mode_keys clocks m : NoDup (keys_asked (steps_at clocks 0 (mode_plan m))).
Proof.
  unfold mode_plan. rewrite steps_at_app, keys_asked_app.
  assert (E : keys_asked (steps_at clocks 0 match m with Insert_rows n => big_plan n | _ => [] end) = []).
  { destruct m as [n| |]; [|reflexivity..]. unfold big_plan. rewrite steps_at_app, keys_asked_app, rows_keys, (keys_any_time clocks (still 0) (plan_of _) 0 0).
    vm_compute. reflexivity. }
  rewrite E, app_nil_l. apply unit_keys.
Qed.

(** *** The whole session *)

(** How many statements come before the unit tests. *)
Definition rows_statements (m : mode) : nat := match m with Insert_rows n => S (Z.to_nat n) | _ => 0 end.

(** What is left in the table of the benchmark. *)
Definition big_users (m : mode) (db : gmap string atable) : Prop :=
  match m with
  | Insert_rows n => exists rs, db !! "BIG_USERS" = Some (mkATable big_schema rs) /\ st_vals <$> rs = big_row <$> row_ids n
  | _ => db !! "BIG_USERS" = None
  end.

Lemma create_big_step ck : let p := plan_of [create_big_sql] in
  session_ok ∅ (steps_at ck 0 p) /\ abs_final ∅ (steps_at ck 0 p) = <["BIG_USERS" := mkATable big_schema []]> ∅ /\
  Forall2 prints (abs_session ∅ (steps_at ck 0 p)) ["Table BIG_USERS created" +:+ endl].
Proof.
  cbn zeta. set (p := plan_of _). let l := eval vm_compute in p in assert (E : p = l) by (vm_compute; reflexivity); rewrite E; clear E.
  cbn [steps_at session_ok abs_session abs_final foldl sp_clocks sp_stmt fst snd stmt_ok abs_execute uses_index]. split; [|split].
  - split; [solve_stmt_ok|exact I].
  - reflexivity.
  - apply Forall2_cons_2; [|apply Forall2_nil_2]. apply printed_prints. vm_compute. reflexivity.
Qed.

(** The first part of the session, on a fresh database. *)
Lemma rows_part clocks m : mode_ok m -> (forall j, fitting (clocks j)) -> let p := match m with Insert_rows n => big_plan n | _ => [] end in
  session_ok ∅ (steps_at clocks 0 p) /\ Forall2 prints (abs_session ∅ (steps_at clocks 0 p)) (match m with Insert_rows n => insert_dialogue n | _ => [] end).*2 /\
  length p = rows_statements m /\ big_users m (abs_final ∅ (steps_at clocks 0 p)) /\
  forall n, n <> "BIG_USERS" -> abs_final ∅ (steps_at clocks 0 p) !! n = None.
Proof.
  intros Hm Hck. destruct m as [n| |]; [|done|done]. cbn zeta. destruct (create_big_step clocks) as (Hok & Hf & Ht). unfold big_plan.
  set (p := plan_of _) in *. change (length p) with 1%nat in *.
  destruct (rows_session clocks (row_ids n) 1 (<["BIG_USERS" := mkATable big_schema []]> ∅) []) as (H1 & H2 & rs & H3 & H4); [by apply row_ids_bounds|apply lookup_insert_eq|done| |].
  { unfold row_ids. rewrite length_fmap, length_seq. cbn in Hm |- *. lia. }
  rewrite steps_at_app. change (0 + length p)%nat with 1%nat. split; [|split; [|split; [|split]]].
  - apply session_ok_app; [exact Hok|]. rewrite Hf. exact H1.
  - rewrite abs_session_app, Hf. apply Forall2_app with (l1' := [_]); [exact Ht|exact H2].
  - rewrite length_app. change (length p) with 1%nat. unfold rows_plan, row_ids. rewrite !length_fmap, length_seq. reflexivity.
  - exists rs. rewrite abs_final_app, Hf, H3, insert_insert_eq. split; [apply lookup_insert_eq|exact H4].
  - intros k Hk. rewrite abs_final_app, Hf, H3, insert_insert_eq, lookup_insert_ne by done. apply lookup_empty.
Qed.

Lemma mode_session clocks t0 m : mode_ok m -> (forall j, fitting (clocks j)) -> (forall j, (rows_statements m <= j)%nat -> unexpired t0 (clocks j)) ->
  session_ok ∅ (steps_at clocks 0 (mode_plan m)) /\ Forall2 prints (abs_session ∅ (steps_at clocks 0 (mode_plan m))) (mode_dialogue m).*2 /\
  big_users m (abs_final ∅ (steps_at clocks 0 (mode_plan m))).
Proof.
  intros Hm Hck Ht. destruct (rows_part clocks m Hm Hck) as (Hok & Hp & Hl & Hb & Hno). cbn zeta in *. unfold mode_plan, mode_dialogue.
  set (p := match m with Insert_rows n => big_plan n | _ => [] end) in *. set (db1 := abs_final ∅ (steps_at clocks 0 p)) in *.
  rewrite steps_at_app, abs_session_app, abs_final_app, fmap_app. fold db1. rewrite Hl.
  destruct (alike_session test_tables t0 100 clocks (still 100) unit_plan (0 + rows_statements m) 0 db1 ∅ unit_plan_tables) as [Hu Ea].
  - intros j Hj. split; [by apply Ht|apply Hck].
  - intros j k. unfold still, at_time, DEFAULT_TTL_SECONDS. cbn. lia.
  - intros n Hn. rewrite lookup_empty. rewrite Hno; [done|]. intros ->. revert Hn. apply (bool_decide_eq_false_1 _). vm_compute. reflexivity.
  - exact unit_session_ok.
  - split; [by apply session_ok_app|]. split; [apply Forall2_app; [exact Hp|rewrite Ea; exact unit_answers]|].
    assert (E : abs_final db1 (steps_at clocks (0 + rows_statements m) unit_plan) !! "BIG_USERS" = db1 !! "BIG_USERS").
    { apply untouched_session. refine (bool_decide_eq_true_1 _ _). vm_compute. reflexivity. }
    unfold big_users. rewrite E. exact Hb.
Qed.
