(* ===== verification/BenchmarkSpec.v ===== *)
(** * The benchmark passes against this server

    The tests that the authors of the program wrote, run by the model of the
    program that contains them against the model of the program they test. *)

From Stdlib Require Import ZArith Lia Ascii.
From stdpp Require Import base strings gmap numbers list list_numbers.
From S2P Require Import Prelude Cpp Doubles Common Schema Arena BPTree BPTreeRep BPTreeInsert Index Table TableRep TableSpec Lexer LexerSpec Parser ParserSpec Cache CacheSpec Executor JoinSpec ExecutorSpec SessionSpec Wire Network NetworkSpec Client ClientSpec Benchmark BenchmarkClient BenchmarkServer.
Open Scope string_scope.
Open Scope list_scope.
Open Scope Z_scope.

Section benchmark.
Context `{malloc : Malloc, StdHashLaws, kernel : Kernel, accepts : !KernelAccepts, timer : Timer}.

(** The server's port leads to this socket. *)
Definition reaches (net : Client.Network) (cs : Socket) : Prop :=
  socket_ok = true /\ inet_pton_ok "127.0.0.1" = true /\ connect "127.0.0.1" 9000 = Some cs.

(** The benchmark, run with these arguments, exits with 0 after every test has
    passed, has sent [sent], and has read its connection to the end. *)
Definition passes (net : Client.Network) (args : list string) (cs : Socket) (sent : list Z) : Prop :=
  exists cs' c text, main args = Ret (0, Some cs', c) /\ closed cs' = true /\ stream cs' = [] /\ outbox cs' = outbox cs ++ sent /\
    stdout c = text +:+ summary all_passed.

Lemma main_passes net m cs : mode_ok m -> reaches net cs -> no_failed_read cs -> stream cs = ((mode_dialogue m).*2 ++ [BYE]) ≫= frame ->
  passes net (mode_args m) cs (((mode_dialogue m).*1 ++ ["EXIT"]) ≫= frame).
Proof.
  intros Hm (H1 & H2 & H3) Hn Hs. unfold passes, main. rewrite parse_mode_args by done. outcome_simpl.
  assert (Ho : flexql_open (Some "127.0.0.1") 9000 = (FLEXQL_OK, Some (mkFlexQL (Some cs) "127.0.0.1" 9000 ""))).
  { unfold flexql_open. rewrite H1, H2. cbn [negb]. change (u16 9000) with 9000. by rewrite H3. }
  rewrite Ho. change (negb (FLEXQL_OK =? FLEXQL_OK)) with false. cbv iota.
  destruct (benchmark_ends m Hm (mkConsole (Some (mkFlexQL (Some cs) "127.0.0.1" 9000 "")) "" 0) _ cs eq_refl eq_refl Hn Hs)
    as (cs' & c' & text & E & Hc & Hr & Hb & Hp).
  exists cs', c', text. by destruct m.
Qed.

(** C13: The benchmark program passes: run for any number of rows below 2^53, or
    for its unit tests alone, against a fresh server, over sockets that move the
    bytes in any sizes, it exits with 0, its last words count 21 tests of 21
    passed, and its rows are in the server's table; or the server runs out of
    memory. The unit tests' rows must not expire while it runs. *)
Theorem benchmark_passes m clocks t0 ss : mode_ok m ->
  (forall j, fitting (clocks j)) -> (forall j, (rows_statements m <= j)%nat -> unexpired t0 (clocks j)) ->
  no_failed_read ss -> outbox ss = [] -> stream ss = ((mode_dialogue m).*1 ++ ["EXIT"]) ≫= frame ->
  handle_client clocks Executor_new ss = Throw bad_alloc \/
  exists executor ss', handle_client clocks Executor_new ss = Ret (executor, ss') /\ closed ss' = true /\
    (exists db, db_rep (tables_ executor) db /\ big_users m db) /\
    forall net cs, reaches net cs -> no_failed_read cs -> outbox cs = [] -> stream cs = outbox ss' -> passes net (mode_args m) cs (stream ss).
Proof.
  intros Hm Hfit Ht Hn Ho Hstream. destruct (mode_session clocks t0 m Hm Hfit Ht) as (Hok & Hp & Hb). destruct Executor_new_rep as [R C].
  pose proof (mode_plan_understood m Hm) as Hu.
  assert (Hms : messages (stream ss) = (mode_plan m).*1 ++ ["EXIT"]).
  { rewrite Hstream, mode_plan_queries. apply messages_frames. apply Forall_app. split; [|by constructor]. rewrite <- mode_plan_queries. apply Forall_fmap.
    eapply Forall_impl; [exact Hu|]. intros p (_ & _ & _ & ?). done. }
  pose proof (handle_client_serves clocks Executor_new ss Hn) as Hserve. rewrite Hms in Hserve.
  destruct (connection_once clocks (mode_plan m) 0 Executor_new ∅ [] (mode_dialogue m).*2 Hu R C) as [E|(executor & E & R')]; [done|exact Hok|apply mode_keys| |exact Hp|..].
  { by intros k _. }
  - left. by rewrite E in Hserve.
  - right. rewrite E in Hserve. destruct Hserve as (ss' & Eh & Oss & Css). exists executor, ss'. split; [exact Eh|]. split; [exact Css|].
    split; [by eexists|]. intros net cs Hr Hcn Hco Hcs. rewrite Hstream. apply main_passes; [done|done|done|]. by rewrite Hcs, Oss, Ho.
Qed.
End benchmark.

(** *** Three rows, over sockets that move one byte and three bytes at a time *)

#[local] Instance sample_timer : Timer := fun i => Z.of_nat i * 7.
Definition sample_net (cs : Socket) : Client.Network := {| socket_ok := true; inet_pton_ok := fun _ => true; connect := fun _ _ => Some cs |}.
Definition sample_mode : mode := Insert_rows 3.

Definition sample_bytes : list Z := ((mode_dialogue sample_mode).*1 ++ ["EXIT"]) ≫= frame.
Definition sample_stream : Socket := trickle sample_bytes.

Lemma returned_not_thrown {A} (o : outcome A) e : match o with Ret _ => true | _ => false end = true -> o <> Throw e.
Proof. by destruct o. Qed.

Lemma sample_memory : handle_client (still 100) Executor_new sample_stream <> Throw bad_alloc.
Proof. apply returned_not_thrown. vm_compute. reflexivity. Qed.

Lemma benchmark_passes_witness : exists executor ss', handle_client (still 100) Executor_new sample_stream = Ret (executor, ss') /\
  passes (sample_net (trickle (outbox ss'))) ["3"] (trickle (outbox ss')) (stream sample_stream).
Proof.
  destruct (benchmark_passes sample_mode (still 100) 100 sample_stream) as [E|(executor & ss' & E & _ & _ & H)].
  - done.
  - intros j i. unfold still, is_s64, DEFAULT_TTL_SECONDS. cbn. lia.
  - intros j _ i. unfold still, DEFAULT_TTL_SECONDS. cbn. lia.
  - exact (trickle_no_failed_read sample_bytes).
  - reflexivity.
  - exact (trickle_stream sample_bytes).
  - exfalso. exact (sample_memory E).
  - exists executor, ss'. split; [exact E|].
    exact (H (sample_net (trickle (outbox ss'))) (trickle (outbox ss')) (conj eq_refl (conj eq_refl eq_refl)) (trickle_no_failed_read _) eq_refl (trickle_stream _)).
Defined.
