(* ===== verification/DatabaseSpec.v ===== *)
(** * Recovery after a crash restores the database

    What a statement does to the contents of the tables — schemas and values,
    not expiry times — depends on the contents only. So a database that loads
    the last snapshot and replays the log has the contents it had before the
    crash, wherever the crash fell. *)

From Stdlib Require Import ZArith Lia Ascii.
From stdpp Require Import base strings gmap numbers list list_numbers.
From S2P Require Import Prelude Cpp Common Schema Arena BPTree BPTreeRep BPTreeInsert Index Table TableRep TableSpec Lexer LexerSpec Parser ParserSpec Cache CacheSpec Executor JoinSpec ExecutorSpec SessionSpec Crc Wal Snapshot SnapshotSpec Database Logged.
Open Scope string_scope.
Open Scope list_scope.
Open Scope Z_scope.

(** ** Contents *)

Definition content (a : atable) : Schema * list Row := (at_schema a, st_vals <$> at_rows a).
Definition content_db (db : gmap string atable) : gmap string (Schema * list Row) := content <$> db.

(** Databases with the same contents. *)
Definition same_content (db db' : gmap string atable) : Prop := content_db db = content_db db'.

#[export] Instance same_content_equiv : Equivalence same_content.
Proof. unfold same_content. split; [by intros ?|by intros ? ? ?|intros ? ? ? -> ->; done]. Qed.

Lemma same_content_lookup db db' n : same_content db db' -> option_Forall2 (fun a a' => content a = content a') (db !! n) (db' !! n).
Proof.
  intros H. pose proof (f_equal (fun m : gmap string (Schema * list Row) => m !! n) H) as E. cbv beta in E.
  unfold content_db in E. rewrite !lookup_fmap in E. destruct (db !! n), (db' !! n); cbn in E; try done; constructor. congruence.
Qed.

Lemma same_content_insert db db' n a a' : same_content db db' -> content a = content a' -> same_content (<[n := a]> db) (<[n := a']> db').
Proof. unfold same_content, content_db. intros H E. by rewrite !fmap_insert, H, E. Qed.

Lemma batch_content s clock clock' batch : forall rs rs' n, st_vals <$> rs = st_vals <$> rs' ->
  (abs_batch clock s rs batch n).1 = (abs_batch clock' s rs' batch n).1 /\
  st_vals <$> (abs_batch clock s rs batch n).2 = st_vals <$> (abs_batch clock' s rs' batch n).2.
Proof.
  induction batch as [|lits batch IH]; intros rs rs' n E; cbn [abs_batch]; [done|].
  destruct (negb _); [done|]. destruct (abs_row _ _) as [|row]; [done|]. destruct (validate_row s row); [done|].
  apply IH. by rewrite !fmap_app, E.
Qed.

(** What a statement leaves depends on what it finds, not on the clock. *)
Lemma execute_content db db' ck ck' stmt : same_content db db' -> same_content (abs_execute db ck stmt).2 (abs_execute db' ck' stmt).2.
Proof.
  intros H. destruct stmt as [stmt|stmt|stmt]; cbn [abs_execute snd]; [| |done].
  - unfold abs_create. destruct (same_content_lookup _ _ (to_upper (ct_table_name stmt)) H) as [a a' Ha|]; [done|].
    destruct (create_columns _ _); [done|]. by apply same_content_insert.
  - unfold abs_insert. destruct (same_content_lookup _ _ (to_upper (in_table_name stmt)) H) as [[s rs] [s' rs'] Ha|]; [|done].
    unfold content in Ha. cbn [at_schema at_rows] in *. injection Ha as <- Er.
    destruct (batch_content s (ck_insert ck) (ck_insert ck') (in_batch_values stmt) rs rs' 0 Er) as [_ E].
    destruct (abs_batch (ck_insert ck) _ _ _ _) as [[? ?] ?], (abs_batch (ck_insert ck') _ _ _ _) as [[? ?] ?].
    cbn [snd] in *. apply same_content_insert; [done|]. unfold content. cbn. by rewrite E.
Qed.

Definition clocks_bounded (ck : Clocks) : Prop := forall i, is_s64 (ck_insert ck i + DEFAULT_TTL_SECONDS).

Lemma distinct_keys_content rs rs' : st_vals <$> rs = st_vals <$> rs' -> distinct_keys rs -> distinct_keys rs'.
Proof.
  intros E Hd.
  assert (Hl : forall i r', rs' !! i = Some r' -> exists r, rs !! i = Some r /\ st_vals r = st_vals r').
  { intros i r' Hr. pose proof (f_equal (fun l : list Row => l !! i) E) as Ei. cbv beta in Ei. rewrite !list_lookup_fmap, Hr in Ei.
    destruct (rs !! i) as [r|]; [|done]. exists r. split; [done|]. by injection Ei. }
  intros i j ri rj Hij Hi Hj. destruct (Hl i ri Hi) as (r1 & H1 & E1). destruct (Hl j rj Hj) as (r2 & H2 & E2).
  specialize (Hd i j r1 r2 Hij H1 H2). unfold row_key in *. by rewrite <- E1, <- E2.
Qed.

Lemma stmt_ok_content db db' ck ck' stmt : same_content db db' -> clocks_bounded ck' -> stmt_ok db ck stmt -> stmt_ok db' ck' stmt.
Proof.
  intros H Hck. destruct stmt as [stmt|stmt|stmt]; cbn [stmt_ok]; [done| |].
  - unfold insert_ok. destruct (same_content_lookup _ _ (to_upper (in_table_name stmt)) H) as [[s rs] [s' rs'] Ha|]; [|done].
    unfold content in Ha. cbn [at_schema at_rows] in *. injection Ha as <- Er. apply (f_equal length) in Er. rewrite !length_fmap in Er.
    rewrite Er. by intros (? & ? & _).
  - unfold select_ok. destruct (se_join stmt); [done|].
    destruct (same_content_lookup _ _ (to_upper (se_table_name stmt)) H) as [[s rs] [s' rs'] Ha|]; [|done].
    unfold content in Ha. cbn [at_schema at_rows] in *. injection Ha as <- Er. unfold where_ok. cbn [at_schema at_rows].
    intros Hw Hpk. destruct (Hw Hpk) as [Hd Hlit]. split; [|done]. by eapply distinct_keys_content.
Qed.

(** ** Statements as text *)

Definition abs_sql (db : gmap string atable) (ck : Clocks) (sql : string) : gmap string atable :=
  match parse_sql sql with Ret (inr stmt) => (abs_execute db ck stmt).2 | _ => db end.

Definition sql_ok (db : gmap string atable) (ck : Clocks) (sql : string) : Prop :=
  match parse_sql sql with
  | Ret (inr stmt) => stmt_ok db ck stmt
  | Ret (inl _) => True
  | _ => False
  end.

Lemma abs_sql_content db db' ck ck' sql : same_content db db' -> same_content (abs_sql db ck sql) (abs_sql db' ck' sql).
Proof. intros H. unfold abs_sql. destruct (parse_sql sql) as [[|stmt]| | |]; try done. by apply execute_content. Qed.

Lemma sql_ok_content db db' ck ck' sql : same_content db db' -> clocks_bounded ck' -> sql_ok db ck sql -> sql_ok db' ck' sql.
Proof. intros H Hck. unfold sql_ok. destruct (parse_sql sql) as [[|stmt]| | |]; try done. by eapply stmt_ok_content. Qed.

(** The executor represents [db], with some cache. *)
Definition ex_rep (ex : Executor) (db : gmap string atable) : Prop :=
  db_rep (tables_ ex) db /\ exists cs, cache_rep (cache_ ex) cs /\ 0 < capacity_ (cache_ ex).

Section execution.
Context `{malloc : Malloc, StdHashLaws}.

(** A SELECT, answered from the cache or not, changes no table. *)
Lemma select_any ex db ck stmt raw : ex_rep ex db -> select_ok db stmt ->
  exists res ex', exec_select ex ck stmt raw = Ret (res, ex') /\ ex_rep ex' db.
Proof.
  intros (R & cs & C & Hcap) Hok. unfold exec_select. destruct (select_refines ex db ck stmt R Hok) as (res & Erun & _).
  destruct (String.eqb_spec raw "") as [->|Hraw].
  { outcome_simpl. cbn [fst snd]. rewrite Erun. outcome_simpl. rewrite andb_false_r. outcome_simpl. eexists _, _. split; [done|].
    split; [done|]. by exists cs. }
  destruct (get_rep (cache_ ex) cs raw C) as (c1 & -> & C1 & Ec1). outcome_simpl. cbn [fst snd].
  unfold spec_get in *. destruct (entry_of (normalize raw) cs) as [c|]; cbn [fst snd] in *.
  - eexists _, _. split; [done|]. split; [done|]. eexists. split; [exact C1|]. cbn. lia.
  - rewrite Erun. outcome_simpl. destruct (success res); cbn [andb negb].
    + destruct (put_rep c1 cs raw (mkCached (column_names res) (rows res)) C1 ltac:(lia)) as (c2 & -> & C2 & Ec2). outcome_simpl.
      eexists _, _. split; [done|]. split; [done|]. eexists. split; [exact C2|]. cbn. lia.
    + outcome_simpl. eexists _, _. split; [done|]. split; [done|]. exists cs. split; [done|]. cbn. lia.
Qed.

Lemma execute_sql_any ex db ck sql : ex_rep ex db -> sql_ok db ck sql ->
  execute_sql ex ck sql = Throw bad_alloc \/
  exists res ex', execute_sql ex ck sql = Ret (res, ex') /\ ex_rep ex' (abs_sql db ck sql).
Proof.
  intros Hex Hok. unfold execute_sql, abs_sql, sql_ok in *. destruct (parse_sql sql) as [[err|stmt]| | |]; try done; outcome_simpl.
  { right. by eexists _, ex. }
  destruct stmt as [stmt|stmt|stmt]; cbn [execute abs_execute stmt_ok snd] in *.
  - destruct Hex as (R & cs & C & Hcap).
    destruct (create_refines ex db stmt R Hok) as [?|(ex' & -> & R' & E)]; [by left|right]. eexists _, ex'. split; [done|].
    split; [done|]. exists cs. by rewrite E.
  - destruct Hex as (R & cs & C & Hcap).
    destruct (insert_refines ex db ck stmt cs R Hok C) as [?|(ex' & -> & R' & Ec & C')]; [by left|right]. eexists _, ex'. split; [done|].
    split; [done|]. eexists. split; [exact C'|]. lia.
  - right. by apply select_any.
Qed.
End execution.

(** ** Replaying a log *)

(** The contents after the logged statements; [no_clocks] as the clock does not matter. *)
Definition no_clocks : Clocks := mkClocks (fun _ => 0) (fun _ => 0) (fun _ => 0).
Definition replayed (base : gmap string atable) (logged : list string) : gmap string atable :=
  foldl (fun db sql => abs_sql db no_clocks sql) base logged.

Fixpoint log_ok (base : gmap string atable) (logged : list string) : Prop :=
  match logged with
  | [] => True
  | sql :: logged => sql_ok base no_clocks sql /\ log_ok (abs_sql base no_clocks sql) logged
  end.

Lemma log_ok_snoc logged : forall base sql, log_ok base (logged ++ [sql]) <-> log_ok base logged /\ sql_ok (replayed base logged) no_clocks sql.
Proof.
  induction logged as [|s logged IH]; intros base sql; cbn [log_ok app replayed foldl]; [tauto|]. rewrite IH. unfold replayed. tauto.
Qed.

Lemma replayed_snoc base logged sql : replayed base (logged ++ [sql]) = abs_sql (replayed base logged) no_clocks sql.
Proof. unfold replayed. by rewrite foldl_app. Qed.

Section replay.
Context `{malloc : Malloc, StdHashLaws}.
Context (t1 : Z) (clocks : Z -> Clocks) (Hclocks : forall l, in_ttl t1 (clocks l) /\ clocks_bounded (clocks l)).

Lemma replay_record_entry lsn0 n text ex : replay_record lsn0 clocks (entry_record (n, text)) ex =
  if n <=? lsn0 then Ret (ex, true) else result ← execute_sql ex (clocks n) text; Ret (snd result, true).
Proof. done. Qed.

(** Records the snapshot covers are skipped, the others executed. *)
Lemma replay_skips lsn0 logged : forall n ex count, n + Z.of_nat (length logged) <= lsn0 + 1 ->
  exists count', run_records (replay_record lsn0 clocks) (entry_record <$> numbered_log n logged) ex count = Ret (ex, count').
Proof.
  induction logged as [|sql logged IH]; intros n ex count Hn; cbn [numbered_log fmap list_fmap run_records length] in *; [by exists count|].
  rewrite replay_record_entry, (proj2 (Z.leb_le _ _)) by lia. outcome_simpl. cbn [fst snd].
  apply IH. lia.
Qed.

Lemma replay_runs lsn0 logged : forall n ex db base count, lsn0 < n -> ex_rep ex db -> fresh_db t1 db -> same_content db base -> log_ok base logged ->
  run_records (replay_record lsn0 clocks) (entry_record <$> numbered_log n logged) ex count = Throw bad_alloc \/
  exists ex' db' count', run_records (replay_record lsn0 clocks) (entry_record <$> numbered_log n logged) ex count = Ret (ex', count') /\
    ex_rep ex' db' /\ fresh_db t1 db' /\ same_content db' (replayed base logged).
Proof.
  induction logged as [|sq logged IH]; intros n ex db base count Hn R Hf Hc Hok; cbn [numbered_log fmap list_fmap run_records log_ok] in *.
  { right. by exists ex, db, count. }
  destruct Hok as [Hsql Hok]. rewrite replay_record_entry, (proj2 (Z.leb_gt _ _)) by lia. destruct (Hclocks n) as [Hin Hb].
  assert (Hsql' : sql_ok db (clocks n) sq) by (eapply sql_ok_content; [symmetry; exact Hc|done|exact Hsql]).
  destruct (execute_sql_any ex db (clocks n) sq R Hsql') as [->|(res & ex1 & -> & R1)]; [by left|]. outcome_simpl. cbn [fst snd].
  apply (IH (n + 1) ex1 (abs_sql db (clocks n) sq) (abs_sql base no_clocks sq)); [lia|done| | |done].
  - unfold abs_sql. destruct (parse_sql sq) as [[|stmt]| | |]; try done. by apply execute_fresh.
  - by apply abs_sql_content.
Qed.
End replay.

(** ** Files *)

Lemma app_inj_l a b c : a +:+ b = a +:+ c -> b = c.
Proof. induction a as [|x a IH]; [done|]. rewrite !app_cons. intros [= H]. by apply IH. Qed.

Lemma app_not_longer a b : b <> "" -> a <> a +:+ b.
Proof. intros Hb E. rewrite <- (app_empty_r a) in E at 1. by apply app_inj_l in E. Qed.

Definition tmp_path (dir : string) : string := snapshot_path dir +:+ ".tmp".

Lemma paths_distinct dir : snapshot_path dir <> wal_path dir /\ tmp_path dir <> wal_path dir /\ tmp_path dir <> snapshot_path dir.
Proof.
  unfold tmp_path, snapshot_path, wal_path. rewrite !app_assoc_str. repeat split; intros E; apply app_inj_l in E; discriminate E.
Qed.

Lemma restore_all tables ex : map_fold (fun name table ex => restore_table ex name table) ex tables = mkExecutor (tables ∪ tables_ ex) (cache_ ex).
Proof.
  refine (map_fold_weak_ind (fun r (m : gmap string Table) => r = mkExecutor (m ∪ tables_ ex) (cache_ ex))
    (fun name table ex => restore_table ex name table) ex _ _ tables).
  - rewrite (left_id_L ∅ (∪)). by destruct ex.
  - intros n t m r _ ->. unfold restore_table. cbn. by rewrite insert_union_l.
Qed.

Section recovery.
Context `{malloc : Malloc, StdHashLaws, CanOpen, CanRename, TableOrder}.
Context (dir : string) (Hdir : dir <> "") (Hopen : can_open (wal_path dir) = true).

Definition load_clocks_ok (t1 : Z) (lc : string -> nat -> Z) : Prop := forall n i, t1 <= lc n i /\ is_s64 (lc n i + DEFAULT_TTL_SECONDS).

(** The snapshot in the directory holds the contents of [base] and the LSN. *)
Definition snapshot_state (files : Files) (base : gmap string atable) (slsn : Z) : Prop :=
  match files !! snapshot_path dir with
  | None => slsn = 0 /\ base = ∅
  | Some bytes => forall t1 lc, load_clocks_ok t1 lc ->
      loads_or_oom (load_file lc) bytes (fun p => p.1 = slsn /\ exists db, db_rep p.2 db /\ fresh_db t1 db /\ same_content db base)
  end.

(** The log holds [logged], numbered from [n], and perhaps a torn record. *)
Definition log_state (files : Files) (n : Z) (logged : list string) : Prop :=
  match files !! wal_path dir with
  | None => logged = []
  | Some bytes => exists tail, bytes = log_bytes (numbered_log n logged) ++ tail /\ read_record tail = None
  end.

Lemma read_record_nil : read_record [] = None.
Proof. done. Qed.

Lemma open_log files n logged : log_state files n logged -> Forall entry_ok (numbered_log n logged) ->
  exists next, WALWriter_new files (wal_path dir) = Ret (mkWriter (wal_path dir) true next, open_append files (wal_path dir)) /\
    (logged = [] -> next = 1).
Proof.
  unfold log_state, WALWriter_new. intros Hl Hok. rewrite Hopen. cbn [negb].
  assert (E : read_all (open_append files (wal_path dir)) (wal_path dir) = Ret (entry_record <$> numbered_log n logged)).
  { unfold open_append. destruct (files !! wal_path dir) as [bytes|] eqn:Ef.
    - destruct Hl as (tail & -> & Ht). by eapply read_all_log.
    - subst logged. apply (read_all_log _ _ [] []); [constructor|done|by rewrite lookup_insert_eq]. }
  rewrite E. outcome_simpl. eexists. split; [done|]. by intros ->.
Qed.

(** Startup: the snapshot, then the part [redo] of the log it does not cover. *)
Lemma startup files base slsn n logged redo rk t1 : snapshot_state files base slsn -> log_state files n logged ->
  Forall entry_ok (numbered_log n logged) ->
  (n = slsn + 1 /\ redo = logged /\ log_ok base logged \/ n + Z.of_nat (length logged) <= slsn + 1 /\ redo = []) ->
  load_clocks_ok t1 (rk_load rk) -> (forall l, in_ttl t1 (rk_replay rk l) /\ clocks_bounded (rk_replay rk l)) ->
  Database_new dir files rk = Throw bad_alloc \/
  exists d db next, Database_new dir files rk = Ret (d, open_append files (wal_path dir)) /\
    data_dir_ d = dir /\ wal_writer_ d = Some (mkWriter (wal_path dir) true next) /\ (logged = [] -> next = 1) /\
    ex_rep (executor_ d) db /\ fresh_db t1 db /\ same_content db (replayed base redo).
Proof.
  intros Hsnap Hlog Hent Hredo Hload Hreplay. unfold Database_new, persistent. cbn [data_dir_]. destruct (String.eqb_spec dir ""); [done|]. cbn [negb].
  destruct (open_log files n logged Hlog Hent) as (next & Ew & Hnext).
  assert (Hrs : recover_snapshot (mkDatabase dir Executor_new None 0 0) files (rk_load rk) = Throw bad_alloc \/
    exists ex db, recover_snapshot (mkDatabase dir Executor_new None 0 0) files (rk_load rk) = Ret (mkDatabase dir ex None slsn 0) /\
      ex_rep ex db /\ fresh_db t1 db /\ same_content db base).
  { unfold recover_snapshot. cbn [data_dir_ executor_ wal_writer_ recovered_wal_records_]. unfold snapshot_state in Hsnap.
    destruct Executor_new_rep as [R0 C0]. destruct (files !! snapshot_path dir) as [bytes|] eqn:Ef.
    - unfold load. rewrite Ef. specialize (Hsnap t1 (rk_load rk) Hload []). rewrite app_nil_r in Hsnap.
      destruct Hsnap as [->|([l tables] & (El & db & R & Hf & Hc) & ->)]; [by left|right]. outcome_simpl. cbn [fst snd] in *. subst l.
      eexists _, db. split; [reflexivity|]. rewrite restore_all. cbn [tables_ Executor_new]. rewrite (right_id_L ∅ (∪)).
      split; [|done]. split; [done|]. by exists [].
    - destruct Hsnap as [-> ->]. right. eexists _, ∅. split; [done|]. split; [|split; [|done]]; [split; [done|]; by exists []|].
      intros m t. by rewrite lookup_empty. }
  unfold recover. destruct Hrs as [->|(ex & db & -> & R & Hf & Hc)]; [by left|]. outcome_simpl. cbn [data_dir_ snapshot_lsn_ executor_ wal_writer_].
  assert (Hrun : match files !! wal_path dir with
    | None => redo = []
    | Some _ => replay files (wal_path dir) (replay_record slsn (rk_replay rk)) ex = Throw bad_alloc \/
       exists ex' db' c, replay files (wal_path dir) (replay_record slsn (rk_replay rk)) ex = Ret (ex', c) /\
         ex_rep ex' db' /\ fresh_db t1 db' /\ same_content db' (replayed base redo)
    end).
  { unfold log_state in Hlog. destruct (files !! wal_path dir) as [bytes|] eqn:Ef; [|subst logged; by destruct Hredo as [(_ & -> & _)|[_ ->]]].
    destruct Hlog as (tail & -> & Ht). rewrite (replay_log _ _ _ _ _ _ Hent Ht Ef). destruct Hredo as [(-> & -> & Hok)|[Hn ->]].
    - by apply (replay_runs t1 (rk_replay rk) Hreplay slsn logged (slsn + 1) ex db base 0); [lia|..].
    - right. destruct (replay_skips (rk_replay rk) slsn logged n ex 0 Hn) as [c ->]. by exists ex, db, c. }
  destruct (files !! wal_path dir) as [bytes|].
  - destruct Hrun as [->|(ex' & db' & c & -> & R' & Hf' & Hc')]; [by left|right]. outcome_simpl. rewrite Ew. outcome_simpl. cbn [fst snd].
    eexists _, db', next. split; [done|]. cbn. done.
  - subst redo. right. outcome_simpl. rewrite Ew. outcome_simpl. cbn [fst snd]. eexists _, db, next. split; [done|]. cbn. done.
Qed.

(** ** A running process *)

Context (t0 : Z).

(** The process represents [db]; since the last snapshot, of [base], it has
    logged [logged]; it has taken at most [n] steps. *)
Record running (d : Database) (files : Files) (db base : gmap string atable) (slsn : Z) (logged : list string) (n : Z) : Prop := {
  run_dir : data_dir_ d = dir;
  run_writer : wal_writer_ d = Some (mkWriter (wal_path dir) true (slsn + 1 + Z.of_nat (length logged)));
  run_log : files !! wal_path dir = Some (log_bytes (numbered_log (slsn + 1) logged));
  run_snapshot : snapshot_state files base slsn;
  run_ex : ex_rep (executor_ d) db;
  run_fresh : fresh_db t0 db;
  run_content : same_content db (replayed base logged);
  run_log_ok : log_ok base logged;
  run_sizes : Forall (fun sql => str_size sql <= MAX_PAYLOAD) logged;
  run_count : 0 <= slsn /\ slsn + Z.of_nat (length logged) <= n;
}.

Lemma persistent_dir d : data_dir_ d = dir -> persistent d = true.
Proof. unfold persistent. intros ->. destruct (String.eqb_spec dir ""); [done|reflexivity]. Qed.

Lemma no_clocks_bounded : clocks_bounded no_clocks.
Proof. intros i. unfold is_s64, DEFAULT_TTL_SECONDS. cbn. lia. Qed.

Lemma abs_sql_unlogged db ck sql : is_mutating_sql sql = false -> abs_sql db ck sql = db.
Proof.
  intros Hm. unfold abs_sql. destruct (parse_sql sql) as [[|stmt]| | |] eqn:Ep; try done.
  destruct stmt as [stmt|stmt|stmt]; [| |done]; exfalso; pose proof (mutating_logged sql _ Ep (fun H => H)); congruence.
Qed.

(** Logging keeps everything but the log. *)
Lemma log_running d files db base slsn logged n sql : running d files db base slsn logged n -> is_mutating_sql sql = true ->
  n + 2 < 2 ^ 63 -> exists d' files', log_sql d files sql = (d', files') /\ executor_ d' = executor_ d /\ data_dir_ d' = dir /\
    wal_writer_ d' = Some (mkWriter (wal_path dir) true (slsn + 1 + Z.of_nat (length (logged ++ [sql])))) /\
    files' = <[wal_path dir := log_bytes (numbered_log (slsn + 1) (logged ++ [sql]))]> files.
Proof.
  intros [] Hm Hn. unfold log_sql. rewrite run_writer0, (persistent_dir _ run_dir0), Hm. cbn [andb append path_ is_open next_lsn_].
  rewrite run_log0. cbn [default from_option id]. eexists _, _. split; [reflexivity|]. cbn. do 2 (split; [done|]). split.
  - rewrite u64_small by (unfold is_u64; lia). rewrite length_app. cbn. do 2 f_equal. lia.
  - f_equal. unfold log_bytes. clear. revert slsn. induction logged as [|s logged IH]; intros slsn.
    + cbn. rewrite app_nil_r, Z.add_0_r. done.
    + cbn [numbered_log app mbind list_bind]. rewrite <- app_assoc. f_equal. specialize (IH (slsn + 1)).
      replace (slsn + 1 + Z.of_nat (length (s :: logged))) with (slsn + 1 + 1 + Z.of_nat (length logged)) by (cbn [length]; lia). exact IH.
Qed.

Lemma snapshot_state_wal files base slsn bytes : snapshot_state files base slsn -> snapshot_state (<[wal_path dir := bytes]> files) base slsn.
Proof. unfold snapshot_state. rewrite lookup_insert_ne; [done|]. symmetry. apply paths_distinct. Qed.

Lemma fresh_sql db ck sql : fresh_db t0 db -> in_ttl t0 ck -> fresh_db t0 (abs_sql db ck sql).
Proof. intros Hf Hck. unfold abs_sql. destruct (parse_sql sql) as [[|stmt]| | |]; try done. by apply execute_fresh. Qed.

Lemma execute_running d files db base slsn logged n ck sql : running d files db base slsn logged n -> sql_ok db ck sql -> in_ttl t0 ck ->
  str_size sql <= MAX_PAYLOAD -> n + 2 < 2 ^ 63 ->
  Database_execute d files ck sql = Throw bad_alloc \/
  exists res d' files' logged', Database_execute d files ck sql = Ret (res, d', files') /\
    running d' files' (abs_sql db ck sql) base slsn logged' (n + 1).
Proof.
  intros Hrun Hok Hck Hsz Hn. unfold Database_execute. pose proof Hrun as [].
  destruct (is_mutating_sql sql) eqn:Em.
  - destruct (log_running d files db base slsn logged n sql Hrun Em Hn) as (d' & files' & -> & Eex & Edir & Ew & ->). rewrite Eex.
    destruct (execute_sql_any (executor_ d) db ck sql run_ex0 Hok) as [->|(res & ex' & -> & R')]; [by left|right]. outcome_simpl. cbn [fst snd].
    eexists _, _, _, (logged ++ [sql]). split; [done|]. constructor; cbn [with_executor data_dir_ wal_writer_ executor_]; try done.
    + by rewrite lookup_insert_eq.
    + by apply snapshot_state_wal.
    + by apply fresh_sql.
    + rewrite replayed_snoc. by apply abs_sql_content.
    + apply log_ok_snoc. split; [done|]. eapply sql_ok_content; [exact run_content0|apply no_clocks_bounded|exact Hok].
    + apply Forall_app. split; [done|]. by constructor.
    + rewrite length_app. cbn. lia.
  - assert (El : log_sql d files sql = (d, files)) by (unfold log_sql; by rewrite run_writer0, Em, andb_false_r).
    rewrite El. destruct (execute_sql_any (executor_ d) db ck sql run_ex0 Hok) as [->|(res & ex' & -> & R')]; [by left|right].
    outcome_simpl. cbn [fst snd]. rewrite abs_sql_unlogged in * by done. eexists _, _, _, logged. split; [done|].
    constructor; cbn [with_executor data_dir_ wal_writer_ executor_]; try done. lia.
Qed.

(** ** Snapshots *)

Context (Htmp : can_open (tmp_path dir) = true) (Hrename : can_rename (tmp_path dir) (snapshot_path dir) = true).
Context (Horder : forall m, Permutation (table_order m) (map_to_list m)).

Lemma reinserted_vals lc rows : st_vals <$> reinserted lc rows = rows.
Proof.
  unfold reinserted. apply list_eq. intros i. rewrite list_lookup_fmap, list_lookup_imap. by destruct (rows !! i).
Qed.

Lemma refreshed_content db sc lc : fresh_db t0 db -> (forall m i, sc m i <= t0 + DEFAULT_TTL_SECONDS) -> same_content (refreshed_db sc lc db) db.
Proof.
  intros Hf Hsc. unfold same_content, content_db. apply map_eq. intros m. rewrite !lookup_fmap. unfold refreshed_db. rewrite map_lookup_imap.
  destruct (db !! m) as [a|] eqn:Ea; [|done]. cbn. unfold content, refreshed. cbn [at_schema at_rows]. rewrite reinserted_vals.
  by rewrite (visible_fresh t0 _ _ (Hf m a Ea) (Hsc m)).
Qed.

Lemma refreshed_fresh db sc lc t1 : load_clocks_ok t1 lc -> fresh_db t1 (refreshed_db sc lc db).
Proof.
  intros Hlc m a. unfold refreshed_db. rewrite map_lookup_imap. destruct (db !! m) as [a0|]; [|done]. intros [= <-].
  unfold fresh_rows, refreshed. cbn [at_rows]. apply Forall_forall. intros r Hr.
  apply elem_of_lookup_imap in Hr as (i & vals & -> & _). cbn. split; [done|]. destruct (Hlc m i). lia.
Qed.

(** What may be saved: the format's limits hold and nothing has expired. *)
Definition snapshot_ok (db : gmap string atable) (clock : string -> nat -> Z) : Prop :=
  rep_saveable db /\ Z.of_nat (size db) < 2 ^ 32 /\ forall m i, clock m i <= t0 + DEFAULT_TTL_SECONDS.

Lemma saved_state tables db sc last : db_rep tables db -> fresh_db t0 db -> snapshot_ok db sc -> is_u64 last ->
  exists bytes, save_bytes sc (table_order tables) last = Ret bytes /\
    forall files, files !! snapshot_path dir = Some bytes -> snapshot_state files db last.
Proof.
  intros R Hf (Hsv & Hsize & Hsc) Hlast. set (order := table_order tables).
  assert (Hlen : Z.of_nat (length order) < 2 ^ 32).
  { destruct (order_tables tables db order R (Horder tables)) as (dbl & HP & HF). apply Forall2_length in HF. rewrite HF, HP.
    by rewrite length_map_to_list. }
  assert (Hany : forall lc, (forall m i, is_s64 (lc m i + DEFAULT_TTL_SECONDS)) -> exists bytes, save_bytes sc order last = Ret bytes /\
    loads_or_oom (load_file lc) bytes (fun p => p.1 = last /\ db_rep p.2 (refreshed_db sc lc db))).
  { intros lc Hlc. by apply (file_roundtrip tables db order sc lc last R (Horder tables) Hsv Hlen Hlast). }
  destruct (Hany (fun _ _ => 0)) as (bytes & Eb & _); [intros _ i; unfold is_s64, DEFAULT_TTL_SECONDS; lia|].
  exists bytes. split; [done|]. intros files Hfile. unfold snapshot_state. rewrite Hfile. intros t1 lc Hlc.
  destruct (Hany lc) as (bytes' & Eb' & Hload); [intros m i; apply Hlc|]. rewrite Eb in Eb'. injection Eb' as <-.
  intros s. destruct (Hload s) as [?|(p & [Ep R'] & E)]; [by left|right]. exists p. split; [|done]. split; [done|].
  exists (refreshed_db sc lc db). split; [done|]. split; [by apply refreshed_fresh|by apply refreshed_content].
Qed.

(** A snapshot that succeeds holds the tables, and leaves an empty log. *)
Lemma take_snapshot_saves d files db clock next : data_dir_ d = dir -> wal_writer_ d = Some (mkWriter (wal_path dir) true next) -> 1 <= next < 2 ^ 63 ->
  ex_rep (executor_ d) db -> fresh_db t0 db -> snapshot_ok db clock ->
  exists d' files', take_snapshot d files clock = Ret (None, d', files') /\
    data_dir_ d' = dir /\ wal_writer_ d' = wal_writer_ d /\ executor_ d' = executor_ d /\
    files' !! wal_path dir = Some [] /\ snapshot_state files' db (next - 1).
Proof.
  intros Hd Hw Hnext [R Hcache] Hf Hok. unfold take_snapshot. rewrite (persistent_dir _ Hd). cbn [negb].
  unfold snapshot_lsn_now, current_lsn. rewrite Hw. cbn [next_lsn_].
  assert (Elsn : u64 (next - 1) = next - 1) by (apply u64_small; unfold is_u64; lia). rewrite Elsn.
  destruct (saved_state (tables_ (executor_ d)) db clock (next - 1) R Hf Hok) as (bytes & Eb & Hstate); [unfold is_u64; lia|].
  unfold save. rewrite Hd. fold (tmp_path dir). rewrite Htmp, Eb, Hrename. cbn [negb]. outcome_simpl. cbn [fst snd].
  unfold truncate. cbn [path_ next_lsn_]. rewrite Hopen. eexists _, _. split; [reflexivity|].
  cbn [data_dir_ wal_writer_ executor_]. do 3 (split; [done|]). split; [by rewrite lookup_insert_eq|].
  apply snapshot_state_wal. apply Hstate. by rewrite lookup_insert_eq.
Qed.

Lemma snapshot_running d files db base slsn logged n clock : running d files db base slsn logged n -> snapshot_ok db clock -> n + 2 < 2 ^ 63 ->
  exists d' files', take_snapshot d files clock = Ret (None, d', files') /\
    running d' files' db db (slsn + Z.of_nat (length logged)) [] (n + 1).
Proof.
  intros Hrun Hok Hn. pose proof Hrun as [].
  destruct (take_snapshot_saves d files db clock _ run_dir0 run_writer0 ltac:(lia) run_ex0 run_fresh0 Hok)
    as (d' & files' & E & Ed & Ew & Eex & Elog & Hs). exists d', files'. split; [exact E|].
  replace (slsn + 1 + Z.of_nat (length logged) - 1) with (slsn + Z.of_nat (length logged)) in Hs by lia.
  constructor; rewrite ?Eex; try done; [|cbn; lia]. rewrite Ew, run_writer0. do 2 f_equal. cbn. lia.
Qed.

(** ** Histories and crashes *)

Inductive db_event :=
  | Execute (clocks : Clocks) (sql : string)
  | Snapshot_now (clock : string -> nat -> Z).

Fixpoint run_events (d : Database) (files : Files) (events : list db_event) : outcome (Database * Files) :=
  match events with
  | [] => Ret (d, files)
  | Execute ck sql :: events => r ← Database_execute d files ck sql; run_events (snd (fst r)) (snd r) events
  | Snapshot_now clock :: events => r ← take_snapshot d files clock; run_events (snd (fst r)) (snd r) events
  end.

Fixpoint events_ok (db : gmap string atable) (events : list db_event) : Prop :=
  match events with
  | [] => True
  | Execute ck sql :: events =>
      sql_ok db ck sql /\ in_ttl t0 ck /\ str_size sql <= MAX_PAYLOAD /\ events_ok (abs_sql db ck sql) events
  | Snapshot_now clock :: events => snapshot_ok db clock /\ events_ok db events
  end.

(** The files a crash can leave: the files as they are; the log with part of a
    record; anything in the temporary file; a snapshot whose log was not yet
    truncated. *)
Inductive crashed (d : Database) (files : Files) : Files -> Prop :=
  | crash_now : crashed d files files
  | crash_append w sql k bytes : wal_writer_ d = Some w -> files !! wal_path dir = Some bytes -> str_size sql <= MAX_PAYLOAD ->
      (k < length (record_bytes (make_record (current_lsn w) sql)))%nat ->
      crashed d files (<[wal_path dir := bytes ++ take k (record_bytes (make_record (current_lsn w) sql))]> files)
  | crash_tmp bytes : crashed d files (<[tmp_path dir := bytes]> files)
  | crash_renamed clock bytes : (forall m i, clock m i <= t0 + DEFAULT_TTL_SECONDS) ->
      save_bytes clock (table_order (tables_ (executor_ d))) (snapshot_lsn_now d) = Ret bytes ->
      crashed d files (<[snapshot_path dir := bytes]> (delete (tmp_path dir) files)).

(** The abstract database after the events. *)
Definition abs_events (db : gmap string atable) (events : list db_event) : gmap string atable :=
  foldl (fun db e => match e with Execute ck sql => abs_sql db ck sql | Snapshot_now _ => db end) db events.

Lemma run_events_running events : forall d files db base slsn logged n, running d files db base slsn logged n -> events_ok db events ->
  n + 2 + Z.of_nat (length events) < 2 ^ 63 ->
  run_events d files events = Throw bad_alloc \/
  exists d' files' base' slsn' logged', run_events d files events = Ret (d', files') /\
    running d' files' (abs_events db events) base' slsn' logged' (n + Z.of_nat (length events)).
Proof.
  induction events as [|e events IH]; intros d files db base slsn logged n Hrun Hok Hn; cbn [run_events].
  { right. eexists _, _, _, _, _. split; [done|]. by rewrite Z.add_0_r. }
  cbn [length] in *. destruct e as [ck sql|clock]; cbn [events_ok] in Hok.
  - destruct Hok as (Hsql & Hck & Hsz & Hok).
    destruct (execute_running d files db base slsn logged n ck sql Hrun Hsql Hck Hsz) as [->|(res & d1 & f1 & l1 & -> & Hrun1)]; [lia|by left|].
    outcome_simpl. cbn [fst snd]. replace (n + Z.of_nat (S (length events))) with (n + 1 + Z.of_nat (length events)) by lia.
    eapply IH; [exact Hrun1|exact Hok|lia].
  - destruct Hok as (Hs & Hok). destruct (snapshot_running d files db base slsn logged n clock Hrun Hs) as (d1 & f1 & -> & Hrun1); [lia|].
    outcome_simpl. cbn [fst snd]. replace (n + Z.of_nat (S (length events))) with (n + 1 + Z.of_nat (length events)) by lia.
    eapply IH; [exact Hrun1|exact Hok|lia].
Qed.

Lemma log_entries_ok slsn logged n : 0 <= slsn -> slsn + Z.of_nat (length logged) <= n -> n < 2 ^ 63 ->
  Forall (fun sql => str_size sql <= MAX_PAYLOAD) logged -> Forall entry_ok (numbered_log (slsn + 1) logged).
Proof. intros. apply numbered_log_ok; [lia|lia|done]. Qed.

(** Whatever a crash leaves, the next startup restores the contents. *)
Lemma crashed_startup d files db base slsn logged n files' rk t1 : running d files db base slsn logged n -> n + 2 < 2 ^ 63 ->
  rep_saveable db -> Z.of_nat (size db) < 2 ^ 32 -> crashed d files files' ->
  load_clocks_ok t1 (rk_load rk) -> (forall l, in_ttl t1 (rk_replay rk l) /\ clocks_bounded (rk_replay rk l)) ->
  Database_new dir files' rk = Throw bad_alloc \/
  exists d' files'' db', Database_new dir files' rk = Ret (d', files'') /\ ex_rep (executor_ d') db' /\ fresh_db t1 db' /\ same_content db' db.
Proof.
  intros Hrun Hn Hsv Hsize Hcrash Hlc Hrc. pose proof Hrun as []. destruct run_count0 as [Hs0 Hlen].
  pose proof (log_entries_ok slsn logged n Hs0 Hlen ltac:(lia) run_sizes0) as Hent. pose proof (paths_distinct dir) as (P1 & P2 & P3).
  assert (Hlog : forall fs tail, fs !! wal_path dir = Some (log_bytes (numbered_log (slsn + 1) logged) ++ tail) -> read_record tail = None ->
    log_state fs (slsn + 1) logged) by (intros fs tail E Ht; unfold log_state; rewrite E; by exists tail).
  assert (Hgo : forall fs base' slsn' redo, snapshot_state fs base' slsn' -> log_state fs (slsn + 1) logged -> same_content (replayed base' redo) db ->
    (slsn + 1 = slsn' + 1 /\ redo = logged /\ log_ok base' logged \/ slsn + 1 + Z.of_nat (length logged) <= slsn' + 1 /\ redo = []) ->
    Database_new dir fs rk = Throw bad_alloc \/
    exists d' fs' db', Database_new dir fs rk = Ret (d', fs') /\ ex_rep (executor_ d') db' /\ fresh_db t1 db' /\ same_content db' db).
  { intros fs base' slsn' redo Hsnap Hl Hc Hredo.
    destruct (startup fs base' slsn' (slsn + 1) logged redo rk t1 Hsnap Hl Hent Hredo Hlc Hrc)
      as [?|(d' & db' & next & E & _ & _ & _ & R' & F' & C')]; [by left|right]. exists d', (open_append fs (wal_path dir)), db'.
    do 3 (split; [done|]). by rewrite C'. }
  destruct Hcrash as [|w sq k bytes Hw Hbytes Hsq Hk|bytes|clock bytes Hclock Hbytes].
  - apply (Hgo files base slsn logged); [done|apply (Hlog _ []); [by rewrite app_nil_r|done]|done|by left].
  - rewrite run_writer0 in Hw. injection Hw as <-. rewrite run_log0 in Hbytes. injection Hbytes as <-. cbn [current_lsn next_lsn_] in *.
    apply (Hgo _ base slsn logged); [by apply snapshot_state_wal| |done|by left].
    eapply Hlog; [by rewrite lookup_insert_eq|]. apply (read_record_torn (slsn + 1 + Z.of_nat (length logged), sq)); [|exact Hk].
    split; [cbn; unfold is_u64; lia|done].
  - apply (Hgo _ base slsn logged); [|apply (Hlog _ []); [by rewrite app_nil_r, lookup_insert_ne|done]|done|by left].
    unfold snapshot_state in *. by rewrite lookup_insert_ne.
  - destruct run_ex0 as [R _]. unfold snapshot_lsn_now, current_lsn in Hbytes. rewrite run_writer0 in Hbytes. cbn [next_lsn_] in Hbytes.
    assert (Elsn : u64 (slsn + 1 + Z.of_nat (length logged) - 1) = slsn + Z.of_nat (length logged)) by (rewrite u64_small; [lia|unfold is_u64; lia]).
    rewrite Elsn in Hbytes.
    destruct (saved_state (tables_ (executor_ d)) db clock (slsn + Z.of_nat (length logged)) R run_fresh0) as (bytes' & Eb & Hstate);
      [split; [exact Hsv|split; [exact Hsize|exact Hclock]]|unfold is_u64; lia|]. rewrite Eb in Hbytes. injection Hbytes as ->.
    apply (Hgo _ db (slsn + Z.of_nat (length logged)) []); [apply Hstate; by rewrite lookup_insert_eq| |done|right; split; [lia|done]].
    apply (Hlog _ []); [|done]. rewrite app_nil_r, lookup_insert_ne, lookup_delete_ne by done. done.
Qed.

(** The first start in an empty directory. *)
Lemma first_start files rk : files !! snapshot_path dir = None -> files !! wal_path dir = None ->
  exists d files', Database_new dir files rk = Ret (d, files') /\ running d files' ∅ ∅ 0 [] 0.
Proof.
  intros Hs Hw. unfold Database_new, persistent, recover, recover_snapshot. cbn [data_dir_ executor_].
  destruct (String.eqb_spec dir ""); [done|]. cbn [negb]. rewrite Hs. outcome_simpl. cbn [data_dir_]. rewrite Hw. outcome_simpl.
  assert (Hl : log_state files 1 []) by (unfold log_state; by rewrite Hw).
  destruct (open_log files 1 [] Hl) as (next & -> & Hnext); [constructor|]. outcome_simpl. cbn [fst snd data_dir_ executor_ snapshot_lsn_ recovered_wal_records_].
  rewrite (Hnext eq_refl). eexists _, _. split; [reflexivity|]. destruct Executor_new_rep as [R C]. pose proof (paths_distinct dir) as (P1 & P2 & P3).
  constructor; cbn [data_dir_ wal_writer_ executor_]; try done.
  - unfold open_append. by rewrite Hw, lookup_insert_eq.
  - unfold snapshot_state, open_append. by rewrite Hw, lookup_insert_ne, Hs.
  - split; [done|]. by exists [].
Qed.
End recovery.

(** The tables hold the same rows: equal schemas, and scans that agree, as long
    as no row expires in the first ([t0] on) or the second ([t1] on). *)
Definition same_tables (t0 t1 : Z) (tables tables' : gmap string Table) : Prop :=
  forall name, match tables !! name, tables' !! name with
  | None, None => True
  | Some t, Some t' => schema_ t = schema_ t' /\
      forall c c', (forall i, c i <= t0 + DEFAULT_TTL_SECONDS) -> (forall i, c' i <= t1 + DEFAULT_TTL_SECONDS) ->
      exists rows, Table.scan_all t c = Ret rows /\ Table.scan_all t' c' = Ret rows
  | _, _ => False
  end.

Lemma content_tables t0 t1 tables tables' db db' : db_rep tables db -> db_rep tables' db' -> fresh_db t0 db -> fresh_db t1 db' ->
  same_content db' db -> same_tables t0 t1 tables tables'.
Proof.
  intros R R' F F' C name. pose proof (same_content_lookup _ _ name C) as Hc.
  destruct (db_rep_lookup _ _ name R) as [[Et Ea]|(t & a & Et & Ea & Hok)], (db_rep_lookup _ _ name R') as [[Et' Ea']|(t' & a' & Et' & Ea' & Hok')];
    rewrite Et, Et'; rewrite Ea, Ea' in Hc; try (by inversion Hc).
  inversion Hc as [x y Hxy|]; subst. unfold content in Hxy. injection Hxy as Es Er.
  split; [rewrite (tk_schema _ _ _ Hok), (tk_schema _ _ _ Hok'); done|]. intros c c' Hck Hck'. eexists.
  split; [by apply (scan_visible name t a Hok)|]. rewrite (scan_visible name t' a' Hok').
  by rewrite (visible_fresh t0 c _ (F _ _ Ea) Hck), (visible_fresh t1 c' _ (F' _ _ Ea') Hck'), Er.
Qed.

Class TableOrderLaws `{TableOrder} : Prop := table_order_perm : forall m, Permutation (table_order m) (map_to_list m).

(** C1: Recovery of the first process on a directory: start a database where
    there is no snapshot and no log, execute statements — of at most 10 MB, with
    or without a parse error but none on which the parser throws, and within the
    conditions of [stmt_ok] — and take any snapshots, and crash: while idle, at
    any byte of a log record, with a snapshot partly written, or with a snapshot
    in place and the log not yet truncated. Unless memory runs out, the next
    start finds all tables with all the rows the crashed process held: every
    statement that returned is there, once. (All happens within one time to
    live.) It does not hold of a second process, nor with a text on which the
    parser throws: [restart_loses_insert], [torn_tail_hides_appends] and
    [poisoned_log] show what happens then. *)
Theorem crash_recovery `{malloc : Malloc, StdHashLaws, CanOpen, CanRename, TableOrderLaws} dir files rk0 t0 events :
  dir <> "" -> can_open (wal_path dir) = true -> can_open (tmp_path dir) = true -> can_rename (tmp_path dir) (snapshot_path dir) = true ->
  files !! snapshot_path dir = None -> files !! wal_path dir = None ->
  events_ok t0 ∅ events -> Z.of_nat (length events) < 2 ^ 62 ->
  rep_saveable (abs_events ∅ events) -> Z.of_nat (size (abs_events ∅ events)) < 2 ^ 32 ->
  (p ← Database_new dir files rk0; run_events (fst p) (snd p) events) = Throw bad_alloc \/
  exists d fs, (p ← Database_new dir files rk0; run_events (fst p) (snd p) events) = Ret (d, fs) /\
    forall fs' rk t1, crashed dir t0 d fs fs' -> load_clocks_ok t1 (rk_load rk) ->
    (forall l, in_ttl t1 (rk_replay rk l) /\ clocks_bounded (rk_replay rk l)) ->
    Database_new dir fs' rk = Throw bad_alloc \/
    exists d' fs'', Database_new dir fs' rk = Ret (d', fs'') /\ same_tables t0 t1 (tables_ (executor_ d)) (tables_ (executor_ d')).
Proof.
  intros Hdir Hopen Htmp Hren Hs Hw Hok Hn Hsv Hsize.
  destruct (first_start dir Hdir Hopen t0 files rk0 Hs Hw) as (d0 & f0 & -> & Hrun0). outcome_simpl. cbn [fst snd].
  destruct (run_events_running dir Hdir Hopen t0 Htmp Hren table_order_perm events d0 f0 ∅ ∅ 0 [] 0 Hrun0 Hok) as [?|(d & fs & base & slsn & logged & E & Hrun)]; [lia|by left|right].
  exists d, fs. split; [done|]. intros fs' rk t1 Hcrash Hlc Hrc.
  destruct (crashed_startup dir Hdir Hopen t0 table_order_perm d fs _ base slsn logged _ fs' rk t1 Hrun ltac:(lia) Hsv Hsize Hcrash Hlc Hrc)
    as [?|(d' & fs'' & db' & E' & [R' _] & F' & C')]; [by left|right]. exists d', fs''. split; [done|].
  pose proof Hrun as []. destruct run_ex0 as [R _]. by eapply content_tables.
Qed.

(** *** A concrete history *)

#[export] Instance tables_by_key : TableOrder := fun m => map_to_list m.
#[export] Instance tables_by_key_laws : TableOrderLaws.
Proof. by intros m. Qed.

(** Statements that parse are checked as a session. *)
Lemma executes_ok t0 ck sqls rest : in_ttl t0 ck ->
  Forall (fun sql => parse_sql sql = Ret (inr (stmt_of sql)) /\ str_size sql <= MAX_PAYLOAD) sqls ->
  forall db, session_ok db (map (fun sql => mkStep ck (stmt_of sql) "") sqls) ->
  events_ok t0 (abs_final db (map (fun sql => mkStep ck (stmt_of sql) "") sqls)) rest ->
  events_ok t0 db (map (Execute ck) sqls ++ rest).
Proof.
  intros Hck. induction 1 as [|sql sqls [Hp Hs] _ IH]; intros db Hok Hrest; [done|]. cbn [map session_ok sp_clocks sp_stmt] in Hok.
  destruct Hok as [Hok1 Hok]. cbn [map app events_ok]. unfold sql_ok, abs_sql. rewrite Hp. split; [done|]. split; [done|]. split; [done|].
  apply IH; [done|]. exact Hrest.
Qed.

Definition crash_events : list db_event :=
  map (Execute (at_time 100)) sample_setup ++ [Snapshot_now (fun _ _ => 150); Execute (at_time 160) "SELECT lid FROM logs"].

Lemma crash_events_ok : events_ok 100 ∅ crash_events.
Proof.
  apply executes_ok.
  - intros i. unfold DEFAULT_TTL_SECONDS. cbn. lia.
  - repeat (apply Forall_cons_2; [split; [vm_compute; reflexivity|vm_compute; discriminate]|]). apply Forall_nil_2.
  - change (map _ sample_setup) with (uncached 100 <$> sample_setup). solve_session_ok (uncached 100 <$> sample_setup).
  - assert (E : abs_final ∅ (map (fun sql => mkStep (at_time 100) (stmt_of sql) "") sample_setup) = setup_db) by (vm_compute; reflexivity).
    rewrite E. cbn [events_ok]. split; [|split; [|split; [|split; [vm_compute; discriminate|exact I]]]].
    + split; [exact setup_saveable|]. split; [vm_compute; reflexivity|]. intros _ _. unfold DEFAULT_TTL_SECONDS. lia.
    + unfold sql_ok. let l := eval vm_compute in (parse_sql "SELECT lid FROM logs") in assert (Ep : parse_sql "SELECT lid FROM logs" = l) by (vm_compute; reflexivity); rewrite Ep.
      cbn [stmt_ok]. solve_stmt_ok.
    + intros i. unfold DEFAULT_TTL_SECONDS. cbn. lia.
Qed.

Definition at_recovery (now : Z) : RecoveryClocks := mkRecovery (fun _ _ => now) (fun _ => at_time now).

Lemma abs_crash_events : abs_events ∅ crash_events = setup_db.
Proof. vm_compute. reflexivity. Qed.

Definition crash_outcome : outcome (Database * Files) :=
  p ← Database_new "data" ∅ (at_recovery 100); run_events (fst p) (snd p) crash_events.
Definition one_more : string := "INSERT INTO logs VALUES (20, 2)".

(** After the snapshot the log is empty and the next LSN is 5. *)
Lemma crash_outcome_log : (fun p => (wal_writer_ (fst p), snd p !! "data/wal.log")) <$> crash_outcome = Ret (Some (mkWriter "data/wal.log" true 5), Some []).
Proof. vm_compute. reflexivity. Qed.

(** The process dies after thirty bytes of the record of one more INSERT. *)
Lemma crash_recovery_witness : exists d fs fs', crash_outcome = Ret (d, fs) /\
  fs' = <["data/wal.log" := take 30 (record_bytes (make_record 5 one_more))]> fs /\
  (Database_new "data" fs' (at_recovery 500) = Throw bad_alloc \/
   exists d' fs'', Database_new "data" fs' (at_recovery 500) = Ret (d', fs'') /\ same_tables 100 500 (tables_ (executor_ d)) (tables_ (executor_ d'))).
Proof.
  pose proof crash_outcome_log as L.
  destruct (crash_recovery "data" ∅ (at_recovery 100) 100 crash_events) as [E|(d & fs & E & H)].
  - discriminate.
  - reflexivity.
  - reflexivity.
  - reflexivity.
  - reflexivity.
  - reflexivity.
  - exact crash_events_ok.
  - reflexivity.
  - rewrite abs_crash_events. exact setup_saveable.
  - rewrite abs_crash_events. vm_compute. reflexivity.
  - exfalso. fold crash_outcome in E. rewrite E in L. discriminate L.
  - fold crash_outcome in E. rewrite E in L. cbn [fmap outcome_fmap fst snd] in L. injection L as Lw Lf.
    eexists d, fs, _. split; [exact E|]. split; [reflexivity|]. apply H.
    + apply (crash_append "data" 100 d fs (mkWriter "data/wal.log" true 5) one_more 30 []);
        [exact Lw|exact Lf|vm_compute; discriminate|apply Nat.ltb_lt; vm_compute; reflexivity].
    + intros m i. unfold DEFAULT_TTL_SECONDS, is_s64. cbn. lia.
    + intros l. split; intros i; unfold DEFAULT_TTL_SECONDS, is_s64; cbn; lia.
Defined.

(** ** What a second start loses

    After a clean shutdown the log is empty, so the next process numbers its
    records from 1 again, and the recovery after it takes them for statements
    the snapshot covers: the second INSERT is acknowledged and logged, and gone
    after a crash. *)

Definition run_process (dir : string) (now : Z) (sqls : list string) (files : Files) : outcome (Database * Files) :=
  p ← Database_new dir files (at_recovery now); run_events (fst p) (snd p) (map (Execute (at_time now)) sqls).

Example restart_loses_insert :
  (p ← run_process "data" 100 ["CREATE TABLE t (a INT)"; "INSERT INTO t VALUES (1)"] ∅;
   files ← Database_delete (fst p) (snd p) (fun _ _ => 110);
   q ← run_process "data" 120 ["INSERT INTO t VALUES (2)"] files;
   r ← run_process "data" 130 [] (snd q);
   x ← Database_execute (fst q) (snd q) (at_time 125) "SELECT a FROM t";
   y ← Database_execute (fst r) (snd r) (at_time 135) "SELECT a FROM t";
   Ret (rows (fst (fst x)), rows (fst (fst y)))) = Ret ([[VInt 1]; [VInt 2]], [[VInt 1]]).
Proof. vm_compute. reflexivity. Qed.

(** A statement whose parse throws is logged first, and so stops every later start. *)
Example poisoned_log :
  (p ← Database_new "data" ∅ (at_recovery 100);
   let (d, files) := log_sql (fst p) (snd p) "CREATE TABLE t (a VARCHAR(99999999999))" in
   Database_new "data" files (at_recovery 200)) = Throw out_of_range.
Proof. vm_compute. reflexivity. Qed.
