(* ===== verification/ThreadPool.v ===== *)
(** * The thread pool ([server/concurrency/thread_pool.h], [thread_pool.cpp])

    Workers, submitters and the thread that shuts the pool down interleave;
    a step is one access to the shared state. The mutex is held by a submitter
    between its test of [stop_] and its push, and by a worker between a test of
    its predicate that failed and the wait that releases it; the other critical
    sections are one step. Tasks are numbers; the exception of a task stays in
    its future. *)

From Stdlib Require Import ZArith Lia.
From stdpp Require Import base gmap numbers list sorting.
From S2P Require Import Prelude.
Open Scope nat_scope.

(** ** State *)

(** Where a worker of the constructor's lambda stands: about to take the mutex
    and test the predicate; inside [cv_.wait], the predicate false and the mutex
    held; asleep; running a task; returned. *)
Inductive worker :=
  | Checking
  | Deciding
  | Waiting
  | Running (task : nat)
  | Exited.

(** Where [shutdown] stands: [shutdown_called_] set, [stop_] set, notified and
    joining the [i]-th worker, returned. *)
Inductive shutdown_pc :=
  | Not_called
  | Called
  | Stopped
  | Joining (i : nat)
  | Returned.

#[export] Instance worker_eq_dec : EqDecision worker.
Proof. solve_decision. Defined.
#[export] Instance shutdown_pc_eq_dec : EqDecision shutdown_pc.
Proof. solve_decision. Defined.

(** The last three fields are the history: the tasks pushed, taken off the
    queue and completed, in order. [notifies] counts the submitters between
    their push and their [notify_one]. *)
Record ThreadPool := mkPool {
  workers_ : list worker;
  tasks_ : list nat;
  submitter : option nat;
  notifies : nat;
  stop_ : bool;
  shutdown_ : shutdown_pc;
  submitted : list nat;
  started : list nat;
  finished : list nat;
}.

Definition ThreadPool_new (num_threads : nat) : ThreadPool :=
  mkPool (replicate num_threads Checking) [] None 0 false Not_called [] [] [].

Definition is_deciding (w : worker) : bool := match w with Deciding => true | _ => false end.
Definition is_waiting (w : worker) : bool := match w with Waiting => true | _ => false end.
Definition queue_mutex_free (s : ThreadPool) : bool :=
  match submitter s with Some _ => false | None => forallb (fun w => negb (is_deciding w)) (workers_ s) end.

Definition set_worker (i : nat) (w : worker) (s : ThreadPool) : ThreadPool :=
  mkPool (<[i := w]> (workers_ s)) (tasks_ s) (submitter s) (notifies s) (stop_ s) (shutdown_ s) (submitted s) (started s) (finished s).
Definition set_shutdown (pc : shutdown_pc) (s : ThreadPool) : ThreadPool :=
  mkPool (workers_ s) (tasks_ s) (submitter s) (notifies s) (stop_ s) pc (submitted s) (started s) (finished s).

Definition wake (w : worker) : worker := match w with Waiting => Checking | _ => w end.

(** ** Steps *)

(** [submit]: the test under the mutex, the push, [notify_one] (which wakes the
    worker it names, or none when none sleeps). A worker: the test of its
    predicate, the wait, the end of a task, a spurious wake-up. [shutdown]: the
    exchange, the store to [stop_], [notify_all], the joins. *)
Inductive action :=
  | Submit_lock (task : nat)
  | Submit_push
  | Notify_one (i : option nat)
  | Check (i : nat)
  | Block (i : nat)
  | Finish (i : nat)
  | Spurious (i : nat)
  | Shutdown_call
  | Set_stop
  | Notify_all
  | Join.

Definition submit_lock (task : nat) (s : ThreadPool) : option ThreadPool :=
  if queue_mutex_free s && negb (stop_ s) then
    Some (mkPool (workers_ s) (tasks_ s) (Some task) (notifies s) (stop_ s) (shutdown_ s) (submitted s) (started s) (finished s))
  else None.

Definition submit_push (s : ThreadPool) : option ThreadPool :=
  match submitter s with
  | Some task => Some (mkPool (workers_ s) (tasks_ s ++ [task]) None (S (notifies s)) (stop_ s) (shutdown_ s) (submitted s ++ [task]) (started s) (finished s))
  | None => None
  end.

Definition notify_one (i : option nat) (s : ThreadPool) : option ThreadPool :=
  match notifies s with
  | O => None
  | S n =>
      let s' := mkPool (workers_ s) (tasks_ s) (submitter s) n (stop_ s) (shutdown_ s) (submitted s) (started s) (finished s) in
      match i with
      | Some i => if decide (workers_ s !! i = Some Waiting) then Some (set_worker i Checking s') else None
      | None => if existsb is_waiting (workers_ s) then None else Some s'
      end
  end.

Definition check (i : nat) (s : ThreadPool) : option ThreadPool :=
  if decide (workers_ s !! i = Some Checking) then
    if queue_mutex_free s then
      match tasks_ s with
      | task :: tasks =>
          Some (mkPool (<[i := Running task]> (workers_ s)) tasks (submitter s) (notifies s) (stop_ s) (shutdown_ s) (submitted s) (started s ++ [task]) (finished s))
      | [] => Some (set_worker i (if stop_ s then Exited else Deciding) s)
      end
    else None
  else None.

Definition finish (i : nat) (s : ThreadPool) : option ThreadPool :=
  match workers_ s !! i with
  | Some (Running task) =>
      Some (mkPool (<[i := Checking]> (workers_ s)) (tasks_ s) (submitter s) (notifies s) (stop_ s) (shutdown_ s) (submitted s) (started s) (finished s ++ [task]))
  | _ => None
  end.

Definition set_stop (s : ThreadPool) : option ThreadPool :=
  match shutdown_ s with
  | Called => Some (mkPool (workers_ s) (tasks_ s) (submitter s) (notifies s) true Stopped (submitted s) (started s) (finished s))
  | _ => None
  end.

Definition notify_all (s : ThreadPool) : option ThreadPool :=
  match shutdown_ s with
  | Stopped => Some (mkPool (map wake (workers_ s)) (tasks_ s) (submitter s) (notifies s) (stop_ s) (Joining 0) (submitted s) (started s) (finished s))
  | _ => None
  end.

Definition join (s : ThreadPool) : option ThreadPool :=
  match shutdown_ s with
  | Joining i =>
      match workers_ s !! i with
      | None => Some (set_shutdown Returned s)
      | Some Exited => Some (set_shutdown (Joining (S i)) s)
      | _ => None
      end
  | _ => None
  end.

(** A worker changes from one state to another. *)
Definition move (i : nat) (from to : worker) (s : ThreadPool) : option ThreadPool :=
  if decide (workers_ s !! i = Some from) then Some (set_worker i to s) else None.

Definition perform (a : action) (s : ThreadPool) : option ThreadPool :=
  match a with
  | Submit_lock task => submit_lock task s
  | Submit_push => submit_push s
  | Notify_one i => notify_one i s
  | Check i => check i s
  | Block i => move i Deciding Waiting s
  | Finish i => finish i s
  | Spurious i => move i Waiting Checking s
  | Shutdown_call => match shutdown_ s with Not_called => Some (set_shutdown Called s) | _ => None end
  | Set_stop => set_stop s
  | Notify_all => notify_all s
  | Join => join s
  end.

Definition step (s s' : ThreadPool) : Prop := exists a, perform a s = Some s'.

Inductive reachable (n : nat) : ThreadPool -> Prop :=
  | reachable_new : reachable n (ThreadPool_new n)
  | reachable_step s s' : reachable n s -> step s s' -> reachable n s'.

Fixpoint run (acts : list action) (s : ThreadPool) : option ThreadPool :=
  match acts with
  | [] => Some s
  | a :: acts => match perform a s with Some s => run acts s | None => None end
  end.

Lemma run_reachable n acts : forall s s', reachable n s -> run acts s = Some s' -> reachable n s'.
Proof.
  induction acts as [|a acts IH]; intros s s' Hr; cbn [run]; [by intros [= <-]|].
  destruct (perform a s) as [s1|] eqn:E; [|done]. intros Hrun. eapply IH; [|exact Hrun].
  eapply reachable_step; [exact Hr|by exists a].
Qed.

(** ** Invariant *)

Definition idle (w : worker) : Prop := match w with Running _ => False | _ => True end.
Fixpoint running (ws : list worker) : list nat :=
  match ws with
  | [] => []
  | Running t :: ws => t :: running ws
  | _ :: ws => running ws
  end.

(** [shutdown] has stored to [stop_]. *)
Definition past_stop (pc : shutdown_pc) : bool := match pc with Not_called | Called => false | _ => true end.

(** The workers that [shutdown] has joined. *)
Definition joined (s : ThreadPool) (i : nat) : Prop :=
  match shutdown_ s with Joining j => i < j | Returned => i < length (workers_ s) | _ => False end.

Record pool_inv (n : nat) (s : ThreadPool) : Prop := {
  inv_workers : length (workers_ s) = n;
  inv_order : submitted s = started s ++ tasks_ s;
  inv_once : Permutation (started s) (finished s ++ running (workers_ s));
  inv_stop : stop_ s = past_stop (shutdown_ s);
  inv_exited : forall i, workers_ s !! i = Some Exited -> stop_ s = true /\ tasks_ s = [] /\ submitter s = None;
  inv_mutex : forall i, workers_ s !! i = Some Deciding -> submitter s = None /\ forall j, workers_ s !! j = Some Deciding -> i = j;
  inv_joined : forall i, joined s i -> workers_ s !! i = Some Exited;
  inv_joining : forall i, shutdown_ s = Joining i -> i <= n;
}.

Lemma mutex_free_spec s : queue_mutex_free s = true -> submitter s = None /\ forall i, workers_ s !! i <> Some Deciding.
Proof.
  unfold queue_mutex_free. destruct (submitter s); [done|]. intros H. split; [done|]. intros i Hi.
  rewrite forallb_forall in H. specialize (H Deciding). cbn in H. by discriminate H; apply list_elem_of_In, (list_elem_of_lookup_2 _ i).
Qed.

Lemma mutex_free_intro s : submitter s = None -> (forall i, workers_ s !! i <> Some Deciding) -> queue_mutex_free s = true.
Proof.
  intros Em Hd. unfold queue_mutex_free. rewrite Em. apply forallb_forall. intros w Hin. apply list_elem_of_In, list_elem_of_lookup_1 in Hin as [j Hj].
  destruct w; try done. by apply Hd in Hj.
Qed.

Lemma running_insert ws : forall i w w', ws !! i = Some w -> idle w -> idle w' -> running (<[i := w']> ws) = running ws.
Proof.
  induction ws as [|x ws IH]; intros [|i] w w' Hi Hw Hw'; [done|done| |].
  - injection Hi as ->. by destruct w, w'.
  - change (<[S i := w']> (x :: ws)) with (x :: <[i := w']> ws). cbn [running]. by rewrite (IH i w w' Hi Hw Hw').
Qed.

Lemma running_start ws : forall i t w, ws !! i = Some w -> idle w -> Permutation (running (<[i := Running t]> ws)) (t :: running ws).
Proof.
  induction ws as [|x ws IH]; intros [|i] t w Hi Hw; [done|done| |].
  - injection Hi as ->. by destruct w.
  - change (<[S i := Running t]> (x :: ws)) with (x :: <[i := Running t]> ws). cbn [running].
    destruct x; rewrite (IH i t w Hi Hw); (reflexivity || apply perm_swap).
Qed.

Lemma running_finish ws i t : ws !! i = Some (Running t) -> Permutation (running ws) (t :: running (<[i := Checking]> ws)).
Proof.
  intros Hi. rewrite <- (list_insert_id ws i (Running t)) at 1 by done.
  rewrite <- (list_insert_insert_eq ws i (Running t) Checking). apply (running_start _ _ _ Checking); [|done].
  apply list_lookup_insert_eq. by eapply lookup_lt_Some.
Qed.

Lemma running_wake ws : running (map wake ws) = running ws.
Proof. induction ws as [|[| | | |] ws IH]; cbn; [done|exact IH..| |exact IH]. by rewrite IH. Qed.

Lemma set_worker_lookup s i w j : workers_ (set_worker i w s) !! j = if decide (i = j) then (if decide (i < length (workers_ s)) then Some w else None) else workers_ s !! j.
Proof.
  cbn. destruct (decide (i = j)) as [<-|].
  - destruct (decide (i < length (workers_ s))); [by apply list_lookup_insert_eq|]. rewrite list_insert_ge by lia. apply lookup_ge_None. lia.
  - by apply list_lookup_insert_ne.
Qed.

(** A worker that moves between idle states, without exiting, keeps the
    invariant, if it takes the mutex only when it is free. *)
Lemma inv_move n s i w w' : pool_inv n s -> workers_ s !! i = Some w -> idle w -> idle w' -> w <> Exited ->
  (w' = Exited -> stop_ s = true /\ tasks_ s = [] /\ submitter s = None) ->
  (w' = Deciding -> submitter s = None /\ forall j, workers_ s !! j <> Some Deciding) -> pool_inv n (set_worker i w' s).
Proof.
  intros [] Hi Hw Hw' Hne Hex Hde. pose proof (lookup_lt_Some _ _ _ Hi) as Hlt.
  constructor; cbn [set_worker workers_ tasks_ submitter stop_ shutdown_ submitted started finished].
  - by rewrite length_insert.
  - done.
  - by rewrite (running_insert _ _ w).
  - done.
  - intros j Hj. destruct (decide (i = j)) as [<-|]; [rewrite list_lookup_insert_eq in Hj by done; apply Hex; congruence|].
    rewrite list_lookup_insert_ne in Hj by done. eauto.
  - intros j Hj. destruct (decide (i = j)) as [<-|].
    + rewrite list_lookup_insert_eq in Hj by done. injection Hj as ->. destruct (Hde eq_refl) as [Hs Hd]. split; [done|].
      intros k Hk. destruct (decide (i = k)); [done|]. rewrite list_lookup_insert_ne in Hk by done. by destruct (Hd k).
    + rewrite list_lookup_insert_ne in Hj by done. destruct (inv_mutex0 j Hj) as [Hs Hd]. split; [done|].
      intros k Hk. destruct (decide (i = k)) as [<-|]; [|rewrite list_lookup_insert_ne in Hk by done; eauto].
      rewrite list_lookup_insert_eq in Hk by done. injection Hk as ->. destruct (Hde eq_refl) as [_ Hd']. by destruct (Hd' j).
  - unfold joined. cbn. rewrite length_insert. intros j Hj. pose proof (inv_joined0 j Hj) as Hx.
    destruct (decide (i = j)) as [<-|]; [congruence|]. by rewrite list_lookup_insert_ne.
  - done.
Qed.

Lemma inv_new n : pool_inv n (ThreadPool_new n).
Proof.
  assert (Hc : forall i w, replicate n Checking !! i = Some w -> w = Checking) by (intros i w H; by apply lookup_replicate in H as [-> _]).
  constructor; cbn [ThreadPool_new workers_ tasks_ submitter stop_ shutdown_ submitted started finished]; try done.
  - by rewrite length_replicate.
  - induction n; [done|]. apply IHn. intros i w H. by apply (Hc (S i)).
  - intros i Hi. by apply Hc in Hi.
  - intros i Hi. by apply Hc in Hi.
Qed.

Lemma submit_lock_inv n s task s' : pool_inv n s -> submit_lock task s = Some s' -> pool_inv n s'.
Proof.
  unfold submit_lock. destruct (queue_mutex_free s) eqn:Em; [|done]. destruct (stop_ s) eqn:Es; [done|]. intros [] [= <-].
  apply mutex_free_spec in Em as [Hs Hd]. constructor; cbn; try done.
  - congruence.
  - intros i Hi. destruct (inv_exited0 i Hi). congruence.
  - intros i Hi. by destruct (Hd i).
Qed.

Lemma submit_push_inv n s s' : pool_inv n s -> submit_push s = Some s' -> pool_inv n s'.
Proof.
  unfold submit_push. destruct (submitter s) as [task|] eqn:Em; [|done]. intros [] [= <-]. constructor; cbn; try done.
  - by rewrite inv_order0, (assoc_L app).
  - intros i Hi. destruct (inv_exited0 i Hi) as (_ & _ & ?). congruence.
  - intros i Hi. destruct (inv_mutex0 i Hi). congruence.
Qed.

Lemma notify_one_inv n s i s' : pool_inv n s -> notify_one i s = Some s' -> pool_inv n s'.
Proof.
  unfold notify_one. destruct (notifies s) as [|k]; [done|]. intros Hinv. cbv zeta. set (s1 := mkPool _ _ _ k _ _ _ _ _).
  assert (I1 : pool_inv n s1) by (destruct Hinv; by constructor). destruct i as [i|].
  - case_decide as Hi; [|done]. intros [= <-]. by apply (inv_move n s1 i Waiting).
  - destruct (existsb _ _); [done|]. by intros [= <-].
Qed.

Lemma check_inv n s i s' : pool_inv n s -> check i s = Some s' -> pool_inv n s'.
Proof.
  unfold check. intros Hinv. case_decide as Hi; [|done]. destruct (queue_mutex_free s) eqn:Em; [|done].
  apply mutex_free_spec in Em as [Hs Hd]. destruct (tasks_ s) as [|task tasks] eqn:Et.
  - intros [= <-]. apply (inv_move n s i Checking); [done|done|done|by destruct (stop_ s)|done|by destruct (stop_ s)|].
    by destruct (stop_ s).
  - intros [= <-]. destruct Hinv. pose proof (lookup_lt_Some _ _ _ Hi) as Hlt. constructor; cbn; try done.
    + by rewrite length_insert.
    + by rewrite inv_order0, Et, <- (assoc_L app).
    + rewrite (running_start _ _ _ Checking), inv_once0 by done. rewrite <- (assoc_L app). f_equiv. by rewrite Permutation_app_comm.
    + intros j Hj. destruct (decide (i = j)) as [<-|]; [by rewrite list_lookup_insert_eq in Hj|].
      rewrite list_lookup_insert_ne in Hj by done. destruct (inv_exited0 j Hj) as (_ & ? & _). congruence.
    + intros j Hj. destruct (decide (i = j)) as [<-|]; [by rewrite list_lookup_insert_eq in Hj|].
      rewrite list_lookup_insert_ne in Hj by done. by destruct (Hd j).
    + unfold joined. cbn. rewrite length_insert. intros j Hj. pose proof (inv_joined0 j Hj). rewrite list_lookup_insert_ne; congruence.
Qed.

Lemma finish_inv n s i s' : pool_inv n s -> finish i s = Some s' -> pool_inv n s'.
Proof.
  unfold finish. destruct (workers_ s !! i) as [[| | |task|]|] eqn:Hi; try done. intros [] [= <-].
  pose proof (lookup_lt_Some _ _ _ Hi) as Hlt. constructor; cbn; try done.
  - by rewrite length_insert.
  - rewrite inv_once0, (running_finish _ _ _ Hi), <- (assoc_L app). done.
  - intros j Hj. destruct (decide (i = j)) as [<-|]; [by rewrite list_lookup_insert_eq in Hj|].
    rewrite list_lookup_insert_ne in Hj by done. eauto.
  - intros j Hj. destruct (decide (i = j)) as [<-|]; [by rewrite list_lookup_insert_eq in Hj|].
    rewrite list_lookup_insert_ne in Hj by done. destruct (inv_mutex0 j Hj) as [? Hu]. split; [done|].
    intros k Hk. destruct (decide (i = k)) as [<-|]; [by rewrite list_lookup_insert_eq in Hk|].
    rewrite list_lookup_insert_ne in Hk by done. eauto.
  - unfold joined. cbn. rewrite length_insert. intros j Hj. pose proof (inv_joined0 j Hj). rewrite list_lookup_insert_ne; congruence.
Qed.

Lemma notify_all_inv n s s' : pool_inv n s -> notify_all s = Some s' -> pool_inv n s'.
Proof.
  unfold notify_all. destruct (shutdown_ s) eqn:Es; try done. intros [] [= <-].
  assert (Hw : forall i w, map wake (workers_ s) !! i = Some w -> w <> Checking -> workers_ s !! i = Some w).
  { intros i w H Hne. apply list_lookup_fmap_Some in H as (x & -> & Hx). by destruct x. }
  constructor; cbn; try done.
  - by rewrite length_map.
  - by rewrite running_wake.
  - by rewrite inv_stop0, Es.
  - intros i Hi. apply Hw in Hi; [|done]. eauto.
  - intros i Hi. apply Hw in Hi; [|done]. destruct (inv_mutex0 i Hi) as [? Hu]. split; [done|].
    intros j Hj. apply Hw in Hj; [|done]. eauto.
  - intros i. unfold joined. cbn. lia.
  - intros i [= <-]. lia.
Qed.

Lemma join_inv n s s' : pool_inv n s -> join s = Some s' -> pool_inv n s'.
Proof.
  unfold join. destruct (shutdown_ s) as [| | |i|] eqn:Es; try done. intros [] Hj. unfold joined in *. rewrite Es in *.
  destruct (workers_ s !! i) as [[| | | |]|] eqn:Hi; try done; injection Hj as <-.
  - constructor; cbn; try done. 
    + intros j. unfold joined. cbn. intros Hj. destruct (decide (i = j)) as [->|]; [done|]. apply inv_joined0. lia.
    + intros j [= <-]. apply lookup_lt_Some in Hi. lia.
  - constructor; cbn; try done. intros j. unfold joined. cbn. intros Hj. apply lookup_ge_None in Hi. apply inv_joined0. lia.
Qed.

Lemma step_inv n s s' : pool_inv n s -> step s s' -> pool_inv n s'.
Proof.
  intros Hinv [a Ha]. destruct a as [task| |i|i|i|i|i| | | |]; cbn [perform] in Ha.
  - by eapply submit_lock_inv.
  - by eapply submit_push_inv.
  - by eapply notify_one_inv.
  - by eapply check_inv.
  - unfold move in Ha. case_decide; [|done]. injection Ha as <-. by apply (inv_move n s i Deciding).
  - by eapply finish_inv.
  - unfold move in Ha. case_decide; [|done]. injection Ha as <-. by apply (inv_move n s i Waiting).
  - destruct (shutdown_ s) eqn:Es; try done. injection Ha as <-. destruct Hinv. constructor; cbn; try done. by rewrite inv_stop0, Es.
  - unfold set_stop in Ha. destruct (shutdown_ s) eqn:Es; try done. injection Ha as <-. destruct Hinv. constructor; cbn; try done.
    intros i Hi. destruct (inv_exited0 i Hi) as (? & ? & ?). done.
  - by eapply notify_all_inv.
  - by eapply join_inv.
Qed.

Lemma reachable_inv n s : reachable n s -> pool_inv n s.
Proof. induction 1 as [|s s' _ IH Hs]; [apply inv_new|by eapply step_inv]. Qed.

(** ** Theorems *)

(** C34: In every reachable state the pool has taken the submitted tasks off the
    queue in the order of submission, without losing or repeating any: those
    taken are exactly those finished and those running, one per worker. *)
Theorem tasks_in_order_once n s : reachable n s ->
  submitted s = started s ++ tasks_ s /\ Permutation (started s) (finished s ++ running (workers_ s)) /\ length (workers_ s) = n.
Proof. intros Hr. by destruct (reachable_inv n s Hr). Qed.

Lemma all_exited_running ws : (forall i, i < length ws -> ws !! i = Some Exited) -> running ws = [].
Proof.
  induction ws as [|w ws IH]; intros H; [done|]. pose proof (H 0 ltac:(cbn; lia)) as H0. injection H0 as ->.
  apply IH. intros i Hi. apply (H (S i)). cbn. lia.
Qed.

Lemma returned_finished n s : pool_inv n s -> 0 < n -> shutdown_ s = Returned ->
  tasks_ s = [] /\ submitter s = None /\ Permutation (finished s) (submitted s).
Proof.
  intros [] Hn Hs. unfold joined in *. rewrite Hs in *.
  assert (Hex : forall i, i < length (workers_ s) -> workers_ s !! i = Some Exited) by (intros; by apply inv_joined0).
  destruct (inv_exited0 0 (Hex 0 ltac:(lia))) as (_ & Ht & Hm). do 2 (split; [done|]).
  by rewrite inv_order0, Ht, app_nil_r, inv_once0, (all_exited_running _ Hex), app_nil_r.
Qed.

(** C15: Shutdown drains the queue: when [shutdown] has returned, every task
    ever submitted has been run to its end, exactly once; tasks that were
    queued when it was called included. *)
Theorem shutdown_drains n s : reachable n s -> 0 < n -> shutdown_ s = Returned -> tasks_ s = [] /\ Permutation (finished s) (submitted s).
Proof. intros Hr Hn Hs. by destruct (returned_finished n s (reachable_inv n s Hr) Hn Hs) as (? & _ & ?). Qed.

(** ** Does [shutdown] return? *)

(** Whatever the scheduler does, [shutdown] returns after finitely many steps. *)
Inductive must_return (s : ThreadPool) : Prop :=
  | must_now : shutdown_ s = Returned -> must_return s
  | must_later : (exists s', step s s') -> (forall s', step s s' -> must_return s') -> must_return s.

(** The steps left in the worst case. *)
Definition worker_steps (w : worker) : nat := match w with Exited => 0 | Checking => 1 | _ => 2 end.
Fixpoint all_worker_steps (ws : list worker) : nat := match ws with [] => 0 | w :: ws => worker_steps w + all_worker_steps ws end.
Definition shutdown_steps (n : nat) (pc : shutdown_pc) : nat :=
  match pc with Joining i => 1 + (n - i) | Returned => 0 | _ => 2 + n end.
Definition steps_left (s : ThreadPool) : nat :=
  all_worker_steps (workers_ s) + 2 * length (tasks_ s) + notifies s + match submitter s with Some _ => 4 | None => 0 end +
  shutdown_steps (length (workers_ s)) (shutdown_ s).

(** [stop_] is set and no worker was between its test and its wait. *)
Record stopping (s : ThreadPool) : Prop := {
  stopping_set : stop_ s = true;
  stopping_pc : past_stop (shutdown_ s) = true;
  stopping_deciding : forall i, workers_ s !! i <> Some Deciding;
  stopping_waiting : shutdown_ s <> Stopped -> forall i, workers_ s !! i <> Some Waiting;
}.

Lemma worker_steps_insert ws : forall i w w', ws !! i = Some w -> all_worker_steps (<[i := w']> ws) + worker_steps w = all_worker_steps ws + worker_steps w'.
Proof.
  induction ws as [|x ws IH]; intros [|i] w w' Hi; [done|done| |].
  - injection Hi as ->. cbn. lia.
  - change (<[S i := w']> (x :: ws)) with (x :: <[i := w']> ws). cbn [all_worker_steps]. specialize (IH i w w' Hi). lia.
Qed.

Lemma worker_steps_wake ws : all_worker_steps (map wake ws) <= all_worker_steps ws.
Proof. induction ws as [|[| | | |] ws IH]; cbn; lia. Qed.

Lemma lookup_insert_cases {A} (l : list A) i j (x y : A) : <[i := x]> l !! j = Some y -> y = x \/ l !! j = Some y.
Proof.
  destruct (decide (i = j)) as [<-|Hne]; [|rewrite list_lookup_insert_ne by done; by right].
  destruct (decide (i < length l)); [rewrite list_lookup_insert_eq by done; intros [= ->]; by left|].
  rewrite list_insert_ge by lia. by right.
Qed.

Lemma lookup_wake ws i w : map wake ws !! i = Some w -> w <> Waiting /\ (w = Deciding -> ws !! i = Some Deciding).
Proof. intros H. apply list_lookup_fmap_Some in H as (x & -> & Hx). by destruct x. Qed.

(** A step of a stopping pool leaves fewer steps. *)
Lemma stopping_step s s' : stopping s -> step s s' -> stopping s' /\ steps_left s' < steps_left s.
Proof.
  intros [Hs Hp Hd Hw] [a Ha]. unfold steps_left. destruct a as [task| |i|i|i|i|i| | | |]; cbn [perform] in Ha.
  - unfold submit_lock in Ha. rewrite Hs, andb_false_r in Ha. done.
  - unfold submit_push in Ha. destruct (submitter s); [|done]. injection Ha as <-. cbn. rewrite length_app. cbn. split; [done|lia].
  - unfold notify_one in Ha. destruct (notifies s) as [|k]; [done|]. destruct i as [i|].
    + case_decide as Hi; [|done]. injection Ha as <-. cbn. rewrite length_insert. pose proof (worker_steps_insert _ _ _ Checking Hi) as E. cbn in E.
      split; [|lia]. constructor; cbn; [done|done| |].
      * intros j Hj. apply lookup_insert_cases in Hj as [|Hj]; [done|by apply Hd in Hj].
      * intros Hne j Hj. apply lookup_insert_cases in Hj as [|Hj]; [done|by apply Hw in Hj].
    + destruct (existsb _ _); [done|]. injection Ha as <-. cbn. split; [done|lia].
  - unfold check in Ha. case_decide as Hi; [|done]. destruct (queue_mutex_free s); [|done]. rewrite Hs in Ha.
    destruct (tasks_ s) as [|task tasks] eqn:Et; injection Ha as <-; cbn; rewrite ?Et, length_insert; cbn [length].
    + pose proof (worker_steps_insert _ _ _ Exited Hi) as E. cbn in E. split; [|lia]. constructor; cbn; [done|done| |].
      * intros j Hj. apply lookup_insert_cases in Hj as [|Hj]; [done|by apply Hd in Hj].
      * intros Hne j Hj. apply lookup_insert_cases in Hj as [|Hj]; [done|by apply Hw in Hj].
    + pose proof (worker_steps_insert _ _ _ (Running task) Hi) as E. cbn in E. split; [|lia]. constructor; cbn; [done|done| |].
      * intros j Hj. apply lookup_insert_cases in Hj as [|Hj]; [done|by apply Hd in Hj].
      * intros Hne j Hj. apply lookup_insert_cases in Hj as [|Hj]; [done|by apply Hw in Hj].
  - unfold move in Ha. case_decide as Hi; [by apply Hd in Hi|done].
  - unfold finish in Ha. destruct (workers_ s !! i) as [[| | |task|]|] eqn:Hi; try done. injection Ha as <-. cbn. rewrite length_insert.
    pose proof (worker_steps_insert _ _ _ Checking Hi) as E. cbn in E. split; [|lia]. constructor; cbn; [done|done| |].
    + intros j Hj. apply lookup_insert_cases in Hj as [|Hj]; [done|by apply Hd in Hj].
    + intros Hne j Hj. apply lookup_insert_cases in Hj as [|Hj]; [done|by apply Hw in Hj].
  - unfold move in Ha. case_decide as Hi; [|done]. injection Ha as <-. cbn. rewrite length_insert.
    pose proof (worker_steps_insert _ _ _ Checking Hi) as E. cbn in E. split; [|lia]. constructor; cbn; [done|done| |].
    + intros j Hj. apply lookup_insert_cases in Hj as [|Hj]; [done|by apply Hd in Hj].
    + intros Hne j Hj. apply lookup_insert_cases in Hj as [|Hj]; [done|by apply Hw in Hj].
  - by destruct (shutdown_ s).
  - unfold set_stop in Ha. by destruct (shutdown_ s).
  - unfold notify_all in Ha. destruct (shutdown_ s) eqn:Es; try done. injection Ha as <-. cbn. rewrite length_map.
    pose proof (worker_steps_wake (workers_ s)). split; [|lia]. constructor; cbn; [done|done| |].
    + intros j Hj. apply lookup_wake in Hj as [_ Hj]. by apply (Hd j), Hj.
    + intros _ j Hj. by apply lookup_wake in Hj as [? _].
  - unfold join in Ha. destruct (shutdown_ s) as [| | |i|] eqn:Es; try done.
    destruct (workers_ s !! i) as [[| | | |]|] eqn:Hi; try done; injection Ha as <-; cbn -[Nat.sub].
    + apply lookup_lt_Some in Hi. split; [|lia]. constructor; cbn; [done|done|done|]. intros _. by apply Hw.
    + split; [|lia]. constructor; cbn; [done|done|done|]. intros _. by apply Hw.
Qed.

(** Until it returns, a stopping pool has a step. *)
Lemma stopping_progress s : stopping s -> shutdown_ s = Returned \/ exists s', step s s'.
Proof.
  intros [Hs Hp Hd Hw]. destruct (shutdown_ s) as [| | |i|] eqn:Es; try done; [right|right|by left].
  - eexists. exists Notify_all. cbn. unfold notify_all. by rewrite Es.
  - destruct (submitter s) as [task|] eqn:Em; [eexists; exists Submit_push; cbn; unfold submit_push; by rewrite Em|].
    destruct (workers_ s !! i) as [[| | |task|]|] eqn:Hi.
    + assert (Hf : queue_mutex_free s = true) by by apply mutex_free_intro.
      destruct (tasks_ s) eqn:Et; eexists; exists (Check i); cbn; unfold check; rewrite decide_True, Hf, Et by done; reflexivity.
    + by apply Hd in Hi.
    + by apply Hw in Hi.
    + eexists. exists (Finish i). cbn. unfold finish. by rewrite Hi.
    + eexists. exists Join. cbn. unfold join. by rewrite Es, Hi.
    + eexists. exists Join. cbn. unfold join. by rewrite Es, Hi.
Qed.

(** C35: [shutdown] terminates, if no worker is between the test of its
    predicate and its wait when [stop_] is stored: then, however threads are
    scheduled from there on, after finitely many steps all workers have exited
    and been joined. *)
Theorem shutdown_returns n s s' : reachable n s -> set_stop s = Some s' -> (forall i, workers_ s !! i <> Some Deciding) -> must_return s'.
Proof.
  intros _ Hset Hd.
  assert (Hstop : stopping s').
  { unfold set_stop in Hset. destruct (shutdown_ s); try done. by injection Hset as <-. }
  clear Hset Hd. remember (steps_left s') as m eqn:Hm. revert s' Hm Hstop.
  induction (lt_wf m) as [m _ IH]. intros s' -> Hstop. destruct (stopping_progress s' Hstop) as [|Hp]; [by apply must_now|].
  apply must_later; [done|]. intros s'' Hs. destruct (stopping_step s' s'' Hstop Hs) as [Hst Hlt]. by apply (IH _ Hlt s'').
Qed.

(** A pool that no step other than a spurious wake-up brings on. *)
Definition hung (s : ThreadPool) : Prop :=
  shutdown_ s = Joining 0 /\ workers_ s !! 0 = Some Waiting /\ stop_ s = true /\ notifies s = 0 /\ submitter s = None.

Lemma hung_step s a s' : hung s -> perform a s = Some s' -> (forall i, a <> Spurious i) -> hung s'.
Proof.
  intros (Hsd & Hw & Hs & Hn & Hm) Ha Hns. destruct a as [task| |i|i|i|i|i| | | |]; cbn [perform] in Ha.
  - unfold submit_lock in Ha. by rewrite Hs, andb_false_r in Ha.
  - unfold submit_push in Ha. by rewrite Hm in Ha.
  - unfold notify_one in Ha. by rewrite Hn in Ha.
  - unfold check in Ha. case_decide as Hi; [|done]. destruct (queue_mutex_free s); [|done].
    assert (i <> 0) by (intros ->; congruence).
    destruct (tasks_ s); injection Ha as <-; unfold hung; cbn; rewrite list_lookup_insert_ne by done; done.
  - unfold move in Ha. case_decide as Hi; [|done]. injection Ha as <-. assert (i <> 0) by (intros ->; congruence).
    unfold hung; cbn; rewrite list_lookup_insert_ne by done; done.
  - unfold finish in Ha. destruct (workers_ s !! i) as [[| | |task|]|] eqn:Hi; try done. injection Ha as <-.
    assert (i <> 0) by (intros ->; congruence). unfold hung; cbn; rewrite list_lookup_insert_ne by done; done.
  - by destruct (Hns i).
  - by rewrite Hsd in Ha.
  - unfold set_stop in Ha. by rewrite Hsd in Ha.
  - unfold notify_all in Ha. by rewrite Hsd in Ha.
  - unfold join in Ha. by rewrite Hsd, Hw in Ha.
Qed.

Lemma hung_reachable n : 0 < n -> exists s, reachable n s /\ hung s.
Proof.
  intros Hn. destruct n as [|n]; [lia|].
  assert (Hf : queue_mutex_free (ThreadPool_new (S n)) = true).
  { apply forallb_forall. intros w Hw. apply list_elem_of_In, elem_of_replicate in Hw as [-> _]. done. }
  assert (E : perform (Check 0) (ThreadPool_new (S n)) = Some (set_worker 0 Deciding (ThreadPool_new (S n)))).
  { cbn [perform]. unfold check. rewrite decide_True, Hf by done. reflexivity. }
  assert (Er : run [Check 0; Shutdown_call; Set_stop; Notify_all; Block 0] (ThreadPool_new (S n)) =
          Some (mkPool (Waiting :: map wake (replicate n Checking)) [] None 0 true (Joining 0) [] [] [])) by (cbn [run]; rewrite E; reflexivity).
  eexists. split; [eapply run_reachable; [apply reachable_new|exact Er]|]. by repeat split.
Qed.

(** C36: Otherwise [shutdown] may hang, as [stop_] is stored without the mutex:
    a worker can test its predicate before the store and go to sleep after
    [notify_all]. From there no sequence of steps without a spurious wake-up
    lets [shutdown] return. *)
Theorem shutdown_can_hang n : 0 < n -> exists s, reachable n s /\
  forall acts s', Forall (fun a => forall i, a <> Spurious i) acts -> run acts s = Some s' -> shutdown_ s' = Joining 0.
Proof.
  intros Hn. destruct (hung_reachable n Hn) as (s & Hr & Hh). exists s. split; [done|]. clear Hr.
  intros acts. revert s Hh. induction acts as [|a acts IH]; intros s Hh s' Hns Hrun; cbn [run] in Hrun.
  - injection Hrun as <-. apply Hh.
  - apply Forall_cons in Hns as [Ha Hns]. destruct (perform a s) as [s1|] eqn:E; [|done]. eapply IH; [|exact Hns|exact Hrun].
    by eapply hung_step.
Qed.

(** ** Concrete runs *)

Definition sample_run : list action :=
  [Submit_lock 7; Submit_push; Check 1; Submit_lock 8; Submit_push; Notify_one None; Check 0; Finish 1; Submit_lock 9; Submit_push;
   Shutdown_call; Set_stop; Check 1; Notify_all; Finish 0; Check 0; Finish 1; Join; Check 1; Join; Join].

Definition sample_pool : ThreadPool := default (ThreadPool_new 0) (run sample_run (ThreadPool_new 2)).

Lemma sample_reachable : reachable 2 sample_pool.
Proof. apply (run_reachable 2 sample_run (ThreadPool_new 2)); [apply reachable_new|vm_compute; reflexivity]. Qed.

Lemma tasks_in_order_once_witness : submitted sample_pool = [7; 8; 9] /\ started sample_pool ++ tasks_ sample_pool = [7; 8; 9].
Proof. destruct (tasks_in_order_once 2 sample_pool sample_reachable) as (E & _ & _). rewrite <- E. by split. Defined.

Lemma shutdown_drains_witness : finished sample_pool = [7; 8; 9] /\ tasks_ sample_pool = [] /\ Permutation (finished sample_pool) (submitted sample_pool).
Proof. split; [reflexivity|]. apply (shutdown_drains 2 sample_pool sample_reachable); [lia|reflexivity]. Defined.

Definition stop_with_waiter : list action := [Check 0; Block 0; Submit_lock 7; Submit_push; Shutdown_call].
Definition pool_with_waiter : ThreadPool := default (ThreadPool_new 0) (run stop_with_waiter (ThreadPool_new 2)).

Lemma shutdown_returns_witness : exists s', set_stop pool_with_waiter = Some s' /\ must_return s'.
Proof.
  eexists. split; [reflexivity|]. apply (shutdown_returns 2 pool_with_waiter).
  - apply (run_reachable 2 stop_with_waiter (ThreadPool_new 2)); [apply reachable_new|vm_compute; reflexivity].
  - reflexivity.
  - intros [|[|i]]; vm_compute; discriminate.
Defined.

Lemma shutdown_can_hang_witness : exists s, reachable 8 s /\
  forall acts s', Forall (fun a => forall i, a <> Spurious i) acts -> run acts s = Some s' -> shutdown_ s' = Joining 0.
Proof. apply (shutdown_can_hang 8). lia. Defined.
