(* ===== verification/LockManager.v ===== *)
(** * Per-table locks ([server/concurrency/lock_manager.h], [lock_manager.cpp])

    A [shared_mutex] for each table name, made on first use, and the guards
    that hold them. Mutexes are never removed, so a guard's reference stays
    valid: they are a list that grows, and the map gives positions in it. *)

From Stdlib Require Import ZArith Lia.
From stdpp Require Import base strings gmap numbers list.
From S2P Require Import Prelude.
Open Scope string_scope.
Open Scope list_scope.
Open Scope nat_scope.

(** ** State *)

(** [std::shared_mutex]: how many hold it shared, and whether one holds it alone. *)
Record shared_mutex := mkMutex { readers : nat; writer : bool }.

Record LockManager := mkLockManager {
  locks_ : gmap string nat;
  mutexes : list shared_mutex;
}.

Definition LockManager_new : LockManager := mkLockManager ∅ [].

Definition get_lock (m : LockManager) (table_name : string) : nat * LockManager :=
  match locks_ m !! table_name with
  | Some it => (it, m)
  | None =>
      let inserted := length (mutexes m) in
      (inserted, mkLockManager (<[table_name := inserted]> (locks_ m)) (mutexes m ++ [mkMutex 0 false]))
  end.

(** ** Guards *)

(** [lock_shared] and [lock] when they do not block, and their releases. *)
Definition acquire (exclusive : bool) (x : shared_mutex) : option shared_mutex :=
  if exclusive then if (readers x =? 0) && negb (writer x) then Some (mkMutex 0 true) else None
  else if writer x then None else Some (mkMutex (S (readers x)) false).
Definition release (exclusive : bool) (x : shared_mutex) : shared_mutex :=
  if exclusive then mkMutex (readers x) false else mkMutex (pred (readers x)) (writer x).

(** A guard: the table, the mutex it refers to, and whether it is a [WriteLock]. *)
Record guard := mkGuard { guard_table : string; guard_lock : nat; guard_exclusive : bool }.

(** The manager and the guards alive. *)
Record world := mkWorld { manager : LockManager; guards : list guard }.

(** The constructors of [ReadLock] and [WriteLock], when they do not block. *)
Definition guard_new (exclusive : bool) (table : string) (w : world) : option world :=
  let '(l, m) := get_lock (manager w) table in
  x ← mutexes m !! l;
  x' ← acquire exclusive x;
  Some (mkWorld (mkLockManager (locks_ m) (<[l := x']> (mutexes m))) (mkGuard table l exclusive :: guards w)).

(** The destructor of the [i]-th guard. *)
Definition guard_delete (i : nat) (w : world) : option world :=
  g ← guards w !! i;
  x ← mutexes (manager w) !! guard_lock g;
  Some (mkWorld (mkLockManager (locks_ (manager w)) (<[guard_lock g := release (guard_exclusive g) x]> (mutexes (manager w))))
          (delete i (guards w))).

Inductive lock_step (w : world) : world -> Prop :=
  | step_new exclusive table w' : guard_new exclusive table w = Some w' -> lock_step w w'
  | step_delete i w' : guard_delete i w = Some w' -> lock_step w w'.

Inductive lock_reachable : world -> Prop :=
  | lock_start : lock_reachable (mkWorld LockManager_new [])
  | lock_later w w' : lock_reachable w -> lock_step w w' -> lock_reachable w'.

(** ** Invariant: a mutex counts its guards *)

Definition holds (l : nat) (exclusive : bool) (g : guard) : bool := (guard_lock g =? l) && Bool.eqb (guard_exclusive g) exclusive.
Definition held (l : nat) (exclusive : bool) (gs : list guard) : nat := length (List.filter (holds l exclusive) gs).

Record lock_inv (w : world) : Prop := {
  lock_bound : forall t l, locks_ (manager w) !! t = Some l -> l < length (mutexes (manager w));
  lock_inj : forall t t' l, locks_ (manager w) !! t = Some l -> locks_ (manager w) !! t' = Some l -> t = t';
  lock_guard : forall g, g ∈ guards w -> locks_ (manager w) !! guard_table g = Some (guard_lock g);
  lock_count : forall l x, mutexes (manager w) !! l = Some x ->
    readers x = held l false (guards w) /\ held l true (guards w) = (if writer x then 1 else 0) /\ (writer x = true -> readers x = 0);
}.

Lemma held_cons l e g gs : held l e (g :: gs) = (if holds l e g then 1 else 0) + held l e gs.
Proof. unfold held. cbn [List.filter]. by destruct (holds l e g). Qed.

Lemma held_delete l e i g gs : gs !! i = Some g -> held l e gs = (if holds l e g then 1 else 0) + held l e (delete i gs).
Proof.
  revert i. induction gs as [|h gs IH]; intros [|i] Hi; [done|done| |].
  - injection Hi as ->. apply held_cons.
  - change (delete (S i) (h :: gs)) with (h :: delete i gs). rewrite !held_cons, (IH i Hi). lia.
Qed.

Lemma holds_other l l' e e' t : l <> l' -> holds l e (mkGuard t l' e') = false.
Proof. intros H. unfold holds. cbn. by destruct (Nat.eqb_spec l' l). Qed.

Lemma holds_same l e e' t : holds l e (mkGuard t l e') = Bool.eqb e' e.
Proof. unfold holds. cbn. by rewrite Nat.eqb_refl. Qed.

Lemma held_none l e gs : (forall g, g ∈ gs -> guard_lock g <> l) -> held l e gs = 0.
Proof.
  induction gs as [|g gs IH]; intros H; [done|]. rewrite held_cons, IH by set_solver.
  unfold holds. destruct (Nat.eqb_spec (guard_lock g) l) as [E|]; [|done]. by destruct (H g ltac:(left)).
Qed.

(** Finding or making a mutex keeps the invariant. *)
Lemma get_lock_inv w t l m : lock_inv w -> get_lock (manager w) t = (l, m) ->
  lock_inv (mkWorld m (guards w)) /\ locks_ m !! t = Some l.
Proof.
  intros Hinv. unfold get_lock. destruct (locks_ (manager w) !! t) as [l'|] eqn:Et; intros [= <- <-]; [by split; [destruct Hinv; by constructor|]|].
  destruct Hinv as [Hb Hi Hg Hc]. split; [|cbn; by rewrite lookup_insert_eq]. set (n := length (mutexes (manager w))) in *.
  constructor; cbn [manager guards locks_ mutexes].
  - intros t' l'. rewrite length_app. cbn. rewrite lookup_insert_Some. intros [[_ <-]|[_ H]]; [fold n; lia|]. apply Hb in H. lia.
  - intros t1 t2 l'. rewrite !lookup_insert_Some. intros [[<- <-]|[? H1]] [[<- E]|[? H2]]; [done| | |by eapply Hi].
    + apply Hb in H2. lia.
    + apply Hb in H1. lia.
  - intros g Hgs. specialize (Hg g Hgs). rewrite lookup_insert_ne; [done|]. intros E. rewrite <- E in Hg. congruence.
  - intros l' x. rewrite lookup_app_Some. intros [H|[Hl H]]; [by apply Hc|].
    assert (l' = n) as -> by (apply lookup_lt_Some in H; cbn in H; unfold n in *; lia).
    replace (n - length (mutexes (manager w))) with 0 in H by (unfold n; lia). injection H as <-. cbn.
    assert (Hnone : forall e, held n e (guards w) = 0).
    { intros e. apply held_none. intros g Hgs E. apply Hg, Hb in Hgs. lia. }
    by rewrite !Hnone.
Qed.

Lemma guard_new_inv w e t w' : lock_inv w -> guard_new e t w = Some w' -> lock_inv w'.
Proof.
  unfold guard_new. intros Hinv. destruct (get_lock (manager w) t) as [l m] eqn:El.
  destruct (get_lock_inv w t l m Hinv El) as [[Hb Hi Hg Hc] Ht]. cbn [manager guards] in *.
  destruct (mutexes m !! l) as [x|] eqn:Ex; [|done]. cbn [mbind option_bind].
  destruct (acquire e x) as [x'|] eqn:Ea; [|done]. intros [= <-].
  pose proof (lookup_lt_Some _ _ _ Ex) as Hlt. constructor; cbn [manager guards locks_ mutexes].
  - intros t' l'. rewrite length_insert. apply Hb.
  - exact Hi.
  - intros g [->|Hgs]%elem_of_cons; [done|by apply Hg].
  - intros l' y Hy. rewrite !held_cons. destruct (decide (l = l')) as [<-|Hne].
    + rewrite list_lookup_insert_eq in Hy by done. injection Hy as <-. rewrite !holds_same.
      destruct (Hc l x Ex) as (H1 & H2 & H3). unfold acquire in Ea. destruct e; cbn [Bool.eqb].
      * destruct (Nat.eqb_spec (readers x) 0); [|done]. destruct (writer x); [done|]. injection Ea as <-. cbn. lia.
      * destruct (writer x); [done|]. injection Ea as <-. cbn. lia.
    + rewrite list_lookup_insert_ne in Hy by done. rewrite !holds_other by done. by apply Hc.
Qed.

Lemma guard_delete_inv w i w' : lock_inv w -> guard_delete i w = Some w' -> lock_inv w'.
Proof.
  unfold guard_delete. intros [Hb Hi Hg Hc]. destruct (guards w !! i) as [g|] eqn:Eg; [|done]. cbn [mbind option_bind].
  destruct (mutexes (manager w) !! guard_lock g) as [x|] eqn:Ex; [|done]. intros [= <-].
  pose proof (lookup_lt_Some _ _ _ Ex) as Hlt. constructor; cbn [manager guards locks_ mutexes].
  - intros t' l'. rewrite length_insert. apply Hb.
  - exact Hi.
  - intros g' Hg'. apply Hg. rewrite delete_take_drop in Hg'. rewrite <- (take_drop i (guards w)).
    apply elem_of_app in Hg' as [|Hg']; apply elem_of_app; [by left|right]. rewrite (drop_S _ g) by done. by right.
  - intros l' y Hy. destruct g as [t l e]. cbn [guard_lock guard_exclusive] in *. destruct (decide (l = l')) as [<-|Hne].
    + rewrite list_lookup_insert_eq in Hy by done. injection Hy as <-. destruct (Hc l x Ex) as (H1 & H2 & H3).
      rewrite (held_delete _ _ _ _ _ Eg), holds_same in H1. rewrite (held_delete _ _ _ _ _ Eg), holds_same in H2.
      unfold release. destruct e, (writer x); cbn in *; try specialize (H3 eq_refl); lia.
    + rewrite list_lookup_insert_ne in Hy by done. destruct (Hc l' y Hy) as (H1 & H2 & H3).
      rewrite (held_delete _ _ _ _ _ Eg), holds_other in H1 by done. rewrite (held_delete _ _ _ _ _ Eg), holds_other in H2 by done. done.
Qed.

Lemma lock_reachable_inv w : lock_reachable w -> lock_inv w.
Proof.
  induction 1 as [|w w' _ IH [e t w1 H|i w1 H]]; [|by eapply guard_new_inv|by eapply guard_delete_inv].
  constructor; cbn; try done. intros g Hg. by apply elem_of_nil in Hg.
Qed.

Lemma holds_lookup l e i g gs : gs !! i = Some g -> holds l e g = true -> 0 < held l e gs.
Proof. intros Hi Hh. rewrite (held_delete _ _ _ _ _ Hi), Hh. lia. Qed.

(** C39: A [WriteLock] excludes: in every reachable state, while a guard that
    writes a table is alive, it is the only guard of that table; all guards of
    a table hold one and the same mutex, and guards of different tables hold
    different ones. *)
Theorem write_lock_excludes w i j g g' : lock_reachable w -> guards w !! i = Some g -> guards w !! j = Some g' ->
  (guard_lock g = guard_lock g' <-> guard_table g = guard_table g') /\
  (guard_table g = guard_table g' -> guard_exclusive g = true -> i = j).
Proof.
  intros Hr Hi Hj. destruct (lock_reachable_inv w Hr) as [Hb Hinj Hg Hc].
  pose proof (Hg g ltac:(by eapply list_elem_of_lookup_2)) as Lg. pose proof (Hg g' ltac:(by eapply list_elem_of_lookup_2)) as Lg'.
  split; [split; intros E; [rewrite <- E in Lg'; by eapply Hinj|congruence]|].
  intros E He. assert (El : guard_lock g' = guard_lock g) by congruence. destruct (decide (i = j)) as [|Hne]; [done|exfalso].
  destruct (lookup_lt_is_Some_2 _ _ (Hb _ _ Lg)) as [x Hx]. destruct (Hc _ _ Hx) as (H1 & H2 & H3).
  assert (Hh : holds (guard_lock g) true g = true) by (unfold holds; by rewrite Nat.eqb_refl, He).
  rewrite (held_delete _ _ _ _ _ Hi), Hh in H2. destruct (writer x) eqn:Ew; [|lia]. rewrite (H3 eq_refl) in H1.
  destruct (guard_exclusive g') eqn:He'.
  - assert (Hh' : holds (guard_lock g) true g' = true) by (unfold holds; by rewrite El, Nat.eqb_refl, He').
    assert (exists k, delete i (guards w) !! k = Some g') as [k Hk].
    { destruct (decide (j < i)); [exists j; by rewrite list_lookup_delete_lt|exists (pred j)]. rewrite list_lookup_delete_ge by lia. by replace (S (pred j)) with j by lia. }
    pose proof (holds_lookup _ _ _ _ _ Hk Hh'). lia.
  - assert (Hh' : holds (guard_lock g) false g' = true) by (unfold holds; by rewrite El, Nat.eqb_refl, He').
    pose proof (holds_lookup _ _ _ _ _ Hj Hh'). lia.
Qed.

(** No needless blocking: a guard of a table that has none, and a read
    guard of a table that only has readers, is made at once. *)
Theorem lock_available w exclusive table : lock_reachable w ->
  (forall g, g ∈ guards w -> guard_table g = table -> exclusive = false /\ guard_exclusive g = false) ->
  exists w', guard_new exclusive table w = Some w' /\ (guard_table <$> guards w') = table :: (guard_table <$> guards w).
Proof.
  intros Hr Hfree. pose proof (lock_reachable_inv w Hr) as Hinv. unfold guard_new.
  destruct (get_lock (manager w) table) as [l m] eqn:El. destruct (get_lock_inv w table l m Hinv El) as [[Hb Hinj Hg Hc] Ht].
  cbn [manager guards] in *. destruct (lookup_lt_is_Some_2 _ _ (Hb _ _ Ht)) as [x Hx]. rewrite Hx. cbn [mbind option_bind].
  destruct (Hc _ _ Hx) as (H1 & H2 & H3).
  assert (Hw : writer x = false).
  { destruct (writer x) eqn:Ew; [exfalso|done]. unfold held in H2. destruct (List.filter _ _) as [|g gs] eqn:Ef; [done|].
    assert (Hin : List.In g (List.filter (holds l true) (guards w))) by (rewrite Ef; by left). apply List.filter_In in Hin as [Hin Hh].
    apply list_elem_of_In in Hin. unfold holds in Hh. apply andb_prop in Hh as [Hl He]. apply Nat.eqb_eq in Hl. apply Bool.eqb_prop in He.
    pose proof (Hg g Hin) as Lg. rewrite Hl in Lg. destruct (Hfree g Hin) as [_ ?]; [by eapply Hinj|congruence]. }
  unfold acquire. rewrite Hw. destruct exclusive; [|by eexists].
  assert (Hr0 : readers x = 0).
  { rewrite H1. apply held_none. intros g Hin E. pose proof (Hg g Hin) as Lg. rewrite E in Lg.
    destruct (Hfree g Hin) as [? _]; [by eapply Hinj|done]. }
  rewrite Hr0. by eexists.
Qed.

(** *** A concrete run: two readers of one table, a writer of another *)

Definition no_guards : world := mkWorld LockManager_new [].
Definition guarded (exclusive : bool) (table : string) (w : world) : world := default w (guard_new exclusive table w).
Definition sample_world : world := guarded false "A" (guarded true "B" (guarded false "A" no_guards)).

Lemma guarded_reachable exclusive table w : lock_reachable w -> guard_new exclusive table w <> None -> lock_reachable (guarded exclusive table w).
Proof.
  intros Hr Hn. unfold guarded. destruct (guard_new exclusive table w) as [w'|] eqn:E; [|done].
  eapply lock_later; [exact Hr|]. by eapply step_new.
Qed.

Lemma sample_world_reachable : lock_reachable sample_world.
Proof. unfold sample_world. repeat (apply guarded_reachable; [|vm_compute; discriminate]). apply lock_start. Qed.

Lemma write_lock_excludes_witness : guards sample_world !! 1 = Some (mkGuard "B" 1 true) /\
  forall j g', guards sample_world !! j = Some g' -> guard_table g' = "B" -> 1 = j.
Proof.
  split; [reflexivity|]. intros j g' Hj Ht.
  apply (write_lock_excludes sample_world 1 j (mkGuard "B" 1 true) g' sample_world_reachable eq_refl Hj); [by rewrite Ht|reflexivity].
Defined.

Lemma lock_available_witness : exists w', guard_new false "A" sample_world = Some w' /\ (guard_table <$> guards w') = ["A"; "A"; "B"; "A"].
Proof.
  apply (lock_available sample_world false "A" sample_world_reachable).
  intros g Hg Ht. split; [done|]. vm_compute in Hg. repeat (apply elem_of_cons in Hg as [->|Hg]; [done|]). by apply elem_of_nil in Hg.
Defined.

(** A second writer, or a reader beside a writer, blocks. *)
Example writer_blocks : guard_new true "B" sample_world = None /\ guard_new false "B" sample_world = None /\ guard_new true "A" sample_world = None.
Proof. by vm_compute. Qed.
