(* ===== verification/Ttl.v ===== *)
(** * The expiry sweeper ([server/ttl/ttl_manager.h], [ttl_manager.cpp])

    A map from names to tables owned by others, so the tables are in a heap and
    the map holds addresses; a background thread that sweeps them until it is
    told to stop. A wait that times out is an event [Tick] with the times the
    sweep of each table reads. *)

From Stdlib Require Import ZArith Lia.
From stdpp Require Import base strings gmap numbers list list_numbers.
From S2P Require Import Prelude Cpp Common Schema Arena BPTree BPTreeRep BPTreeInsert Index Table TableRep TableSpec.
Open Scope string_scope.
Open Scope list_scope.
Open Scope Z_scope.

(** ** State *)

Notation Heap := (gmap nat Table).

(** [sweep_thread_] is whether the [std::thread] is joinable; [loops] counts the
    threads that are in [sweep_loop]. *)
Record TTLManager := mkTTL {
  interval_sec_ : Z;
  running_ : bool;
  sweep_thread_ : bool;
  loops : nat;
  tables_ : gmap string nat;
}.

Definition TTLManager_new (interval_sec : Z) : TTLManager := mkTTL interval_sec false false 0 ∅.

Definition register_table (m : TTLManager) (name : string) (table : nat) : TTLManager :=
  mkTTL (interval_sec_ m) (running_ m) (sweep_thread_ m) (loops m) (<[name := table]> (tables_ m)).

Definition unregister_table (m : TTLManager) (name : string) : TTLManager :=
  mkTTL (interval_sec_ m) (running_ m) (sweep_thread_ m) (loops m) (delete name (tables_ m)).

(** The order in which the hash map lists its entries. *)
Class PointerOrder := pointer_order : gmap string nat -> list (string * nat).
Class PointerOrderLaws `{PointerOrder} : Prop := pointer_order_perm : forall m, Permutation (pointer_order m) (map_to_list m).

(** ** Sweeping *)

Fixpoint sweep_tables (now : string -> Z) (tables : list (string * nat)) (total_removed : Z) (heap : Heap) : outcome (Z * Heap) :=
  match tables with
  | [] => Ret (total_removed, heap)
  | (name, table) :: tables =>
      t ← deref (heap !! table);
      r ← cleanup_expired t (now name);
      sweep_tables now tables (u64 (total_removed + fst r)) (<[table := snd r]> heap)
  end.

Definition sweep_now `{PointerOrder} (m : TTLManager) (now : string -> Z) (heap : Heap) : outcome (Z * Heap) :=
  sweep_tables now (pointer_order (tables_ m)) 0 heap.

(** The exchange; then the new thread is moved into [sweep_thread_], which ends
    the program when that one is joinable. *)
Definition start (m : TTLManager) : outcome TTLManager :=
  if running_ m then Ret m
  else if sweep_thread_ m then Throw terminate
  else Ret (mkTTL (interval_sec_ m) true true (S (loops m)) (tables_ m)).

(** The exchange, the notification and the join, which waits for the thread to
    leave its loop. *)
Definition stop (m : TTLManager) : TTLManager :=
  if running_ m then
    if sweep_thread_ m then mkTTL (interval_sec_ m) false false (pred (loops m)) (tables_ m)
    else mkTTL (interval_sec_ m) false false (loops m) (tables_ m)
  else m.

(** [~TTLManager] and then that of [sweep_thread_], which ends the program when
    the thread is joinable. *)
Definition TTLManager_delete (m : TTLManager) : outcome TTLManager :=
  let m := stop m in if sweep_thread_ m then Throw terminate else Ret m.

(** One turn of [sweep_loop] whose wait times out. *)
Definition tick `{PointerOrder} (m : TTLManager) (now : string -> Z) (heap : Heap) : outcome Heap :=
  if (0 <? loops m)%nat && running_ m then r ← sweep_now m now heap; Ret (snd r) else Ret heap.

Inductive ttl_event :=
  | Register (name : string) (table : nat)
  | Unregister (name : string)
  | Start
  | Stop
  | Tick (now : string -> Z).

Fixpoint run_ttl `{PointerOrder} (m : TTLManager) (heap : Heap) (events : list ttl_event) : outcome (TTLManager * Heap) :=
  match events with
  | [] => Ret (m, heap)
  | Register name table :: events => run_ttl (register_table m name table) heap events
  | Unregister name :: events => run_ttl (unregister_table m name) heap events
  | Start :: events => m ← start m; run_ttl m heap events
  | Stop :: events => run_ttl (stop m) heap events
  | Tick now :: events => heap ← tick m now heap; run_ttl m heap events
  end.

(** ** What a sweep does *)

(** The table at each address has rows. *)
Definition heap_rep (heap : Heap) (rows : gmap nat (list stored)) : Prop :=
  forall p rs, rows !! p = Some rs -> exists t, heap !! p = Some t /\ tree_table t rs.

(** Sweeps leave the rows of [rs] that have not expired by [limit], and those
    are as they were for any later reader. *)
Definition swept (limit : Z) (rs rs' : list stored) : Prop :=
  forall clock keep out, (forall j, limit <= clock j) -> select clock keep out 0 rs' = select clock keep out 0 rs.

Lemma swept_expire limit now rs : now <= limit -> swept limit rs (expire now <$> rs).
Proof. intros Hn clock keep out Hc. apply select_expire. intros j. specialize (Hc j). lia. Qed.

Lemma swept_trans limit rs rs1 rs2 : swept limit rs rs1 -> swept limit rs1 rs2 -> swept limit rs rs2.
Proof. intros H1 H2 clock keep out Hc. by rewrite H2, H1. Qed.

(** No row has expired and is still flagged valid. *)
Definition clean (now : Z) (rs : list stored) : Prop := Forall (fun r => st_alive r = true -> live now r = true) rs.

Lemma clean_expire now rs : clean now (expire now <$> rs).
Proof.
  unfold clean. apply Forall_fmap, Forall_true. intros r. cbn. unfold expire.
  destruct (st_alive r && ((0 <? st_expiry r) && (st_expiry r <? now))) eqn:E; [done|]. intros Ha. rewrite Ha in E. cbn [andb] in E.
  unfold live. by rewrite Ha, E.
Qed.

Lemma clean_expire_again now now' rs : clean now rs -> clean now (expire now' <$> rs).
Proof.
  unfold clean. intros Hc. apply Forall_fmap. eapply Forall_impl; [exact Hc|]. intros r Hr. cbn. unfold expire.
  by destruct (_ && _).
Qed.

(** The sum of the counts, as [sweep_now] adds them up. *)
Lemma sweep_tables_spec now limit : (forall n, now n <= limit) -> forall tables total heap rows, heap_rep heap rows ->
  Forall (fun e => is_Some (rows !! e.2)) tables ->
  exists n heap' rows', sweep_tables now tables total heap = Ret (n, heap') /\ heap_rep heap' rows' /\ dom rows' = dom rows /\
    (forall p, p ∉ tables.*2 -> rows' !! p = rows !! p /\ heap' !! p = heap !! p) /\
    (forall p rs, rows !! p = Some rs -> exists rs', rows' !! p = Some rs' /\ swept limit rs rs' /\
       (forall c, clean c rs -> clean c rs') /\ (forall name, (name, p) ∈ tables -> clean (now name) rs')).
Proof.
  intros Hl. induction tables as [|[name p] tables IH]; intros total heap rows Hrep Hin; cbn [sweep_tables].
  { exists total, heap, rows. repeat split; try done. intros p rs Hp. exists rs. split; [done|]. split; [by intros ? ? ? ?|]. split; [done|].
    intros n Hn. by apply elem_of_nil in Hn. }
  apply Forall_cons in Hin as [[rs Hp] Hin]. cbn in Hp. destruct (Hrep p rs Hp) as (t & Ht & Htab). rewrite Ht. outcome_simpl.
  destruct (cleanup_rep t rs (now name) Htab) as (t1 & -> & Htab1 & _). outcome_simpl. cbn [fst snd].
  set (rs1 := expire (now name) <$> rs) in *.
  destruct (IH (u64 (total + u64 (count_alive rs - count_alive rs1))) (<[p := t1]> heap) (<[p := rs1]> rows))
    as (n & heap' & rows' & E & Hrep' & Hdom & Hother & Hsome).
  { intros q rsq. rewrite lookup_insert_Some. intros [[<- <-]|[Hne Hq]]; [exists t1; by rewrite lookup_insert_eq|].
    rewrite lookup_insert_ne by done. by apply Hrep. }
  { eapply Forall_impl; [exact Hin|]. intros [n' q] [rsq Hq]. cbn in *. destruct (decide (p = q)) as [<-|]; [by rewrite lookup_insert_eq|].
    by rewrite lookup_insert_ne. }
  exists n, heap', rows'. split; [done|]. split; [done|]. split.
  { rewrite Hdom, dom_insert_L. apply subseteq_union_1_L. apply singleton_subseteq_l, elem_of_dom. by exists rs. }
  split.
  - intros q Hq. cbn in Hq. apply not_elem_of_cons in Hq as [Hne Hq]. destruct (Hother q Hq) as [-> ->]. by rewrite !lookup_insert_ne.
  - intros q rsq Hq. destruct (decide (p = q)) as [<-|Hne].
    + rewrite Hp in Hq. injection Hq as <-. destruct (Hsome p rs1) as (rs' & Hr' & Hs & Hc & Hn); [by rewrite lookup_insert_eq|].
      exists rs'. split; [done|]. split; [apply (swept_trans _ _ rs1); [apply swept_expire, Hl|exact Hs]|].
      split; [intros c Hcl; by apply Hc, clean_expire_again|].
      intros name' [E'|Hin']%elem_of_cons; [injection E' as ->; by apply Hc, clean_expire|by apply Hn].
    + destruct (Hsome q rsq) as (rs' & Hr' & Hs & Hc & Hn); [by rewrite lookup_insert_ne|]. exists rs'. do 3 (split; [done|]).
      intros name' [E'|Hin']%elem_of_cons; [injection E' as <- <-; done|by apply Hn].
Qed.

Section sweeper.
Context `{PointerOrderLaws}.

Lemma ordered_tables m name p : (name, p) ∈ pointer_order (tables_ m) <-> tables_ m !! name = Some p.
Proof. rewrite (pointer_order_perm (tables_ m)). apply elem_of_map_to_list. Qed.

Definition registered_rep (m : TTLManager) (rows : gmap nat (list stored)) : Prop :=
  forall name p, tables_ m !! name = Some p -> is_Some (rows !! p).

Lemma sweep_now_spec m now limit heap rows : (forall n, now n <= limit) -> heap_rep heap rows -> registered_rep m rows ->
  exists n heap' rows', sweep_now m now heap = Ret (n, heap') /\ heap_rep heap' rows' /\ dom rows' = dom rows /\
    (forall p rs, rows !! p = Some rs -> exists rs', rows' !! p = Some rs' /\ swept limit rs rs' /\
       (forall name, tables_ m !! name = Some p -> clean (now name) rs')).
Proof.
  intros Hl Hrep Hreg. unfold sweep_now.
  destruct (sweep_tables_spec now limit Hl (pointer_order (tables_ m)) 0 heap rows Hrep) as (n & heap' & rows' & E & Hrep' & Hd & _ & Hsome).
  { apply Forall_forall. intros [name p] Hin. apply ordered_tables in Hin. by eapply Hreg. }
  exists n, heap', rows'. do 3 (split; [done|]). intros p rs Hp. destruct (Hsome p rs Hp) as (rs' & ? & ? & _ & Hc).
  exists rs'. do 2 (split; [done|]). intros name Hn. apply Hc. by apply ordered_tables.
Qed.

Lemma clean_scan t rs now : tree_table t rs -> clean now rs ->
  exists rows, Table.scan_all t (fun _ => now) = Ret rows /\ row_count_ t = u64 (Z.of_nat (length rows)).
Proof.
  intros T Hc. eexists. split; [by apply scan_all_rep|]. rewrite (tr_count _ _ T). f_equal. unfold count_alive. f_equal.
  clear T. generalize 0%nat. induction Hc as [|r rs Hr _ IH]; intros i; [done|]. cbn [select]. rewrite filter_cons, andb_true_r.
  destruct (live now r) eqn:El.
  - assert (Ha : st_alive r = true) by (destruct (st_alive r) eqn:Ea; [done|]; unfold live in El; by rewrite Ea in El). rewrite decide_True by done. cbn [length]. by rewrite (IH (S i)).
  - rewrite decide_False; [apply IH|]. intros Ha. specialize (Hr Ha). congruence.
Qed.

(** C37: A sweep removes what has expired: [sweep_now] returns, and then the row
    count of every registered table is the number of rows a scan returns at the
    time of its sweep; what scans return from the latest of these times on is
    what they would have returned without the sweep. *)
Theorem sweep_exact m now limit heap rows : (forall n, now n <= limit) -> heap_rep heap rows -> registered_rep m rows ->
  exists n heap', sweep_now m now heap = Ret (n, heap') /\
    forall name p t, tables_ m !! name = Some p -> heap !! p = Some t -> exists t', heap' !! p = Some t' /\
      (exists rows, Table.scan_all t' (fun _ => now name) = Ret rows /\ row_count_ t' = u64 (Z.of_nat (length rows))) /\
      (forall clock, (forall j, limit <= clock j) -> Table.scan_all t' clock = Table.scan_all t clock).
Proof.
  intros Hl Hrep Hreg. destruct (sweep_now_spec m now limit heap rows Hl Hrep Hreg) as (n & heap' & rows' & E & Hrep' & _ & Hsome).
  exists n, heap'. split; [done|]. intros name p t Hn Ht. destruct (Hreg name p Hn) as [rs Hp].
  destruct (Hrep p rs Hp) as (t0 & Ht0 & T). rewrite Ht in Ht0. injection Ht0 as <-.
  destruct (Hsome p rs Hp) as (rs' & Hp' & Hs & Hc). destruct (Hrep' p rs' Hp') as (t' & Ht' & T'). exists t'. split; [done|].
  split; [by apply (clean_scan t' rs'), Hc|]. intros clock Hck.
  by rewrite (scan_all_rep t' rs' T'), (scan_all_rep t rs T), (Hs clock _ _ Hck).
Qed.

Definition event_ok (limit : Z) (rows : gmap nat (list stored)) (e : ttl_event) : Prop :=
  match e with
  | Register _ p => is_Some (rows !! p)
  | Tick now => forall n, now n <= limit
  | _ => True
  end.

(** One thread is in the loop while the manager runs, none otherwise. *)
Definition one_sweeper (m : TTLManager) : Prop := sweep_thread_ m = running_ m /\ loops m = if running_ m then 1%nat else 0%nat.

Lemma start_sweeper m : one_sweeper m -> exists m', start m = Ret m' /\ one_sweeper m' /\ tables_ m' = tables_ m.
Proof. unfold one_sweeper, start. intros [H1 H2]. destruct (running_ m) eqn:Er; [by exists m; rewrite Er|]. rewrite H1. eexists. split; [done|]. by cbn; rewrite H2. Qed.

Lemma stop_sweeper m : one_sweeper m -> one_sweeper (stop m) /\ running_ (stop m) = false /\ tables_ (stop m) = tables_ m.
Proof. unfold one_sweeper, stop. intros [H1 H2]. destruct (running_ m) eqn:Er; [rewrite H1; cbn; by rewrite H2|]. by rewrite Er. Qed.

Lemma run_ttl_spec limit events : forall m heap rows, heap_rep heap rows -> registered_rep m rows -> Forall (event_ok limit rows) events ->
  one_sweeper m ->
  exists m' heap' rows', run_ttl m heap events = Ret (m', heap') /\ heap_rep heap' rows' /\ one_sweeper m' /\
    (forall p rs, rows !! p = Some rs -> exists rs', rows' !! p = Some rs' /\ swept limit rs rs').
Proof.
  induction events as [|e events IH]; intros m heap rows Hrep Hreg He Hrun; cbn [run_ttl].
  { exists m, heap, rows. do 3 (split; [done|]). intros p rs Hp. exists rs. split; [done|]. by intros ? ? ? ?. }
  apply Forall_cons in He as [He Hes]. destruct e as [name p|name| | |now]; cbn [event_ok] in He.
  - apply IH; [done| |done|done]. intros n q. cbn. rewrite lookup_insert_Some. intros [[_ <-]|[_ Hq]]; [done|by eapply Hreg].
  - apply IH; [done| |done|done]. intros n q. cbn. rewrite lookup_delete_Some. intros [_ Hq]. by eapply Hreg.
  - destruct (start_sweeper m Hrun) as (m1 & -> & Hrun1 & Et). outcome_simpl. apply IH; [done| |done|done]. unfold registered_rep. by rewrite Et.
  - destruct (stop_sweeper m Hrun) as (Hrun1 & _ & Et). apply IH; [done| |done|done]. unfold registered_rep. by rewrite Et.
  - unfold tick. destruct (_ && running_ m); outcome_simpl; [|by apply IH].
    destruct (sweep_now_spec m now limit heap rows He Hrep Hreg) as (n & heap1 & rows1 & -> & Hrep1 & Hd & Hsome). outcome_simpl. cbn [snd].
    assert (Hsub : forall p, is_Some (rows !! p) -> is_Some (rows1 !! p)) by (intros p; rewrite <- !elem_of_dom, Hd; done).
    destruct (IH m heap1 rows1) as (m' & heap' & rows' & E & Hrep' & Hrun' & Hs'); [done|intros ? ? ?; by eapply Hsub, Hreg| |done|].
    { eapply Forall_impl; [exact Hes|]. intros [] Hok; cbn in *; auto. }
    exists m', heap', rows'. do 3 (split; [done|]). intros p rs Hp. destruct (Hsome p rs Hp) as (rs1 & Hp1 & Hs1 & _).
    destruct (Hs' p rs1 Hp1) as (rs' & Hp' & Hs2). exists rs'. split; [done|]. by eapply swept_trans.
Qed.

(** C38: The sweeper is invisible: after any registrations, starts, stops and
    timed sweeps of a new manager, no table has lost a row that a full scan from
    the last sweep on would return, registered or not. No [start], and no
    destruction of the manager, meets a joinable thread, which would end the
    program; one thread is in the loop while the manager runs and none
    otherwise. *)
Theorem sweeper_invisible interval limit events heap rows : heap_rep heap rows -> Forall (event_ok limit rows) events ->
  exists m' heap', run_ttl (TTLManager_new interval) heap events = Ret (m', heap') /\
    sweep_thread_ m' = running_ m' /\ loops m' = (if running_ m' then 1%nat else 0%nat) /\
    (exists m'', TTLManager_delete m' = Ret m'' /\ loops m'' = 0%nat) /\
    forall p t, is_Some (rows !! p) -> heap !! p = Some t -> exists t', heap' !! p = Some t' /\
      forall clock, (forall j, limit <= clock j) -> Table.scan_all t' clock = Table.scan_all t clock.
Proof.
  intros Hrep He. destruct (run_ttl_spec limit events (TTLManager_new interval) heap rows Hrep) as (m' & heap' & rows' & E & Hrep' & Hrun & Hs);
    [by intros ? ?|done|done|].
  exists m', heap'. split; [done|]. split; [apply Hrun|]. split; [apply Hrun|]. split.
  { unfold TTLManager_delete. destruct (stop_sweeper m' Hrun) as ([H1 H2] & H3 & _). rewrite H1, H3. eexists. split; [done|]. by rewrite H2, H3. }
  intros p t [rs Hp] Ht. destruct (Hrep p rs Hp) as (t0 & Ht0 & T).
  rewrite Ht in Ht0. injection Ht0 as <-. destruct (Hs p rs Hp) as (rs' & Hp' & Hsw). destruct (Hrep' p rs' Hp') as (t' & Ht' & T').
  exists t'. split; [done|]. intros clock Hck. by rewrite (scan_all_rep t' rs' T'), (scan_all_rep t rs T), (Hsw clock _ _ Hck).
Qed.
End sweeper.

(** *** A concrete sweep *)

#[export] Instance by_key : PointerOrder := fun m => map_to_list m.
#[export] Instance by_key_laws : PointerOrderLaws.
Proof. by intros m. Qed.

Definition ttl_rows : list stored := abs_ops sample_schema 10 sample_ops.

Definition ttl_outcome : outcome Table := t0 ← sample_table; run_ops t0 sample_ops.
Lemma ttl_outcome_returns : exists t, ttl_outcome = Ret t.
Proof.
  assert (E : match ttl_outcome with Ret _ => true | _ => false end = true) by (vm_compute; reflexivity).
  destruct ttl_outcome as [t| | |]; [by exists t|done..].
Qed.

Lemma table_of_ops t : ttl_outcome = Ret t -> tree_table t ttl_rows.
Proof.
  unfold ttl_outcome. intros E. apply bind_Ret_inv in E as (t0 & E0 & E).
  destruct (new_table_ops "T" sample_schema 10 t0 sample_ops sample_schema_ok E0 sample_ops_ok) as [Hoom|(t' & Et & _ & T)]; [cbn; lia| |].
  - by rewrite Hoom in E.
  - rewrite Et in E. injection E as <-. exact T.
Qed.

Lemma heap_of_one t rs : tree_table t rs -> heap_rep {[ 1%nat := t ]} {[ 1%nat := rs ]}.
Proof.
  intros T p rs' Hp. apply lookup_singleton_Some in Hp as [<- <-]. exists t. split; [by apply lookup_singleton_eq|done].
Qed.

Definition ttl_events : list ttl_event :=
  [Register "T" 1; Tick (fun _ => 50); Start; Start; Tick (fun _ => 111); Unregister "T"; Tick (fun _ => 112); Stop].

Lemma sweep_exact_witness : exists t, ttl_outcome = Ret t /\ exists n heap' t',
  sweep_now (register_table (TTLManager_new 30) "T" 1) (fun _ => 112) {[ 1%nat := t ]} = Ret (n, heap') /\
  heap' !! 1%nat = Some t' /\ exists rows, Table.scan_all t' (fun _ => 112) = Ret rows /\ row_count_ t' = u64 (Z.of_nat (length rows)).
Proof.
  destruct ttl_outcome_returns as [t Et]. exists t. split; [exact Et|]. pose proof (table_of_ops t Et) as T. clear Et.
  destruct (sweep_exact (register_table (TTLManager_new 30) "T" 1) (fun _ => 112) 112 {[ 1%nat := t ]} {[ 1%nat := ttl_rows ]}) as (n & heap' & E & H).
  - intros _. lia.
  - exact (heap_of_one t ttl_rows T).
  - intros name p. cbn. rewrite insert_empty, lookup_singleton_Some. intros [_ <-]. exists ttl_rows. by apply lookup_singleton_eq.
  - destruct (H "T" 1%nat t) as (t' & Ht' & Hrows & _); [by cbn; rewrite lookup_insert_eq|by apply lookup_singleton_eq|].
    exists n, heap', t'. split; [exact E|]. split; [exact Ht'|exact Hrows].
Defined.

Lemma sweeper_invisible_witness : exists t, ttl_outcome = Ret t /\ exists m' heap' t',
  run_ttl (TTLManager_new 30) {[ 1%nat := t ]} ttl_events = Ret (m', heap') /\
  sweep_thread_ m' = running_ m' /\ heap' !! 1%nat = Some t' /\ Table.scan_all t' (fun _ => 115) = Table.scan_all t (fun _ => 115).
Proof.
  destruct ttl_outcome_returns as [t Et]. exists t. split; [exact Et|]. pose proof (table_of_ops t Et) as T. clear Et.
  destruct (sweeper_invisible 30 112 ttl_events {[ 1%nat := t ]} {[ 1%nat := ttl_rows ]} (heap_of_one t ttl_rows T)) as (m' & heap' & E & Hrun & _ & _ & H).
  - unfold ttl_events. repeat (apply Forall_cons_2; [first [exact I|intros _; lia|by exists ttl_rows; apply lookup_singleton_eq]|]). apply Forall_nil_2.
  - destruct (H 1%nat t) as (t' & Ht' & Hscan); [exists ttl_rows; by apply lookup_singleton_eq|by apply lookup_singleton_eq|].
    exists m', heap', t'. split; [exact E|]. split; [exact Hrun|]. split; [exact Ht'|]. apply Hscan. intros _. lia.
Defined.
