(* ===== verification/Background.v ===== *)
(** * The background services of a database ([Database::start], [stop])

    A [Database] starts and stops its TTL manager. No code registers a table
    with it, so its sweeps remove nothing: expired rows stay in the arenas, and
    only the reads leave them out. *)

From Stdlib Require Import ZArith Lia.
From stdpp Require Import base strings gmap numbers list list_numbers.
From S2P Require Import Prelude Cpp Common Schema Arena BPTree BPTreeRep BPTreeInsert Index Table TableRep TableSpec Ttl.
Open Scope list_scope.
Open Scope Z_scope.

(** The members of [Database] that [start] and [stop] work on. *)
Record Services := mkServices { ttl_mgr_ : TTLManager; started_ : bool }.

Definition Services_new (ttl_sweep_interval : Z) : Services := mkServices (TTLManager_new ttl_sweep_interval) false.
Definition Database_start (s : Services) : outcome Services :=
  if started_ s then Ret s else m ← start (ttl_mgr_ s); Ret (mkServices m true).
Definition Database_stop (s : Services) : Services := if started_ s then mkServices (stop (ttl_mgr_ s)) false else s.

(** Calls of [start] and [stop], and waits of the sweeper that time out. *)
Inductive service_event :=
  | Service_start
  | Service_stop
  | Sweep (now : string -> Z).

Fixpoint run_services `{PointerOrder} (s : Services) (heap : Heap) (events : list service_event) : outcome (Services * Heap) :=
  match events with
  | [] => Ret (s, heap)
  | Service_start :: events => s ← Database_start s; run_services s heap events
  | Service_stop :: events => run_services (Database_stop s) heap events
  | Sweep now :: events => heap ← tick (ttl_mgr_ s) now heap; run_services s heap events
  end.

(** The sweeper runs exactly between a [start] and the next [stop], in one
    thread, and changes no table. *)
Theorem sweeps_nothing `{PointerOrderLaws} interval heap events : exists s, run_services (Services_new interval) heap events = Ret (s, heap) /\
  started_ s = running_ (ttl_mgr_ s) /\ one_sweeper (ttl_mgr_ s) /\ tables_ (ttl_mgr_ s) = ∅.
Proof.
  assert (Hgen : forall s, started_ s = running_ (ttl_mgr_ s) -> one_sweeper (ttl_mgr_ s) -> tables_ (ttl_mgr_ s) = ∅ ->
    exists s', run_services s heap events = Ret (s', heap) /\ started_ s' = running_ (ttl_mgr_ s') /\ one_sweeper (ttl_mgr_ s') /\ tables_ (ttl_mgr_ s') = ∅);
    [|by apply Hgen].
  induction events as [|[| |now] events IH]; intros s H1 H2 H3; cbn [run_services]; [by exists s|..].
  - unfold Database_start. destruct (started_ s) eqn:Es; outcome_simpl; [by apply IH; congruence|].
    unfold start. rewrite <- H1, (proj1 H2), <- H1. outcome_simpl. apply IH; [done| |done]. split; [done|]. cbn. by rewrite (proj2 H2), <- H1.
  - unfold Database_stop. destruct (started_ s) eqn:Es; [|by apply IH; congruence].
    destruct (stop_sweeper _ H2) as (H4 & H5 & H6). apply IH; cbn [started_ ttl_mgr_]; [done|done|by rewrite H6].
  - assert (E : tick (ttl_mgr_ s) now heap = Ret heap).
    { unfold tick, sweep_now. destruct (_ && _); [|done]. pose proof (pointer_order_perm (tables_ (ttl_mgr_ s))) as Hp.
      rewrite H3, map_to_list_empty in Hp. symmetry in Hp. apply Permutation_nil in Hp. rewrite H3. by rewrite Hp. }
    rewrite E. by apply IH.
Qed.
