(* ===== verification/Concurrency.v ===== *)
(** * Statements that run at the same time

    Connections share one [Executor]; each statement runs on a thread of the
    pool. A step of the model is what a thread does between two operations on
    locks: it takes [tables_mutex_] and the [mutex_] of a table the way
    [exec_create_table], [exec_insert], [exec_select] and the scans and
    [insert] of [Table] do, works on the shared tables and cache, and lets go.
    The cache has its own mutex around each call, so a call of it is one step.
    An exception unwinds its thread, which lets go of its locks. *)

From Stdlib Require Import ZArith Lia Ascii.
From stdpp Require Import base strings gmap numbers list list_numbers.
From S2P Require Import Prelude Cpp Common Schema Arena BPTree Table TableSpec Lexer Parser Cache Executor JoinSpec SessionSpec LockManager.
Open Scope string_scope.
Open Scope list_scope.
Open Scope Z_scope.

(** ** State *)

(** What the threads share; the mutex of a table nobody has locked need not be listed. *)
Record Shared := mkShared {
  executor : Executor;
  tables_mutex_ : shared_mutex;
  mutex_ : gmap string shared_mutex;
}.

Definition unlocked : shared_mutex := mkMutex 0 false.
Definition table_mutex (sh : Shared) (name : string) : shared_mutex := default unlocked (mutex_ sh !! name).

Definition set_executor (ex : Executor) (sh : Shared) : Shared := mkShared ex (tables_mutex_ sh) (mutex_ sh).

(** Where a thread stands. [_wait] is before [tables_mutex_] is taken, [_in]
    inside an access to a table, that is, after its lock, if any, was taken. *)
Inductive thread :=
  | Parse (sql : string)
  | Create_wait (stmt : CreateTableStmt)
  | Create_in (stmt : CreateTableStmt)
  | Insert_wait (stmt : InsertStmt)
  | Insert_row (table_name : string) (batch : list (list string)) (rows_inserted : nat)
  | Insert_in (table_name : string) (row : Row) (batch : list (list string)) (rows_inserted : nat)
  | Insert_done (table_name : string) (rows_inserted : nat)
  | Select_cache (stmt : SelectStmt) (raw_sql : string)
  | Select_wait (stmt : SelectStmt) (raw_sql : string)
  | Select_scan (stmt : SelectStmt) (raw_sql : string)
  | Select_in (stmt : SelectStmt) (raw_sql : string) (locked : bool)
  | Select_right (stmt : SelectStmt) (join : JoinClause) (raw_sql : string) (left_rows : list Row)
  | Select_right_in (stmt : SelectStmt) (join : JoinClause) (raw_sql : string) (left_rows : list Row)
  | Select_put (raw_sql : string) (result : QueryResult)
  | Returned (result : QueryResult)
  | Thrown (e : exn).

Record System := mkSystem { shared : Shared; threads : list thread }.

(** ** Locks *)

Definition lock_tables (exclusive : bool) (sh : Shared) : option Shared :=
  x ← acquire exclusive (tables_mutex_ sh); Some (mkShared (executor sh) x (mutex_ sh)).
Definition unlock_tables (exclusive : bool) (sh : Shared) : Shared :=
  mkShared (executor sh) (release exclusive (tables_mutex_ sh)) (mutex_ sh).
Definition lock_table (exclusive : bool) (name : string) (sh : Shared) : option Shared :=
  x ← acquire exclusive (table_mutex sh name); Some (mkShared (executor sh) (tables_mutex_ sh) (<[name := x]> (mutex_ sh))).
Definition unlock_table (exclusive : bool) (name : string) (sh : Shared) : Shared :=
  mkShared (executor sh) (tables_mutex_ sh) (<[name := release exclusive (table_mutex sh name)]> (mutex_ sh)).

(** ** Steps *)

(** [execute]: where each statement begins. *)
Definition begin (stmt : Statement) (raw_sql : string) : thread :=
  match stmt with
  | CREATE_TABLE stmt => Create_wait stmt
  | INSERT stmt => Insert_wait stmt
  | SELECT stmt => Select_cache stmt raw_sql
  end.

(** What [exec_select] does first once it has the tables: give up, read one
    table (or the left one) under its lock, or go through the index, which
    [index_range] does without the lock. *)
Inductive access :=
  | Gives_up (result : QueryResult)
  | Scans
  | Ranges.

Definition plan_where (table : Table) (w : option WhereClause) : outcome access :=
  match w with
  | None => Ret Scans
  | Some w =>
      let col_name := to_upper (cr_column (w_column w)) in
      let col_idx := find_column (schema_ table) col_name in
      if col_idx <? 0 then Ret (Gives_up (failed ("Unknown column in WHERE: " +:+ col_name))) else
      col ← column_at (schema_ table) col_idx;
      p ← parse_literal (w_literal w) (col_type col);
      if negb (String.eqb (fst p) "") then Ret (Gives_up (failed (fst p))) else
      Ret (if col_idx =? s32 (Schema.pk_index_ (schema_ table)) then Ranges else Scans)
  end.

Definition plan_join (ex : Executor) (table : Table) (join : JoinClause) : access :=
  let right_table_name := to_upper (j_right_table join) in
  match tables_ ex !! right_table_name with
  | None => Gives_up (failed ("Join table not found: " +:+ right_table_name))
  | Some right_table =>
      let left_on_col := to_upper (cr_column (j_left_col join)) in
      let right_on_col := to_upper (cr_column (j_right_col join)) in
      if find_column (schema_ table) left_on_col <? 0 then Gives_up (failed ("Unknown column in JOIN ON (left): " +:+ left_on_col)) else
      if find_column (schema_ right_table) right_on_col <? 0 then Gives_up (failed ("Unknown column in JOIN ON (right): " +:+ right_on_col))
      else Scans
  end.

Definition plan (ex : Executor) (stmt : SelectStmt) : outcome access :=
  let table_name := to_upper (se_table_name stmt) in
  match tables_ ex !! table_name with
  | None => Ret (Gives_up (failed ("Table not found: " +:+ table_name)))
  | Some table =>
      match se_join stmt with
      | Some join => Ret (plan_join ex table join)
      | None =>
          match projection (schema_ table) (select_cols (schema_ table) stmt) with
          | inl err => Ret (Gives_up (failed err))
          | inr _ => plan_where table (se_where stmt)
          end
      end
  end.

(** *** What a thread holds *)

Definition holds_tables (th : thread) : option bool :=
  match th with
  | Create_in _ => Some true
  | Insert_row _ _ _ | Insert_in _ _ _ _ | Insert_done _ _ | Select_scan _ _ | Select_in _ _ _ | Select_right _ _ _ _
  | Select_right_in _ _ _ _ | Select_put _ _ => Some false
  | _ => None
  end.

(** The table a thread reads or writes right now: its name, whether it writes,
    whether it has the lock. *)
Definition accesses (th : thread) : option (string * bool * bool) :=
  match th with
  | Insert_in name _ _ _ => Some (name, true, true)
  | Select_in stmt _ locked => Some (to_upper (se_table_name stmt), false, locked)
  | Select_right_in _ join _ _ => Some (to_upper (j_right_table join), false, true)
  | _ => None
  end.

(** The guards of a thread let go: of the table it is in, then of the tables. *)
Definition unwind (th : thread) (sh : Shared) : Shared :=
  let sh := match accesses th with Some (name, exclusive, true) => unlock_table exclusive name sh | _ => sh end in
  match holds_tables th with Some exclusive => unlock_tables exclusive sh | None => sh end.

Section steps.
Context `{malloc : Malloc, std_hash : StdHash}.

(** After the right table has been scanned too. *)
Definition join_tables (ex : Executor) (stmt : SelectStmt) (join : JoinClause) (left_rows right_rows : list Row) : outcome QueryResult :=
  let table_name := to_upper (se_table_name stmt) in
  let right_table_name := to_upper (j_right_table join) in
  table ← deref (tables_ ex !! table_name);
  right_table ← deref (tables_ ex !! right_table_name);
  join_scanned stmt (mkSides table_name (schema_ table) right_table_name (schema_ right_table)) join
    (find_column (schema_ table) (to_upper (cr_column (j_left_col join))))
    (find_column (schema_ right_table) (to_upper (cr_column (j_right_col join)))) left_rows right_rows.

(** One row of the loop of [exec_insert]: its checks, and the lock of [Table::insert]. *)
Definition insert_row (sh : Shared) (table_name : string) (row_vals : list string) (batch : list (list string)) (rows_inserted : nat)
    : outcome (option (Shared * thread)) :=
  table ← deref (tables_ (executor sh) !! table_name);
  let schema := schema_ table in
  let fails err := Ret (Some (unlock_tables false sh, Returned (failed err))) in
  if negb (length row_vals =? num_columns schema)%nat then
    fails ("Column count mismatch: expected " +:+ to_string_Z (Z.of_nat (num_columns schema)) +:+
             ", got " +:+ to_string_Z (Z.of_nat (length row_vals)))
  else
    pr ← parse_row (columns_ schema) row_vals;
    match pr with
    | inl err => fails err
    | inr row =>
        match validate_row schema row with
        | Some err => fails err
        | None => Ret (sh' ← lock_table true table_name sh; Some (sh', Insert_in table_name row batch rows_inserted))
        end
    end.

(** The rest of [Table::insert], which then unlocks. *)
Definition insert_in (ck : Clocks) (sh : Shared) (table_name : string) (row : Row) (batch : list (list string)) (rows_inserted : nat)
    : outcome (option (Shared * thread)) :=
  let ex := executor sh in
  table ← deref (tables_ ex !! table_name);
  res ← Table.insert table (ck_insert ck rows_inserted) row;
  let sh := unlock_table true table_name (set_executor (mkExecutor (<[table_name := snd res]> (tables_ ex)) (cache_ ex)) sh) in
  match fst res with
  | Some err => Ret (Some (unlock_tables false sh, Returned (failed err)))
  | None => Ret (Some (sh, Insert_row table_name batch (S rows_inserted)))
  end.

Definition select_scan (sh : Shared) (stmt : SelectStmt) (raw_sql : string) : outcome (option (Shared * thread)) :=
  p ← plan (executor sh) stmt;
  match p with
  | Gives_up result => Ret (Some (unlock_tables false sh, Returned result))
  | Scans => Ret (sh' ← lock_table false (to_upper (se_table_name stmt)) sh; Some (sh', Select_in stmt raw_sql true))
  | Ranges => Ret (Some (sh, Select_in stmt raw_sql false))
  end.

(** A result goes to the cache when it is one. *)
Definition select_end (sh : Shared) (raw_sql : string) (result : QueryResult) : outcome (option (Shared * thread)) :=
  if success result then Ret (Some (sh, Select_put raw_sql result)) else Ret (Some (unlock_tables false sh, Returned result)).

(** The read of the table. Under its lock that is one step; a read through the
    index, [locked = false], takes no lock, so it is a race, not this step, when
    a writer is inside ([race_reached]). *)
Definition select_in (ck : Clocks) (sh : Shared) (stmt : SelectStmt) (raw_sql : string) (locked : bool) : outcome (option (Shared * thread)) :=
  let table_name := to_upper (se_table_name stmt) in
  table ← deref (tables_ (executor sh) !! table_name);
  let sh' := if locked then unlock_table false table_name sh else sh in
  match se_join stmt with
  | Some join => left_rows ← scan_all table (ck_left ck); Ret (Some (sh', Select_right stmt join raw_sql left_rows))
  | None => result ← select_plain ck stmt table; select_end sh' raw_sql result
  end.

Definition select_right_in (ck : Clocks) (sh : Shared) (stmt : SelectStmt) (join : JoinClause) (raw_sql : string) (left_rows : list Row)
    : outcome (option (Shared * thread)) :=
  let right_table_name := to_upper (j_right_table join) in
  right_table ← deref (tables_ (executor sh) !! right_table_name);
  right_rows ← scan_all right_table (ck_right ck);
  result ← join_tables (executor sh) stmt join left_rows right_rows;
  select_end (unlock_table false right_table_name sh) raw_sql result.

(** One step of a thread; [None] when it has to wait, or has nothing left to do. *)
Definition thread_step (ck : Clocks) (sh : Shared) (th : thread) : outcome (option (Shared * thread)) :=
  let ex := executor sh in
  match th with
  | Parse sql =>
      match parse_sql sql with
      | Ret (inl err) => Ret (Some (sh, Returned (failed ("Parse error: " +:+ err))))
      | Ret (inr stmt) => Ret (Some (sh, begin stmt sql))
      | Throw e => Ret (Some (sh, Thrown e))
      | Undef => Undef
      | Diverge => Diverge
      end
  | Create_wait stmt => Ret (sh ← lock_tables true sh; Some (sh, Create_in stmt))
  | Create_in stmt =>
      res ← exec_create_table ex stmt;
      Ret (Some (unlock_tables true (set_executor (snd res) sh), Returned (fst res)))
  | Insert_wait stmt =>
      let table_name := to_upper (in_table_name stmt) in
      Ret (sh ← lock_tables false sh;
           Some match tables_ ex !! table_name with
                | None => (unlock_tables false sh, Returned (failed ("Table not found: " +:+ table_name)))
                | Some _ => (sh, Insert_row table_name (in_batch_values stmt) 0)
                end)
  | Insert_row table_name [] rows_inserted => Ret (Some (sh, Insert_done table_name rows_inserted))
  | Insert_row table_name (row_vals :: batch) rows_inserted => insert_row sh table_name row_vals batch rows_inserted
  | Insert_in table_name row batch rows_inserted => insert_in ck sh table_name row batch rows_inserted
  | Insert_done table_name rows_inserted =>
      cache ← invalidate_table (cache_ ex) table_name;
      Ret (Some (unlock_tables false (set_executor (mkExecutor (tables_ ex) cache) sh),
                 Returned (done_with (to_string_Z (Z.of_nat rows_inserted) +:+ " rows inserted"))))
  | Select_cache stmt raw_sql =>
      if String.eqb raw_sql "" then Ret (Some (sh, Select_wait stmt raw_sql)) else
      hit ← get (cache_ ex) raw_sql;
      let sh := set_executor (mkExecutor (tables_ ex) (snd hit)) sh in
      Ret (Some (sh, match fst hit with
                     | Some cached => Returned (selected (cd_column_names cached) (cd_rows cached))
                     | None => Select_wait stmt raw_sql
                     end))
  | Select_wait stmt raw_sql => Ret (sh ← lock_tables false sh; Some (sh, Select_scan stmt raw_sql))
  | Select_scan stmt raw_sql => select_scan sh stmt raw_sql
  | Select_in stmt raw_sql locked => select_in ck sh stmt raw_sql locked
  | Select_right stmt join raw_sql left_rows =>
      Ret (sh ← lock_table false (to_upper (j_right_table join)) sh; Some (sh, Select_right_in stmt join raw_sql left_rows))
  | Select_right_in stmt join raw_sql left_rows => select_right_in ck sh stmt join raw_sql left_rows
  | Select_put raw_sql result =>
      cache ← (if String.eqb raw_sql "" then Ret (cache_ ex)
               else put (cache_ ex) raw_sql (mkCached (column_names result) (rows result)));
      Ret (Some (unlock_tables false (set_executor (mkExecutor (tables_ ex) cache) sh), Returned result))
  | Returned _ | Thrown _ => Ret None
  end.

(** An exception leaves what the thread had done before the step as it is. Those
    modelled come before the step changes a table: what the parser throws, and
    [std::bad_alloc] of an arena's chunk, in [Table::insert] before the row is
    recorded and in the constructor of [Table]. (The growth of [rows_] and the
    nodes of the index, which come after, are taken to get their memory.) The
    task of the pool holds the exception; the destructors of the guards on the
    thread's stack let go of the locks. *)
Definition thread_run (ck : Clocks) (sh : Shared) (th : thread) : outcome (option (Shared * thread)) :=
  match thread_step ck sh th with
  | Throw e => Ret (Some (unwind th sh, Thrown e))
  | o => o
  end.

(** The [i]-th thread steps, and reads the times [ck] when it reads any. *)
Definition sys_step (i : nat) (ck : Clocks) (s : System) : outcome (option System) :=
  match threads s !! i with
  | None => Ret None
  | Some th =>
      r ← thread_run ck (shared s) th;
      Ret (p ← r; Some (mkSystem (fst p) (<[i := snd p]> (threads s))))
  end.

(** A schedule names the thread of each step; [None] when it names one that cannot move. *)
Fixpoint run_schedule (schedule : list (nat * Clocks)) (s : System) : outcome (option System) :=
  match schedule with
  | [] => Ret (Some s)
  | (i, ck) :: schedule =>
      r ← sys_step i ck s;
      match r with None => Ret None | Some s => run_schedule schedule s end
  end.

Definition initial (ex : Executor) (ths : list thread) : System := mkSystem (mkShared ex unlocked ∅) ths.
End steps.

(** ** Who holds which lock *)

Definition holds_table (name : string) (th : thread) : option bool :=
  match accesses th with
  | Some (n, exclusive, true) => if decide (n = name) then Some exclusive else None
  | _ => None
  end.

(** How many threads hold a lock that way. *)
Definition holders (held : thread -> option bool) (exclusive : bool) (ths : list thread) : nat :=
  length (filter (fun th => held th = Some exclusive) ths).

(** A mutex counts its holders. *)
Definition agrees (x : shared_mutex) (held : thread -> option bool) (ths : list thread) : Prop :=
  readers x = holders held false ths /\ holders held true ths = (if writer x then 1 else 0)%nat /\ (writer x = true -> readers x = 0%nat).

Definition locks_inv (s : System) : Prop :=
  agrees (tables_mutex_ (shared s)) holds_tables (threads s) /\
  forall name, agrees (table_mutex (shared s) name) (holds_table name) (threads s).

(** A thread that goes from [before] to [after] takes a mutex, lets it go, or leaves it. *)
Definition mutex_move (x : shared_mutex) (before : option bool) (x' : shared_mutex) (after : option bool) : Prop :=
  match before, after with
  | None, Some e => acquire e x = Some x'
  | Some e, None => x' = release e x
  | _, _ => x' = x /\ before = after
  end.

Definition counts (exclusive : bool) (h : option bool) : nat :=
  match h with Some e => if Bool.eqb e exclusive then 1 else 0 | None => 0 end.

Lemma holders_cons held e th ths : holders held e (th :: ths) = (counts e (held th) + holders held e ths)%nat.
Proof. unfold holders, counts. rewrite filter_cons. destruct (held th) as [[|]|], e; case_decide; (done || congruence). Qed.

Lemma holders_insert held e ths i th th' : ths !! i = Some th ->
  (holders held e (<[i := th']> ths) + counts e (held th) = holders held e ths + counts e (held th'))%nat.
Proof.
  revert i. induction ths as [|t ths IH]; intros [|i] Hi; try done.
  - injection Hi as ->. change (<[0%nat := th']> (th :: ths)) with (th' :: ths). rewrite !holders_cons. lia.
  - change (<[S i := th']> (t :: ths)) with (t :: <[i := th']> ths). rewrite !holders_cons. specialize (IH i Hi). lia.
Qed.

Lemma holders_pos held e ths i th : ths !! i = Some th -> held th = Some e -> (0 < holders held e ths)%nat.
Proof.
  intros Hi Hh. assert (Hin : th ∈ filter (fun th => held th = Some e) ths) by (apply list_elem_of_filter; split; [done|by eapply list_elem_of_lookup_2]).
  unfold holders. destruct (filter _ ths); [by apply elem_of_nil in Hin|cbn; lia].
Qed.

Lemma agrees_move x x' held ths i th th' : agrees x held ths -> ths !! i = Some th -> mutex_move x (held th) x' (held th') ->
  agrees x' held (<[i := th']> ths).
Proof.
  intros (H1 & H2 & H3) Hi Hm. pose proof (holders_insert held false ths i th th' Hi) as Hf.
  pose proof (holders_insert held true ths i th th' Hi) as Ht. unfold agrees, mutex_move, acquire, release in *.
  destruct x as [r w]. cbn [readers writer] in *.
  assert (Hsame : held th = held th' -> x' = mkMutex r w -> readers x' = holders held false (<[i:=th']> ths) /\
    holders held true (<[i:=th']> ths) = (if writer x' then 1 else 0)%nat /\ (writer x' = true -> readers x' = 0%nat)).
  { intros E ->. rewrite E in *. cbn [readers writer]. split; [lia|]. split; [lia|done]. }
  destruct (held th) as [[|]|], (held th') as [[|]|]; cbn in *;
    try (destruct Hm as [? ?]; by apply Hsame); clear Hsame; destruct w; cbn in *; try specialize (H3 eq_refl); try done.
  all: try (subst x'; cbn in *; repeat split; (lia || done)).
  - by destruct (r =? 0)%nat.
  - destruct (Nat.eqb_spec r 0); [|done]. injection Hm as <-. cbn. repeat split; lia.
  - injection Hm as <-. cbn. repeat split; (lia || done).
Qed.

Definition locks_move (sh : Shared) (th : thread) (sh' : Shared) (th' : thread) : Prop :=
  mutex_move (tables_mutex_ sh) (holds_tables th) (tables_mutex_ sh') (holds_tables th') /\
  forall name, mutex_move (table_mutex sh name) (holds_table name th) (table_mutex sh' name) (holds_table name th').

Lemma lock_tables_Some e sh sh' : lock_tables e sh = Some sh' -> exists x, acquire e (tables_mutex_ sh) = Some x /\
  sh' = mkShared (executor sh) x (mutex_ sh).
Proof. unfold lock_tables. destruct (acquire e _) as [x|]; [|done]. intros [= <-]. by exists x. Qed.

Lemma lock_table_Some e name sh sh' : lock_table e name sh = Some sh' -> exists x, acquire e (table_mutex sh name) = Some x /\
  sh' = mkShared (executor sh) (tables_mutex_ sh) (<[name := x]> (mutex_ sh)).
Proof. unfold lock_table. destruct (acquire e _) as [x|]; [|done]. intros [= <-]. by exists x. Qed.

Lemma table_mutex_insert ex x m name y n : table_mutex (mkShared ex x (<[name := y]> m)) n = if decide (name = n) then y else default unlocked (m !! n).
Proof. unfold table_mutex. cbn. case_decide as E; [subst; by rewrite lookup_insert_eq|by rewrite lookup_insert_ne]. Qed.

(** Take apart [H : (x ← o; f x) = Ret b]. *)
Ltac bind_inv H :=
  lazymatch type of H with
  | mbind _ _ = Ret _ => let x := fresh "x" in let E := fresh "E" in apply bind_Ret_inv in H as (x & E & H)
  end.

(** Solve [locks_move] between known threads, after at most one operation on each lock. *)
Ltac solve_move :=
  split;
  [ try done
  | let n := fresh "m" in intros n; unfold unlock_tables, unlock_table, holds_table; cbn [accesses executor mutex_ tables_mutex_ set_executor];
    rewrite ?table_mutex_insert; try case_decide; try done; subst; try done ].

Section invariant.
Context `{malloc : Malloc, std_hash : StdHash}.

Lemma select_end_locks sh raw result sh' th' th : select_end sh raw result = Ret (Some (sh', th')) ->
  holds_tables th = Some false -> exists x ex, sh' = mkShared ex x (mutex_ sh) /\ accesses th' = None /\
    mutex_move (tables_mutex_ sh) (holds_tables th) x (holds_tables th').
Proof.
  unfold select_end. intros H ->. destruct (success result); injection H as <- <-.
  - by exists (tables_mutex_ sh), (executor sh); destruct sh.
  - by eexists _, (executor sh).
Qed.

Lemma insert_row_locks sh name row_vals batch n sh' th' : insert_row sh name row_vals batch n = Ret (Some (sh', th')) ->
  locks_move sh (Insert_row name (row_vals :: batch) n) sh' th'.
Proof.
  unfold insert_row. intros H. bind_inv H. destruct (negb _); [injection H as <- <-; solve_move|]. bind_inv H.
  destruct x0 as [err|row]; [injection H as <- <-; solve_move|].
  destruct (validate_row _ row) as [err|]; [injection H as <- <-; solve_move|].
  destruct (lock_table true name sh) as [sh1|] eqn:El; [|done]. injection H as <- <-. apply lock_table_Some in El as (y & Ey & ->). solve_move.
Qed.

Lemma insert_in_locks ck sh name row batch n sh' th' : insert_in ck sh name row batch n = Ret (Some (sh', th')) ->
  locks_move sh (Insert_in name row batch n) sh' th'.
Proof. unfold insert_in. intros H. bind_inv H. bind_inv H. destruct (fst x0); injection H as <- <-; solve_move. Qed.

Lemma select_scan_locks sh stmt raw sh' th' : select_scan sh stmt raw = Ret (Some (sh', th')) ->
  locks_move sh (Select_scan stmt raw) sh' th'.
Proof.
  unfold select_scan. intros H. bind_inv H. destruct x as [r| |]; [injection H as <- <-; solve_move| |injection H as <- <-; solve_move].
  destruct (lock_table false _ sh) as [sh1|] eqn:El; [|done]. injection H as <- <-. apply lock_table_Some in El as (y & Ey & ->). solve_move.
Qed.

Lemma select_in_locks ck sh stmt raw locked sh' th' : select_in ck sh stmt raw locked = Ret (Some (sh', th')) ->
  locks_move sh (Select_in stmt raw locked) sh' th'.
Proof.
  unfold select_in. intros H. bind_inv H. destruct (se_join stmt) as [join|]; bind_inv H.
  - injection H as <- <-. destruct locked; solve_move.
  - eapply (select_end_locks _ _ _ _ _ (Select_in stmt raw locked)) in H as (y & ex & -> & Ha & Hm); [|done].
    destruct locked; split; [done| |done|]; intros n; unfold holds_table; rewrite Ha; cbn; [|done].
    unfold unlock_table. cbn. rewrite table_mutex_insert. by case_decide; subst.
Qed.

Lemma select_right_in_locks ck sh stmt join raw left_rows sh' th' : select_right_in ck sh stmt join raw left_rows = Ret (Some (sh', th')) ->
  locks_move sh (Select_right_in stmt join raw left_rows) sh' th'.
Proof.
  unfold select_right_in. intros H. bind_inv H. bind_inv H. bind_inv H.
  eapply (select_end_locks _ _ _ _ _ (Select_right_in stmt join raw left_rows)) in H as (y & ex & -> & Ha & Hm); [|done].
  split; [done|]. intros n. unfold holds_table. rewrite Ha. cbn. unfold unlock_table. cbn. rewrite table_mutex_insert. by case_decide; subst.
Qed.

Lemma thread_step_locks ck sh th sh' th' : thread_step ck sh th = Ret (Some (sh', th')) -> locks_move sh th sh' th'.
Proof.
  destruct th as [sql|stmt|stmt|stmt|name [|row_vals batch] n|name row batch n|name n|stmt raw|stmt raw|stmt raw|stmt raw locked
    |stmt join raw left_rows|stmt join raw left_rows|raw result|r|e]; cbn [thread_step]; intros H.
  - destruct (parse_sql sql) as [[err|[stmt|stmt|stmt]]|e| |]; try done; injection H as <- <-; solve_move.
  - destruct (lock_tables true sh) as [sh1|] eqn:El; [|done]. injection H as <- <-. apply lock_tables_Some in El as (y & Ey & ->). solve_move.
  - bind_inv H. injection H as <- <-. solve_move.
  - destruct (lock_tables false sh) as [sh1|] eqn:El; [|done]. apply lock_tables_Some in El as (y & Ey & ->).
    destruct (tables_ _ !! _); injection H as <- <-; [solve_move|]. unfold unlock_tables. cbn.
    split; [|done]. unfold acquire, release in *. cbn. destruct (tables_mutex_ sh) as [r []]; [done|]. by injection Ey as <-.
  - injection H as <- <-. solve_move.
  - by apply insert_row_locks.
  - by eapply insert_in_locks.
  - bind_inv H. injection H as <- <-. solve_move.
  - destruct (String.eqb raw ""); [injection H as <- <-; solve_move|]. bind_inv H. destruct (fst x); injection H as <- <-; solve_move.
  - destruct (lock_tables false sh) as [sh1|] eqn:El; [|done]. injection H as <- <-. apply lock_tables_Some in El as (y & Ey & ->). solve_move.
  - by apply select_scan_locks.
  - by eapply select_in_locks.
  - destruct (lock_table false _ sh) as [sh1|] eqn:El; [|done]. injection H as <- <-. apply lock_table_Some in El as (y & Ey & ->). solve_move.
  - by eapply select_right_in_locks.
  - bind_inv H. injection H as <- <-. solve_move.
  - done.
  - done.
Qed.

Lemma unwind_locks sh th e : locks_move sh th (unwind th sh) (Thrown e).
Proof.
  destruct th as [sql|stmt|stmt|stmt|name [|row_vals batch] n|name row batch n|name n|stmt raw|stmt raw|stmt raw|stmt raw []
    |stmt join raw left_rows|stmt join raw left_rows|raw result|r|e']; unfold unwind; cbn [accesses holds_tables]; solve_move.
Qed.

Lemma thread_run_inv ck sh th o : thread_run ck sh th = Ret o ->
  thread_step ck sh th = Ret o \/ exists e, thread_step ck sh th = Throw e /\ o = Some (unwind th sh, Thrown e).
Proof. unfold thread_run. destruct (thread_step ck sh th) as [o'|e| |]; try done; intros [= <-]; [by left|right; by exists e]. Qed.

Lemma thread_run_locks ck sh th sh' th' : thread_run ck sh th = Ret (Some (sh', th')) -> locks_move sh th sh' th'.
Proof. intros [H|(e & _ & [= -> ->])]%thread_run_inv; [by eapply thread_step_locks|apply unwind_locks]. Qed.

(** ** Runs *)

(** A thread that has a statement, or its text, to execute. *)
Definition starting (th : thread) : Prop := (exists sql, th = Parse sql) \/ exists stmt raw_sql, th = begin stmt raw_sql.

Inductive sys_reachable (ex : Executor) (ths : list thread) : System -> Prop :=
  | sys_start : sys_reachable ex ths (initial ex ths)
  | sys_later i ck s s' : sys_reachable ex ths s -> sys_step i ck s = Ret (Some s') -> sys_reachable ex ths s'.

Lemma sys_step_inv i ck s s' : sys_step i ck s = Ret (Some s') -> exists th sh th',
  threads s !! i = Some th /\ thread_run ck (shared s) th = Ret (Some (sh, th')) /\ s' = mkSystem sh (<[i := th']> (threads s)).
Proof.
  unfold sys_step. destruct (threads s !! i) as [th|] eqn:Ei; [|done]. intros E. bind_inv E. destruct x as [[sh th']|]; [|done].
  injection E as <-. by exists th, sh, th'.
Qed.

Lemma run_schedule_reachable ex ths schedule : forall s s', sys_reachable ex ths s -> run_schedule schedule s = Ret (Some s') -> sys_reachable ex ths s'.
Proof.
  induction schedule as [|[i ck] schedule IH]; intros s s' Hr; cbn [run_schedule]; [by intros [= <-]|].
  intros E. bind_inv E. destruct x as [s1|]; [|done]. eapply IH; [|exact E]. by eapply sys_later.
Qed.

Lemma starting_holds th : starting th -> holds_tables th = None /\ accesses th = None.
Proof. by intros [[sql ->]|([]&raw&->)]. Qed.

Lemma holders_none held e ths : Forall (fun th => held th = None) ths -> holders held e ths = 0%nat.
Proof. induction 1 as [|th ths E _ IH]; [done|]. by rewrite holders_cons, E, IH. Qed.

Lemma agrees_unlocked held ths : Forall (fun th => held th = None) ths -> agrees unlocked held ths.
Proof. intros Hn. unfold agrees. rewrite !holders_none by done. done. Qed.

Lemma reachable_locks ex ths s : Forall starting ths -> sys_reachable ex ths s -> locks_inv s.
Proof.
  intros Hths. induction 1 as [|i ck s s' _ [IHt IHm] Hs].
  - split; [|intros name]; [|unfold table_mutex; cbn; rewrite lookup_empty]; apply agrees_unlocked; eapply Forall_impl; try exact Hths.
    + intros th Hth. by apply starting_holds.
    + intros th [_ Ha]%starting_holds. unfold holds_table. by rewrite Ha.
  - apply sys_step_inv in Hs as (th & sh & th' & Ei & Ea & ->). apply thread_run_locks in Ea as [Mt Mm].
    split; [|intros name]; cbn; by eapply agrees_move.
Qed.

(** ** Exclusion *)

Lemma holders_two held e ths : forall i j th th', ths !! i = Some th -> ths !! j = Some th' -> (i < j)%nat ->
  held th = Some e -> held th' = Some e -> (2 <= holders held e ths)%nat.
Proof.
  induction ths as [|t ths IH]; intros [|i] [|j] th th' Hi Hj Hlt E E'; try done; try lia.
  - injection Hi as ->. rewrite holders_cons, E. cbn. rewrite Bool.eqb_reflx. pose proof (holders_pos held e ths j th' Hj E'). lia.
  - rewrite holders_cons. specialize (IH i j th th' Hi Hj ltac:(lia) E E'). lia.
Qed.

Lemma agrees_excludes x held ths i j th th' : agrees x held ths -> ths !! i = Some th -> ths !! j = Some th' -> i <> j ->
  held th = Some true -> held th' = None.
Proof.
  intros (H1 & H2 & H3) Hi Hj Hne E. pose proof (holders_pos held true ths i th Hi E) as Hp.
  destruct (writer x); [|lia]. specialize (H3 eq_refl). destruct (held th') as [[|]|] eqn:E'; [exfalso|exfalso|done].
  - destruct (decide (i < j)%nat) as [Hlt|Hlt]; [pose proof (holders_two held true ths i j th th' Hi Hj Hlt E E')|
      pose proof (holders_two held true ths j i th' th Hj Hi ltac:(lia) E' E)]; lia.
  - pose proof (holders_pos held false ths j th' Hj E'). lia.
Qed.
End invariant.

(** ** Progress *)

Definition finished (th : thread) : Prop := match th with Returned _ | Thrown _ => True | _ => False end.

#[export] Instance finished_dec th : Decision (finished th).
Proof. destruct th; (left; exact I) || (right; exact id). Defined.

(** How many steps a thread has left at most. *)
Definition work (th : thread) : nat :=
  let start th := match th with
                  | Create_wait _ => 2
                  | Insert_wait stmt => 2 * length (in_batch_values stmt) + 3
                  | Select_cache _ _ => 7
                  | _ => 0
                  end%nat in
  match th with
  | Parse sql => match parse_sql sql with Ret (inr stmt) => S (start (begin stmt sql)) | _ => 1 end
  | Create_wait _ | Insert_wait _ | Select_cache _ _ => start th
  | Create_in _ => 1
  | Insert_row _ batch _ => 2 * length batch + 2
  | Insert_in _ _ batch _ => 2 * length batch + 3
  | Insert_done _ _ => 1
  | Select_wait _ _ => 6
  | Select_scan _ _ => 5
  | Select_in _ _ _ => 4
  | Select_right _ _ _ _ => 3
  | Select_right_in _ _ _ _ => 2
  | Select_put _ _ => 1
  | Returned _ | Thrown _ => 0
  end%nat.

Definition total_work (s : System) : nat := sum_list (work <$> threads s).

Section progress.
Context `{malloc : Malloc, std_hash : StdHash}.

Lemma select_end_work sh raw result sh' th' : select_end sh raw result = Ret (Some (sh', th')) -> (work th' <= 1)%nat.
Proof. unfold select_end. destruct (success result); intros [= <- <-]; cbn; lia. Qed.

Lemma thread_step_work ck sh th sh' th' : thread_step ck sh th = Ret (Some (sh', th')) -> (work th' < work th)%nat.
Proof.
  destruct th as [sql|stmt|stmt|stmt|name [|row_vals batch] n|name row batch n|name n|stmt raw|stmt raw|stmt raw|stmt raw locked
    |stmt join raw left_rows|stmt join raw left_rows|raw result|r|e]; cbn [thread_step work]; intros H.
  - destruct (parse_sql sql) as [[err|[stmt|stmt|stmt]]|e| |]; try done; injection H as <- <-; cbn; lia.
  - destruct (lock_tables true sh); [|done]. injection H as <- <-. cbn. lia.
  - bind_inv H. injection H as <- <-. cbn. lia.
  - destruct (lock_tables false sh); [|done]. cbn in H. destruct (tables_ _ !! _); injection H as <- <-; cbn; lia.
  - injection H as <- <-. cbn. lia.
  - unfold insert_row in H. bind_inv H. destruct (negb _); [injection H as <- <-; cbn; lia|]. bind_inv H.
    destruct x0; [injection H as <- <-; cbn; lia|]. destruct (validate_row _ _); [injection H as <- <-; cbn; lia|].
    destruct (lock_table true name sh); [|done]. injection H as <- <-. cbn. lia.
  - unfold insert_in in H. bind_inv H. bind_inv H. destruct (fst x0); injection H as <- <-; cbn; lia.
  - bind_inv H. injection H as <- <-. cbn. lia.
  - destruct (String.eqb raw ""); [injection H as <- <-; cbn; lia|]. bind_inv H. destruct (fst x); injection H as <- <-; cbn; lia.
  - destruct (lock_tables false sh); [|done]. injection H as <- <-. cbn. lia.
  - unfold select_scan in H. bind_inv H. destruct x; [injection H as <- <-; cbn; lia| |injection H as <- <-; cbn; lia].
    destruct (lock_table false _ sh); [|done]. injection H as <- <-. cbn. lia.
  - unfold select_in in H. bind_inv H. destruct (se_join stmt); bind_inv H; [injection H as <- <-; cbn; lia|].
    apply select_end_work in H. lia.
  - destruct (lock_table false _ sh); [|done]. injection H as <- <-. cbn. lia.
  - unfold select_right_in in H. bind_inv H. bind_inv H. bind_inv H. apply select_end_work in H. lia.
  - bind_inv H. injection H as <- <-. cbn. lia.
  - done.
  - done.
Qed.

Lemma thread_run_work ck sh th sh' th' : thread_run ck sh th = Ret (Some (sh', th')) -> (work th' < work th)%nat.
Proof.
  intros [H|(e & H & [= -> ->])]%thread_run_inv; [by eapply thread_step_work|]. destruct th; cbn [thread_step work] in *; try lia; try discriminate H.
  destruct (parse_sql sql) as [[]|?| |]; lia || discriminate H.
Qed.

Lemma sum_list_insert (ws : list nat) i w w' : ws !! i = Some w -> (sum_list (<[i := w']> ws) + w = sum_list ws + w')%nat.
Proof.
  revert i. induction ws as [|x ws IH]; intros [|i] E; try done.
  - injection E as ->. cbn. lia.
  - change (sum_list (<[S i := w']> (x :: ws))) with (x + sum_list (<[i := w']> ws))%nat.
    change (sum_list (x :: ws)) with (x + sum_list ws)%nat. specialize (IH i E). lia.
Qed.

Lemma total_work_step i ck s s' : sys_step i ck s = Ret (Some s') -> (total_work s' < total_work s)%nat.
Proof.
  intros Hs. apply sys_step_inv in Hs as (th & sh & th' & Ei & Ea & ->). apply thread_run_work in Ea. unfold total_work. cbn [threads].
  rewrite list_fmap_insert. assert (E : (work <$> threads s) !! i = Some (work th)) by by rewrite list_lookup_fmap, Ei.
  pose proof (sum_list_insert _ i _ (work th') E). lia.
Qed.

Lemma run_schedule_length schedule : forall s s', run_schedule schedule s = Ret (Some s') -> (length schedule + total_work s' <= total_work s)%nat.
Proof.
  induction schedule as [|[i ck] schedule IH]; intros s s'; cbn [run_schedule]; [intros [= <-]; cbn; lia|].
  intros E. bind_inv E. destruct x as [s1|]; [|done]. apply IH in E. apply total_work_step in E0. cbn. lia.
Qed.

(** What a thread that does not move waits for. *)
Lemma thread_step_blocked ck sh th : thread_step ck sh th = Ret None -> finished th \/
  (holds_tables th = None /\ accesses th = None /\ exists e, acquire e (tables_mutex_ sh) = None) \/
  (accesses th = None /\ exists name e, acquire e (table_mutex sh name) = None).
Proof.
  assert (Ht : forall e, lock_tables e sh = None -> acquire e (tables_mutex_ sh) = None) by (intros e; unfold lock_tables; by destruct (acquire e _)).
  assert (Hm : forall e name, lock_table e name sh = None -> exists name e, acquire e (table_mutex sh name) = None).
  { intros e name E. exists name, e. unfold lock_table in E. by destruct (acquire e _). }
  assert (Hend : forall sh raw result, select_end sh raw result <> Ret None) by (intros ? ? result; unfold select_end; by destruct (success result)).
  destruct th as [sql|stmt|stmt|stmt|name [|row_vals batch] n|name row batch n|name n|stmt raw|stmt raw|stmt raw|stmt raw locked
    |stmt join raw left_rows|stmt join raw left_rows|raw result|r|e]; cbn [thread_step]; intros H; try (by left); right.
  - by destruct (parse_sql sql) as [[err|stmt]|e| |].
  - left. split; [done|]. split; [done|]. exists true. apply Ht. by destruct (lock_tables true sh).
  - by bind_inv H.
  - left. split; [done|]. split; [done|]. exists false. apply Ht. by destruct (lock_tables false sh).
  - right. split; [done|]. unfold insert_row in H. bind_inv H. destruct (negb _); [done|]. bind_inv H. destruct x0; [done|].
    destruct (validate_row _ _); [done|]. apply (Hm true name). by destruct (lock_table true name sh).
  - unfold insert_in in H. bind_inv H. bind_inv H. by destruct (fst x0).
  - by bind_inv H.
  - destruct (String.eqb raw ""); [done|]. by bind_inv H.
  - left. split; [done|]. split; [done|]. exists false. apply Ht. by destruct (lock_tables false sh).
  - right. split; [done|]. unfold select_scan in H. bind_inv H. destruct x; try done. apply (Hm false (to_upper (se_table_name stmt))). by destruct (lock_table false _ sh).
  - unfold select_in in H. bind_inv H. destruct (se_join stmt); bind_inv H; [done|]. by apply Hend in H.
  - right. split; [done|]. apply (Hm false (to_upper (j_right_table join))). by destruct (lock_table false _ sh).
  - unfold select_right_in in H. bind_inv H. bind_inv H. bind_inv H. by apply Hend in H.
  - by bind_inv H.
Qed.
End progress.

(** ** Theorems *)

(** C16: Locking: while one thread creates a table, no other is anywhere inside
    its statement; and two threads never access one table at the same time, one
    of them writing, if both took its lock — which all do but [index_range]. *)
Theorem locked_accesses_exclude `{malloc : Malloc, std_hash : StdHash} ex ths s i j th th' : Forall starting ths -> sys_reachable ex ths s ->
  i <> j -> threads s !! i = Some th -> threads s !! j = Some th' ->
  (holds_tables th = Some true -> holds_tables th' = None) /\
  (forall name w w' l l', accesses th = Some (name, w, l) -> accesses th' = Some (name, w', l') -> w || w' = true -> l && l' = false).
Proof.
  intros Hths Hr Hne Hi Hj. destruct (reachable_locks ex ths s Hths Hr) as [It Im]. split; [by eapply agrees_excludes|].
  intros name w w' l l' A A' Hw. destruct l, l'; try done. exfalso.
  assert (E : holds_table name th = Some w) by (unfold holds_table; rewrite A; by case_decide).
  assert (E' : holds_table name th' = Some w') by (unfold holds_table; rewrite A'; by case_decide).
  destruct w.
  - pose proof (agrees_excludes _ _ _ i j th th' (Im name) Hi Hj Hne E). congruence.
  - cbn in Hw. subst w'. pose proof (agrees_excludes _ _ _ j i th' th (Im name) Hj Hi ltac:(done) E'). congruence.
Qed.

Lemma agrees_free x held ths e : agrees x held ths -> (forall th, th ∈ ths -> held th = None) -> acquire e x <> None.
Proof.
  intros (H1 & H2 & _) Hn. rewrite !holders_none in * by (by apply Forall_forall). destruct x as [r w]. cbn in *. subst r.
  unfold acquire. cbn. destruct w; [done|]. by destruct e.
Qed.

(** A thread that satisfies [p] and then cannot be blocked, if there is one. *)
Lemma find_thread (p : thread -> bool) (ths : list thread) : (exists i th, ths !! i = Some th /\ p th = true) \/ (forall th, th ∈ ths -> p th = false).
Proof.
  induction ths as [|t ths IH]; [right; intros th Hth; by apply elem_of_nil in Hth|].
  destruct (p t) eqn:E; [left; by exists 0%nat, t|]. destruct IH as [(i & th & Hi & Hp)|Hn]; [left; by exists (S i), th|right].
  intros th [->|Hth]%elem_of_cons; auto.
Qed.

(** Where the mutexes agree with the threads, one of them can move, unless all
    are done: one inside a table, else one that holds the tables, else any. *)
Lemma some_can_move `{std_hash : StdHash} sh ths : agrees (tables_mutex_ sh) holds_tables ths -> (forall name, agrees (table_mutex sh name) (holds_table name) ths) ->
  Forall finished ths \/ exists i th, ths !! i = Some th /\ forall (malloc : Malloc) ck, thread_step ck sh th <> Ret None.
Proof.
  intros It Im.
  destruct (find_thread (fun th => match accesses th with Some _ => true | None => false end) ths) as [(i & th & Hi & Hp)|Hfree].
  { right. exists i, th. split; [done|]. intros malloc ck [Hf|[(_ & E & _)|(E & _)]]%thread_step_blocked; [by destruct th| |]; by rewrite E in Hp. }
  assert (Hm : forall name e, acquire e (table_mutex sh name) <> None).
  { intros name e. eapply agrees_free; [apply Im|]. intros th Hth. unfold holds_table. apply Hfree in Hth. by destruct (accesses th). }
  destruct (find_thread (fun th => match holds_tables th with Some _ => true | None => false end) ths) as [(i & th & Hi & Hp)|Hnone].
  { right. exists i, th. split; [done|]. intros malloc ck [Hf|[(E & _)|(_ & name & e & E)]]%thread_step_blocked; [by destruct th| |by apply Hm in E]. by rewrite E in Hp. }
  assert (Ht : forall e, acquire e (tables_mutex_ sh) <> None).
  { intros e. eapply agrees_free; [apply It|]. intros th Hth. apply Hnone in Hth. by destruct (holds_tables th). }
  destruct (decide (Forall finished ths)) as [|Hf]; [by left|right]. apply not_Forall_Exists in Hf; [|apply _].
  apply Exists_exists in Hf as (th & Hth & Hf). apply list_elem_of_lookup in Hth as [i Hi]. exists i, th. split; [done|].
  intros malloc ck [Hf'|[(_ & _ & e & E)|(_ & name & e & E)]]%thread_step_blocked; [by apply Hf|by apply Ht in E|by apply Hm in E].
Qed.

(** C17: Every statement finishes: while one has not, some thread can move,
    whatever the others did, exceptions included, so there is no deadlock; and no schedule is longer
    than the work the statements started with, so any schedule that goes on
    ends with all of them answered. *)
Theorem statements_finish `{malloc : Malloc, std_hash : StdHash} ex ths s : Forall starting ths -> sys_reachable ex ths s ->
  (Forall finished (threads s) \/ exists i, forall ck, sys_step i ck s <> Ret None) /\
  forall schedule s', run_schedule schedule s = Ret (Some s') -> (length schedule + total_work s' <= total_work s)%nat.
Proof.
  intros Hths Hr. split; [|intros schedule s'; apply run_schedule_length].
  destruct (reachable_locks ex ths s Hths Hr) as [It Im]. destruct (some_can_move (shared s) (threads s) It Im) as [Hf|(i & th & Hi & Ha)]; [by left|right].
  exists i. intros ck. unfold sys_step, thread_run. rewrite Hi. specialize (Ha malloc ck). by destruct (thread_step ck (shared s) th) as [[[? ?]|]| | |].
Qed.

(** *** Concrete runs *)

Definition one_of_each : list thread :=
  [Parse "CREATE TABLE t (id INT)"; Parse "INSERT INTO t VALUES (1)"; Parse "SELECT * FROM t WHERE id = 1"].
Definition at_100 (i : nat) : nat * Clocks := (i, at_time 100).
(** What is seen of the state after a schedule. *)
Definition seen_after {A} (look : System -> A) (schedule : list nat) (s : System) : outcome (option A) :=
  r ← run_schedule (at_100 <$> schedule) s; Ret (fmap (M:=option) look r).

Lemma seen_reached {A} (look : System -> A) schedule ex ths a : seen_after look schedule (initial ex ths) = Ret (Some a) ->
  exists s, sys_reachable ex ths s /\ run_schedule (at_100 <$> schedule) (initial ex ths) = Ret (Some s) /\ look s = a.
Proof.
  unfold seen_after. destruct (run_schedule _ _) as [[s|]| | |] eqn:E; try discriminate. intros [= <-].
  exists s. split; [|done]. eapply run_schedule_reachable; [apply sys_start|exact E].
Qed.

(** The unlocked read of [index_range] while [insert] writes the same table: a data race. *)
Definition race_schedule : list nat := [0; 0; 0; 1; 1; 1; 2; 2; 2; 2]%nat.
Lemma race_reached : exists s, sys_reachable Executor_new one_of_each s /\
  map accesses (threads s) = [None; Some ("T", true, true); Some ("T", false, false)].
Proof.
  destruct (seen_reached (fun s => map accesses (threads s)) race_schedule Executor_new one_of_each
    [None; Some ("T", true, true); Some ("T", false, false)]) as (s & Hr & _ & E); [vm_compute; reflexivity|by exists s].
Qed.

Lemma one_of_each_starting : Forall starting one_of_each.
Proof. repeat constructor; by eexists. Qed.

Lemma locked_accesses_exclude_witness : exists s th th', threads s !! 1%nat = Some th /\ threads s !! 2%nat = Some th' /\
  accesses th = Some ("T", true, true) /\ accesses th' = Some ("T", false, false) /\ true && false = false.
Proof.
  destruct race_reached as (s & Hr & E). destruct (threads s) as [|th0 [|th [|th' ths]]] eqn:Et; try discriminate E.
  injection E as E0 E1 E2 _. assert (H1 : threads s !! 1%nat = Some th) by by rewrite Et. assert (H2 : threads s !! 2%nat = Some th') by by rewrite Et.
  exists s, th, th'. split; [done|]. split; [done|]. split; [done|]. split; [done|].
  destruct (locked_accesses_exclude Executor_new one_of_each s 1 2 th th' one_of_each_starting Hr ltac:(done) H1 H2) as [_ Hx].
  by apply (Hx "T" true false true false).
Defined.

Lemma statements_finish_witness : exists s, sys_reachable Executor_new one_of_each s /\ ~ Forall finished (threads s) /\
  exists i, forall ck, sys_step i ck s <> Ret None.
Proof.
  destruct race_reached as (s & Hr & E). exists s. split; [done|].
  assert (Hn : ~ Forall finished (threads s)).
  { destruct (threads s) as [|th0 [|th ths]]; try discriminate E. injection E as E0 E1 _.
    intros [_ [Hf _]%Forall_cons]%Forall_cons. by destruct th. }
  split; [done|]. by destruct (proj1 (statements_finish Executor_new one_of_each s one_of_each_starting Hr)).
Defined.
