(* ===== verification/ConcurrencySpec.v ===== *)
(** * What concurrent statements do

    A statement with the executor to itself does what [execute] says; and
    statements that interleave, the cache apart, have the effect of some
    sequence of them. The examples at the end show where the cache, a batch and
    the index break this. *)

From Stdlib Require Import ZArith Lia Ascii.
From stdpp Require Import base strings gmap numbers list list_numbers.
From S2P Require Import Prelude Cpp Common Schema Arena BPTree BPTreeRep BPTreeInsert Index Table TableRep TableSpec Lexer Parser Cache CacheSpec Executor JoinSpec ExecutorSpec SessionSpec LockManager Concurrency.
Open Scope string_scope.
Open Scope list_scope.
Open Scope Z_scope.

(** ** A thread alone *)

(** Nobody holds a lock; or only this thread's shared lock on the tables. *)
Definition tables_unlocked (sh : Shared) : Prop := forall name, table_mutex sh name = unlocked.
Definition all_free (sh : Shared) : Prop := tables_mutex_ sh = unlocked /\ tables_unlocked sh.
Definition reading (sh : Shared) : Prop := tables_mutex_ sh = mkMutex 1 false /\ tables_unlocked sh.

Section alone.
Context `{malloc : Malloc, std_hash : StdHash} (ck : Clocks).

Inductive moves (sh : Shared) (th : thread) : Shared -> thread -> Prop :=
  | moves_refl : moves sh th sh th
  | moves_step sh1 th1 sh2 th2 : thread_step ck sh th = Ret (Some (sh1, th1)) -> moves sh1 th1 sh2 th2 -> moves sh th sh2 th2.

Lemma moves_trans sh th sh1 th1 sh2 th2 : moves sh th sh1 th1 -> moves sh1 th1 sh2 th2 -> moves sh th sh2 th2.
Proof. induction 1; [done|]. intros. eapply moves_step; eauto. Qed.

Lemma moves_one sh th sh1 th1 : thread_step ck sh th = Ret (Some (sh1, th1)) -> moves sh th sh1 th1.
Proof. intros H. eapply moves_step; [exact H|apply moves_refl]. Qed.

Lemma lock_unlock_table e name sh ex : tables_unlocked sh -> exists sh1, lock_table e name sh = Some sh1 /\ executor sh1 = executor sh /\
  tables_mutex_ sh1 = tables_mutex_ sh /\ tables_unlocked (unlock_table e name (set_executor ex sh1)) /\
  tables_unlocked (unlock_table e name sh1).
Proof.
  intros Hu. unfold lock_table. rewrite (Hu name). destruct e; cbn; eexists; (split; [done|]); (split; [done|]); (split; [done|]);
    split; intros n; unfold unlock_table; cbn; rewrite table_mutex_insert; unfold table_mutex; cbn; rewrite lookup_insert_eq;
    (case_decide; [done|]); rewrite lookup_insert_ne by done; apply (Hu n).
Qed.

Lemma free_read sh : all_free sh -> exists sh1, lock_tables false sh = Some sh1 /\ reading sh1 /\ executor sh1 = executor sh.
Proof. intros [Ht Hu]. unfold lock_tables. rewrite Ht. cbn. eexists. split; [done|]. split; [|done]. split; [done|exact Hu]. Qed.

Lemma reading_free ex sh : reading sh -> all_free (unlock_tables false (set_executor ex sh)) /\ all_free (unlock_tables false sh).
Proof. intros [Ht Hu]. repeat split; try apply Hu; cbn; by rewrite Ht. Qed.

Lemma invalid_insert t now row err : validate_row (schema_ t) row = Some err -> Table.insert t now row = Ret (Some err, t).
Proof. intros E. unfold Table.insert. by rewrite E. Qed.

Definition with_table (name : string) (t : Table) (ex : Executor) : Executor := mkExecutor (<[name := t]> (tables_ ex)) (cache_ ex).

Lemma with_table_id name t ex : tables_ ex !! name = Some t -> with_table name t ex = ex.
Proof. intros E. unfold with_table. rewrite insert_id by done. by destruct ex. Qed.

(** The loop over a batch, under the shared lock. *)
Lemma batch_moves name batch : forall sh t n err n' t', reading sh -> tables_ (executor sh) !! name = Some t ->
  insert_batch (ck_insert ck) t batch n = Ret (err, n', t') ->
  exists sh', executor sh' = with_table name t' (executor sh) /\
    match err with
    | None => moves sh (Insert_row name batch n) sh' (Insert_done name n') /\ reading sh'
    | Some err => moves sh (Insert_row name batch n) sh' (Returned (failed err)) /\ all_free sh'
    end.
Proof.
  induction batch as [|row_vals batch IH]; intros sh t n err n' t' Hr Et; cbn [insert_batch].
  { intros [= <- <- <-]. exists sh. rewrite with_table_id by done. split; [done|]. split; [by apply moves_one|done]. }
  assert (Hfail : forall e sh', thread_step ck sh (Insert_row name (row_vals :: batch) n) = Ret (Some (unlock_tables false sh, Returned (failed e))) ->
    sh' = unlock_tables false sh -> executor sh' = with_table name t (executor sh) /\
    moves sh (Insert_row name (row_vals :: batch) n) sh' (Returned (failed e)) /\ all_free sh').
  { intros e sh' Ha ->. rewrite with_table_id by done. split; [done|]. split; [by apply moves_one|]. by apply (reading_free (executor sh)). }
  cbn [thread_step] in Hfail. unfold insert_row in Hfail. rewrite Et in Hfail. cbn [deref] in Hfail. cbn [mbind outcome_bind] in Hfail.
  destruct (negb _) eqn:En; [intros [= <- <- <-]; exists (unlock_tables false sh); by apply Hfail|].
  intros E. bind_inv E. rewrite E0 in Hfail. cbn [mbind outcome_bind] in Hfail. destruct x as [e|row].
  { injection E as <- <- <-. exists (unlock_tables false sh). by apply Hfail. }
  destruct (validate_row (schema_ t) row) as [e|] eqn:Ev.
  { rewrite (invalid_insert _ _ _ e Ev) in E. cbn in E. injection E as <- <- <-. exists (unlock_tables false sh). by apply Hfail. }
  clear Hfail. bind_inv E. destruct Hr as [Ht Hu]. destruct x as [ins t1]. cbn [fst snd] in E.
  destruct (lock_unlock_table true name sh (with_table name t1 (executor sh)) Hu) as (sh1 & El & Ex1 & Et1 & Hu1 & _).
  assert (Hin : moves sh (Insert_row name (row_vals :: batch) n) sh1 (Insert_in name row batch n)).
  { apply moves_one. cbn [thread_step]. unfold insert_row. rewrite Et. cbn [deref]. cbn [mbind outcome_bind]. rewrite En, E0. cbn [mbind outcome_bind]. by rewrite Ev, El. }
  set (sh2 := unlock_table true name (set_executor (with_table name t1 (executor sh)) sh1)) in *.
  destruct ins as [e|].
  - injection E as <- <- <-. exists (unlock_tables false sh2). split; [done|]. split.
    + eapply moves_trans; [exact Hin|]. apply moves_one. cbn [thread_step]. unfold insert_in. rewrite Ex1, Et. cbn [deref]. cbn [mbind outcome_bind].
      rewrite E1. done.
    + apply (reading_free (executor sh)). split; [cbn; congruence|done].
  - destruct (IH sh2 t1 (S n) err n' t') as (sh' & Ex' & Hm); [split; [cbn; congruence|done]|cbn; by rewrite lookup_insert_eq|done|].
    assert (Hin2 : moves sh (Insert_row name (row_vals :: batch) n) sh2 (Insert_row name batch (S n))).
    { eapply moves_trans; [exact Hin|]. apply moves_one. cbn [thread_step]. unfold insert_in. rewrite Ex1, Et. cbn [deref]. cbn [mbind outcome_bind].
      by rewrite E1. }
    exists sh'. split; [rewrite Ex'; unfold with_table; cbn; by rewrite insert_insert_eq|].
    destruct err; destruct Hm; (split; [by eapply moves_trans|done]).
Qed.

Lemma insert_moves sh stmt r ex' : all_free sh -> exec_insert (executor sh) ck stmt = Ret (r, ex') ->
  exists sh', moves sh (Insert_wait stmt) sh' (Returned r) /\ executor sh' = ex' /\ all_free sh'.
Proof.
  intros Hf. unfold exec_insert. set (name := to_upper (in_table_name stmt)). destruct (free_read sh Hf) as (sh1 & El & Hr & Ex).
  destruct (tables_ (executor sh) !! name) as [t|] eqn:Et.
  - intros E. bind_inv E. destruct x as [[err n'] t']. cbn [fst snd] in E.
    assert (Hw : moves sh (Insert_wait stmt) sh1 (Insert_row name (in_batch_values stmt) 0)).
    { apply moves_one. cbn [thread_step]. fold name. rewrite El, Et. done. }
    destruct (batch_moves name (in_batch_values stmt) sh1 t 0 err n' t' Hr) as (sh2 & Ex2 & Hm); [by rewrite Ex|done|]. rewrite Ex in Ex2.
    destruct err as [err|].
    + injection E as <- <-. destruct Hm as [Hm Hf2]. exists sh2. split; [by eapply moves_trans|]. by split.
    + destruct Hm as [Hm Hr2]. bind_inv E. injection E as <- <-.
      exists (unlock_tables false (set_executor (mkExecutor (<[name := t']> (tables_ (executor sh))) x) sh2)).
      split; [|split; [done|exact (proj1 (reading_free _ _ Hr2))]].
      eapply moves_trans; [exact Hw|]. eapply moves_trans; [exact Hm|]. apply moves_one. cbn [thread_step]. rewrite Ex2. cbn [with_table cache_].
      by rewrite E1.
  - intros [= <- <-]. exists (unlock_tables false sh1). split; [|split; [done|by apply (reading_free (executor sh))]].
    apply moves_one. cbn [thread_step]. fold name. by rewrite El, Et.
Qed.

(** *** SELECT *)

Lemma plan_where_spec t w res : exec_scan t ck w = Ret res ->
  (exists err, plan_where t w = Ret (Gives_up (failed err)) /\ res = inl err) \/ plan_where t w = Ret Scans \/ plan_where t w = Ret Ranges.
Proof.
  destruct w as [w|]; cbn [exec_scan plan_where]; [|by right; left].
  destruct (_ <? 0); [intros [= <-]; left; by eexists|]. intros E. bind_inv E. rewrite E0. cbn [mbind outcome_bind]. bind_inv E. rewrite E1.
  cbn [mbind outcome_bind]. destruct (negb _); [injection E as <-; left; by eexists|]. right. destruct (_ =? _); [by right|by left].
Qed.

(** What the table lookups and checks settle, and what they leave to the scans. *)
Lemma plan_spec ex stmt result : run_select ex ck stmt = Ret result ->
  (plan ex stmt = Ret (Gives_up result) /\ success result = false) \/
  exists a t, plan ex stmt = Ret a /\ (a = Scans \/ a = Ranges) /\ tables_ ex !! to_upper (se_table_name stmt) = Some t /\
    match se_join stmt with
    | None => select_plain ck stmt t = Ret result
    | Some join => exists rt left_rows right_rows, tables_ ex !! to_upper (j_right_table join) = Some rt /\
        scan_all t (ck_left ck) = Ret left_rows /\ scan_all rt (ck_right ck) = Ret right_rows /\
        join_tables ex stmt join left_rows right_rows = Ret result
    end.
Proof.
  unfold run_select, plan. destruct (tables_ ex !! to_upper (se_table_name stmt)) as [t|] eqn:Et; [|intros [= <-]; by left].
  destruct (se_join stmt) as [join|].
  - unfold select_join, plan_join. destruct (tables_ ex !! to_upper (j_right_table join)) as [rt|] eqn:Ert; [|intros [= <-]; by left].
    destruct (_ <? 0); [intros [= <-]; by left|]. destruct (_ <? 0); [intros [= <-]; by left|]. intros E. bind_inv E. bind_inv E.
    right. exists Scans, t. split; [done|]. split; [by left|]. split; [done|]. exists rt, x, x0. unfold join_tables. rewrite Et, Ert. done.
  - unfold select_plain at 1. destruct (projection _ _) as [err|proj] eqn:Ep; [intros [= <-]; by left|]. intros E. pose proof E as E'. bind_inv E.
    destruct (plan_where_spec t (se_where stmt) x E0) as [(err & Ew & ->)|Hw]; [left; injection E as <-; by split|].
    right. destruct Hw as [Hw|Hw]; eexists _, t; (split; [exact Hw|]); (split; [by (left + right)|]); (split; [done|]);
      unfold select_plain; by rewrite Ep.
Qed.

Lemma select_end_moves sh raw result sh0 th0 cache : reading sh -> thread_step ck sh0 th0 = select_end sh raw result ->
  (if success result && negb (String.eqb raw "") then put (cache_ (executor sh)) raw (mkCached (column_names result) (rows result))
   else Ret (cache_ (executor sh))) = Ret cache ->
  exists sh', moves sh0 th0 sh' (Returned result) /\ executor sh' = mkExecutor (tables_ (executor sh)) cache /\ all_free sh'.
Proof.
  intros Hr Ha Hc. unfold select_end in Ha. destruct (success result); cbn [andb] in Hc.
  - exists (unlock_tables false (set_executor (mkExecutor (tables_ (executor sh)) cache) sh)). split; [|split; [done|exact (proj1 (reading_free _ _ Hr))]].
    eapply moves_step; [exact Ha|]. apply moves_one. cbn [thread_step]. destruct (String.eqb raw ""); cbn [negb] in Hc; rewrite Hc; done.
  - injection Hc as <-. exists (unlock_tables false sh). split; [by apply moves_one|]. split; [by destruct (executor sh) eqn:E; cbn; rewrite E|].
    exact (proj2 (reading_free (executor sh) _ Hr)).
Qed.

Lemma scan_moves sh stmt raw result cache : reading sh -> run_select (executor sh) ck stmt = Ret result ->
  (if success result && negb (String.eqb raw "") then put (cache_ (executor sh)) raw (mkCached (column_names result) (rows result))
   else Ret (cache_ (executor sh))) = Ret cache ->
  exists sh', moves sh (Select_scan stmt raw) sh' (Returned result) /\ executor sh' = mkExecutor (tables_ (executor sh)) cache /\ all_free sh'.
Proof.
  intros Hr E Hc. destruct (plan_spec _ _ _ E) as [[Ep Hs]|(a & t & Ep & Ha & Et & Hrest)].
  { rewrite Hs in Hc. injection Hc as <-. exists (unlock_tables false sh). split; [|split; [by destruct (executor sh) eqn:Ex; cbn; rewrite Ex|]].
    - apply moves_one. cbn [thread_step]. unfold select_scan. by rewrite Ep.
    - exact (proj2 (reading_free (executor sh) _ Hr)). }
  (* The thread enters the left table, with or without its lock. *)
  set (name := to_upper (se_table_name stmt)) in *. pose proof Hr as [Ht Hu].
  assert (Hin : exists sh1 locked, moves sh (Select_scan stmt raw) sh1 (Select_in stmt raw locked) /\ executor sh1 = executor sh /\
    let sh2 := if locked then unlock_table false name sh1 else sh1 in reading sh2 /\ executor sh2 = executor sh).
  { destruct Ha as [-> | ->].
    - destruct (lock_unlock_table false name sh (executor sh) Hu) as (sh1 & El & Ex1 & Et1 & _ & Hu1). exists sh1, true.
      split; [apply moves_one; cbn [thread_step]; unfold select_scan; rewrite Ep; cbn [mbind outcome_bind]; fold name; by rewrite El|].
      split; [done|]. split; [split; [cbn; congruence|done]|done].
    - exists sh, false. split; [apply moves_one; cbn [thread_step]; unfold select_scan; by rewrite Ep|]. done. }
  destruct Hin as (sh1 & locked & Hm1 & Ex1 & Hr2 & Ex2). set (sh2 := if locked then unlock_table false name sh1 else sh1) in *.
  destruct (se_join stmt) as [join|] eqn:Ej.
  - destruct Hrest as (rt & left_rows & right_rows & Ert & El & Er & Ejt).
    destruct (lock_unlock_table false (to_upper (j_right_table join)) sh2 (executor sh) (proj2 Hr2)) as (sh3 & El3 & Ex3 & Et3 & _ & Hu3).
    destruct (select_end_moves (unlock_table false (to_upper (j_right_table join)) sh3) raw result sh3 (Select_right_in stmt join raw left_rows) cache)
      as (sh' & Hm & Ex' & Hf).
    + split; [cbn; rewrite Et3; apply Hr2|done].
    + cbn [thread_step]. unfold select_right_in. rewrite Ex3, Ex2, Ert. cbn [deref]. cbn [mbind outcome_bind]. rewrite Er. cbn [mbind outcome_bind].
      by rewrite Ejt.
    + cbn. by rewrite Ex3, Ex2.
    + exists sh'. split; [|split; [by rewrite Ex'; cbn; rewrite Ex3, Ex2|done]]. eapply moves_trans; [exact Hm1|].
      eapply moves_step; [cbn [thread_step]; unfold select_in; fold name; rewrite Ex1, Et; cbn [deref]; cbn [mbind outcome_bind]; rewrite Ej, El; reflexivity|].
      eapply moves_step; [|exact Hm]. cbn [thread_step]. fold sh2. by rewrite El3.
  - destruct (select_end_moves sh2 raw result sh1 (Select_in stmt raw locked) cache Hr2) as (sh' & Hm & Ex' & Hf).
    + cbn [thread_step]. unfold select_in. fold name. rewrite Ex1, Et. cbn [deref]. cbn [mbind outcome_bind]. by rewrite Ej, Hrest.
    + by rewrite Ex2.
    + exists sh'. split; [by eapply moves_trans|]. by rewrite Ex', Ex2.
Qed.

Lemma select_moves sh stmt raw r ex' : all_free sh -> exec_select (executor sh) ck stmt raw = Ret (r, ex') ->
  exists sh', moves sh (Select_cache stmt raw) sh' (Returned r) /\ executor sh' = ex' /\ all_free sh'.
Proof.
  intros Hf. unfold exec_select. intros E. bind_inv E. destruct x as [hit cache]. cbn [fst snd] in *.
  assert (Hfree1 : all_free (set_executor (mkExecutor (tables_ (executor sh)) cache) sh)) by (destruct Hf; by split).
  set (sh1 := set_executor (mkExecutor (tables_ (executor sh)) cache) sh) in *.
  assert (Hm : moves sh (Select_cache stmt raw) sh1 (match hit with Some c => Returned (selected (cd_column_names c) (cd_rows c)) | None => Select_wait stmt raw end)).
  { apply moves_one. cbn [thread_step]. destruct (String.eqb raw ""); [|rewrite E0; by destruct hit]. injection E0 as <- <-. subst sh1.
    unfold set_executor. destruct sh as [[tb c] m mm]. done. }
  destruct hit as [c|]; [injection E as <- <-; by exists sh1|]. bind_inv E. bind_inv E. injection E as <- <-.
  destruct (free_read sh1 Hfree1) as (sh2 & El & Hr2 & Ex2).
  destruct (scan_moves sh2 stmt raw x x0 Hr2) as (sh' & Hm' & Ex' & Hf').
  - rewrite Ex2. unfold run_select in *. exact E1.
  - by rewrite Ex2.
  - exists sh'. split; [|split; [by rewrite Ex', Ex2|done]]. eapply moves_trans; [exact Hm|]. eapply moves_step; [|exact Hm'].
    cbn [thread_step]. by rewrite El.
Qed.

Lemma create_moves sh stmt r ex' : all_free sh -> exec_create_table (executor sh) stmt = Ret (r, ex') ->
  exists sh', moves sh (Create_wait stmt) sh' (Returned r) /\ executor sh' = ex' /\ all_free sh'.
Proof.
  intros [Ht Hu] E. exists (mkShared ex' unlocked (mutex_ sh)). split; [|split; [done|by split]].
  eapply moves_step; [cbn [thread_step]; unfold lock_tables; rewrite Ht; reflexivity|]. apply moves_one. cbn [thread_step executor]. by rewrite E.
Qed.

Lemma execute_moves sh stmt raw r ex' : all_free sh -> execute (executor sh) ck stmt raw = Ret (r, ex') ->
  exists sh', moves sh (begin stmt raw) sh' (Returned r) /\ executor sh' = ex' /\ all_free sh'.
Proof. destruct stmt; cbn [execute begin]; [apply create_moves|apply insert_moves|apply select_moves]. Qed.

Lemma moves_schedule sh th sh' th' i ths : moves sh th sh' th' -> ths !! i = Some th -> exists n,
  run_schedule (replicate n (i, ck)) (mkSystem sh ths) = Ret (Some (mkSystem sh' (<[i := th']> ths))).
Proof.
  intros Hm. revert ths. induction Hm as [sh th|sh th sh1 th1 sh2 th2 Ha _ IH]; intros ths Hi.
  - exists 0%nat. cbn. by rewrite list_insert_id.
  - destruct (IH (<[i := th1]> ths)) as [n En]; [apply list_lookup_insert_eq; by eapply lookup_lt_Some|]. exists (S n).
    cbn [replicate run_schedule]. unfold sys_step, thread_run. cbn [threads shared]. rewrite Hi, Ha. cbn [mbind outcome_bind option_bind fst snd].
    rewrite En. by rewrite list_insert_insert_eq.
Qed.
End alone.

(** C40: A statement that has the executor to itself is executed as
    [execute_sql] says: if no lock is held, there is a run of its thread alone
    that ends with the same result, tables and cache, and with no lock held. *)
Theorem alone_is_execute_sql `{malloc : Malloc, std_hash : StdHash} sh ths i ck sql r ex' : all_free sh -> ths !! i = Some (Parse sql) ->
  execute_sql (executor sh) ck sql = Ret (r, ex') ->
  exists n sh', run_schedule (replicate n (i, ck)) (mkSystem sh ths) = Ret (Some (mkSystem sh' (<[i := Returned r]> ths))) /\
    executor sh' = ex' /\ all_free sh'.
Proof.
  intros Hf Hi. unfold execute_sql. intros E. bind_inv E.
  assert (Hm : exists sh', moves ck sh (Parse sql) sh' (Returned r) /\ executor sh' = ex' /\ all_free sh').
  { destruct x as [err|stmt].
    - injection E as <- <-. exists sh. split; [|done]. apply moves_one. cbn [thread_step]. by rewrite E0.
    - destruct (execute_moves ck sh stmt sql r ex' Hf E) as (sh' & Hm & ?). exists sh'. split; [|done]. eapply moves_step; [|exact Hm].
      cbn [thread_step]. by rewrite E0. }
  destruct Hm as (sh' & Hm & Hrest). destruct (moves_schedule ck _ _ _ _ i ths Hm Hi) as [n En]. by exists n, sh'.
Qed.

Lemma create_returns : exists r ex', execute_sql Executor_new (at_time 100) "CREATE TABLE t (id INT)" = Ret (r, ex').
Proof. eexists _, _. vm_compute. reflexivity. Qed.

Lemma alone_is_execute_sql_witness : exists n sh' r ex',
  run_schedule (replicate n (0%nat, at_time 100)) (initial Executor_new one_of_each) = Ret (Some (mkSystem sh' (<[0%nat := Returned r]> one_of_each))) /\
  executor sh' = ex' /\ all_free sh'.
Proof.
  destruct create_returns as (r & ex' & E).
  assert (Hf : all_free (mkShared Executor_new unlocked ∅)).
  { split; [reflexivity|]. intros name. unfold table_mutex. cbn [mutex_]. by rewrite lookup_empty. }
  destruct (alone_is_execute_sql _ one_of_each 0 (at_time 100) "CREATE TABLE t (id INT)" r ex' Hf eq_refl E) as (n & sh' & H).
  exists n, sh', r, ex'. exact H.
Defined.

(** ** Linearizability *)

(** The statements of the threads, each answered at one moment: INSERTs of one
    row, SELECTs of one table that do not go through the index. [Γ] is the
    schema each table has, or will have when it is created. *)
Section typed.
Context (Γ : gmap string Schema).

Definition typed (stmt : Statement) : Prop :=
  match stmt with
  | CREATE_TABLE stmt => create_ok stmt /\
      forall s, create_columns (ct_columns stmt) Schema_empty = inr s -> Γ !! to_upper (ct_table_name stmt) = Some s
  | INSERT stmt => exists lits, in_batch_values stmt = [lits] /\
      forall s, Γ !! to_upper (in_table_name stmt) = Some s -> match abs_row (columns_ s) lits with inr row => key_sane row | inl _ => True end
  | SELECT stmt => se_join stmt = None /\ forall s, Γ !! to_upper (se_table_name stmt) = Some s -> where_pk s (se_where stmt) = false
  end.

Definition has_schemas (db : gmap string atable) : Prop := forall name a, db !! name = Some a -> Γ !! name = Some (at_schema a).
End typed.

(** The statements run one after the other: their answers, and the database. *)
Fixpoint serial (stmts : list Statement) (db : gmap string atable) (order : list (nat * Clocks)) : list (nat * QueryResult) * gmap string atable :=
  match order with
  | [] => ([], db)
  | (i, ck) :: order =>
      match stmts !! i with
      | None => serial stmts db order
      | Some stmt =>
          let p := abs_execute db ck stmt in
          let rest := serial stmts (snd p) order in
          ((i, fst p) :: fst rest, snd rest)
      end
  end.

(** The state of the system is that of the statements in [order], run one after
    the other: nobody else has had an effect, those that have returned have
    returned what they do there, and one that threw ran out of memory. *)
Definition serializes (stmts : list Statement) (db : gmap string atable) (s : System) (order : list (nat * Clocks)) : Prop :=
  NoDup (order.*1) /\ db_rep (tables_ (executor (shared s))) (serial stmts db order).2 /\
  (forall i r, threads s !! i = Some (Returned r) -> (i, r) ∈ (serial stmts db order).1) /\
  (forall i stmt, stmts !! i = Some stmt -> threads s !! i = Some (begin stmt "") -> i ∉ order.*1) /\
  (forall i e, threads s !! i = Some (Thrown e) -> e = bad_alloc /\ i ∉ order.*1).

Lemma serial_snoc stmts order i ck stmt : stmts !! i = Some stmt -> forall db,
  serial stmts db (order ++ [(i, ck)]) =
  ((serial stmts db order).1 ++ [(i, (abs_execute (serial stmts db order).2 ck stmt).1)], (abs_execute (serial stmts db order).2 ck stmt).2).
Proof.
  intros Hi. induction order as [|[j ckj] order IH]; intros db; cbn [serial app].
  - rewrite Hi. done.
  - destruct (stmts !! j) as [stmtj|]; [|apply IH]. by rewrite IH.
Qed.

(** Tables only appear and keep their schema. *)
Definition grows (db db' : gmap string atable) : Prop :=
  forall name a, db !! name = Some a -> exists a', db' !! name = Some a' /\ at_schema a' = at_schema a.

Lemma abs_execute_grows db ck stmt : grows db (abs_execute db ck stmt).2.
Proof.
  intros n a Hn. destruct stmt as [stmt|stmt|stmt]; cbn [abs_execute snd]; [| |by exists a].
  - unfold abs_create. destruct (db !! to_upper (ct_table_name stmt)) eqn:E; [by exists a|]. destruct (create_columns _ _); [by exists a|]. cbn [snd].
    exists a. rewrite lookup_insert_ne; [done|congruence].
  - unfold abs_insert. destruct (db !! to_upper (in_table_name stmt)) as [t|] eqn:E; [|by exists a].
    destruct (abs_batch _ _ _ _ _) as [[err k] rs]. cbn [snd]. destruct (decide (to_upper (in_table_name stmt) = n)) as [<-|].
    + exists (mkATable (at_schema t) rs). rewrite lookup_insert_eq. split; [done|]. cbn [at_schema]. congruence.
    + exists a. by rewrite lookup_insert_ne.
Qed.

(** Before its moment a thread has had no effect; after it, it is bound to return [r]. *)
Definition pending (db : gmap string atable) (th : thread) (stmt : Statement) : Prop :=
  match stmt with
  | CREATE_TABLE stmt => th = Create_wait stmt \/ th = Create_in stmt
  | INSERT stmt => exists lits, in_batch_values stmt = [lits] /\
      (th = Insert_wait stmt \/ exists a, db !! to_upper (in_table_name stmt) = Some a /\
         (th = Insert_row (to_upper (in_table_name stmt)) [lits] 0 \/ exists row, th = Insert_in (to_upper (in_table_name stmt)) row [] 0 /\
            length lits = num_columns (at_schema a) /\ abs_row (columns_ (at_schema a)) lits = inr row /\ validate_row (at_schema a) row = None))
  | SELECT stmt => th = Select_cache stmt "" \/ th = Select_wait stmt "" \/ th = Select_scan stmt "" \/
      exists locked a, th = Select_in stmt "" locked /\ db !! to_upper (se_table_name stmt) = Some a
  end.

(** It has had no moment: it is before it, or it ran out of memory. *)
Definition unserved (db : gmap string atable) (th : thread) (stmt : Statement) : Prop := pending db th stmt \/ th = Thrown bad_alloc.

Definition committed (th : thread) (r : QueryResult) : Prop :=
  th = Returned r \/ th = Select_put "" r \/
  exists name n, r = done_with (to_string_Z (Z.of_nat n) +:+ " rows inserted") /\ (th = Insert_row name [] n \/ th = Insert_done name n).

Lemma pending_grows db db' th stmt : grows db db' -> pending db th stmt -> pending db' th stmt.
Proof.
  intros Hg. destruct stmt as [stmt|stmt|stmt]; cbn [pending]; [done| |].
  - intros (lits & Eb & [->|(a & Ea & Hth)]); exists lits; (split; [done|]); [by left|right]. destruct (Hg _ _ Ea) as (a' & -> & Es).
    exists a'. rewrite Es. done.
  - intros [->|[->|[->|(locked & a & -> & Ea)]]]; [by left|right; by left|do 2 right; by left|do 3 right].
    destruct (Hg _ _ Ea) as (a' & Ea' & _). by exists locked, a'.
Qed.

Lemma pending_not_committed db th stmt r : pending db th stmt -> ~ committed th r.
Proof.
  intros Hp [->|[->|(name & n & _ & [->| ->])]]; destruct stmt; cbn [pending] in Hp; naive_solver.
Qed.

Definition sound (db : gmap string atable) (sh : Shared) : Prop :=
  db_rep (tables_ (executor sh)) db /\ exists cs, cache_rep (cache_ (executor sh)) cs.

Definition clock_fits (ck : Clocks) : Prop := forall i, is_s64 (ck_insert ck i + DEFAULT_TTL_SECONDS).
Definition room (db : gmap string atable) : Prop := forall name a, db !! name = Some a -> Z.of_nat (length (at_rows a)) + 1 < 2 ^ 63.

Section steps.
Context `{malloc : Malloc, std_hash : !StdHash, !StdHashLaws} (ck : Clocks).

(** A thread past its moment only tidies up. *)
Lemma thread_step_committed db sh th r : sound db sh -> committed th r -> thread_step ck sh th = Ret None \/
  exists sh' th', thread_step ck sh th = Ret (Some (sh', th')) /\ sound db sh' /\ committed th' r.
Proof.
  intros [R [cs C]] [->|[->|(name & n & -> & [->| ->])]]; cbn [thread_step].
  - by left.
  - right. cbn. eexists _, _. split; [done|]. split; [by split; [|exists cs]|by left].
  - right. eexists _, _. split; [done|]. split; [by split; [|exists cs]|]. right. right. exists name, n. split; [done|by right].
  - right. destruct (invalidate_rep _ cs name C) as (c' & -> & C' & _). outcome_simpl. eexists _, _. split; [done|].
    split; [split; [exact R|by eexists]|by left].
Qed.

(** The insertion of one row that passed the checks. *)
Lemma row_refines name t a row lits : table_ok name t a -> length lits = num_columns (at_schema a) ->
  abs_row (columns_ (at_schema a)) lits = inr row -> validate_row (at_schema a) row = None -> key_sane row -> clock_fits ck ->
  Z.of_nat (length (at_rows a)) + 1 < 2 ^ 63 ->
  Table.insert t (ck_insert ck 0) row = Throw bad_alloc \/
  exists t', Table.insert t (ck_insert ck 0) row = Ret (None, t') /\
    table_ok name t' (mkATable (at_schema a) (at_rows a ++ [mkStored row (ck_insert ck 0 + DEFAULT_TTL_SECONDS) true])).
Proof.
  intros Hok Hl Hrow Hv Hk Hc Hlen. pose proof Hok as [_ Es _ _].
  destruct (batch_refines (ck_insert ck) [lits] name t a 0 Hok) as [E|(t' & E & Hok')]; cbn [length abs_batch insert_batch] in *.
  - constructor; [by rewrite Hrow|done].
  - lia.
  - done.
  - left. rewrite Es, Hl, Nat.eqb_refl in E. cbn [negb] in E. rewrite parse_row_spec in E by done. rewrite Hrow in E. cbn [mbind outcome_bind] in E.
    destruct (Table.insert t (ck_insert ck 0) row) as [[[e|] t1]|e| |]; cbn in E; congruence.
  - right. rewrite Es, Hl, Nat.eqb_refl in E. cbn [negb] in E. rewrite parse_row_spec in E by done. rewrite Hrow, Hv in E. cbn [mbind outcome_bind] in E.
    rewrite Hl, Nat.eqb_refl, Hrow, Hv in Hok'. cbn [negb snd] in Hok'.
    destruct (Table.insert t (ck_insert ck 0) row) as [[[e|] t1]|e| |]; cbn in E; try discriminate. injection E as <-. by exists t1.
Qed.

(** A step before the moment: out of memory, blocked, or on to the moment. *)
Definition towards (db : gmap string atable) (stmt : Statement) (o : outcome (option (Shared * thread))) : Prop :=
  o = Throw bad_alloc \/ o = Ret None \/ exists sh' th', o = Ret (Some (sh', th')) /\
    ((sound db sh' /\ pending db th' stmt) \/ (sound (abs_execute db ck stmt).2 sh' /\ committed th' (abs_execute db ck stmt).1)).

Lemma towards_pending db stmt sh' th' : sound db sh' -> pending db th' stmt -> towards db stmt (Ret (Some (sh', th'))).
Proof. intros H1 H2. do 2 right. exists sh', th'. split; [done|]. by left. Qed.

Lemma towards_commit db stmt sh' th' db' r : abs_execute db ck stmt = (r, db') -> sound db' sh' -> committed th' r ->
  towards db stmt (Ret (Some (sh', th'))).
Proof. intros E H1 H2. do 2 right. exists sh', th'. split; [done|]. right. by rewrite E. Qed.

Lemma unwind_sound db th sh : sound db sh -> sound db (unwind th sh).
Proof. intros Hs. unfold unwind. destruct (accesses th) as [[[n e] []]|], (holds_tables th); done. Qed.

Lemma sound_lock_tables db e sh sh' : sound db sh -> lock_tables e sh = Some sh' -> sound db sh' /\ executor sh' = executor sh.
Proof. intros Hs (x & _ & ->)%lock_tables_Some. done. Qed.
Lemma sound_lock_table db e name sh sh' : sound db sh -> lock_table e name sh = Some sh' -> sound db sh' /\ executor sh' = executor sh.
Proof. intros Hs (x & _ & ->)%lock_table_Some. done. Qed.

Lemma create_towards Γ db sh th stmt : sound db sh -> pending db th (CREATE_TABLE stmt) -> typed Γ (CREATE_TABLE stmt) ->
  towards db (CREATE_TABLE stmt) (thread_step ck sh th).
Proof.
  intros Hs Hp [Hok _]. cbn [pending] in Hp. destruct Hp as [->| ->]; cbn [thread_step].
  - destruct (lock_tables true sh) as [sh'|] eqn:El; [|by right; left]. destruct (sound_lock_tables _ _ _ _ Hs El) as [Hs' _].
    apply towards_pending; [done|by right].
  - destruct Hs as [R [cs C]]. destruct (create_refines (executor sh) db stmt R Hok) as [->|(ex' & -> & R' & Ec)]; [by left|]. outcome_simpl.
    eapply towards_commit; [apply surjective_pairing| |by left]. split; [exact R'|]. exists cs. cbn. by rewrite Ec.
Qed.

Lemma insert_towards Γ db sh th stmt : sound db sh -> pending db th (INSERT stmt) -> typed Γ (INSERT stmt) -> has_schemas Γ db ->
  room db -> clock_fits ck -> towards db (INSERT stmt) (thread_step ck sh th).
Proof.
  intros Hs (lits & Eb & Hp) (lits' & Eb' & Hkeys) Hsc Hroom Hck. rewrite Eb in Eb'. injection Eb' as <-.
  set (name := to_upper (in_table_name stmt)) in *. pose proof Hs as [R [cs C]].
  destruct Hp as [->|(a & Ea & Hth)]; cbn [thread_step].
  { fold name. destruct (lock_tables false sh) as [sh'|] eqn:El; [|by right; left]. destruct (sound_lock_tables _ _ _ _ Hs El) as [Hs' Ex].
    cbn [mbind option_bind]. destruct (db_rep_lookup _ _ name R) as [[-> En]|(t & a & -> & Ea & _)].
    - eapply towards_commit; [cbn [abs_execute]; unfold abs_insert; fold name; by rewrite En|exact Hs'|by left].
    - rewrite Eb. apply towards_pending; [done|]. exists lits. split; [done|]. right. exists a. split; [done|by left]. }
  specialize (Hkeys _ (Hsc _ _ Ea)). destruct (db_rep_lookup _ _ name R) as [[_ ?]|(t & a' & Et & Ea' & Hok)]; [congruence|].
  rewrite Ea in Ea'. injection Ea' as <-. pose proof Hok as [_ Es _ _]. destruct Hth as [->|(row & -> & Hl & Hrow & Hv)]; cbn [thread_step].
  - assert (Hfail : forall err, (abs_batch (ck_insert ck) (at_schema a) (at_rows a) [lits] 0) = (Some err, 0%nat, at_rows a) ->
      towards db (INSERT stmt) (Ret (Some (unlock_tables false sh, Returned (failed err))))).
    { intros err Eab. eapply (towards_commit _ _ _ _ db); [|done|by left]. cbn [abs_execute]. unfold abs_insert. fold name.
      rewrite Ea, Eb, Eab. f_equal. apply insert_id. rewrite Ea. by destruct a. }
    unfold insert_row. rewrite Et. cbn [deref]. outcome_simpl. rewrite Es. cbn [abs_batch] in Hfail.
    destruct (Nat.eqb_spec (length lits) (num_columns (at_schema a))) as [Hl|]; cbn [negb] in *; [|by apply Hfail].
    rewrite parse_row_spec by done. outcome_simpl. destruct (abs_row (columns_ (at_schema a)) lits) as [err|row] eqn:Hrow; [by apply Hfail|].
    destruct (validate_row (at_schema a) row) as [err|] eqn:Hv; [by apply Hfail|]. clear Hfail.
    destruct (lock_table true name sh) as [sh'|] eqn:El; [|by right; left]. destruct (sound_lock_table _ _ _ _ _ Hs El) as [Hs' _].
    apply towards_pending; [done|]. exists lits. split; [done|]. right. exists a. split; [done|]. right. by exists row.
  - rewrite Hrow in Hkeys. unfold insert_in. rewrite Et. cbn [deref]. outcome_simpl.
    destruct (row_refines name t a row lits Hok Hl Hrow Hv Hkeys Hck (Hroom _ _ Ea)) as [->|(t' & -> & Hok')]; [by left|].
    outcome_simpl. cbn [fst snd]. eapply towards_commit.
    + cbn [abs_execute]. unfold abs_insert. fold name. rewrite Ea, Eb. cbn [abs_batch]. rewrite Hl, Nat.eqb_refl. cbn [negb]. rewrite Hrow, Hv. reflexivity.
    + split; [by apply db_rep_insert|by exists cs].
    + right. right. exists name, 1%nat. split; [done|by left].
Qed.

Lemma select_towards Γ db sh th stmt : sound db sh -> pending db th (SELECT stmt) -> typed Γ (SELECT stmt) -> has_schemas Γ db ->
  towards db (SELECT stmt) (thread_step ck sh th).
Proof.
  intros Hs Hp [Hj Hpk] Hsc. cbn [pending] in Hp. pose proof Hs as [R [cs C]]. set (name := to_upper (se_table_name stmt)) in *.
  assert (Hpk' : forall a, db !! name = Some a -> where_pk (at_schema a) (se_where stmt) = false) by (intros a Ea; apply Hpk; by apply Hsc).
  destruct (select_refines (executor sh) db ck stmt R) as (res & Erun & Hres).
  { unfold select_ok, where_ok. rewrite Hj. fold name. destruct (db !! name) as [a|] eqn:Ea; [|done]. intros E. rewrite Hpk' in E; done. }
  assert (Hres' : res = abs_select db ck stmt).
  { apply same_answer_eq. unfold uses_index in Hres. rewrite Hj in Hres. fold name in Hres. destruct (db !! name) as [a|] eqn:Ea; [|done].
    by rewrite Hpk' in Hres. }
  assert (Hcommit : forall sh' th', sound db sh' -> committed th' res -> towards db (SELECT stmt) (Ret (Some (sh', th')))).
  { intros sh' th' H1 H2. eapply towards_commit; [|exact H1|exact H2]. cbn [abs_execute]. by rewrite Hres'. }
  destruct Hp as [->|[->|[->|(locked & a & -> & Ea)]]]; cbn [thread_step].
  - apply towards_pending; [done|by right; left].
  - destruct (lock_tables false sh) as [sh'|] eqn:El; [|by right; left]. destruct (sound_lock_tables _ _ _ _ Hs El) as [Hs' _].
    apply towards_pending; [done|by do 2 right; left].
  - unfold select_scan. destruct (plan_spec ck _ _ _ Erun) as [[-> _]|(acc & t & -> & Hacc & Et & _)]; outcome_simpl.
    { apply Hcommit; [done|by left]. }
    fold name in Et. destruct (db_rep_lookup _ _ name R) as [[? _]|(t' & a & _ & Ea & _)]; [congruence|].
    destruct Hacc as [->| ->]; fold name.
    + destruct (lock_table false name sh) as [sh'|] eqn:El; [|by right; left]. destruct (sound_lock_table _ _ _ _ _ Hs El) as [Hs' _].
      apply towards_pending; [done|]. do 3 right. by exists true, a.
    + apply towards_pending; [done|]. do 3 right. by exists false, a.
  - unfold select_in. fold name. destruct (db_rep_lookup _ _ name R) as [[_ ?]|(t & a' & Et & _ & _)]; [congruence|]. rewrite Et, Hj. cbn [deref]. outcome_simpl.
    unfold run_select in Erun. fold name in Erun. rewrite Et, Hj in Erun. rewrite Erun. outcome_simpl. unfold select_end.
    destruct (success res); apply Hcommit; [by destruct locked|by right; left|by destruct locked|by left].
Qed.
End steps.

Lemma execute_schemas Γ db ck stmt : typed Γ stmt -> has_schemas Γ db -> has_schemas Γ (abs_execute db ck stmt).2.
Proof.
  intros Ht Hs. destruct stmt as [stmt|stmt|stmt]; cbn [abs_execute snd typed] in *; [| |done].
  - unfold abs_create. destruct (db !! to_upper (ct_table_name stmt)); [done|]. destruct (create_columns _ _) as [|s] eqn:Ec; [done|].
    cbn [snd]. intros n a [[<- <-]|[_ Ha]]%lookup_insert_Some; [by apply Ht|by apply Hs].
  - unfold abs_insert. destruct (db !! to_upper (in_table_name stmt)) as [t|] eqn:E; [|done].
    destruct (abs_batch _ _ _ _ _) as [[err k] rs]. cbn [snd]. intros n a [[<- <-]|[_ Ha]]%lookup_insert_Some; [exact (Hs _ t E)|by apply Hs].
Qed.

Lemma execute_rows Γ db ck stmt k : typed Γ stmt -> 0 <= k -> (forall n a, db !! n = Some a -> Z.of_nat (length (at_rows a)) <= k) ->
  forall n a, (abs_execute db ck stmt).2 !! n = Some a -> Z.of_nat (length (at_rows a)) <= k + 1.
Proof.
  intros Ht Hk Hr n a. destruct stmt as [stmt|stmt|stmt]; cbn [abs_execute snd typed] in *; [| |intros Ha; apply Hr in Ha; lia].
  - unfold abs_create. destruct (db !! to_upper (ct_table_name stmt)); [intros Ha; apply Hr in Ha; lia|].
    destruct (create_columns _ _) as [|s]; [intros Ha; apply Hr in Ha; cbn in Ha; lia|]. cbn [snd].
    intros [[<- <-]|[_ Ha]]%lookup_insert_Some; [cbn; lia|apply Hr in Ha; lia].
  - unfold abs_insert. destruct (db !! to_upper (in_table_name stmt)) as [t|] eqn:E; [|intros Ha; apply Hr in Ha; lia].
    destruct Ht as (lits & -> & _). apply Hr in E. cbn [abs_batch].
    assert (Hcases : forall rs, (rs = at_rows t \/ exists r, rs = at_rows t ++ [r]) -> <[to_upper (in_table_name stmt):=mkATable (at_schema t) rs]> db !! n = Some a ->
      Z.of_nat (length (at_rows a)) <= k + 1).
    { intros rs Hrs [[<- <-]|[_ Ha]]%lookup_insert_Some; [|apply Hr in Ha; lia]. cbn.
      destruct Hrs as [->|[r ->]]; rewrite ?length_app; cbn; lia. }
    destruct (negb _); [apply Hcases; by left|]. destruct (abs_row _ _); [apply Hcases; by left|].
    destruct (validate_row _ _); [apply Hcases; by left|]. apply Hcases. right. by eexists.
Qed.

Section linear.
Context `{malloc : Malloc, std_hash : !StdHash, !StdHashLaws}.
Context (Γ : gmap string Schema) (stmts : list Statement) (db0 : gmap string atable).
Context (Htyped : Forall (typed Γ) stmts).

Record lin_inv (s : System) (order : list (nat * Clocks)) : Prop := {
  li_length : length (threads s) = length stmts;
  li_sound : sound (serial stmts db0 order).2 (shared s);
  li_schemas : has_schemas Γ (serial stmts db0 order).2;
  li_rows : forall n a, (serial stmts db0 order).2 !! n = Some a ->
    Z.of_nat (length (at_rows a)) <= 2 ^ 63 - 1 - Z.of_nat (length stmts) + Z.of_nat (length order);
  li_room : Z.of_nat (length stmts) < 2 ^ 63;
  li_nodup : NoDup (order.*1);
  li_range : forall i, i ∈ order.*1 -> (i < length stmts)%nat;
  li_threads : forall i th stmt, threads s !! i = Some th -> stmts !! i = Some stmt ->
    (i ∉ order.*1 /\ unserved (serial stmts db0 order).2 th stmt) \/
    exists r, (i, r) ∈ (serial stmts db0 order).1 /\ i ∈ order.*1 /\ committed th r;
}.

Lemma order_length s order i : lin_inv s order -> (i < length stmts)%nat -> i ∉ order.*1 -> (length order < length stmts)%nat.
Proof.
  intros Hinv Hi Hni. assert (Hsub : (i :: order.*1) ⊆+ seq 0 (length stmts)).
  { apply NoDup_submseteq; [constructor; [done|by apply (li_nodup s)]|]. intros j [->|Hj]%elem_of_cons; apply elem_of_seq; [lia|].
    apply (li_range s order Hinv) in Hj. lia. }
  apply submseteq_length in Hsub. cbn in Hsub. rewrite length_fmap, length_seq in Hsub. lia.
Qed.

(** Another step of thread [i], before its moment or after it. *)
Lemma lin_keep s order i stmt sh' th' : lin_inv s order -> (i < length (threads s))%nat -> stmts !! i = Some stmt ->
  sound (serial stmts db0 order).2 sh' ->
  ((i ∉ order.*1 /\ unserved (serial stmts db0 order).2 th' stmt) \/
   exists r, (i, r) ∈ (serial stmts db0 order).1 /\ i ∈ order.*1 /\ committed th' r) ->
  lin_inv (mkSystem sh' (<[i:=th']> (threads s))) order.
Proof.
  intros [] Hlt Est Hs' Hth'. split; cbn [shared threads]; auto; [by rewrite length_insert|].
  intros j thj stmtj Hj Hsj. destruct (decide (i = j)) as [<-|]; [|rewrite list_lookup_insert_ne in Hj by done; eauto].
  rewrite list_lookup_insert_eq in Hj by done. injection Hj as <-. rewrite Est in Hsj. by injection Hsj as <-.
Qed.

(** The moment of thread [i]. *)
Lemma lin_commit s order i ck stmt sh' th' : lin_inv s order -> (i < length (threads s))%nat -> stmts !! i = Some stmt -> i ∉ order.*1 ->
  sound (abs_execute (serial stmts db0 order).2 ck stmt).2 sh' -> committed th' (abs_execute (serial stmts db0 order).2 ck stmt).1 ->
  lin_inv (mkSystem sh' (<[i:=th']> (threads s))) (order ++ [(i, ck)]).
Proof.
  intros Hinv Hlt Est Hni Hs' Hc'. pose proof (proj1 (Forall_lookup _ _) Htyped _ _ Est) as Hty.
  pose proof Hlt as Hlt'. rewrite (li_length _ _ Hinv) in Hlt'. pose proof (order_length s order i Hinv Hlt' Hni) as Hol.
  assert (Ek : (order ++ [(i, ck)]).*1 = order.*1 ++ [i]) by by rewrite fmap_app.
  destruct Hinv. split; cbn [shared threads]; auto; rewrite ?(serial_snoc _ _ _ _ _ Est), ?Ek, ?length_insert; cbn [fst snd]; auto.
  - by apply execute_schemas.
  - rewrite length_app. cbn [length]. intros n a Ha.
    apply (execute_rows Γ _ ck stmt (2 ^ 63 - 1 - Z.of_nat (length stmts) + Z.of_nat (length order))) in Ha; [lia|done|lia|done].
  - apply NoDup_app. split; [done|]. split; [|apply NoDup_singleton]. intros j Hj Hj'. apply list_elem_of_singleton in Hj' as ->. done.
  - intros j [Hj| ->%list_elem_of_singleton]%elem_of_app; auto.
  - intros j thj stmtj Hj Hsj. destruct (decide (i = j)) as [<-|Hne].
    + rewrite list_lookup_insert_eq in Hj by done. injection Hj as <-. right. eexists. split; [apply elem_of_app; right; by left|].
      split; [apply elem_of_app; right; by left|]. rewrite Est in Hsj. by injection Hsj as <-.
    + rewrite list_lookup_insert_ne in Hj by done. destruct (li_threads0 j thj stmtj Hj Hsj) as [[Hnj Hp]|(r & Hr & Hin & Hc)]; [left|right].
      * split; [|destruct Hp as [Hp|Hp]; [left; eapply pending_grows, Hp; apply abs_execute_grows|by right]]. rewrite elem_of_app, list_elem_of_singleton. naive_solver.
      * exists r. split; [apply elem_of_app; by left|]. split; [apply elem_of_app; by left|done].
Qed.

Lemma lin_step i ck s order : lin_inv s order -> clock_fits ck ->
  sys_step i ck s = Ret None \/ exists s' later, sys_step i ck s = Ret (Some s') /\ lin_inv s' (order ++ later).
Proof.
  intros Hinv Hck. unfold sys_step. destruct (threads s !! i) as [th|] eqn:Ei; [|by left].
  pose proof (lookup_lt_Some _ _ _ Ei) as Hlt. pose proof Hlt as Hlt'. rewrite (li_length _ _ Hinv) in Hlt'.
  destruct (lookup_lt_is_Some_2 _ _ Hlt') as [stmt Est]. pose proof (proj1 (Forall_lookup _ _) Htyped _ _ Est) as Hty. unfold thread_run.
  destruct (li_threads _ _ Hinv i th stmt Ei Est) as [[Hni [Hp| ->]]|(r & Hr & Hin & Hc)].
  - assert (Htow : towards ck (serial stmts db0 order).2 stmt (thread_step ck (shared s) th)).
    { pose proof (order_length s order i Hinv Hlt' Hni) as Hol. destruct stmt as [stmt|stmt|stmt].
      - eapply create_towards; [apply Hinv|done|done].
      - eapply insert_towards; [apply Hinv|done|done|apply Hinv| |done]. intros n a Ha. apply (li_rows _ _ Hinv) in Ha. lia.
      - eapply select_towards; [apply Hinv|done|done|apply Hinv]. }
    destruct Htow as [->|[->|(sh' & th' & -> & Hnext)]]; [|by left|]; right; outcome_simpl; cbn [option_bind fst snd].
    + eexists. exists []. rewrite app_nil_r. split; [done|]. eapply lin_keep; [done|done|done|by apply unwind_sound, Hinv|]. left. split; [done|by right].
    + destruct Hnext as [[Hs' Hp']|[Hs' Hc']]; eexists.
      * exists []. rewrite app_nil_r. split; [done|]. eapply lin_keep; [done|done|done|done|]. left. split; [done|by left].
      * exists [(i, ck)]. split; [done|]. by eapply lin_commit.
  - by left.
  - destruct (thread_step_committed ck _ (shared s) th r (li_sound _ _ Hinv) Hc) as [->|(sh' & th' & -> & Hs' & Hc')]; [by left|].
    right. outcome_simpl. cbn [option_bind fst snd]. eexists. exists []. rewrite app_nil_r. split; [done|]. eapply lin_keep; eauto.
Qed.

Lemma lin_schedule schedule : forall s order, lin_inv s order -> Forall (fun p => clock_fits p.2) schedule ->
  run_schedule schedule s = Ret None \/ exists s' later, run_schedule schedule s = Ret (Some s') /\ lin_inv s' (order ++ later).
Proof.
  induction schedule as [|[i ck] schedule IH]; intros s order Hinv Hck; cbn [run_schedule].
  { right. exists s, []. by rewrite app_nil_r. }
  apply Forall_cons in Hck as [Hc Hck]. destruct (lin_step i ck s order Hinv Hc) as [->|(s1 & later & -> & Hinv1)]; [by left|].
  outcome_simpl. destruct (IH s1 _ Hinv1 Hck) as [?|(s2 & later2 & E & Hinv2)]; [by left|]. right.
  exists s2, (later ++ later2). by rewrite (assoc_L app).
Qed.

Lemma lin_serializes s order : lin_inv s order -> serializes stmts db0 s order.
Proof.
  intros Hinv. assert (Hst : forall i th, threads s !! i = Some th -> exists stmt, stmts !! i = Some stmt).
  { intros i th Hi. apply lookup_lt_Some in Hi. rewrite (li_length _ _ Hinv) in Hi. by destruct (lookup_lt_is_Some_2 _ _ Hi) as [stmt ?]; exists stmt. }
  assert (Hcase : forall i th, threads s !! i = Some th -> exists stmt, stmts !! i = Some stmt /\
    ((i ∉ order.*1 /\ unserved (serial stmts db0 order).2 th stmt) \/ exists r, (i, r) ∈ (serial stmts db0 order).1 /\ i ∈ order.*1 /\ committed th r)).
  { intros i th Hi. destruct (Hst i th Hi) as [stmt Es]. exists stmt. split; [done|]. by apply (li_threads _ _ Hinv). }
  split; [apply Hinv|]. split; [apply (li_sound _ _ Hinv)|]. split; [|split].
  - intros i r Hi. destruct (Hcase i _ Hi) as (stmt & _ & [[_ [Hp|?]]|(r' & Hr & _ & Hc)]); [|done|].
    + destruct stmt; cbn [pending] in Hp; naive_solver.
    + destruct Hc as [[= <-]|[?|(name & n & _ & [?|?])]]; done.
  - intros i stmt Es Hi. destruct (Hcase i _ Hi) as (stmt' & _ & [[Hni _]|(r' & _ & _ & Hc)]); [done|].
    destruct Hc as [?|[?|(name & n & _ & [?|?])]]; by destruct stmt.
  - intros i e Hi. destruct (Hcase i _ Hi) as (stmt & _ & [[Hni [Hp|[= ->]]]|(r' & _ & _ & Hc)]); [|done|].
    + exfalso. destruct stmt; cbn [pending] in Hp; naive_solver.
    + destruct Hc as [?|[?|(name & n & _ & [?|?])]]; done.
Qed.
End linear.


(** *** A concrete run *)

Definition sample_statements : list Statement :=
  stmt_of <$> ["CREATE TABLE t (id INT, v INT)"; "INSERT INTO t VALUES (1, 7)"; "SELECT v FROM t WHERE v > 5"].
Definition sample_types : gmap string Schema :=
  match sample_statements with
  | CREATE_TABLE stmt :: _ => match create_columns (ct_columns stmt) Schema_empty with inr s => {["T" := s]} | inl _ => ∅ end
  | _ => ∅
  end.
(** The SELECT begins while the row is being written, and waits for it. *)
Definition sample_schedule : list nat := [2; 0; 0; 1; 1; 2; 1; 2; 2; 1; 2; 1]%nat.

Lemma at_100_fits schedule : Forall (fun p => clock_fits p.2) (at_100 <$> schedule).
Proof. apply Forall_fmap, Forall_true. intros i j. unfold is_s64, DEFAULT_TTL_SECONDS. cbn. lia. Qed.

Lemma sample_typed : Forall (typed sample_types) sample_statements.
Proof.
  assert (Hlook : forall s, sample_types !! "T" = Some s -> where_pk s (Some (mkWhere (mkColumnRef "" "v") GT "5")) = false /\
    match abs_row (columns_ s) ["1"; "7"] with inr row => key_sane row | inl _ => True end).
  { intros s Hs. vm_compute in Hs. injection Hs as <-. split; vm_compute; [reflexivity|done]. }
  let l := eval vm_compute in sample_statements in assert (E : sample_statements = l) by (vm_compute; reflexivity); rewrite E; clear E.
  apply Forall_cons. split; [split|apply Forall_cons; split; [exists ["1"; "7"]|apply Forall_cons; split; [|constructor]]].
  - solve_stmt_ok.
  - intros s Hs. vm_compute in Hs. injection Hs as <-. vm_compute. reflexivity.
  - split; [reflexivity|]. intros s Hs. by apply Hlook.
  - split; [reflexivity|]. intros s Hs. by apply Hlook.
Qed.


(** What this run returns. *)
Definition answers (s : System) : list (option (list Row + string)) :=
  (fun th => match th with Returned r => Some (if success r then inl (rows r) else inr (error r)) | _ => None end) <$> threads s.

Example sample_schedule_answers :
  seen_after answers sample_schedule (initial Executor_new ((fun stmt => begin stmt "") <$> sample_statements)) =
  Ret (Some [Some (inl []); Some (inl []); Some (inl [[VInt 7]])]).
Proof. vm_compute. reflexivity. Qed.

(** *** Outside the conditions *)

(** With query texts, the cache: the first SELECT scans before the INSERT and
    stores its answer after the INSERT has invalidated the table and returned,
    so that the second one, begun later still, misses the row. *)
Definition cache_race : list thread :=
  Parse <$> ["CREATE TABLE t (id INT)"; "INSERT INTO t VALUES (1)"; "SELECT id FROM t"; "SELECT id FROM t"].
Example stale_answer_cached :
  seen_after answers ([0; 0; 0] ++ [2; 2; 2; 2; 2] ++ [1; 1; 1; 1; 1; 1] ++ [2] ++ [3; 3])%nat (initial Executor_new cache_race) =
    Ret (Some [Some (inl []); Some (inl []); Some (inl []); Some (inl [])]) /\
  seen_after answers ([0; 0; 0] ++ [2; 2; 2; 2; 2] ++ [2] ++ [1; 1; 1; 1; 1; 1] ++ [3; 3; 3; 3; 3; 3])%nat (initial Executor_new cache_race) =
    Ret (Some [Some (inl []); Some (inl []); Some (inl []); Some (inl [[VInt 1]])]).
Proof. split; vm_compute; reflexivity. Qed.

(** A batch is not one moment: another thread sees a part of it. *)
Definition batch_race : list thread :=
  Parse <$> ["CREATE TABLE t (id INT)"; "INSERT INTO t VALUES (1), (2)"; "SELECT id FROM t"].
Example partial_batch_seen :
  seen_after answers ([0; 0; 0] ++ [1; 1; 1; 1] ++ [2; 2; 2; 2; 2; 2] ++ [1; 1; 1; 1])%nat (initial Executor_new batch_race) =
    Ret (Some [Some (inl []); Some (inl []); Some (inl [[VInt 1]])]).
Proof. vm_compute. reflexivity. Qed.

(** A join reads its two tables at two moments: here it misses a row of [a]
    that was inserted before the row of [b] it sees, so it pairs 1 with 1 but
    not 2 with 2, which no moment explains. *)
Definition join_race : list thread :=
  Parse <$> ["CREATE TABLE a (id INT)"; "CREATE TABLE b (bid INT)"; "INSERT INTO a VALUES (1)"; "INSERT INTO b VALUES (2)";
             "INSERT INTO a VALUES (2)"; "INSERT INTO b VALUES (1)"; "SELECT id, bid FROM a INNER JOIN b ON a.id = b.bid"].
Definition whole_insert (i : nat) : list nat := replicate 6 i.
Example join_reads_twice :
  drop 6 <$> (r ← seen_after answers ([0; 0; 0; 1; 1; 1] ++ whole_insert 2 ++ whole_insert 3 ++ [6; 6; 6; 6; 6] ++
                                      whole_insert 4 ++ whole_insert 5 ++ [6; 6; 6])%nat (initial Executor_new join_race);
              deref r) =
    Ret [Some (inl [[VInt 1; VInt 1]])].
Proof. vm_compute. reflexivity. Qed.
