(* ===== verification/Sessions.v ===== *)
(** * Connections that are served at the same time

    [TCPServer::handle_client] runs on a thread of the pool for each
    connection, and all share one executor. A step of the model is what one of
    these threads does between two operations on locks: it takes the next
    message, takes a step of the statement it executes (Concurrency), or sends
    its answer. An exception leaves [handle_client] through the task, which
    keeps it: the connection is never answered again, nor closed. Which
    connections have a thread is the matter of Serving.v. *)

From Stdlib Require Import ZArith Lia Ascii.
From stdpp Require Import base strings gmap numbers list list_numbers.
From S2P Require Import Prelude Cpp Common Schema Arena BPTree Table TableSpec Lexer Parser Cache Executor JoinSpec SessionSpec LockManager Wire Network Concurrency.
Open Scope string_scope.
Open Scope list_scope.
Open Scope Z_scope.

(** ** State *)

(** Where [handle_client] stands: at [recv_message], in [execute_sql], whose
    thread may have returned or thrown, or after [close]. *)
Inductive phase :=
  | Receiving
  | Executing (query : string) (th : thread)
  | Closed.

(** A client: the messages it sends, and whether it then stays connected and
    silent; otherwise it hangs up. *)
Record client := mkClient { messages : list string; stays : bool }.

(** The messages still to be read, the answers sent, and the results of the
    queries that were executed. *)
Record connection := mkConnection {
  incoming : list string;
  silent_after : bool;
  phase_ : phase;
  outgoing : list string;
  answered : list (string * QueryResult);
}.

Record Server := mkServer { common : Shared; connections : list connection }.

Definition at_phase (p : phase) (c : connection) : connection := 
  mkConnection (incoming c) (silent_after c) p (outgoing c) (answered c).
Definition receive (rest : list string) (p : phase) (sent : list string) (c : connection) : connection :=
  mkConnection rest (silent_after c) p (outgoing c ++ sent) (answered c).

(** What a step may depend on: the clocks it reads, whether memory is left, and
    whether the peer takes what is sent. *)
Record tick := mkTick { tk_who : nat; tk_clocks : Clocks; tk_malloc : Malloc; tk_sends : bool }.

(** ** Steps *)

Section server.
Context `{std_hash : StdHash}.

(** The loop up to [execute_sql]. Without a message [recv_message] waits while
    the client stays ([None]) and fails when it has gone. *)
Definition next_query (sends : bool) (c : connection) : option connection :=
  match incoming c with
  | [] => if silent_after c then None else Some (at_phase Closed c)
  | query :: rest =>
      let query := trim_end query_end query in
      Some (if String.eqb query "" then receive rest Receiving [] c
            else if is_exit query then receive rest Closed (if sends then [BYE] else []) c
            else receive rest (Executing query (Parse query)) [] c)
  end.

(** The answer goes out and the loop goes on, or the send fails and ends it. *)
Definition send_answer (sends : bool) (query : string) (result : QueryResult) (c : connection) : outcome connection :=
  response ← format_result result;
  Ret (mkConnection (incoming c) (silent_after c) (if sends then Receiving else Closed)
         (if sends then outgoing c ++ [response] else outgoing c) (answered c ++ [(query, result)])).

Definition connection_step (t : tick) (sh : Shared) (c : connection) : outcome (option (Shared * connection)) :=
  match phase_ c with
  | Closed => Ret None
  | Receiving => Ret (c ← next_query (tk_sends t) c; Some (sh, c))
  | Executing query (Returned result) => c ← send_answer (tk_sends t) query result c; Ret (Some (sh, c))
  | Executing query th =>
      r ← thread_run (malloc := tk_malloc t) (tk_clocks t) sh th;
      Ret (p ← r; Some (fst p, at_phase (Executing query (snd p)) c))
  end.

(** [None]: the thread of this connection waits for a lock or for its client, is
    done or dead. *)
Definition server_step (t : tick) (srv : Server) : outcome (option Server) :=
  match connections srv !! tk_who t with
  | None => Ret None
  | Some c =>
      r ← connection_step t (common srv) c;
      Ret (p ← r; Some (mkServer (fst p) (<[tk_who t := snd p]> (connections srv))))
  end.

Fixpoint run_server (ticks : list tick) (srv : Server) : outcome (option Server) :=
  match ticks with
  | [] => Ret (Some srv)
  | t :: ticks =>
      r ← server_step t srv;
      match r with None => Ret None | Some srv => run_server ticks srv end
  end.

(** New connections of these clients. *)
Definition accepted_connection (cl : client) : connection := mkConnection (messages cl) (stays cl) Receiving [] [].
Definition serving (ex : Executor) (clients : list client) : Server :=
  mkServer (mkShared ex unlocked ∅) (accepted_connection <$> clients).
End server.
