(* ===== verification/SessionsSpec.v ===== *)
(** * Connections at the same time lose no row

    Any number of connections with any statements but SELECTs through the index,
    batches and joins included, interleaved at every lock, with the cache, and
    with arenas refused memory and peers gone at any step: the server does nothing
    undefined, and its tables hold the rows of the INSERTs, in the order of each
    connection. *)

From Stdlib Require Import ZArith Lia Ascii.
From stdpp Require Import base strings gmap numbers list list_numbers.
From S2P Require Import Prelude Cpp Common Schema Arena BPTree BPTreeRep BPTreeInsert Index Table TableRep TableSpec Lexer Parser ParserSpec Cache CacheSpec Executor JoinSpec ExecutorSpec SessionSpec LockManager Wire Network NetworkSpec Concurrency ConcurrencySpec Sessions.
Open Scope string_scope.
Open Scope list_scope.
Open Scope Z_scope.

(** ** Interleavings *)

(** [l] is the lists [ls], each in its order. *)
Inductive interleaves {A} : list (list A) -> list A -> Prop :=
  | interleaves_nil ls : Forall (fun l => l = []) ls -> interleaves ls []
  | interleaves_snoc ls l i xs x : interleaves ls l -> ls !! i = Some xs -> interleaves (<[i := xs ++ [x]]> ls) (l ++ [x]).

Lemma interleaves_extend {A} (new : list A) : forall ls l i xs, interleaves ls l -> ls !! i = Some xs -> interleaves (<[i := xs ++ new]> ls) (l ++ new).
Proof.
  induction new as [|x new IH]; intros ls l i xs H Hi; [by rewrite !app_nil_r, list_insert_id|].
  pose proof (interleaves_snoc ls l i xs x H Hi) as H1. apply lookup_lt_Some in Hi as Hlt.
  specialize (IH _ _ i (xs ++ [x]) H1). rewrite list_lookup_insert_eq in IH by done. specialize (IH eq_refl).
  by rewrite list_insert_insert_eq, <- !(assoc_L app) in IH.
Qed.

(** ** What an INSERT adds *)

(** The rows of a batch before the first that does not fit the table. *)
Fixpoint accepted (s : Schema) (batch : list (list string)) : list Row :=
  match batch with
  | [] => []
  | lits :: batch =>
      if negb (length lits =? num_columns s)%nat then [] else
      match abs_row (columns_ s) lits with
      | inl _ => []
      | inr row => match validate_row s row with Some _ => [] | None => row :: accepted s batch end
      end
  end.

(** Rows with the names of their tables. *)
Abbreviation placed := (list (string * Row)).
Definition rows_in (name : string) (L : placed) : list Row := snd <$> filter (fun p => p.1 = name) L.

Lemma rows_in_app name L L' : rows_in name (L ++ L') = rows_in name L ++ rows_in name L'.
Proof. unfold rows_in. by rewrite filter_app, fmap_app. Qed.

Lemma rows_in_one name n (r : Row) : rows_in name [(n, r)] = if decide (n = name) then [r] else [].
Proof. unfold rows_in. destruct (decide (n = name)); [by rewrite filter_cons_True|by rewrite filter_cons_False]. Qed.

Section sessions.
(** The schema each table has, or will have when it is created, and what holds
    of every stored row, such as when it expires. *)
Context (Γ : gmap string Schema) (F : stored -> Prop).

(** What a query has added when it returned the result [o], or has not returned:
    an INSERT the first rows it accepts, and if it succeeded all its rows. *)
Definition gave (query : string) (rows : placed) (o : option QueryResult) : Prop :=
  match parse_sql query with
  | Ret (inr (INSERT stmt)) =>
      let name := to_upper (in_table_name stmt) in
      match Γ !! name with
      | Some s => exists rs, rows = pair name <$> rs /\ rs `prefix_of` accepted s (in_batch_values stmt) /\
          forall r, o = Some r -> success r = true -> length rs = length (in_batch_values stmt)
      | None => rows = []
      end
  | _ => rows = []
  end.

Lemma gave_pending query rows o : gave query rows o -> gave query rows None.
Proof.
  unfold gave. destruct (parse_sql query) as [[|[]]| | |]; try done. destruct (Γ !! _); [|done]. intros (rs & H1 & H2 & _). exists rs. by split_and!.
Qed.

(** A connection has added the rows of its queries, answered or under way. *)
Definition contributed (c : connection) (rows : placed) : Prop := exists rss rest,
  Forall2 (fun qr rs => gave qr.1 rs (Some qr.2)) (answered c) rss /\ rows = concat rss ++ rest /\
  match phase_ c with Executing query _ => gave query rest None | _ => rest = [] end.

(** ** Queries that are allowed *)

(** Tables are created with their schemas in [Γ], which has no row over 4 GiB;
    no key is a NaN; and no WHERE on one table goes through the index, which is
    read without a lock. *)
Definition allowed (stmt : Statement) : Prop :=
  match stmt with
  | CREATE_TABLE stmt => create_ok stmt /\
      forall s, create_columns (ct_columns stmt) Schema_empty = inr s -> Γ !! to_upper (ct_table_name stmt) = Some s
  | INSERT stmt => forall s, Γ !! to_upper (in_table_name stmt) = Some s ->
      Forall (fun lits => match abs_row (columns_ s) lits with inr row => key_sane row | inl _ => True end) (in_batch_values stmt)
  | SELECT stmt => se_join stmt = None -> forall s, Γ !! to_upper (se_table_name stmt) = Some s -> where_pk s (se_where stmt) = false
  end.

Definition query_allowed (query : string) : Prop := forall stmt, parse_sql query = Ret (inr stmt) -> allowed stmt.
Definition message_allowed (message : string) : Prop := query_allowed (trim_end query_end message).

(** ** The state *)

(** What the times of an insertion must satisfy. *)
Definition clock_ok (ck : Clocks) : Prop := clock_fits ck /\ forall row i, F (mkStored row (ck_insert ck i + DEFAULT_TTL_SECONDS) true).

Definition intact (db : gmap string atable) (sh : Shared) : Prop :=
  db_rep (tables_ (executor sh)) db /\ has_schemas Γ db /\ (forall n a, db !! n = Some a -> Forall F (at_rows a)) /\
  exists cs, cache_rep (cache_ (executor sh)) cs /\ 0 < capacity_ (cache_ (executor sh)).

(** The tables of [db'] are those of [db] with [new] added. *)
Definition extends (db db' : gmap string atable) (new : placed) : Prop := forall n,
  match db !! n, db' !! n with
  | None, None => rows_in n new = []
  | None, Some a' => st_vals <$> at_rows a' = rows_in n new
  | Some a, Some a' => at_schema a' = at_schema a /\ st_vals <$> at_rows a' = (st_vals <$> at_rows a) ++ rows_in n new
  | Some _, None => False
  end.

Lemma extends_refl db : extends db db [].
Proof. intros n. destruct (db !! n); [|done]. split; [done|]. cbn. by rewrite app_nil_r. Qed.

Lemma extends_schema db db' new n a : extends db db' new -> db !! n = Some a -> exists a', db' !! n = Some a' /\ at_schema a' = at_schema a.
Proof. intros H E. specialize (H n). rewrite E in H. destruct (db' !! n) as [a'|]; [|done]. exists a'. by destruct H. Qed.

Definition no_more (db : gmap string atable) (k : Z) : Prop := forall n a, db !! n = Some a -> Z.of_nat (length (at_rows a)) <= k.

(** ** Where a statement stands *)

(** An INSERT that has added [rs], with the batch from [batch] on still to go. *)
Definition halfway (db : gmap string atable) (stmt : InsertStmt) (rs : list Row) (batch : list (list string)) : Prop :=
  exists a, db !! to_upper (in_table_name stmt) = Some a /\ batch = drop (length rs) (in_batch_values stmt) /\
    (length rs <= length (in_batch_values stmt))%nat /\ accepted (at_schema a) (in_batch_values stmt) = rs ++ accepted (at_schema a) batch.

Definition inserting (db : gmap string atable) (stmt : InsertStmt) (th : thread) (rows : placed) : Prop :=
  let name := to_upper (in_table_name stmt) in
  (th = Insert_wait stmt /\ rows = []) \/
  exists rs batch, halfway db stmt rs batch /\ rows = pair name <$> rs /\
    (th = Insert_row name batch (length rs) \/
     (exists lits row rest, batch = lits :: rest /\ th = Insert_in name row rest (length rs) /\
        exists a, db !! name = Some a /\ length lits = num_columns (at_schema a) /\ abs_row (columns_ (at_schema a)) lits = inr row /\
          validate_row (at_schema a) row = None) \/
     (batch = [] /\ th = Insert_done name (length rs))).

(** A join whose tables and columns exist. *)
Definition joinable (db : gmap string atable) (stmt : SelectStmt) (join : JoinClause) (left_rows : list Row) : Prop :=
  exists a b, db !! to_upper (se_table_name stmt) = Some a /\ db !! to_upper (j_right_table join) = Some b /\
    0 <= find_column (at_schema a) (to_upper (cr_column (j_left_col join))) /\
    0 <= find_column (at_schema b) (to_upper (cr_column (j_right_col join))) /\
    Forall (fun r => length r = num_columns (at_schema a)) left_rows.

Definition selecting (db : gmap string atable) (stmt : SelectStmt) (query : string) (th : thread) : Prop :=
  match th with
  | Select_cache stmt' raw | Select_wait stmt' raw | Select_scan stmt' raw => stmt' = stmt /\ raw = query
  | Select_in stmt' raw _ => stmt' = stmt /\ raw = query /\ is_Some (db !! to_upper (se_table_name stmt)) /\
      forall join, se_join stmt = Some join -> joinable db stmt join []
  | Select_right stmt' join raw left_rows | Select_right_in stmt' join raw left_rows =>
      stmt' = stmt /\ raw = query /\ se_join stmt = Some join /\ joinable db stmt join left_rows
  | Select_put raw _ => raw = query
  | _ => False
  end.

Definition within (db : gmap string atable) (stmt : Statement) (query : string) (th : thread) (rows : placed) : Prop :=
  match stmt with
  | CREATE_TABLE stmt => (th = Create_wait stmt \/ th = Create_in stmt) /\ rows = []
  | INSERT stmt => inserting db stmt th rows
  | SELECT stmt => selecting db stmt query th /\ rows = []
  end.

(** The thread that executes [query] has added [rows]. *)
Definition going (db : gmap string atable) (query : string) (th : thread) (rows : placed) : Prop :=
  match th with
  | Returned r => gave query rows (Some r)
  | Thrown _ => gave query rows None
  | Parse sql => sql = query /\ rows = []
  | _ => exists stmt, parse_sql query = Ret (inr stmt) /\ within db stmt query th rows
  end.

(** *** Tables grow *)

Lemma extends_grows db db' new : extends db db' new -> grows db db'.
Proof. intros H n a E. by eapply extends_schema. Qed.

Lemma joinable_grows db db' stmt join left_rows : grows db db' -> joinable db stmt join left_rows -> joinable db' stmt join left_rows.
Proof.
  intros Hg (a & b & Ea & Eb & H1 & H2 & H3). destruct (Hg _ _ Ea) as (a' & Ea' & Sa), (Hg _ _ Eb) as (b' & Eb' & Sb). exists a', b'. by rewrite Sa, Sb.
Qed.

Lemma halfway_grows db db' stmt rs batch : grows db db' -> halfway db stmt rs batch -> halfway db' stmt rs batch.
Proof. intros Hg (a & Ea & H). destruct (Hg _ _ Ea) as (a' & Ea' & Sa). exists a'. by rewrite Sa. Qed.

Lemma going_grows db db' query th rows : grows db db' -> going db query th rows -> going db' query th rows.
Proof.
  intros Hg Hgo. assert (Hw : forall stmt, within db stmt query th rows -> within db' stmt query th rows).
  { intros [stmt|stmt|stmt]; cbn [within]; [done| |].
    - intros [?|(rs & batch & Hh & Er & Hth)]; [by left|right]. exists rs, batch. split; [by eapply halfway_grows|]. split; [done|].
      destruct Hth as [?|[(lits & row & rest & Eb & Et & a & Ea & H)|?]]; [by left|right; left|by do 2 right].
      exists lits, row, rest. split; [done|]. split; [done|]. destruct (Hg _ _ Ea) as (a' & Ea' & Sa). exists a'. by rewrite Sa.
    - intros [Hsel ->]. split; [|done]. unfold selecting in *. destruct th; try done.
      + destruct Hsel as (-> & -> & [a Ea] & Hj). do 2 (split; [done|]). split; [destruct (Hg _ _ Ea) as (a' & -> & _); by eexists|].
        intros join Ej. eapply joinable_grows; [exact Hg|by apply Hj].
      + destruct Hsel as (-> & -> & Ej & Hj). do 3 (split; [done|]). by eapply joinable_grows.
      + destruct Hsel as (-> & -> & Ej & Hj). do 3 (split; [done|]). by eapply joinable_grows. }
  unfold going in *. destruct th; try done; destruct Hgo as (st & Ep & Hin); exists st; (split; [done|by apply Hw]).
Qed.

(** *** What is added by one that stops *)

Lemma gave_insert query stmt s rs o : parse_sql query = Ret (inr (INSERT stmt)) -> Γ !! to_upper (in_table_name stmt) = Some s ->
  rs `prefix_of` accepted s (in_batch_values stmt) -> (forall r, o = Some r -> success r = true -> length rs = length (in_batch_values stmt)) ->
  gave query (pair (to_upper (in_table_name stmt)) <$> rs) o.
Proof. intros Ep Es Hp Ho. unfold gave. rewrite Ep. cbv zeta. rewrite Es. by exists rs. Qed.

Lemma gave_nothing query o : (forall r stmt, o = Some r -> parse_sql query = Ret (inr (INSERT stmt)) -> success r = false) -> gave query [] o.
Proof.
  intros Ho. unfold gave. destruct (parse_sql query) as [[|[c|i|sel]]| | |]; try done. cbv zeta. destruct (Γ !! _) as [s|]; [|done]. exists []. split; [done|].
  split; [apply prefix_nil|]. intros r E Hs. by rewrite (Ho r i E eq_refl) in Hs.
Qed.

Lemma halfway_prefix db stmt rs batch : has_schemas Γ db -> halfway db stmt rs batch -> exists s, Γ !! to_upper (in_table_name stmt) = Some s /\
  rs `prefix_of` accepted s (in_batch_values stmt).
Proof. intros Hs (a & Ea & _ & _ & Hacc). exists (at_schema a). split; [by apply Hs|]. rewrite Hacc. by eexists. Qed.

Lemma going_stopped db query th rows : has_schemas Γ db -> going db query th rows -> gave query rows None.
Proof.
  intros Hs Hgo. assert (Hw : forall stmt, parse_sql query = Ret (inr stmt) -> within db stmt query th rows -> gave query rows None).
  { intros [stmt|stmt|stmt] Ep; cbn [within].
    - intros [_ ->]. by apply gave_nothing.
    - intros [[_ ->]|(rs & batch & Hh & -> & _)]; [by apply gave_nothing|]. destruct (halfway_prefix _ _ _ _ Hs Hh) as (s & Es & Hp). by eapply gave_insert.
    - intros [_ ->]. by apply gave_nothing. }
  unfold going in Hgo. destruct th; try (by destruct Hgo as (st & Ep & Hin); eapply Hw); [| |done].
  - destruct Hgo as [_ ->]. by apply gave_nothing.
  - by eapply gave_pending.
Qed.

Lemma accepted_cons s lits batch row : length lits = num_columns s -> abs_row (columns_ s) lits = inr row -> validate_row s row = None ->
  accepted s (lits :: batch) = row :: accepted s batch.
Proof. intros Hl Hr Hv. cbn [accepted]. by rewrite Hl, Nat.eqb_refl, Hr, Hv. Qed.

(** ** Steps of a thread *)

Section steps.
Context `{malloc : Malloc, std_hash : !StdHash, !StdHashLaws} (ck : Clocks).

(** A step throws, waits, or adds at most a row and leaves all in order. *)
Definition keeps (db : gmap string atable) (query : string) (rows : placed) (o : outcome (option (Shared * thread))) : Prop :=
  (exists e, o = Throw e) \/ o = Ret None \/ exists sh' th' db' new, o = Ret (Some (sh', th')) /\
    intact db' sh' /\ extends db db' new /\ (length new <= 1)%nat /\ going db' query th' (rows ++ new).

Lemma keeps_still db query rows sh' th' : intact db sh' -> going db query th' rows -> keeps db query rows (Ret (Some (sh', th'))).
Proof.
  intros Hi Hg. right. right. exists sh', th', db, []. split; [done|]. split; [done|]. split; [apply extends_refl|]. split; [cbn; lia|]. by rewrite app_nil_r.
Qed.

Lemma intact_lock_tables db e sh sh' : intact db sh -> lock_tables e sh = Some sh' -> intact db sh'.
Proof. intros Hs (x & _ & ->)%lock_tables_Some. done. Qed.
Lemma intact_lock_table db e name sh sh' : intact db sh -> lock_table e name sh = Some sh' -> intact db sh'.
Proof. intros Hs (x & _ & ->)%lock_table_Some. done. Qed.
Lemma intact_cache db sh cs c : intact db sh -> cache_rep c cs -> 0 < capacity_ c -> intact db (set_executor (mkExecutor (tables_ (executor sh)) c) sh).
Proof. intros (R & Hs & HF & _) C Hcap. split; [exact R|]. do 2 (split; [done|]). by exists cs. Qed.
Lemma intact_unwind db th sh : intact db sh -> intact db (unwind th sh).
Proof. intros Hs. unfold unwind. destruct (accesses th) as [[[n e] []]|], (holds_tables th); done. Qed.

(** *** CREATE TABLE *)

Lemma create_keeps db sh query th rows stmt : intact db sh -> parse_sql query = Ret (inr (CREATE_TABLE stmt)) -> allowed (CREATE_TABLE stmt) ->
  within db (CREATE_TABLE stmt) query th rows -> keeps db query rows (thread_step ck sh th).
Proof.
  intros Hi Ep [Hok HΓ] [Hth ->]. destruct Hth as [->| ->]; cbn [thread_step].
  - destruct (lock_tables true sh) as [sh'|] eqn:El; [|by right; left]. apply keeps_still; [by eapply intact_lock_tables|].
    exists (CREATE_TABLE stmt). split; [done|]. split; [by right|done].
  - destruct Hi as (R & Hs & HF & cs & C & Hcap).
    destruct (create_refines (executor sh) db stmt R Hok) as [->|(ex' & -> & R' & Ec)]; [left; by eexists|]. outcome_simpl. cbn [fst snd].
    right. right. eexists _, _, (abs_create db stmt).2, []. split; [done|].
    assert (Hdb : extends db (abs_create db stmt).2 [] /\ has_schemas Γ (abs_create db stmt).2 /\
      forall n a, (abs_create db stmt).2 !! n = Some a -> Forall F (at_rows a)).
    { unfold abs_create. destruct (db !! to_upper (ct_table_name stmt)) eqn:Ed; [by split; [apply extends_refl|]|].
      destruct (create_columns _ _) as [|s] eqn:Ecc; [by split; [apply extends_refl|]|]. cbn [snd]. split_and!.
      - intros n. destruct (decide (to_upper (ct_table_name stmt) = n)) as [<-|]; [by rewrite Ed, lookup_insert_eq|].
        rewrite lookup_insert_ne by done. exact (extends_refl db n).
      - intros n a [[<- <-]|[_ Ha]]%lookup_insert_Some; [by apply HΓ|by apply Hs].
      - intros n a [[<- <-]|[_ Ha]]%lookup_insert_Some; [done|by eapply HF]. }
    destruct Hdb as (Hext & Hsch & Hrows). split; [split; [exact R'|]; do 2 (split; [done|]); exists cs; cbn; by rewrite Ec|]. split; [done|]. split; [cbn; lia|].
    rewrite app_nil_r. cbn [going]. apply gave_nothing. intros r stmt' _ E. congruence.
Qed.

(** *** INSERT *)

(** The insertion of one row that passed the checks, at any time. *)
Lemma row_refines_at name t a row lits n : table_ok name t a -> length lits = num_columns (at_schema a) ->
  abs_row (columns_ (at_schema a)) lits = inr row -> validate_row (at_schema a) row = None -> key_sane row -> clock_fits ck ->
  Z.of_nat (length (at_rows a)) + 1 < 2 ^ 63 ->
  Table.insert t (ck_insert ck n) row = Throw bad_alloc \/
  exists t', Table.insert t (ck_insert ck n) row = Ret (None, t') /\
    table_ok name t' (mkATable (at_schema a) (at_rows a ++ [mkStored row (ck_insert ck n + DEFAULT_TTL_SECONDS) true])).
Proof.
  intros Hok Hl Hr Hv Hk Hc Hlen. exact (row_refines (mkClocks (fun _ => ck_insert ck n) (ck_left ck) (ck_right ck)) name t a row lits Hok Hl Hr Hv Hk (fun _ => Hc n) Hlen).
Qed.

Lemma halfway_next db stmt rs lits batch a row : halfway db stmt rs (lits :: batch) -> db !! to_upper (in_table_name stmt) = Some a ->
  length lits = num_columns (at_schema a) -> abs_row (columns_ (at_schema a)) lits = inr row -> validate_row (at_schema a) row = None ->
  forall db' a', db' !! to_upper (in_table_name stmt) = Some a' -> at_schema a' = at_schema a -> halfway db' stmt (rs ++ [row]) batch.
Proof.
  intros (a0 & Ea0 & Eb & Hle & Hacc) Ea Hl Hr Hv db' a' Ea' Es. rewrite Ea in Ea0. injection Ea0 as <-. exists a'. split; [done|].
  pose proof (f_equal length Eb) as Hlb. cbn in Hlb. rewrite length_drop in Hlb. rewrite length_app. cbn [length]. split.
  { rewrite <- drop_drop, <- Eb. done. }
  split; [lia|]. rewrite Es, Hacc, (accepted_cons _ _ _ row), <- (assoc_L app) by done. done.
Qed.

Lemma insert_keeps db sh query th rows stmt : intact db sh -> parse_sql query = Ret (inr (INSERT stmt)) -> allowed (INSERT stmt) ->
  clock_ok ck -> no_more db (2 ^ 63 - 2) -> within db (INSERT stmt) query th rows -> keeps db query rows (thread_step ck sh th).
Proof.
  intros Hi Ep Hkeys [Hck HFck] Hroom Hin. set (name := to_upper (in_table_name stmt)) in *. pose proof Hi as (R & Hs & HF & cs & C & Hcap).
  destruct Hin as [[-> ->]|(rs & batch & Hh & -> & Hth)]; cbn [thread_step].
  { fold name. destruct (lock_tables false sh) as [sh'|] eqn:El; [|by right; left]. cbn [mbind option_bind].
    pose proof (intact_lock_tables _ _ _ _ Hi El) as Hi'. destruct (db_rep_lookup _ _ name R) as [[-> En]|(t & a & -> & Ea & _)].
    - apply keeps_still; [exact Hi'|]. cbn [going]. apply gave_nothing. by intros r st [= <-].
    - apply keeps_still; [exact Hi'|]. exists (INSERT stmt). split; [done|]. right. exists [], (in_batch_values stmt). split; [|split; [done|by left]].
      exists a. split; [done|]. split; [done|]. split; [cbn; lia|done]. }
  pose proof Hh as (a & Ea & Eb & Hle & Hacc). fold name in Ea. destruct (db_rep_lookup _ _ name R) as [[_ ?]|(t & a' & Et & Ea' & Hok)]; [congruence|].
  rewrite Ea in Ea'. injection Ea' as <-. pose proof Hok as [_ Es _ _]. destruct (halfway_prefix _ _ _ _ Hs Hh) as (s & Hsl & Hpre).
  assert (HΓ : Γ !! name = Some (at_schema a)) by by apply Hs. assert (s = at_schema a) as -> by (unfold name in *; congruence).
  specialize (Hkeys _ HΓ).
  destruct Hth as [->|[(lits & row & rest & -> & -> & a' & Ea' & Hl & Hr & Hv)|[-> ->]]].
  - destruct batch as [|lits batch]; cbn [thread_step].
    { apply keeps_still; [done|]. exists (INSERT stmt). split; [done|]. right. exists rs, []. split; [done|]. split; [done|]. do 2 right. done. }
    assert (Hfail : forall err, keeps db query (pair name <$> rs) (Ret (Some (unlock_tables false sh, Returned (failed err))))).
    { intros err. apply keeps_still; [done|]. cbn [going]. eapply gave_insert; [exact Ep|exact Hsl|done|]. by intros r [= <-]. }
    unfold insert_row. fold name. rewrite Et. cbn [deref]. outcome_simpl. rewrite Es.
    destruct (Nat.eqb_spec (length lits) (num_columns (at_schema a))) as [Hl|]; cbn [negb]; [|apply Hfail].
    rewrite parse_row_spec by done. outcome_simpl. destruct (abs_row (columns_ (at_schema a)) lits) as [err|row] eqn:Hr; [apply Hfail|].
    destruct (validate_row (at_schema a) row) as [err|] eqn:Hv; [apply Hfail|]. clear Hfail.
    destruct (lock_table true name sh) as [sh'|] eqn:El; [|by right; left]. cbn [option_bind mbind]. apply keeps_still; [by eapply intact_lock_table|].
    exists (INSERT stmt). split; [done|]. right. exists rs, (lits :: batch). split; [done|]. split; [done|]. right. left. exists lits, row, batch.
    do 2 (split; [done|]). by exists a.
  - fold name in Ea'. rewrite Ea in Ea'. injection Ea' as <-. cbn [thread_step]. unfold insert_in. fold name. rewrite Et. cbn [deref]. outcome_simpl.
    assert (Hk : key_sane row).
    { assert (Hin : lits ∈ in_batch_values stmt). { apply (subseteq_drop (length rs) (in_batch_values stmt)). rewrite <- Eb. by left. }
      rewrite Forall_forall in Hkeys. specialize (Hkeys lits Hin). by rewrite Hr in Hkeys. }
    pose proof (Hroom _ _ Ea) as Hlen.
    destruct (row_refines_at name t a row lits (length rs) Hok Hl Hr Hv Hk Hck ltac:(lia)) as [->|(t' & -> & Hok')]; [left; by eexists|].
    outcome_simpl. cbn [fst snd]. set (a' := mkATable (at_schema a) _) in Hok'. right. right.
    eexists _, _, (<[name := a']> db), [(name, row)]. split; [done|]. split; [|split; [|split; [done|]]].
    + split; [by apply db_rep_insert|]. split; [|split; [|by exists cs]].
      * intros n b [[<- <-]|[_ Hb]]%lookup_insert_Some; [done|by apply Hs].
      * intros n b [[<- <-]|[_ Hb]]%lookup_insert_Some; [|by eapply HF]. unfold a'. cbn [at_rows]. apply Forall_app. split; [by eapply HF|]. by repeat constructor.
    + intros n. rewrite rows_in_one. destruct (decide (name = n)) as [<-|Hne].
      * rewrite Ea, lookup_insert_eq. unfold a'. cbn [at_schema at_rows]. split; [done|]. by rewrite fmap_app.
      * rewrite lookup_insert_ne by done. destruct (db !! n); [by rewrite app_nil_r|done].
    + exists (INSERT stmt). split; [done|]. right. exists (rs ++ [row]), rest. split; [|split; [by rewrite fmap_app|left; rewrite length_app; cbn [length]; by rewrite Nat.add_1_r]].
      eapply (halfway_next db stmt rs lits rest a row Hh Ea Hl Hr Hv _ a'); [apply lookup_insert_eq|done].
  - cbn [thread_step]. fold name. destruct (invalidate_rep _ cs name C) as (c' & -> & C' & Ec'). outcome_simpl. apply keeps_still.
    + eapply (intact_cache _ (unlock_tables false sh)); [exact Hi|exact C'|lia].
    + cbn [going]. eapply gave_insert; [exact Ep|exact Hsl|done|]. intros r _ _. pose proof (f_equal length Eb) as Hlb. cbn in Hlb. rewrite length_drop in Hlb. lia.
Qed.

(** *** SELECT *)

Lemma select_runs db sh stmt : intact db sh -> allowed (SELECT stmt) -> exists result, run_select (executor sh) ck stmt = Ret result.
Proof.
  intros (R & Hs & _) Ha. cbn [allowed] in Ha. destruct (select_refines (executor sh) db ck stmt R) as (result & E & _); [|by exists result].
  unfold select_ok, where_ok. destruct (se_join stmt); [done|]. destruct (db !! _) as [a|] eqn:Ea; [|done]. intros Hp.
  by rewrite (Ha eq_refl _ (Hs _ _ Ea)) in Hp.
Qed.

Lemma plan_joinable db sh stmt join a : intact db sh -> se_join stmt = Some join -> plan (executor sh) stmt = Ret a -> a = Scans \/ a = Ranges ->
  joinable db stmt join [].
Proof.
  intros (R & _) Ej Ep Ha. unfold plan in Ep. rewrite Ej in Ep.
  destruct (db_rep_lookup _ _ (to_upper (se_table_name stmt)) R) as [[Et _]|(t & ta & Et & Eta & Hok)]; rewrite Et in Ep; [injection Ep as <-; by destruct Ha|].
  unfold plan_join in Ep. destruct (db_rep_lookup _ _ (to_upper (j_right_table join)) R) as [[Er _]|(rt & ra & Er & Era & Hrok)]; rewrite Er in Ep;
    [injection Ep as <-; by destruct Ha|].
  rewrite (tk_schema _ _ _ Hok), (tk_schema _ _ _ Hrok) in Ep. unfold joinable.
  destruct (Z.ltb_spec (find_column (at_schema ta) (to_upper (cr_column (j_left_col join)))) 0) as [_|H1]; [injection Ep as <-; by destruct Ha|].
  destruct (Z.ltb_spec (find_column (at_schema ra) (to_upper (cr_column (j_right_col join)))) 0) as [_|H2]; [injection Ep as <-; by destruct Ha|].
  exists ta, ra. by split_and!.
Qed.

Section select.
Context (db : gmap string atable) (query : string) (stmt : SelectStmt) (Ep : parse_sql query = Ret (inr (SELECT stmt))) (Hal : allowed (SELECT stmt)).

Lemma select_nothing r : gave query [] (Some r).
Proof. apply gave_nothing. intros r' stmt' _ E. congruence. Qed.

Lemma going_select th : (forall sql, th <> Parse sql) -> selecting db stmt query th -> going db query th [].
Proof.
  intros Hp Hsel. unfold going. destruct th; try done; try (by exists (SELECT stmt)); by apply (Hp sql).
Qed.

Lemma select_end_keeps sh result : intact db sh -> keeps db query [] (select_end sh query result).
Proof.
  intros Hi. unfold select_end. destruct (success result); apply keeps_still; try exact Hi; [by apply going_select|apply select_nothing].
Qed.

Lemma select_in_keeps sh st raw locked : intact db sh -> selecting db stmt query (Select_in st raw locked) ->
  keeps db query [] (thread_step ck sh (Select_in st raw locked)).
Proof.
  intros Hi Hsel. pose proof Hi as (R & _). cbn [selecting thread_step] in *. destruct Hsel as (-> & -> & [a Ea] & Hj). unfold select_in.
  destruct (db_rep_lookup _ _ (to_upper (se_table_name stmt)) R) as [[_ ?]|(t & a' & Et & Ea' & Hok)]; [congruence|]. rewrite Et. cbn [deref]. outcome_simpl.
  rewrite Ea in Ea'. injection Ea' as <-.
  assert (Hi' : intact db (if locked then unlock_table false (to_upper (se_table_name stmt)) sh else sh)) by by destruct locked.
  destruct (se_join stmt) as [join|] eqn:Ej.
  - rewrite (scan_visible _ _ _ Hok). outcome_simpl. apply keeps_still; [exact Hi'|]. apply going_select; [done|]. do 3 (split; [done|]).
    destruct (Hj join eq_refl) as (a' & b & Ea' & Eb & H1 & H2 & _). rewrite Ea in Ea'. injection Ea' as <-. exists a, b.
    do 4 (split; [done|]). by eapply visible_length.
  - destruct (select_runs db sh stmt Hi Hal) as [result Erun]. unfold run_select in Erun. rewrite Et, Ej in Erun. rewrite Erun. outcome_simpl.
    by apply select_end_keeps.
Qed.

Lemma select_right_keeps sh st join raw left_rows : intact db sh -> selecting db stmt query (Select_right_in st join raw left_rows) ->
  keeps db query [] (thread_step ck sh (Select_right_in st join raw left_rows)).
Proof.
  intros Hi Hsel. pose proof Hi as (R & _). cbn [selecting thread_step] in *. destruct Hsel as (-> & -> & Ej & (a & b & Ea & Eb & H1 & H2 & Hll)). unfold select_right_in, join_tables.
  destruct (db_rep_lookup _ _ (to_upper (se_table_name stmt)) R) as [[_ ?]|(t & a' & Et & Ea' & Hok)]; [congruence|].
  destruct (db_rep_lookup _ _ (to_upper (j_right_table join)) R) as [[_ ?]|(rt & b' & Er & Eb' & Hrok)]; [congruence|].
  rewrite Ea in Ea'. injection Ea' as <-. rewrite Eb in Eb'. injection Eb' as <-. rewrite Er, Et. cbn [deref]. outcome_simpl.
  rewrite (scan_visible _ _ _ Hrok). outcome_simpl. rewrite (tk_schema _ _ _ Hok), (tk_schema _ _ _ Hrok).
  rewrite (join_scanned_spec stmt (mkSides (to_upper (se_table_name stmt)) (at_schema a) (to_upper (j_right_table join)) (at_schema b)) join);
    [|by eapply at_schema_ok|by eapply at_schema_ok|done|done|done|by eapply visible_length].
  outcome_simpl. by apply select_end_keeps.
Qed.

Lemma select_keeps sh th : intact db sh -> selecting db stmt query th -> keeps db query [] (thread_step ck sh th).
Proof.
  intros Hi Hsel. pose proof Hi as (R & Hs & HF & cs & C & Hcap).
  destruct th as [sql|st|st|st|nm batch n|nm row batch n|nm n|st raw|st raw|st raw|st raw locked
    |st join raw left_rows|st join raw left_rows|raw result|r|e]; cbn [selecting] in Hsel; try done; cbn [thread_step].
  - destruct Hsel as [-> ->]. destruct (String.eqb query ""); [by apply keeps_still, going_select|].
    destruct (get_rep (cache_ (executor sh)) cs query C) as (c1 & -> & C1 & Ec1). outcome_simpl. cbn [fst snd].
    apply keeps_still; [eapply intact_cache; [exact Hi|exact C1|lia]|].
    destruct (spec_get _ _).1; [apply select_nothing|by apply going_select].
  - destruct Hsel as [-> ->]. destruct (lock_tables false sh) as [sh'|] eqn:El; [|by right; left]. apply keeps_still; [by eapply intact_lock_tables|by apply going_select].
  - destruct Hsel as [-> ->]. unfold select_scan. destruct (select_runs db sh stmt Hi Hal) as [result Erun].
    destruct (plan_spec ck _ _ _ Erun) as [[-> _]|(a & t & Epl & Ha & Et & _)].
    { outcome_simpl. apply keeps_still; [exact Hi|apply select_nothing]. }
    rewrite Epl. outcome_simpl.
    assert (Hin : forall locked, selecting db stmt query (Select_in stmt query locked)).
    { intros locked. do 2 (split; [done|]). split; [|intros join Ej; by eapply plan_joinable].
      destruct (db_rep_lookup _ _ (to_upper (se_table_name stmt)) R) as [[? _]|(t' & a' & _ & Ea & _)]; [congruence|by exists a']. }
    destruct Ha as [->| ->]; [|by apply keeps_still, going_select].
    destruct (lock_table false _ sh) as [sh'|] eqn:El; [|by right; left]. apply keeps_still; [by eapply intact_lock_table|by apply going_select].
  - by apply select_in_keeps.
  - destruct Hsel as (-> & -> & Ej & Hj). destruct (lock_table false _ sh) as [sh'|] eqn:El; [|by right; left].
    apply keeps_still; [by eapply intact_lock_table|by apply going_select].
  - by apply select_right_keeps.
  - cbn in Hsel. subst raw. destruct (String.eqb query "") eqn:Eq.
    + outcome_simpl. apply keeps_still; [by eapply intact_cache|apply select_nothing].
    + destruct (put_rep (cache_ (executor sh)) cs query (mkCached (column_names result) (rows result)) C Hcap) as (c2 & -> & C2 & Ec2). outcome_simpl.
      apply keeps_still; [eapply intact_cache; [exact Hi|exact C2|lia]|apply select_nothing].
Qed.
End select.

(** *** All of it *)

Lemma thread_keeps db sh query th rows : intact db sh -> query_allowed query -> clock_ok ck -> no_more db (2 ^ 63 - 2) ->
  going db query th rows -> keeps db query rows (thread_step ck sh th).
Proof.
  intros Hi Hq Hck Hroom Hgo. assert (Hw : forall stmt, parse_sql query = Ret (inr stmt) -> within db stmt query th rows -> keeps db query rows (thread_step ck sh th)).
  { intros stmt Ep Hw. pose proof (Hq _ Ep) as Hal. destruct stmt as [stmt|stmt|stmt]; [by eapply create_keeps|by eapply insert_keeps|].
    destruct Hw as [Hsel ->]. by eapply select_keeps. }
  destruct th; try (by destruct Hgo as (st & Ep & Hin); eapply Hw); [|by right; left|by right; left].
  destruct Hgo as [-> ->]. cbn [thread_step]. pose proof (parse_sql_returns query) as Hp.
  destruct (parse_sql query) as [[err|stmt]|e| |] eqn:Ep.
  - apply keeps_still; [done|]. cbn [going]. unfold gave. by rewrite Ep.
  - apply keeps_still; [done|]. destruct stmt as [stmt|stmt|stmt]; cbn [begin going]; eexists; (split; [exact Ep|]).
    + split; [by left|done].
    + left. done.
    + by split.
  - apply keeps_still; [done|]. cbn [going]. unfold gave. by rewrite Ep.
  - exfalso. destruct Hp as [[x Hx]|[Hx|Hx]]; done.
  - exfalso. destruct Hp as [[x Hx]|[Hx|Hx]]; done.
Qed.

(** An exception leaves the state as it was before the step. *)
Lemma thread_run_keeps db sh query th rows : intact db sh -> query_allowed query -> clock_ok ck -> no_more db (2 ^ 63 - 2) ->
  going db query th rows -> thread_run ck sh th = Ret None \/ exists sh' th' db' new, thread_run ck sh th = Ret (Some (sh', th')) /\
    intact db' sh' /\ extends db db' new /\ (length new <= 1)%nat /\ going db' query th' (rows ++ new).
Proof.
  intros Hi Hq Hck Hroom Hgo. unfold thread_run. destruct (thread_keeps db sh query th rows Hi Hq Hck Hroom Hgo) as [[e ->]|[->|(sh' & th' & db' & new & -> & Hrest)]].
  - right. exists (unwind th sh), (Thrown e), db, []. split; [done|]. split; [by apply intact_unwind|]. split; [apply extends_refl|]. split; [cbn; lia|].
    rewrite app_nil_r. cbn [going]. eapply going_stopped; [|exact Hgo]. apply Hi.
  - by left.
  - right. by exists sh', th', db', new.
Qed.
End steps.

(** ** Steps of the server *)

Section server.
Context `{std_hash : !StdHash, laws : !StdHashLaws}.

(** The thread of a connection: outside a statement it holds nothing. *)
Definition thread_of (c : connection) : thread := match phase_ c with Executing _ th => th | _ => Returned (done_with "") end.
Definition threads_of (srv : Server) : list thread := thread_of <$> connections srv.
Definition server_locks (srv : Server) : Prop :=
  agrees (tables_mutex_ (common srv)) holds_tables (threads_of srv) /\
  forall name, agrees (table_mutex (common srv) name) (holds_table name) (threads_of srv).

(** How many steps are left at most. *)
Definition message_work (message : string) : nat := (work (Parse (trim_end query_end message)) + 3)%nat.
Definition phase_work (p : phase) : nat := match p with Receiving => 1 | Executing _ th => work th + 2 | Closed => 0 end%nat.
Definition connection_work (c : connection) : nat := (sum_list (message_work <$> incoming c) + phase_work (phase_ c))%nat.
Definition server_work (srv : Server) : nat := sum_list (connection_work <$> connections srv).

(** The connection waits for a message of a client that will send none. *)
Definition silent (c : connection) : Prop := phase_ c = Receiving /\ incoming c = [] /\ silent_after c = true.

#[export] Instance silent_dec c : Decision (silent c).
Proof.
  unfold silent. destruct (phase_ c); [|by right; intros (? & _)..]. destruct (incoming c); [|by right; intros (_ & ? & _)].
  destruct (silent_after c); [by left|by right; intros (_ & _ & ?)].
Defined.

Lemma next_query_inv sends c c' : next_query sends c = Some c' ->
  (incoming c = [] /\ c' = at_phase Closed c) \/
  exists message rest p sent, incoming c = message :: rest /\ c' = receive rest p sent c /\
    (p = Receiving \/ p = Closed \/ let query := trim_end query_end message in p = Executing query (Parse query)).
Proof.
  unfold next_query. destruct (incoming c) as [|m rest]; [destruct (silent_after c); [done|]; intros [= <-]; by left|].
  intros [= <-]. right. exists m, rest.
  destruct (String.eqb _ ""); [|destruct (is_exit _)]; eexists _, _; (split; [done|]; split; [done|]); [by left|by right; left|by right; right].
Qed.

Lemma next_query_waits sends c : phase_ c = Receiving -> next_query sends c = None -> silent c.
Proof. unfold next_query, silent. destruct (incoming c); [|done]. by destruct (silent_after c). Qed.

Lemma next_query_work sends c c' : phase_ c = Receiving -> next_query sends c = Some c' -> (connection_work c' < connection_work c)%nat.
Proof.
  intros Ep. unfold connection_work, message_work. intros [[Ei ->]|(m & rest & p & sent & Ei & -> & Hp)]%next_query_inv; cbn [at_phase receive incoming phase_]; rewrite Ep, Ei.
  { cbn. lia. }
  cbn [fmap list_fmap sum_list sum_list_with phase_work]. unfold id. destruct Hp as [->|[->| ->]]; cbn [phase_work]; lia.
Qed.

(** What a step of a connection is. *)
Inductive stepped (t : tick) (sh : Shared) (c : connection) : Shared -> connection -> Prop :=
  | stepped_next c' : phase_ c = Receiving -> next_query (tk_sends t) c = Some c' -> stepped t sh c sh c'
  | stepped_answer query result c' : phase_ c = Executing query (Returned result) -> send_answer (tk_sends t) query result c = Ret c' -> stepped t sh c sh c'
  | stepped_run query th sh' th' : phase_ c = Executing query th -> thread_run (malloc := tk_malloc t) (tk_clocks t) sh th = Ret (Some (sh', th')) ->
      stepped t sh c sh' (at_phase (Executing query th') c).

Lemma connection_step_inv t sh c sh' c' : connection_step t sh c = Ret (Some (sh', c')) -> stepped t sh c sh' c'.
Proof.
  unfold connection_step. destruct (phase_ c) as [|query th|] eqn:Ep; [| |done].
  { intros [= E]. destruct (next_query (tk_sends t) c) as [c1|] eqn:En; [|done]. injection E as <- <-. by constructor. }
  assert (Hrun : (r ← thread_run (malloc := tk_malloc t) (tk_clocks t) sh th; Ret (p ← r; Some (fst p, at_phase (Executing query (snd p)) c))) = Ret (Some (sh', c')) ->
    stepped t sh c sh' c').
  { intros E. apply bind_Ret_inv in E as (o & Eo & E). destruct o as [[sh1 th1]|]; [|done]. cbn in E. injection E as <- <-. by eapply stepped_run. }
  destruct th; try exact Hrun. intros E. apply bind_Ret_inv in E as (c1 & E1 & E). injection E as <- <-. by eapply stepped_answer.
Qed.

Lemma server_step_inv t srv srv' : server_step t srv = Ret (Some srv') -> exists c sh' c', connections srv !! tk_who t = Some c /\
  stepped t (common srv) c sh' c' /\ srv' = mkServer sh' (<[tk_who t := c']> (connections srv)).
Proof.
  unfold server_step. destruct (connections srv !! tk_who t) as [c|] eqn:Ec; [|done]. intros E. apply bind_Ret_inv in E as (o & Eo & E).
  destruct o as [[sh1 c1]|]; [|done]. injection E as <-. exists c, sh1, c1. split; [done|]. split; [by apply connection_step_inv|done].
Qed.

Lemma stepped_work t sh c sh' c' : stepped t sh c sh' c' -> (connection_work c' < connection_work c)%nat.
Proof.
  destruct 1 as [c' Ep En|query result c' Ep Ef|query th sh' th' Ep Er]; [by eapply next_query_work|..]; unfold connection_work; rewrite Ep.
  { apply bind_Ret_inv in Ef as (response & Ef & [= <-]). cbn. destruct (tk_sends t); cbn; lia. }
  cbn.
  apply thread_run_work in Er. lia.
Qed.

Lemma server_step_work t srv srv' : server_step t srv = Ret (Some srv') -> (server_work srv' < server_work srv)%nat.
Proof.
  intros (c & sh' & c' & Ec & Hs & ->)%server_step_inv. apply stepped_work in Hs. unfold server_work. cbn [connections]. rewrite list_fmap_insert.
  assert (E : (connection_work <$> connections srv) !! tk_who t = Some (connection_work c)) by by rewrite list_lookup_fmap, Ec.
  pose proof (sum_list_insert _ (tk_who t) _ (connection_work c') E). lia.
Qed.

Lemma run_server_length ticks : forall srv srv', run_server ticks srv = Ret (Some srv') -> (length ticks + server_work srv' <= server_work srv)%nat.
Proof.
  induction ticks as [|t ticks IH]; intros srv srv'; cbn [run_server]; [intros [= <-]; cbn; lia|].
  intros E. apply bind_Ret_inv in E as (o & Eo & E). destruct o as [srv1|]; [|done]. apply IH in E. apply server_step_work in Eo. cbn. lia.
Qed.

Lemma stepped_locks t sh c sh' c' : stepped t sh c sh' c' -> locks_move sh (thread_of c) sh' (thread_of c').
Proof.
  destruct 1 as [c' Ep En|query result c' Ep Ef|query th sh' th' Ep Er]; unfold thread_of; rewrite Ep.
  - apply next_query_inv in En as [[_ ->]|(m & rest & p & sent & _ & -> & [->|[->| ->]])]; solve_move.
  - apply bind_Ret_inv in Ef as (response & _ & [= <-]). cbn. destruct (tk_sends t); solve_move.
  - cbn [at_phase phase_]. exact (thread_run_locks (malloc := tk_malloc t) _ _ _ _ _ Er).
Qed.

Lemma server_step_locks t srv srv' : server_locks srv -> server_step t srv = Ret (Some srv') -> server_locks srv'.
Proof.
  intros [It Im] (c & sh' & c' & Ec & Hs & ->)%server_step_inv. apply stepped_locks in Hs as [Mt Mm].
  assert (E : threads_of srv !! tk_who t = Some (thread_of c)) by (unfold threads_of; by rewrite list_lookup_fmap, Ec).
  unfold server_locks, threads_of. cbn [common connections]. rewrite list_fmap_insert. split; [by eapply agrees_move|].
  intros name. eapply agrees_move; [apply Im|exact E|apply Mm].
Qed.

(** *** The ledger *)

(** The connection has added [rows], and is at work in the database [db]. *)
Definition connection_ok (db : gmap string atable) (c : connection) (rows : placed) : Prop := exists rss rest,
  Forall2 (fun qr rs => gave qr.1 rs (Some qr.2)) (answered c) rss /\ rows = concat rss ++ rest /\
  match phase_ c with Executing query th => query_allowed query /\ going db query th rest | _ => rest = [] end /\
  Forall message_allowed (incoming c).

Lemma connection_ok_grows db db' c rows : grows db db' -> connection_ok db c rows -> connection_ok db' c rows.
Proof.
  intros Hg (rss & rest & H1 & H2 & H3 & H4). exists rss, rest. do 2 (split; [done|]). split; [|done].
  destruct (phase_ c); [done| |done]. destruct H3. split; [done|]. by eapply going_grows.
Qed.

Lemma connection_ok_contributed db c rows : has_schemas Γ db -> connection_ok db c rows -> contributed c rows.
Proof.
  intros Hs (rss & rest & H1 & H2 & H3 & _). exists rss, rest. do 2 (split; [done|]). destruct (phase_ c); [done| |done].
  destruct H3 as [_ H3]. by eapply going_stopped.
Qed.

Lemma extends_trans db0 db db' L new : extends db0 db L -> extends db db' new -> extends db0 db' (L ++ new).
Proof.
  intros H1 H2 n. specialize (H1 n). specialize (H2 n). rewrite rows_in_app. destruct (db0 !! n) as [a0|], (db !! n) as [a|], (db' !! n) as [a'|]; try done.
  - destruct H1 as [S1 E1], H2 as [S2 E2]. rewrite E2, E1, (assoc_L app). split; [congruence|done].
  - destruct H2 as [S2 E2]. by rewrite E2, H1.
  - by rewrite H1, H2.
  - by rewrite H1, H2.
Qed.

Definition ledger (db0 : gmap string atable) (srv : Server) (db : gmap string atable) (L : placed) (css : list placed) : Prop :=
  intact db (common srv) /\ extends db0 db L /\ interleaves css L /\ Forall2 (connection_ok db) (connections srv) css /\
  no_more db (2 ^ 63 - 2 - Z.of_nat (server_work srv)) /\ Z.of_nat (server_work srv) < 2 ^ 62 /\ server_locks srv.

Lemma no_more_extends db db' new k k' : no_more db k -> extends db db' new -> (length new <= 1)%nat -> k + 1 <= k' -> 1 <= k' -> no_more db' k'.
Proof.
  intros Hk Hx Hn Hkk H1 n a Ha. specialize (Hx n). rewrite Ha in Hx.
  assert (Hr : (length (rows_in n new) <= length new)%nat) by (unfold rows_in; rewrite length_fmap; apply length_filter).
  destruct (db !! n) as [a0|] eqn:E0.
  - destruct Hx as [_ Hx%(f_equal length)]. rewrite length_app, !length_fmap in Hx. specialize (Hk n a0 E0). lia.
  - apply (f_equal length) in Hx. rewrite length_fmap in Hx. lia.
Qed.

(** One connection moves. *)
Lemma ledger_move db0 srv db L css t c rows sh' c' db' new : ledger db0 srv db L css -> server_step t srv = Ret (Some (mkServer sh' (<[tk_who t := c']> (connections srv)))) ->
  connections srv !! tk_who t = Some c -> css !! tk_who t = Some rows -> intact db' sh' -> extends db db' new -> (length new <= 1)%nat ->
  connection_ok db' c' (rows ++ new) -> ledger db0 (mkServer sh' (<[tk_who t := c']> (connections srv))) db' (L ++ new) (<[tk_who t := rows ++ new]> css).
Proof.
  intros (Hi & Hx & Hl & Hc & Hm & Hsmall & Hk) Hs Ec Er Hi' Hx' Hn Hc'. pose proof (server_step_work _ _ _ Hs) as Hw. pose proof (server_step_locks _ _ _ Hk Hs) as Hk'.
  split; [done|]. split; [by eapply extends_trans|]. split; [by apply interleaves_extend|]. split; [|split; [|split; [lia|done]]].
  - cbn [connections]. apply Forall2_insert; [|done]. eapply Forall2_impl; [exact Hc|]. intros x y. apply connection_ok_grows. by eapply extends_grows.
  - eapply no_more_extends; [exact Hm|exact Hx'|done|lia|lia].
Qed.

(** A connection at an answer that has no text: a number too large to print. *)
Definition unprintable (t : tick) (srv : Server) : Prop := exists c query result, connections srv !! tk_who t = Some c /\
  phase_ c = Executing query (Returned result) /\ forall response, format_result result <> Ret response.

Lemma next_query_ok db sends c c' rows : phase_ c = Receiving -> next_query sends c = Some c' -> connection_ok db c rows -> connection_ok db c' rows.
Proof.
  intros Ep En (rss & rest & H1 & H2 & H3 & H4). rewrite Ep in H3. exists rss, rest.
  apply next_query_inv in En as [[Ei ->]|(m & ms & p & sent & Ei & -> & Hp)]; rewrite Ei in H4; cbn [at_phase receive answered phase_ incoming].
  { by rewrite Ei. }
  apply Forall_cons in H4 as [Hq Hqs]. by destruct Hp as [->|[->| ->]].
Qed.

Lemma ledger_step db0 srv db L css t : ledger db0 srv db L css -> clock_ok (tk_clocks t) ->
  server_step t srv = Ret None \/ unprintable t srv \/
  exists srv' db' new css', server_step t srv = Ret (Some srv') /\ ledger db0 srv' db' (L ++ new) css'.
Proof.
  intros Hled Hck. pose proof Hled as (Hi & Hx & Hl & Hc & Hm & Hsmall & Hk). destruct (connections srv !! tk_who t) as [c|] eqn:Ec.
  2:{ left. unfold server_step. by rewrite Ec. }
  destruct (Forall2_lookup_l _ _ _ _ _ Hc Ec) as (rows & Er & Hok).
  assert (Hgo : forall sh' c' db' new, connection_step t (common srv) c = Ret (Some (sh', c')) -> intact db' sh' -> extends db db' new -> (length new <= 1)%nat ->
    connection_ok db' c' (rows ++ new) -> exists srv' db' new css', server_step t srv = Ret (Some srv') /\ ledger db0 srv' db' (L ++ new) css').
  { intros sh' c' db' new E H1 H2 H3 H4. assert (Es : server_step t srv = Ret (Some (mkServer sh' (<[tk_who t := c']> (connections srv))))).
    { unfold server_step. rewrite Ec, E. done. }
    eexists _, _, _, _. split; [exact Es|]. by eapply ledger_move. }
  pose proof Hok as (rss & rest & H1 & H2 & H3 & H4). destruct (phase_ c) as [|query th|] eqn:Ep.
  - destruct (next_query (tk_sends t) c) as [c'|] eqn:En; [right; right|left; unfold server_step, connection_step; by rewrite Ec, Ep, En].
    eapply (Hgo _ c' db []); [unfold connection_step; by rewrite Ep, En|done|apply extends_refl|cbn; lia|].
    rewrite app_nil_r. by eapply next_query_ok.
  - destruct H3 as [Hq Hth].
    assert (Hrun : (forall r, th <> Returned r) -> server_step t srv = Ret None \/ unprintable t srv \/
      exists srv' db' new css', server_step t srv = Ret (Some srv') /\ ledger db0 srv' db' (L ++ new) css').
    { intros Hnr. assert (E : connection_step t (common srv) c = (r ← thread_run (malloc := tk_malloc t) (tk_clocks t) (common srv) th;
        Ret (p ← r; Some (fst p, at_phase (Executing query (snd p)) c)))) by (unfold connection_step; rewrite Ep; destruct th; try done; by destruct (Hnr result)).
      assert (Hroom : no_more db (2 ^ 63 - 2)) by (intros n a Ha; apply Hm in Ha; lia).
      destruct (thread_run_keeps (malloc := tk_malloc t) (tk_clocks t) db (common srv) query th rest Hi Hq Hck Hroom Hth)
        as [Eth|(sh' & th' & db' & new & Eth & Hi' & Hx' & Hn & Hth')]; rewrite Eth in E.
      - left. unfold server_step. by rewrite Ec, E.
      - right. right. eapply Hgo; [exact E|exact Hi'|exact Hx'|exact Hn|]. exists rss, (rest ++ new). split; [done|].
        split; [by rewrite H2, (assoc_L app)|]. split; [done|]. done. }
    destruct th as [| | | | | | | | | | | | | |result|]; try (apply Hrun; done).
    destruct (format_result result) as [response|e| |] eqn:Ef.
    2-4: (right; left; exists c, query, result; do 2 (split; [done|]); intros resp; by rewrite Ef).
    right. right. eapply (Hgo _ _ db []); [unfold connection_step, send_answer; rewrite Ep, Ef; reflexivity|done|apply extends_refl|cbn; lia|].
    exists (rss ++ [rest]), []. cbn [answered phase_ incoming]. split; [apply Forall2_app; [done|by constructor]|].
    split; [|by destruct (tk_sends t)]. rewrite !app_nil_r, concat_app, H2. cbn. by rewrite app_nil_r.
  - left. unfold server_step, connection_step. by rewrite Ec, Ep.
Qed.
End server.
End sessions.

(** ** Theorem *)

Section reached.
Context `{std_hash : !StdHash, laws : !StdHashLaws}.

(** The states of a run whose steps read clocks of which [P] holds. *)
Inductive reached (P : Clocks -> Prop) (srv0 : Server) : Server -> Prop :=
  | reached_start : reached P srv0 srv0
  | reached_later t srv srv' : reached P srv0 srv -> P (tk_clocks t) -> server_step t srv = Ret (Some srv') -> reached P srv0 srv'.

Lemma run_server_reached P ticks : forall srv0 srv srv', reached P srv0 srv -> Forall (fun t => P (tk_clocks t)) ticks ->
  run_server ticks srv = Ret (Some srv') -> reached P srv0 srv'.
Proof.
  induction ticks as [|t ticks IH]; intros srv0 srv srv' Hr Hck; cbn [run_server]; [by intros [= <-]|].
  apply Forall_cons in Hck as [Hc Hck]. intros E. apply bind_Ret_inv in E as (o & Eo & E). destruct o as [srv1|]; [|done].
  eapply IH; [|exact Hck|exact E]. by eapply reached_later.
Qed.

Lemma reached_locks P ex clients srv : reached P (serving ex clients) srv -> server_locks srv.
Proof.
  induction 1 as [|t srv srv' _ IH _ Hs]; [|by eapply server_step_locks].
  assert (Hth : forall held : thread -> option bool, held (Returned (done_with "")) = None -> agrees unlocked held (threads_of (serving ex clients))).
  { intros held Hh. apply agrees_unlocked. unfold threads_of, serving. cbn [connections]. rewrite <- list_fmap_compose. apply Forall_fmap, Forall_true. done. }
  split; [by apply Hth|]. intros name. unfold table_mutex. cbn. rewrite lookup_empty. by apply Hth.
Qed.

(** The connection has been closed, or an exception has taken its thread. *)
Definition over (c : connection) : Prop := phase_ c = Closed \/ exists query e, phase_ c = Executing query (Thrown e).

Lemma connection_moves i c srv : connections srv !! i = Some c -> (forall t, connection_step t (common srv) c <> Ret None) ->
  forall t, tk_who t = i -> server_step t srv <> Ret None.
Proof. intros Ec Hs t Et. unfold server_step. rewrite Et, Ec. specialize (Hs t). by destruct (connection_step t (common srv) c) as [[[? ?]|]| | |]. Qed.

Lemma answer_moves t sh c query result : phase_ c = Executing query (Returned result) -> connection_step t sh c <> Ret None.
Proof. intros Ep. unfold connection_step. rewrite Ep. by destruct (send_answer (tk_sends t) query result c). Qed.

Lemma receiving_moves t sh c : phase_ c = Receiving -> ~ silent c -> connection_step t sh c <> Ret None.
Proof.
  intros Ep Hs. unfold connection_step. rewrite Ep. destruct (next_query (tk_sends t) c) eqn:En; [done|]. by apply next_query_waits in En.
Qed.

Lemma thread_moves t sh c query th : phase_ c = Executing query th -> (exists o, thread_step (malloc := tk_malloc t) (tk_clocks t) sh th = o /\ o <> Ret None) ->
  connection_step t sh c <> Ret None.
Proof.
  intros Ep (o & Eo & Ho). unfold connection_step. rewrite Ep.
  assert (Hrun : (r ← thread_run (malloc := tk_malloc t) (tk_clocks t) sh th; Ret (p ← r; Some (fst p, at_phase (Executing query (snd p)) c))) <> Ret None).
  { intros E. apply bind_Ret_inv in E as ([[sh1 th1]|] & Er & E); [done|]. apply thread_run_inv in Er as [Er|(e & _ & ?)]; [|done]. congruence. }
  destruct th; try exact Hrun. by destruct (send_answer (tk_sends t) query result c).
Qed.

(** Locks block no one for ever: while a statement runs, the thread of some
    statement can move. *)
Lemma executing_moves srv : server_locks srv -> Forall (fun c => phase_ c = Receiving \/ over c) (connections srv) \/
  exists i c query th, connections srv !! i = Some c /\ phase_ c = Executing query th /\ ~ over c /\ forall t, connection_step t (common srv) c <> Ret None.
Proof.
  intros [It Im].
  assert (Hcase : forall cs, (exists i c query result, cs !! i = Some c /\ phase_ c = Executing query (Returned result)) \/
    Forall (fun c => forall q r, phase_ c <> Executing q (Returned r)) cs).
  { induction cs as [|c cs [(i & c' & q & r & Hi & Hc')|IH]]; [by right|left; by exists (S i), c', q, r|].
    destruct (phase_ c) as [|q th|] eqn:Ep; [right; constructor; [by rewrite Ep|done]| |right; constructor; [by rewrite Ep|done]].
    destruct th; try (right; constructor; [by rewrite Ep|done]). left. by exists 0%nat, c, q, result. }
  destruct (Hcase (connections srv)) as [(i & c & q & r & Ec & Ep)|Hall].
  { right. exists i, c, q, (Returned r). do 2 (split; [done|]). split; [|intros t; by eapply answer_moves]. unfold over. rewrite Ep. intros [|(? & ? & ?)]; done. }
  destruct (some_can_move (common srv) (threads_of srv) It Im) as [Hf|(i & th & Hi & Ha)].
  - left. unfold threads_of in Hf. rewrite Forall_fmap in Hf. rewrite Forall_forall in *. intros c Hc. specialize (Hf c Hc). specialize (Hall c Hc).
    unfold over, thread_of, compose in *. destruct (phase_ c) as [|q th|] eqn:Ep; [by left| |by right; left].
    destruct th; try done; [by destruct (Hall q result)|right; right; by eexists _, _].
  - right. unfold threads_of in Hi. rewrite list_lookup_fmap in Hi. destruct (connections srv !! i) as [c|] eqn:Ec; [|done]. injection Hi as Eth.
    unfold thread_of in Eth. destruct (phase_ c) as [|q th'|] eqn:Ep; [subst th; by destruct (Ha malloc_always (at_time 0))| |subst th; by destruct (Ha malloc_always (at_time 0))].
    subst th'. exists i, c, q, th. split; [done|]. split; [done|]. split.
    + unfold over. rewrite Ep. intros [|(? & ? & [= _ ->])]; [done|]. by destruct (Ha malloc_always (at_time 0)).
    + intros t. eapply thread_moves; [exact Ep|]. eexists. split; [reflexivity|]. apply Ha.
Qed.

Lemma receiving_dec c : {phase_ c = Receiving -> silent c} + {phase_ c = Receiving /\ ~ silent c}.
Proof. destruct (decide (silent c)); [by left|]. destruct (phase_ c) eqn:Ep; [by right|by left..]. Qed.

Lemma someone_moves srv : server_locks srv ->
  Forall (fun c => over c \/ silent c) (connections srv) \/ exists i, forall t, tk_who t = i -> server_step t srv <> Ret None.
Proof.
  intros Hl. destruct (executing_moves srv Hl) as [Hq|(i & c & q & th & Ec & _ & _ & Hm)]; [|right; exists i; by eapply connection_moves].
  destruct (Forall_Exists_dec _ _ receiving_dec (connections srv)) as [Hs|Hs].
  - left. rewrite Forall_forall in *. intros c Hc. destruct (Hq c Hc); [right; by apply Hs|by left].
  - right. apply Exists_exists in Hs as (c & Hc & Ep & Hs). apply list_elem_of_lookup_1 in Hc as [i Ec].
    exists i. eapply connection_moves; [exact Ec|]. intros t. by apply receiving_moves.
Qed.

(** What the tables hold in any state of a run, when the clocks make the rows satisfy [F]. *)
Lemma served_ledger Γ F P ex db0 cs clients srv : db_rep (tables_ ex) db0 -> has_schemas Γ db0 -> (forall n a, db0 !! n = Some a -> Forall F (at_rows a)) ->
  cache_rep (cache_ ex) cs -> 0 < capacity_ (cache_ ex) -> Forall (fun cl => Forall (message_allowed Γ) (messages cl)) clients ->
  no_more db0 (2 ^ 62 - 2) -> Z.of_nat (server_work (serving ex clients)) < 2 ^ 62 -> (forall ck, P ck -> clock_ok F ck) ->
  reached P (serving ex clients) srv -> exists db L css, ledger Γ F db0 srv db L css.
Proof.
  intros R Hs HF C Hcap Hq Hm Hw HP Hr. induction Hr as [|t srv srv' Hr (db & L & css & Hled) Hck E].
  - exists db0, [], ((fun _ => []) <$> clients). split; [split; [exact R|split; [done|split; [done|by exists cs]]]|]. split; [apply extends_refl|].
    split; [constructor; apply Forall_fmap, Forall_true; done|]. split; [|split; [|split; [done|]]].
    + cbn [serving connections]. apply Forall2_fmap, Forall_Forall2_diag. eapply Forall_impl; [exact Hq|]. intros ms Hms. exists [], [].
      split; [constructor|]. by split_and!.
    + intros n a Ha. apply Hm in Ha. lia.
    + exact (reached_locks P ex clients _ (reached_start P _)).
  - destruct (ledger_step Γ F db0 srv db L css t Hled (HP _ Hck)) as [E'|[(c & q & r & Ec & Ep & Hf)|(srv1 & db' & new & css' & E' & Hled')]]; [congruence| |].
    + exfalso. unfold server_step, connection_step, send_answer in E. rewrite Ec, Ep in E.
      destruct (format_result r) as [resp| | |] eqn:Ef; [by destruct (Hf resp)|done..].
    + rewrite E' in E. injection E as <-. by eexists _, _, _.
Qed.

Lemma clock_fits_ok ck : clock_fits ck -> clock_ok (fun _ => True) ck.
Proof. by split. Qed.

End reached.

(** *** Four connections *)

(** The second inserts between the two rows of the first, and fails at its own
    second row; it stays connected. The third runs out of memory while it holds
    every lock. The fourth does not take its answer. *)
Definition sample_clients : list client :=
  [mkClient ["CREATE TABLE t (id INT, v INT);"; "INSERT INTO t VALUES (1, 10), (2, 20);"; "SELECT v FROM t;"; "EXIT"] false;
   mkClient ["INSERT INTO t VALUES (3, 30), (x, 1);"] true;
   mkClient ["CREATE TABLE u (id INT);"; "SELECT * FROM t;"] false;
   mkClient ["SELECT id FROM t"; "SELECT v FROM t"] false].

Definition no_memory : Malloc := fun _ _ => false.
Definition tick_of (memory : Malloc) (sends : bool) (i : nat) : tick := mkTick i (at_time 100) memory sends.
Definition sample_ticks : list tick :=
  (tick_of malloc_always true <$> replicate 5 0 ++ replicate 5 0 ++ replicate 5 1 ++ [0; 0; 1; 1; 0; 0; 0] ++ [2; 2; 2])%nat ++ [tick_of no_memory true 2] ++
  (tick_of malloc_always true <$> replicate 9 0%nat ++ replicate 7 3%nat) ++ [tick_of malloc_always false 3].

Definition create_schema (sql : string) : Schema :=
  match stmt_of sql with CREATE_TABLE c => match create_columns (ct_columns c) Schema_empty with inr s => s | inl _ => Schema_empty end | _ => Schema_empty end.
Definition sample_schemas : gmap string Schema :=
  {["T" := create_schema "CREATE TABLE t (id INT, v INT)"; "U" := create_schema "CREATE TABLE u (id INT)"]}.

(** What the connections have answered, and how they stand. *)
Definition seen (srv : Server) : list (list string * string) :=
  (fun c => (outgoing c, match phase_ c with Receiving => "waits" | Executing _ (Thrown _) => "dead" | Executing _ _ => "executes" | Closed => "closed" end)) <$> connections srv.

Example sample_seen : (r ← run_server sample_ticks (serving Executor_new sample_clients); Ret (fmap (M:=option) seen r)) =
  Ret (Some [(["Table T created" +:+ nl; "2 rows inserted" +:+ nl; "V" +:+ nl +:+ "10" +:+ nl +:+ "30" +:+ nl +:+ "20" +:+ nl; BYE], "closed");
             (["ERROR: Invalid INT literal: x" +:+ nl], "waits"); ([], "dead"); ([], "closed")]).
Proof. vm_compute. reflexivity. Qed.

Lemma allowed_by query stmt Γ : parse_sql query = Ret (inr stmt) -> allowed Γ stmt -> query_allowed Γ query.
Proof. intros E Ha stmt' E'. rewrite E in E'. by injection E' as <-. Qed.

Lemma sample_create_allowed sql c name : stmt_of sql = CREATE_TABLE c -> create_ok c -> to_upper (ct_table_name c) = name ->
  sample_schemas !! name = Some (create_schema sql) -> allowed sample_schemas (CREATE_TABLE c).
Proof. intros E Hok <- Hs. split; [done|]. intros s Es. rewrite Hs. unfold create_schema. by rewrite E, Es. Qed.

Lemma sample_insert_allowed i s : sample_schemas !! to_upper (in_table_name i) = Some s ->
  Forall (fun lits => match abs_row (columns_ s) lits with inr row => key_sane row | inl _ => True end) (in_batch_values i) -> allowed sample_schemas (INSERT i).
Proof. intros E H s' E'. rewrite E in E'. by injection E' as <-. Qed.

Lemma plain_select_allowed s : se_where s = None -> allowed sample_schemas (SELECT s).
Proof. intros E _ sch _. by rewrite E. Qed.

(** A message of a concrete client: it is parsed, and the statement checked. *)
Ltac solve_message_allowed :=
  unfold message_allowed;
  lazymatch goal with |- query_allowed _ ?q =>
    let sql := eval vm_compute in q in
    let r := eval vm_compute in (parse_sql q) in
    lazymatch r with
    | Ret (inr ?st) =>
        apply (allowed_by _ st); [vm_compute; reflexivity|];
        lazymatch st with
        | SELECT _ => apply plain_select_allowed; reflexivity
        | INSERT _ => eapply sample_insert_allowed; [vm_compute; reflexivity|cbn [in_batch_values]; repeat (apply Forall_cons_2; [vm_compute; done|]); apply Forall_nil_2]
        | CREATE_TABLE _ => eapply (sample_create_allowed sql); [vm_compute; reflexivity| |reflexivity|vm_compute; reflexivity]; solve_stmt_ok
        end
    | Ret (inl ?err) => intros st E; assert (E' : parse_sql q = Ret (inl err)) by (vm_compute; reflexivity); rewrite E' in E; discriminate E
    end
  end.

Lemma sample_messages_allowed : Forall (fun cl => Forall (message_allowed sample_schemas) (messages cl)) sample_clients.
Proof.
  unfold sample_clients. repeat apply Forall_cons_2; cbn [messages]; repeat apply Forall_cons_2; try apply Forall_nil_2; solve_message_allowed.
Qed.

Lemma sample_clocks_fit : Forall (fun t => clock_fits (tk_clocks t)) sample_ticks.
Proof.
  assert (Hf : forall memory sends i, clock_fits (tk_clocks (tick_of memory sends i))) by (intros memory sends i j; unfold is_s64, DEFAULT_TTL_SECONDS; cbn; lia).
  unfold sample_ticks. repeat (apply Forall_app; split); try (apply Forall_fmap, Forall_true; intros i; apply Hf); (constructor; [apply Hf|constructor]).
Qed.

Lemma sample_reached : exists srv, run_server sample_ticks (serving Executor_new sample_clients) = Ret (Some srv) /\ reached clock_fits (serving Executor_new sample_clients) srv.
Proof.
  pose proof sample_seen as E. destruct (run_server sample_ticks (serving Executor_new sample_clients)) as [[srv|]| | |] eqn:Er; try discriminate E.
  exists srv. split; [done|]. eapply run_server_reached; [apply reached_start|exact sample_clocks_fit|exact Er].
Qed.

