(* ===== verification/Serving.v ===== *)
(** * The server and its pool ([TCPServer::run], [stop], over [thread_pool.h])

    [run] submits a task for each connection it accepts; the [i]-th task is
    [handle_client] of the [i]-th connection. A connection is served only while
    a worker of the pool runs its task, and the worker is free again when
    [handle_client] has returned or thrown. This composes ThreadPool with
    Sessions. *)

From Stdlib Require Import ZArith Lia.
From stdpp Require Import base strings gmap numbers list.
From S2P Require Import Prelude Executor JoinSpec LockManager Network Concurrency Sessions ThreadPool.
Open Scope list_scope.
Open Scope nat_scope.

(** ** State *)

(** The pool, the connections accepted so far, and the clients that will
    connect, in this order. *)
Record TCPServer := mkTCPServer {
  pool_ : ThreadPool;
  server : Server;
  backlog : list client;
}.

Definition TCPServer_new (ex : Executor) (num_threads : nat) (clients : list client) : TCPServer :=
  mkTCPServer (ThreadPool_new num_threads) (serving ex []) clients.

(** ** Steps *)

(** [Accept]: [run] accepts a client and takes the mutex in [submit]. [Serve]: a
    thread takes a step of its connection. [Work]: another step of the pool. *)
Inductive event :=
  | Accept
  | Serve (t : tick)
  | Work (a : action).

(** [handle_client] has returned or thrown. *)
Definition is_over (c : connection) : bool :=
  match phase_ c with Closed | Executing _ (Thrown _) => true | _ => false end.

Definition is_served (i : nat) (pool : ThreadPool) : bool :=
  existsb (fun w => match w with Running task => task =? i | _ => false end) (workers_ pool).

(** [run] is one thread: it accepts again after [submit] has notified. *)
Definition accept (s : TCPServer) : option TCPServer :=
  match backlog s with
  | [] => None
  | cl :: rest =>
      if notifies (pool_ s) =? 0 then
        pool ← submit_lock (length (connections (server s))) (pool_ s);
        Some (mkTCPServer pool (mkServer (common (server s)) (connections (server s) ++ [accepted_connection cl])) rest)
      else None
  end.

(** A task ends when its connection is over; only [run] submits. *)
Definition allows (s : TCPServer) (a : action) : bool :=
  match a with
  | Submit_lock _ => false
  | Finish i =>
      match workers_ (pool_ s) !! i with
      | Some (Running task) => match connections (server s) !! task with Some c => is_over c | None => false end
      | _ => false
      end
  | _ => true
  end.

Section steps.
Context `{std_hash : StdHash}.

Definition tcp_step (e : event) (s : TCPServer) : outcome (option TCPServer) :=
  match e with
  | Accept => Ret (accept s)
  | Serve t =>
      if is_served (tk_who t) (pool_ s) then
        r ← server_step t (server s);
        Ret (srv ← r; Some (mkTCPServer (pool_ s) srv (backlog s)))
      else Ret None
  | Work a =>
      if allows s a then Ret (pool ← perform a (pool_ s); Some (mkTCPServer pool (server s) (backlog s))) else Ret None
  end.

Fixpoint run_tcp (events : list event) (s : TCPServer) : outcome (option TCPServer) :=
  match events with
  | [] => Ret (Some s)
  | e :: events =>
      r ← tcp_step e s;
      match r with None => Ret None | Some s => run_tcp events s end
  end.
End steps.
