(* ===== verification/ServingSpec.v ===== *)
(** * The pool serves the clients

    The server with its pool refines the server of Sessions, in which every
    connection has a thread: what holds there of rows and locks holds here. The
    pool adds an order and a bound, and that a client which neither sends nor
    hangs up keeps its worker. *)

From Stdlib Require Import ZArith Lia.
From stdpp Require Import base strings gmap numbers list.
From S2P Require Import Prelude Cpp Common Schema Arena BPTree Table TableSpec Lexer Parser Cache CacheSpec Executor JoinSpec ExecutorSpec SessionSpec LockManager Wire Network NetworkSpec Concurrency ConcurrencySpec Sessions SessionsSpec ThreadPool Serving.
Open Scope string_scope.
Open Scope list_scope.
Open Scope nat_scope.

(** ** Wake-ups *)

Definition is_checking (w : worker) : nat := match w with Checking => 1 | _ => 0 end.
Definition checking (ws : list worker) : nat := sum_list (is_checking <$> ws).

(** No wake-up is lost between a push and its notification: a worker sleeps only
    if there are as many others awake, or notifications to come, as tasks. *)
Definition wakes (s : ThreadPool) : Prop :=
  (length (tasks_ s) <= notifies s + checking (workers_ s) \/ forall i, workers_ s !! i <> Some Waiting) /\
  forall i, workers_ s !! i = Some Deciding -> tasks_ s = [].

Lemma checking_insert ws i w w' : ws !! i = Some w -> checking (<[i := w']> ws) + is_checking w = checking ws + is_checking w'.
Proof.
  intros Hi. unfold checking. rewrite list_fmap_insert. assert (E : (is_checking <$> ws) !! i = Some (is_checking w)) by by rewrite list_lookup_fmap, Hi.
  pose proof (sum_list_insert _ i _ (is_checking w') E). lia.
Qed.

Lemma checking_wake ws : checking ws <= checking (map wake ws).
Proof. unfold checking. induction ws as [|[| | | |] ws IH]; cbn in *; lia. Qed.

Arguments checking : simpl never.

(** A worker that was not asleep, or wakes up, goes elsewhere than to sleep. *)
Lemma no_sleeper_insert (ws : list worker) i w : w <> Waiting -> (forall j, ws !! j <> Some Waiting) -> forall j, <[i := w]> ws !! j <> Some Waiting.
Proof. intros Hw Hs j Hj. apply lookup_insert_cases in Hj as [|Hj]; [by subst|by apply Hs in Hj]. Qed.

Lemma wakes_new n : wakes (ThreadPool_new n).
Proof. split; [left; cbn; lia|]. intros i Hi. reflexivity. Qed.

Lemma wakes_step n a s s' : pool_inv n s -> wakes s -> perform a s = Some s' -> wakes s'.
Proof.
  intros Hinv [Hw Hd] Ha. destruct a as [task| |i|i|i|i|i| | | |]; cbn [perform] in Ha.
  - unfold submit_lock in Ha. destruct (_ && _); [|done]. by injection Ha as <-.
  - unfold submit_push in Ha. destruct (submitter s) as [task|] eqn:Em; [|done]. injection Ha as <-. split; cbn.
    + rewrite length_app. cbn. destruct Hw; [left; lia|by right].
    + intros i Hi. destruct (inv_mutex n s Hinv i Hi). congruence.
  - unfold notify_one in Ha. destruct (notifies s) as [|k] eqn:En; [done|]. destruct i as [i|].
    + case_decide as Hi; [|done]. injection Ha as <-. pose proof (checking_insert _ _ _ Checking Hi) as E. cbn in E. split; cbn.
      * destruct Hw as [Hw|Hw]; [left; lia|by destruct (Hw i)].
      * intros j Hj. apply lookup_insert_cases in Hj as [|Hj]; [done|by eapply Hd].
    + destruct (existsb is_waiting (workers_ s)) eqn:Ee; [done|]. injection Ha as <-. split; cbn; [right|done].
      intros i Hi. apply not_true_iff_false in Ee. apply Ee, existsb_exists. exists Waiting. split; [|done].
      by apply list_elem_of_In, (list_elem_of_lookup_2 _ i).
  - unfold check in Ha. case_decide as Hi; [|done]. destruct (queue_mutex_free s) eqn:Em; [|done]. apply mutex_free_spec in Em as [_ Hnd].
    destruct (tasks_ s) as [|task tasks] eqn:Et; injection Ha as <-; cbn; split; cbn; rewrite ?Et.
    + left. cbn. lia.
    + done.
    + pose proof (checking_insert _ _ _ (Running task) Hi) as E. cbn in E, Hw. destruct Hw as [Hw|Hw]; [left; lia|right; by apply no_sleeper_insert].
    + intros j Hj. apply lookup_insert_cases in Hj as [|Hj]; [done|by apply Hnd in Hj].
  - unfold move in Ha. case_decide as Hi; [|done]. injection Ha as <-. split; cbn; rewrite (Hd i Hi); [left; cbn; lia|done].
  - unfold finish in Ha. destruct (workers_ s !! i) as [[| | |task|]|] eqn:Hi; try done. injection Ha as <-.
    pose proof (checking_insert _ _ _ Checking Hi) as E. cbn in E. split; cbn.
    + destruct Hw as [Hw|Hw]; [left; lia|right; by apply no_sleeper_insert].
    + intros j Hj. apply lookup_insert_cases in Hj as [|Hj]; [done|by eapply Hd].
  - unfold move in Ha. case_decide as Hi; [|done]. injection Ha as <-. pose proof (checking_insert _ _ _ Checking Hi) as E. cbn in E.
    split; cbn; [destruct Hw as [Hw|Hw]; [left; lia|by destruct (Hw i)]|].
    intros j Hj. apply lookup_insert_cases in Hj as [|Hj]; [done|by eapply Hd].
  - destruct (shutdown_ s); try done. by injection Ha as <-.
  - unfold set_stop in Ha. destruct (shutdown_ s); try done. by injection Ha as <-.
  - unfold notify_all in Ha. destruct (shutdown_ s); try done. injection Ha as <-. split; cbn.
    + right. intros i Hi. by apply lookup_wake in Hi as [? _].
    + intros i Hi. apply lookup_wake in Hi as [_ Hi]. by eapply Hd, Hi.
  - unfold join in Ha. destruct (shutdown_ s) as [| | |i|]; try done. by destruct (workers_ s !! i) as [[| | | |]|]; try done; injection Ha as <-.
Qed.

Lemma find_worker w (ws : list worker) : (exists i, ws !! i = Some w) \/ forall i, ws !! i <> Some w.
Proof. destruct (decide (w ∈ ws)) as [H|H]; [left; by apply list_elem_of_lookup_1|right; intros i Hi; by apply H, (list_elem_of_lookup_2 _ i)]. Qed.

Lemma no_checking ws : (forall i, ws !! i <> Some Checking) -> checking ws = 0.
Proof.
  unfold checking. induction ws as [|w ws IH]; intros H; [done|]. cbn. rewrite (IH (fun i => H (S i))). pose proof (H 0). by destruct w.
Qed.

(** While a task is queued or being pushed, the pool can take a step of its own,
    unless all workers run tasks. *)
Lemma pool_moves n s : pool_inv n s -> wakes s -> tasks_ s <> [] \/ submitter s <> None ->
  (exists a, match a with Submit_push | Notify_one _ | Check _ | Block _ => True | _ => False end /\ perform a s <> None) \/
  forall i, i < n -> exists task, workers_ s !! i = Some (Running task).
Proof.
  intros Hinv [Hw Hd] Ht. destruct (submitter s) as [task|] eqn:Em; [left; exists Submit_push; cbn; unfold submit_push; by rewrite Em|].
  destruct Ht as [Ht|]; [|done].
  assert (Hnd : forall i, workers_ s !! i <> Some Deciding) by (intros i Hi; by apply Ht, (Hd i)).
  destruct (find_worker Checking (workers_ s)) as [[i Hi]|Hc].
  { left. exists (Check i). split; [done|]. cbn. unfold check. rewrite decide_True by done.
    replace (queue_mutex_free s) with true by (symmetry; by apply mutex_free_intro). by destruct (tasks_ s). }
  destruct (find_worker Waiting (workers_ s)) as [[i Hi]|Hn].
  { left. exists (Notify_one (Some i)). split; [done|]. cbn. unfold notify_one. destruct Hw as [Hw|Hw]; [|by destruct (Hw i)].
    rewrite no_checking in Hw by done. destruct (notifies s); [by destruct (tasks_ s); [|cbn in Hw; lia]|]. by rewrite decide_True. }
  right. intros i Hi. rewrite <- (inv_workers n s Hinv) in Hi. apply lookup_lt_is_Some in Hi as [w Hi].
  destruct w as [| | |task|]; [by apply Hc in Hi|by apply Hnd in Hi|by apply Hn in Hi|by exists task|].
  by destruct (inv_exited n s Hinv i Hi) as (_ & ? & _).
Qed.

(** *** Work *)

Definition worker_cost (w : worker) : nat := match w with Checking => 2 | Deciding => 1 | Running _ => 3 | _ => 0 end.
Definition workers_cost (ws : list worker) : nat := sum_list (worker_cost <$> ws).
Definition shutdown_cost (n : nat) (pc : shutdown_pc) : nat :=
  match pc with Not_called => 3 * n + 4 | Called => 3 * n + 3 | Stopped => 3 * n + 2 | Joining i => 1 + (n - i) | ThreadPool.Returned => 0 end.

(** How many steps the pool can still take, spurious wake-ups and submissions apart. *)
Definition pool_work (s : ThreadPool) : nat :=
  workers_cost (workers_ s) + 2 * length (tasks_ s) + 3 * notifies s + (match submitter s with Some _ => 6 | None => 0 end) +
  shutdown_cost (length (workers_ s)) (shutdown_ s).

Arguments workers_cost : simpl never.

Lemma workers_cost_insert ws i w w' : ws !! i = Some w -> workers_cost (<[i := w']> ws) + worker_cost w = workers_cost ws + worker_cost w'.
Proof.
  intros Hi. unfold workers_cost. rewrite list_fmap_insert. assert (E : (worker_cost <$> ws) !! i = Some (worker_cost w)) by by rewrite list_lookup_fmap, Hi.
  pose proof (sum_list_insert _ i _ (worker_cost w') E). lia.
Qed.

Lemma workers_cost_wake ws : workers_cost (map wake ws) <= workers_cost ws + 2 * length ws.
Proof. unfold workers_cost. induction ws as [|[| | | |] ws IH]; cbn in *; lia. Qed.

Lemma submit_lock_work task s s' : submit_lock task s = Some s' -> pool_work s' = pool_work s + 6.
Proof.
  unfold submit_lock. destruct (queue_mutex_free s) eqn:Em; [|done]. destruct (stop_ s); [done|]. intros [= <-].
  apply mutex_free_spec in Em as [Hs _]. unfold pool_work. cbn. rewrite Hs. lia.
Qed.

Lemma perform_work a s s' : (forall i, a <> Spurious i) -> (forall task, a <> Submit_lock task) -> perform a s = Some s' -> pool_work s' < pool_work s.
Proof.
  intros Hsp Hsl Ha. unfold pool_work. destruct a as [task| |i|i|i|i|i| | | |]; cbn [perform] in Ha.
  - by destruct (Hsl task).
  - unfold submit_push in Ha. destruct (submitter s); [|done]. injection Ha as <-. cbn. rewrite length_app. cbn. lia.
  - unfold notify_one in Ha. destruct (notifies s) as [|k]; [done|]. destruct i as [i|].
    + case_decide as Hi; [|done]. injection Ha as <-. pose proof (workers_cost_insert _ _ _ Checking Hi) as E. cbn in *. rewrite length_insert. lia.
    + destruct (existsb _ _); [done|]. injection Ha as <-. cbn. lia.
  - unfold check in Ha. case_decide as Hi; [|done]. destruct (queue_mutex_free s); [|done].
    destruct (tasks_ s) as [|task tasks] eqn:Et; injection Ha as <-; cbn; rewrite ?Et, length_insert; cbn.
    + pose proof (workers_cost_insert _ _ _ (if stop_ s then Exited else Deciding) Hi) as E. destruct (stop_ s); cbn in *; lia.
    + pose proof (workers_cost_insert _ _ _ (Running task) Hi) as E. cbn in *. lia.
  - unfold move in Ha. case_decide as Hi; [|done]. injection Ha as <-. pose proof (workers_cost_insert _ _ _ Waiting Hi) as E. cbn in *. rewrite length_insert. lia.
  - unfold finish in Ha. destruct (workers_ s !! i) as [[| | |task|]|] eqn:Hi; try done. injection Ha as <-.
    pose proof (workers_cost_insert _ _ _ Checking Hi) as E. cbn in *. rewrite length_insert. lia.
  - by destruct (Hsp i).
  - destruct (shutdown_ s) eqn:Es; try done. injection Ha as <-. cbn. lia.
  - unfold set_stop in Ha. destruct (shutdown_ s) eqn:Es; try done. injection Ha as <-. cbn. lia.
  - unfold notify_all in Ha. destruct (shutdown_ s) eqn:Es; try done. injection Ha as <-. cbn. rewrite length_map. pose proof (workers_cost_wake (workers_ s)). lia.
  - unfold join in Ha. destruct (shutdown_ s) as [| | |i|] eqn:Es; try done.
    destruct (workers_ s !! i) as [[| | | |]|] eqn:Hi; try done; injection Ha as <-; cbn -[Nat.sub]; [apply lookup_lt_Some in Hi|]; lia.
Qed.

(** ** The server and its pool *)

Section serving.
Context `{std_hash : !StdHash, laws : !StdHashLaws}.

(** The clocks that steps read. *)
Context (P : Clocks -> Prop).
Definition event_fits (e : event) : Prop := match e with Serve t => P (tk_clocks t) | _ => True end.

Inductive tcp_reached (s0 : TCPServer) : TCPServer -> Prop :=
  | tcp_start : tcp_reached s0 s0
  | tcp_later e s s' : tcp_reached s0 s -> event_fits e -> tcp_step e s = Ret (Some s') -> tcp_reached s0 s'.

Lemma run_tcp_reached events : forall s0 s s', tcp_reached s0 s -> Forall event_fits events -> run_tcp events s = Ret (Some s') -> tcp_reached s0 s'.
Proof.
  induction events as [|e events IH]; intros s0 s s' Hr Hf; cbn [run_tcp]; [by intros [= <-]|].
  apply Forall_cons in Hf as [He Hf]. intros E. apply bind_Ret_inv in E as ([s1|] & Eo & E); [|done]. eapply IH; [|exact Hf|exact E]. by eapply tcp_later.
Qed.

(** The same server if everyone had a thread: those to come have not begun. *)
Definition whole (s : TCPServer) : Server :=
  mkServer (common (server s)) (connections (server s) ++ (accepted_connection <$> backlog s)).

Definition untouched (c : connection) : Prop := exists cl, c = accepted_connection cl.
Definition submitting (s : ThreadPool) : list nat := match submitter s with Some task => [task] | None => [] end.

(** *** Steps *)

Inductive tcp_stepped (s : TCPServer) : event -> TCPServer -> Prop :=
  | stepped_accept cl rest pool : backlog s = cl :: rest -> notifies (pool_ s) = 0 -> submit_lock (length (connections (server s))) (pool_ s) = Some pool ->
      tcp_stepped s Accept (mkTCPServer pool (mkServer (common (server s)) (connections (server s) ++ [accepted_connection cl])) rest)
  | stepped_serve t i srv : workers_ (pool_ s) !! i = Some (Running (tk_who t)) -> server_step t (server s) = Ret (Some srv) ->
      tcp_stepped s (Serve t) (mkTCPServer (pool_ s) srv (backlog s))
  | stepped_work a pool : allows s a = true -> perform a (pool_ s) = Some pool -> tcp_stepped s (Work a) (mkTCPServer pool (server s) (backlog s)).

Lemma is_served_true i pool : is_served i pool = true <-> exists w, workers_ pool !! w = Some (Running i).
Proof.
  unfold is_served. rewrite existsb_exists. split.
  - intros (w & Hin & Hw). apply list_elem_of_In, list_elem_of_lookup_1 in Hin as [j Hj]. destruct w; try done. apply Nat.eqb_eq in Hw as ->. by exists j.
  - intros [j Hj]. exists (Running i). split; [by apply list_elem_of_In, (list_elem_of_lookup_2 _ j)|apply Nat.eqb_refl].
Qed.

Lemma tcp_step_inv e s s' : tcp_step e s = Ret (Some s') -> tcp_stepped s e s'.
Proof.
  destruct e as [|t|a]; cbn [tcp_step].
  - intros [= E]. unfold accept in E. destruct (backlog s) as [|cl rest] eqn:Eb; [done|]. destruct (Nat.eqb_spec (notifies (pool_ s)) 0) as [En|]; [|done].
    destruct (submit_lock _ _) as [pool|] eqn:Ep; [|done]. injection E as <-. by constructor.
  - destruct (is_served _ _) eqn:Es; [|done]. apply is_served_true in Es as [w Hw]. intros E. apply bind_Ret_inv in E as ([srv|] & Eo & E); [|done].
    injection E as <-. by econstructor.
  - destruct (allows s a) eqn:Ea; [|done]. destruct (perform a (pool_ s)) as [pool|] eqn:Ep; [|done]. intros [= <-]. by constructor.
Qed.

Lemma whole_step s t srv : server_step t (server s) = Ret (Some srv) -> server_step t (whole s) = Ret (Some (whole (mkTCPServer (pool_ s) srv (backlog s)))).
Proof.
  unfold server_step, whole. cbn [server backlog common connections]. destruct (connections (server s) !! tk_who t) as [c|] eqn:Ec; [|done].
  pose proof (lookup_lt_Some _ _ _ Ec) as Hlt. rewrite lookup_app_l, Ec by done. intros E. apply bind_Ret_inv in E as ([[sh c']|] & Eo & E); [|done].
  injection E as <-. rewrite Eo. cbn. by rewrite insert_app_l.
Qed.

Lemma whole_accept s cl rest pool : backlog s = cl :: rest ->
  whole (mkTCPServer pool (mkServer (common (server s)) (connections (server s) ++ [accepted_connection cl])) rest) = whole s.
Proof. intros E. unfold whole. cbn. by rewrite E, <- (assoc_L app). Qed.

(** *** Work *)

Definition tcp_work (s : TCPServer) : nat := server_work (whole s) + pool_work (pool_ s) + 7 * length (backlog s).

Lemma tcp_step_work e s s' : (forall i, e <> Work (Spurious i)) -> tcp_step e s = Ret (Some s') -> tcp_work s' < tcp_work s.
Proof.
  intros Hsp Hs. apply tcp_step_inv in Hs. unfold tcp_work. destruct Hs as [cl rest pool Eb En Ep|t i srv Hw Es|a pool Ea Ep].
  - rewrite (whole_accept s cl rest pool Eb). cbn [pool_ backlog]. apply submit_lock_work in Ep. rewrite Eb. cbn [length]. lia.
  - apply whole_step, server_step_work in Es. cbn [pool_ backlog]. lia.
  - unfold whole. cbn [pool_ server backlog]. apply perform_work in Ep; [lia|intros i ->; by apply (Hsp i)|by intros task ->].
Qed.

Lemma run_tcp_length events : Forall (fun e => forall i, e <> Work (Spurious i)) events -> forall s s', run_tcp events s = Ret (Some s') ->
  length events + tcp_work s' <= tcp_work s.
Proof.
  induction 1 as [|e events He _ IH]; intros s s'; cbn [run_tcp]; [intros [= <-]; cbn; lia|].
  intros E. apply bind_Ret_inv in E as ([s1|] & Eo & E); [|done]. apply IH in E. apply tcp_step_work in Eo; [|done]. cbn [length]. lia.
Qed.

(** *** Invariant *)

Context (n : nat) (ex : Executor) (clients : list client).

Record tcp_inv (s : TCPServer) : Prop := {
  ti_pool : reachable n (pool_ s);
  ti_wakes : wakes (pool_ s);
  ti_submitted : submitted (pool_ s) ++ submitting (pool_ s) = seq 0 (length (connections (server s)));
  ti_fresh : forall i c, connections (server s) !! i = Some c -> i ∉ started (pool_ s) -> untouched c;
  ti_finished : forall i c, connections (server s) !! i = Some c -> i ∈ finished (pool_ s) -> over c;
  ti_whole : reached P (serving ex clients) (whole s);
}.

Lemma tcp_inv_new : tcp_inv (TCPServer_new ex n clients).
Proof.
  constructor; cbn; [apply reachable_new|apply wakes_new|done|done|done|].
  unfold whole. cbn. apply reached_start.
Qed.

(** The tasks submitted and taken up are numbered in order. *)
Lemma numbered s : tcp_inv s -> exists k, started (pool_ s) = seq 0 k /\ k <= length (connections (server s)) /\
  started (pool_ s) ++ tasks_ (pool_ s) ++ submitting (pool_ s) = seq 0 (length (connections (server s))).
Proof.
  intros Hi. pose proof (ti_submitted s Hi) as E. rewrite (inv_order n _ (reachable_inv n _ (ti_pool s Hi))) in E. rewrite <- (assoc_L app) in E.
  exists (length (started (pool_ s))). assert (Hl : length (started (pool_ s)) <= length (connections (server s))).
  { apply (f_equal length) in E. rewrite length_seq, length_app in E. lia. }
  split; [|done]. apply (f_equal (take (length (started (pool_ s))))) in E. rewrite take_app_length in E. rewrite E at 1. by rewrite take_seq, Nat.min_l.
Qed.

(** A connection that was taken up and is not over has a worker. *)
Lemma begun_served s i c : tcp_inv s -> connections (server s) !! i = Some c -> i ∈ started (pool_ s) -> ~ over c -> is_served i (pool_ s) = true.
Proof.
  intros Hi Ec Hs Ho. rewrite (inv_once n _ (reachable_inv n _ (ti_pool s Hi))) in Hs. apply elem_of_app in Hs as [Hs|Hs]; [by destruct Ho; eapply ti_finished|].
  apply is_served_true. clear -Hs. induction (workers_ (pool_ s)) as [|w ws IH]; [by apply elem_of_nil in Hs|].
  destruct w as [| | |task|]; cbn [running] in Hs; try (destruct (IH Hs) as [j Hj]; by exists (S j)).
  apply elem_of_cons in Hs as [->|Hs]; [by exists 0|]. destruct (IH Hs) as [j Hj]. by exists (S j).
Qed.

Lemma running_started s i w : tcp_inv s -> workers_ (pool_ s) !! w = Some (Running i) -> i ∈ started (pool_ s).
Proof.
  intros Hi Hw. rewrite (inv_once n _ (reachable_inv n _ (ti_pool s Hi))). apply elem_of_app. right. clear -Hw. revert w Hw.
  induction (workers_ (pool_ s)) as [|x ws IH]; intros [|w] Hw; [done|done|injection Hw as ->; cbn; set_solver|].
  specialize (IH w Hw). destruct x; cbn [running]; set_solver.
Qed.

Lemma perform_history a s s' : (forall task, a <> Submit_lock task) -> perform a s = Some s' ->
  submitted s' ++ submitting s' = submitted s ++ submitting s /\ (forall i, i ∈ started s -> i ∈ started s') /\
  forall i, i ∈ finished s' -> i ∈ finished s \/ exists w, a = Finish w /\ workers_ s !! w = Some (Running i).
Proof.
  intros Hsl Ha. assert (Hsame : forall t, submitted t = submitted s -> submitter t = submitter s -> started t = started s -> finished t = finished s -> t = s' ->
    submitted s' ++ submitting s' = submitted s ++ submitting s /\ (forall i, i ∈ started s -> i ∈ started s') /\
    forall i, i ∈ finished s' -> i ∈ finished s \/ exists w, a = Finish w /\ workers_ s !! w = Some (Running i)).
  { intros t E1 E2 E3 E4 <-. unfold submitting. rewrite E1, E2, E3, E4. split_and!; [done|done|by left]. }
  destruct a as [task| |i|i|i|i|i| | | |]; cbn [perform] in Ha.
  - by destruct (Hsl task).
  - unfold submit_push in Ha. destruct (submitter s) as [task|] eqn:Em; [|done]. injection Ha as <-. unfold submitting. cbn. rewrite Em, app_nil_r. split_and!; [done|done|by left].
  - unfold notify_one in Ha. destruct (notifies s) as [|k]; [done|]. destruct i as [i|]; [case_decide; [|done]|destruct (existsb _ _); [done|]]; injection Ha as Ha; by apply (Hsame _) in Ha.
  - unfold check in Ha. case_decide; [|done]. destruct (queue_mutex_free s); [|done].
    destruct (tasks_ s); injection Ha as Ha; [by apply (Hsame _) in Ha|]. subst s'. cbn. split_and!; [done|set_solver|by left].
  - unfold move in Ha. case_decide; [|done]. injection Ha as Ha. by apply (Hsame _) in Ha.
  - unfold finish in Ha. destruct (workers_ s !! i) as [[| | |task|]|] eqn:Hi; try done. injection Ha as <-. cbn. split_and!; [done|done|].
    intros j [Hj|Hj]%elem_of_app; [by left|]. apply list_elem_of_singleton in Hj as ->. right. by exists i.
  - unfold move in Ha. case_decide; [|done]. injection Ha as Ha. by apply (Hsame _) in Ha.
  - destruct (shutdown_ s); try done. injection Ha as Ha. by apply (Hsame _) in Ha.
  - unfold set_stop in Ha. destruct (shutdown_ s); try done. injection Ha as Ha. by apply (Hsame _) in Ha.
  - unfold notify_all in Ha. destruct (shutdown_ s); try done. injection Ha as Ha. by apply (Hsame _) in Ha.
  - unfold join in Ha. destruct (shutdown_ s) as [| | |i|]; try done. destruct (workers_ s !! i) as [[| | | |]|]; try done; injection Ha as Ha; by apply (Hsame _) in Ha.
Qed.

Lemma over_stuck t sh c : over c -> connection_step t sh c = Ret None.
Proof. unfold connection_step. by intros [->|(query & e & ->)]. Qed.

Lemma is_over_true c : is_over c = true -> over c.
Proof. unfold is_over, over. destruct (phase_ c) as [|q th|]; [done| |by left]. destruct th; try done. right. by eexists _, _. Qed.

Lemma over_is_over c : over c -> is_over c = true.
Proof. unfold is_over. by intros [->|(query & e & ->)]. Qed.

Lemma tcp_step_keeps e s s' : tcp_inv s -> event_fits e -> tcp_step e s = Ret (Some s') -> tcp_inv s'.
Proof.
  intros Hi He Hs. pose proof (reachable_inv n _ (ti_pool s Hi)) as Hpool. apply tcp_step_inv in Hs. destruct Hs as [cl rest pool Eb En Ep|t w srv Hw Es|a pool Ea Ep].
  - destruct (numbered s Hi) as (k & Ek & Hk & _). pose proof (ti_submitted s Hi) as Hsub.
    pose proof (wakes_step n (Submit_lock _) _ _ Hpool (ti_wakes s Hi) Ep) as Hwk.
    assert (Hr : reachable n pool) by (eapply reachable_step; [apply Hi|by exists (Submit_lock (length (connections (server s))))]).
    unfold submit_lock in Ep. destruct (queue_mutex_free (pool_ s)) eqn:Em; [|done]. destruct (stop_ (pool_ s)); [done|]. injection Ep as <-.
    apply mutex_free_spec in Em as [Em _]. unfold submitting in Hsub. rewrite Em, app_nil_r in Hsub.
    constructor; cbn [pool_ server connections]; [done|done| | | |].
    + unfold submitting. cbn. by rewrite Hsub, length_app, Nat.add_comm, seq_S.
    + intros i c Ec. cbn. apply lookup_app_Some in Ec as [Ec|[_ Ec]]; [by apply (ti_fresh s Hi)|]. apply list_lookup_singleton_Some in Ec as [_ <-]. by exists cl.
    + intros i c Ec. cbn. apply lookup_app_Some in Ec as [Ec|[Hge _]]; [by apply (ti_finished s Hi)|]. intros Hf. exfalso.
      assert (Hst : i ∈ started (pool_ s)) by (rewrite (inv_once n _ Hpool); apply elem_of_app; by left). rewrite Ek in Hst. apply elem_of_seq in Hst. lia.
    + rewrite (whole_accept s cl rest _ Eb). apply Hi.
  - pose proof (whole_step s t srv Es) as Ew. assert (Hst : tk_who t ∈ started (pool_ s)) by by eapply running_started.
    unfold server_step in Es. destruct (connections (server s) !! tk_who t) as [c|] eqn:Ec; [|done]. apply bind_Ret_inv in Es as ([[sh c']|] & Eo & Es); [|done].
    injection Es as <-. constructor; cbn [pool_ server connections snd].
    + apply Hi.
    + apply Hi.
    + rewrite length_insert. apply Hi.
    + intros i c1 E1 Hns. destruct (decide (i = tk_who t)) as [->|]; [done|]. rewrite list_lookup_insert_ne in E1 by done. by apply (ti_fresh s Hi i).
    + intros i c1 E1 Hf. destruct (decide (i = tk_who t)) as [->|]; [|rewrite list_lookup_insert_ne in E1 by done; by apply (ti_finished s Hi i)].
      pose proof (ti_finished s Hi _ _ Ec Hf) as Ho. by rewrite (over_stuck t _ _ Ho) in Eo.
    + eapply reached_later; [apply Hi|exact He|exact Ew].
  - assert (Hsl : forall task, a <> Submit_lock task) by by intros task ->.
    destruct (perform_history a _ _ Hsl Ep) as (E1 & E2 & E3). constructor; cbn [pool_ server].
    + eapply reachable_step; [apply Hi|by exists a].
    + by eapply wakes_step; [exact Hpool|apply Hi|].
    + rewrite E1. apply Hi.
    + intros i c Ec Hns. apply (ti_fresh s Hi i); [done|]. intros Hs. by apply Hns, E2.
    + intros i c Ec Hf. apply E3 in Hf as [Hf|(w & -> & Hw)]; [by apply (ti_finished s Hi i)|]. cbn [allows] in Ea. rewrite Hw, Ec in Ea. by apply is_over_true.
    + apply Hi.
Qed.
Lemma tcp_reached_inv s : tcp_reached (TCPServer_new ex n clients) s -> tcp_inv s.
Proof. induction 1 as [|e s s' _ IH He Hs]; [apply tcp_inv_new|by eapply tcp_step_keeps]. Qed.

(** *** Progress *)

Definition own_step (a : action) : Prop := match a with Submit_push | Notify_one _ | Check _ | Block _ | Finish _ => True | _ => False end.

(** Something happens, whatever a thread reads from its environment. *)
Definition can_move (s : TCPServer) : Prop :=
  tcp_step Accept s <> Ret None \/ (exists a, own_step a /\ tcp_step (Work a) s <> Ret None) \/
  exists i, forall t, tk_who t = i -> tcp_step (Serve t) s <> Ret None.

(** Every worker is kept by a client that neither sends nor hangs up. *)
Definition kept (s : TCPServer) (w : worker) : Prop := exists i c, w = Running i /\ connections (server s) !! i = Some c /\ silent c.
Definition starved (s : TCPServer) : Prop := Forall (kept s) (workers_ (pool_ s)).

Lemma move_or_all {A} (s : TCPServer) (Q : A -> Prop) (l : list A) : (forall i x, l !! i = Some x -> can_move s \/ Q x) -> can_move s \/ Forall Q l.
Proof.
  induction l as [|x l IH]; intros H; [by right|]. destruct (H 0 x eq_refl) as [|Hx]; [by left|].
  destruct IH as [|Hl]; [intros i; apply (H (S i))|by left|right; by constructor].
Qed.

Lemma work_moves s a : match a with Submit_push | Notify_one _ | Check _ | Block _ => True | _ => False end -> perform a (pool_ s) <> None -> can_move s.
Proof.
  intros Ha Hp. right. left. exists a. split; [by destruct a|]. cbn [tcp_step]. replace (allows s a) with true by by destruct a. by destruct (perform a (pool_ s)).
Qed.

Lemma serve_moves s i c : connections (server s) !! i = Some c -> is_served i (pool_ s) = true ->
  (forall t, connection_step t (common (server s)) c <> Ret None) -> can_move s.
Proof.
  intros Ec Es Hm. right. right. exists i. intros t Et. cbn [tcp_step]. rewrite Et, Es. pose proof (connection_moves i c (server s) Ec Hm t Et) as H.
  by destruct (server_step t (server s)) as [[srv|]| | |].
Qed.

Lemma accept_moves s : tcp_inv s -> backlog s <> [] -> stop_ (pool_ s) = false -> can_move s.
Proof.
  intros Hi Hb Hs. destruct (submitter (pool_ s)) as [task|] eqn:Em.
  { apply (work_moves s Submit_push); [done|]. cbn. unfold submit_push. by rewrite Em. }
  destruct (find_worker Deciding (workers_ (pool_ s))) as [[i Hd]|Hd].
  { apply (work_moves s (Block i)); [done|]. cbn. unfold move. by rewrite decide_True. }
  destruct (notifies (pool_ s)) as [|k] eqn:En.
  - left. cbn [tcp_step]. unfold accept. destruct (backlog s) as [|cl rest]; [done|]. rewrite En. cbn. unfold submit_lock.
    by rewrite (mutex_free_intro _ Em Hd), Hs.
  - destruct (find_worker Waiting (workers_ (pool_ s))) as [[i Hw]|Hw].
    + apply (work_moves s (Notify_one (Some i))); [done|]. cbn. unfold notify_one. by rewrite En, decide_True.
    + apply (work_moves s (Notify_one None)); [done|]. cbn. unfold notify_one. rewrite En. destruct (existsb is_waiting _) eqn:Ee; [|done].
      apply existsb_exists in Ee as (w & Hin & Hx). apply list_elem_of_In, list_elem_of_lookup_1 in Hin as [i Hl]. destruct w; try done. by apply Hw in Hl.
Qed.

Lemma whole_lookup s i c : connections (server s) !! i = Some c -> c ∈ connections (whole s).
Proof. intros Ec. unfold whole. cbn. apply elem_of_app. left. by apply (list_elem_of_lookup_2 _ i). Qed.

(** A connection that a worker runs can go on or makes room, unless its client is silent. *)
Lemma worker_moves s w i : tcp_inv s -> Forall (fun c => phase_ c = Receiving \/ over c) (connections (whole s)) ->
  workers_ (pool_ s) !! w = Some (Running i) -> can_move s \/ kept s (Running i).
Proof.
  intros Hi Hq Hw. pose proof (running_started s i w Hi Hw) as Hst. destruct (numbered s Hi) as (k & Ek & Hk & _).
  rewrite Ek in Hst. apply elem_of_seq in Hst. destruct (lookup_lt_is_Some_2 (connections (server s)) i ltac:(lia)) as [c Ec].
  rewrite Forall_forall in Hq. destruct (Hq c (whole_lookup s i c Ec)) as [Hrec|Ho].
  - destruct (decide (silent c)); [right; by exists i, c|]. left. apply (serve_moves s i c Ec); [apply is_served_true; by exists w|].
    intros t. by apply receiving_moves.
  - left. right. left. exists (Finish w). split; [done|]. cbn [tcp_step allows]. rewrite Hw, Ec, (over_is_over c Ho). cbn. unfold finish. by rewrite Hw.
Qed.

(** With no task in the queue all connections were taken up. *)
Lemma connection_goes_on s i c : tcp_inv s -> Forall (fun c => phase_ c = Receiving \/ over c) (connections (whole s)) ->
  tasks_ (pool_ s) = [] -> submitter (pool_ s) = None -> connections (server s) !! i = Some c -> can_move s \/ (over c \/ silent c).
Proof.
  intros Hi Hq Ht Hm Ec. rewrite Forall_forall in Hq. destruct (Hq c (whole_lookup s i c Ec)) as [Hrec|]; [|by right; left].
  destruct (decide (silent c)); [by right; right|]. left.
  apply (serve_moves s i c Ec); [|intros t; by apply receiving_moves]. apply (begun_served s i c Hi Ec).
  - destruct (numbered s Hi) as (k & _ & _ & E). unfold submitting in E. rewrite Ht, Hm, !app_nil_r in E. rewrite E.
    apply elem_of_seq. apply lookup_lt_Some in Ec. lia.
  - unfold over. rewrite Hrec. intros [|(? & ? & ?)]; done.
Qed.

Lemma executing_server_moves s i c query th : tcp_inv s -> connections (whole s) !! i = Some c -> phase_ c = Executing query th -> ~ over c ->
  (forall t, connection_step t (common (server s)) c <> Ret None) -> can_move s.
Proof.
  intros Hi Ec Ep Ho Hm. unfold whole in Ec. cbn [connections] in Ec. apply lookup_app_Some in Ec as [Ec|[_ Ec]].
  2:{ rewrite list_lookup_fmap in Ec. destruct (backlog s !! _); [|done]. injection Ec as <-. discriminate Ep. }
  apply (serve_moves s i c Ec); [|exact Hm]. apply (begun_served s i c Hi Ec); [|exact Ho].
  destruct (decide (i ∈ started (pool_ s))) as [|Hns]; [done|]. destruct (ti_fresh s Hi i c Ec Hns) as [cl ->]. discriminate Ep.
Qed.

Lemma server_moves s : tcp_inv s ->
  Forall (fun c => over c \/ silent c) (connections (server s)) \/ starved s \/ can_move s.
Proof.
  intros Hi. pose proof (reachable_inv n _ (ti_pool s Hi)) as Hpool.
  destruct (executing_moves (whole s) (reached_locks P ex clients _ (ti_whole s Hi))) as [Hq|(i & c & q & th & Ec & Ep & Ho & Hm)];
    [|right; right; by eapply executing_server_moves].
  destruct (decide (tasks_ (pool_ s) = [] /\ submitter (pool_ s) = None)) as [[Ht Hm]|Hwait].
  - destruct (move_or_all s (fun c => over c \/ silent c) (connections (server s))) as [|]; [|by right; right|by left].
    intros i c. by apply connection_goes_on.
  - assert (Hw' : tasks_ (pool_ s) <> [] \/ submitter (pool_ s) <> None).
    { destruct (tasks_ (pool_ s)); [|by left]. right. intros E. by apply Hwait. }
    destruct (pool_moves n (pool_ s) Hpool (ti_wakes s Hi) Hw') as [(a & Ha & Hp)|Hrun]; [right; right; by eapply work_moves|].
    right. destruct (move_or_all s (kept s) (workers_ (pool_ s))) as [|]; [|by right|by left].
    intros w x Hx. destruct (Hrun w) as [i Hw]; [rewrite <- (inv_workers n _ Hpool); by eapply lookup_lt_Some|].
    rewrite Hw in Hx. injection Hx as <-. by eapply worker_moves.
Qed.

Lemma returned_over s : tcp_inv s -> 0 < n -> shutdown_ (pool_ s) = ThreadPool.Returned -> Forall over (connections (server s)).
Proof.
  intros Hi Hn Hs. destruct (returned_finished n _ (reachable_inv n _ (ti_pool s Hi)) Hn Hs) as (_ & Hm & Hp).
  pose proof (ti_submitted s Hi) as E. unfold submitting in E. rewrite Hm, app_nil_r in E. rewrite Forall_lookup. intros i c Ec.
  apply (ti_finished s Hi i c Ec). rewrite Hp, E. apply elem_of_seq. apply lookup_lt_Some in Ec. lia.
Qed.

Lemma running_length ws : length (running ws) <= length ws.
Proof. induction ws as [|[| | | |] ws IH]; cbn; lia. Qed.

(** *** A silent client *)

Lemma silent_stuck t sh c : silent c -> connection_step t sh c = Ret None.
Proof. intros (Ep & Ei & Es). unfold connection_step, next_query. by rewrite Ep, Ei, Es. Qed.

Lemma silent_stays e s s' i c : connections (server s) !! i = Some c -> silent c -> tcp_step e s = Ret (Some s') -> connections (server s') !! i = Some c.
Proof.
  intros Ec Hs Hst. apply tcp_step_inv in Hst as [cl rest pool Eb En Ep|t w srv Hw Es|a pool Ea Ep]; cbn [server connections]; [|..|done].
  - rewrite lookup_app_l; [done|by eapply lookup_lt_Some].
  - apply server_step_inv in Es as (c1 & sh & c' & E1 & Hs1 & ->). cbn [connections]. destruct (decide (i = tk_who t)) as [->|]; [|by rewrite list_lookup_insert_ne].
    rewrite Ec in E1. injection E1 as <-. destruct Hs as (Hp & Hi & Hx). destruct Hs1 as [c' Ep En|q r c' Ep Ef|q th sh' th' Ep Er]; [|congruence..].
    unfold next_query in En. by rewrite Hi, Hx in En.
Qed.

(** One client that stays connected and silent keeps [shutdown] from returning:
    the server does not come to its final snapshot. *)
Lemma silent_client_blocks_shutdown s s' i c : 0 < n -> tcp_reached (TCPServer_new ex n clients) s -> connections (server s) !! i = Some c -> silent c ->
  tcp_reached s s' -> shutdown_ (pool_ s') <> ThreadPool.Returned.
Proof.
  intros Hn Hr Ec Hs Hr'. assert (H : tcp_inv s' /\ connections (server s') !! i = Some c).
  { induction Hr' as [|e s1 s2 _ [Hi Hc] He Hst]; [split; [by apply tcp_reached_inv|done]|]. split; [by eapply tcp_step_keeps|by eapply silent_stays]. }
  destruct H as [Hi Hc]. intros Hret. pose proof (returned_over s' Hi Hn Hret) as Ho. rewrite Forall_lookup in Ho.
  destruct Hs as (Hp & _). destruct (Ho i c Hc) as [|(? & ? & ?)]; congruence.
Qed.
End serving.

(** ** Theorem *)

(** C6: The pool serves the clients. Whatever the scheduler does, the server with
    its pool is in a state that the server of Sessions reaches, in which all have
    a thread; connections are taken up in the order they were accepted, and at
    most as many are under way as there are workers; when [shutdown] has
    returned, every accepted connection is over. Something can always move -
    no wake-up is lost - until all clients are accepted and served, or every
    worker is kept by a client that neither sends nor hangs up; and no schedule
    goes on for ever, spurious wake-ups apart. *)
Theorem pool_serves_clients `{std_hash : !StdHash, laws : !StdHashLaws} P n ex clients s : 0 < n -> tcp_reached P (TCPServer_new ex n clients) s ->
  reached P (serving ex clients) (whole s) /\
  (length (running (workers_ (pool_ s))) <= n /\ exists k, started (pool_ s) = seq 0 k /\ forall i c, connections (server s) !! i = Some c ->
     if decide (i < k) then over c \/ is_served i (pool_ s) = true else untouched c) /\
  (shutdown_ (pool_ s) = ThreadPool.Returned -> Forall over (connections (server s))) /\
  ((Forall (fun c => over c \/ silent c) (connections (server s)) /\ (backlog s = [] \/ stop_ (pool_ s) = true)) \/ starved s \/ can_move s) /\
  (forall events s', Forall (fun e => forall i, e <> Work (Spurious i)) events -> run_tcp events s = Ret (Some s') -> length events + tcp_work s' <= tcp_work s).
Proof.
  intros Hn Hr. pose proof (tcp_reached_inv P n ex clients s Hr) as Hi. pose proof (reachable_inv n _ (ti_pool P n ex clients s Hi)) as Hpool.
  split; [apply Hi|]. split; [|split; [by apply (returned_over P n ex clients)|split]].
  - split; [pose proof (running_length (workers_ (pool_ s))) as Hl; by rewrite (inv_workers n _ Hpool) in Hl|]. destruct (numbered P n ex clients s Hi) as (k & Ek & _). exists k. split; [done|].
    intros i c Ec. destruct (decide (i < k)) as [Hlt|Hge].
    + destruct (is_over c) eqn:Eo; [left; by apply is_over_true|right]. eapply begun_served; [exact Hi|exact Ec| |].
      * rewrite Ek. apply elem_of_seq. lia.
      * intros Ho%over_is_over. congruence.
    + eapply ti_fresh; [exact Hi|exact Ec|]. rewrite Ek. rewrite elem_of_seq. lia.
  - destruct (server_moves P n ex clients s Hi) as [Hall|[|]]; [|by right; left|by right; right].
    destruct (backlog s) as [|cl rest] eqn:Eb; [left; split; [done|by left]|]. destruct (stop_ (pool_ s)) eqn:Es; [left; split; [done|by right]|].
    right. right. apply (accept_moves P n ex clients); [done|by rewrite Eb|done].
  - intros events s' Hf. by apply run_tcp_length.
Qed.

(** *** Two workers and three clients *)

(** The first client stays, the second hangs up and the third gets its worker;
    [stop] is called, and [shutdown] waits for the first. *)
Definition pooled_clients : list client :=
  [mkClient ["CREATE TABLE t (id INT);"] true; mkClient ["QUIT"] false; mkClient ["INSERT INTO t VALUES (7);"; "EXIT"] false].

Definition serve (i : nat) : event := Serve (tick_of malloc_always true i).
Definition accepting : list event := [Accept; Work Submit_push; Work (Notify_one None)].
Definition pooled_events : list event :=
  accepting ++ accepting ++ accepting ++ [Work (Check 1); Work (Check 0)] ++ replicate 5 (serve 0) ++ [serve 1; Work (Finish 0); Work (Check 0)] ++
  replicate 9 (serve 2) ++ [Work (Finish 0); Work Shutdown_call; Work Set_stop; Work Notify_all; Work (Check 0); Work Join].

Definition pooled_seen (s : TCPServer) : list (list string * string) * list worker * shutdown_pc :=
  (seen (server s), workers_ (pool_ s), shutdown_ (pool_ s)).

Example pooled_outcome : (r ← run_tcp pooled_events (TCPServer_new Executor_new 2 pooled_clients); Ret (fmap (M:=option) pooled_seen r)) =
  Ret (Some ([(["Table T created" +:+ nl], "waits"); ([BYE], "closed"); (["1 rows inserted" +:+ nl; BYE], "closed")], [Exited; Running 0], Joining 1)).
Proof. vm_compute. reflexivity. Qed.

Lemma pooled_fits : Forall (event_fits clock_fits) pooled_events.
Proof.
  assert (Hf : forall i, event_fits clock_fits (serve i)) by (intros i j; unfold is_s64, DEFAULT_TTL_SECONDS; cbn; lia).
  unfold pooled_events, accepting. cbn [app replicate]. repeat (apply Forall_cons_2; [first [exact I | apply Hf]|]). apply Forall_nil_2.
Qed.

Lemma pooled_reached : exists s, run_tcp pooled_events (TCPServer_new Executor_new 2 pooled_clients) = Ret (Some s) /\
  tcp_reached clock_fits (TCPServer_new Executor_new 2 pooled_clients) s.
Proof.
  pose proof pooled_outcome as E. destruct (run_tcp pooled_events (TCPServer_new Executor_new 2 pooled_clients)) as [[s|]| | |] eqn:Er; try discriminate E.
  exists s. split; [done|]. eapply run_tcp_reached; [apply tcp_start|exact pooled_fits|exact Er].
Qed.

Lemma pool_serves_clients_witness : exists s, run_tcp pooled_events (TCPServer_new Executor_new 2 pooled_clients) = Ret (Some s) /\
  reached clock_fits (serving Executor_new pooled_clients) (whole s) /\ length (running (workers_ (pool_ s))) <= 2.
Proof.
  destruct pooled_reached as (s & E & Hr). exists s. split; [exact E|].
  destruct (pool_serves_clients clock_fits 2 Executor_new pooled_clients s) as (H & (H' & _) & _); [lia|exact Hr|]. by split.
Defined.

Definition first_silent (r : outcome (option TCPServer)) : bool :=
  match r with Ret (Some s) => match connections (server s) !! 0 with Some c => bool_decide (silent c) | None => false end | _ => false end.

Lemma pooled_silent : first_silent (run_tcp pooled_events (TCPServer_new Executor_new 2 pooled_clients)) = true.
Proof. vm_compute. reflexivity. Qed.

(** From there [shutdown] never returns: the first client is silent. *)
Example pooled_never_stops : exists s, run_tcp pooled_events (TCPServer_new Executor_new 2 pooled_clients) = Ret (Some s) /\
  forall s', tcp_reached clock_fits s s' -> shutdown_ (pool_ s') <> ThreadPool.Returned.
Proof.
  destruct pooled_reached as (s & E & Hr). exists s. split; [exact E|]. intros s' Hr'.
  pose proof (eq_trans (eq_sym (f_equal first_silent E)) pooled_silent) as Hb. unfold first_silent in Hb.
  destruct (connections (server s) !! 0) as [c|] eqn:Ec; [|done]. apply bool_decide_eq_true in Hb.
  eapply (silent_client_blocks_shutdown clock_fits 2 Executor_new pooled_clients s s' 0 c); [lia|exact Hr|exact Ec|exact Hb|exact Hr'].
Qed.
