(* ===== verification/Main.v ===== *)
(** * The server process ([server/main.cpp], [TCPServer::run])

    The command line; and a run of the server from start to clean shutdown,
    over the database, the connections and the file system. Here the tasks of
    the pool run one after the other in the order of submission; Process.v
    has them at the same time. An exception that a task would keep in its future
    ends the run. What is printed, the calls that configure
    sockets and the sweeper, which never changes a table (Background.v), are
    left out. *)

From Stdlib Require Import ZArith Lia Ascii.
From stdpp Require Import base strings gmap numbers list list_numbers.
From S2P Require Import Prelude Cpp Common Schema Arena BPTree Table TableSpec Lexer Parser Cache Executor JoinSpec ExecutorSpec SessionSpec Crc Wal Snapshot SnapshotSpec Database Wire Network NetworkSpec DatabaseSpec.
Open Scope string_scope.
Open Scope list_scope.
Open Scope Z_scope.

(** ** The command line *)

Definition DEFAULT_PORT : Z := 9876.
Definition THREAD_POOL_SIZE : Z := 8.

Record Options := mkOptions { port : Z; num_threads : Z; data_dir : string }.

Definition default_options : Options := mkOptions DEFAULT_PORT THREAD_POOL_SIZE "".
Definition set_port (p : Z) (o : Options) : Options := mkOptions p (num_threads o) (data_dir o).
Definition set_threads (n : Z) (o : Options) : Options := mkOptions (port o) n (data_dir o).
Definition set_data_dir (dir : string) (o : Options) : Options := mkOptions (port o) (num_threads o) dir.

(** The loop over [argv] from the [i]-th argument on; [None] when it is [--help]. *)
Fixpoint parse_args (i : nat) (args : list string) (o : Options) : outcome (option Options) :=
  match args with
  | [] => Ret (Some o)
  | arg :: rest =>
      let other :=
        if String.eqb arg "--help" then Ret None else
        o ← (if (i =? 1)%nat then p ← atoi arg; Ret (set_port (u16 p) o)
             else if (i =? 2)%nat then n ← atoi arg; Ret (set_threads (u64 n) o) else Ret o);
        parse_args (S i) rest o in
      match rest with
      | [] => other
      | value :: rest' =>
          if String.eqb arg "--data-dir" then parse_args (S (S i)) rest' (set_data_dir value o)
          else if String.eqb arg "--port" then p ← atoi value; parse_args (S (S i)) rest' (set_port (u16 p) o)
          else if String.eqb arg "--threads" then n ← atoi value; parse_args (S (S i)) rest' (set_threads (u64 n) o)
          else other
      end
  end.

(** ** The server *)

(** The [k]-th connection reads the times [clocks k]. *)
Section server.
Context `{malloc : Malloc, StdHash, CanOpen, CanRename, TableOrder, Kernel}.

(** The accept loop, until it is told to stop: what each [::accept] returned,
    [None] when it failed. *)
Fixpoint accept_loop (clocks : nat -> nat -> Clocks) (k : nat) (executor : Executor) (accepted : list (option Socket))
    : outcome (Executor * list Socket) :=
  match accepted with
  | [] => Ret (executor, [])
  | None :: accepted => accept_loop clocks k executor accepted
  | Some client :: accepted =>
      r ← handle_client (clocks k) executor client;
      rest ← accept_loop clocks (S k) (fst r) accepted;
      Ret (fst rest, snd r :: snd rest)
  end.

(** [run]: nothing when the port cannot be listened on, and no task is ever
    taken when the pool has no workers. *)
Definition TCPServer_run (listening : bool) (num_threads : Z) (clocks : nat -> nat -> Clocks) (executor : Executor)
    (accepted : list (option Socket)) : outcome (Executor * list Socket) :=
  if negb listening then Ret (executor, [])
  else if num_threads =? 0 then Ret (executor, omap id accepted)
  else accept_loop clocks 0 executor accepted.

(** What [main] meets while it runs: the times of the recovery, of the
    statements and of the two snapshots, and the connections. *)
Record Environment := mkEnvironment {
  env_recovery : RecoveryClocks;
  env_listening : bool;
  env_accepted : list (option Socket);
  env_clocks : nat -> nat -> Clocks;
  env_last_snapshot : string -> nat -> Z;
  env_destructor : string -> nat -> Z;
}.

(** The database of [main] after startup, and the files the server then runs on. *)
Definition main_start (o : Options) (files : Files) (env : Environment) : outcome (Database * Files) :=
  Database_new (data_dir o) files (env_recovery env).

(** The clients' statements go to [db.executor()]: the server has a reference to
    the executor only, so no statement of a client reaches a file or the log. *)
Definition main_serve (o : Options) (d : Database) (env : Environment) : outcome (Database * list Socket) :=
  r ← TCPServer_run (env_listening env) (num_threads o) (env_clocks env) (executor_ d) (env_accepted env);
  Ret (with_executor d (fst r), snd r).

(** The final snapshot, and the one of the destructor. *)
Definition main_stop (d : Database) (files : Files) (env : Environment) : outcome Files :=
  r ← (if persistent d then s ← take_snapshot d files (env_last_snapshot env); Ret (snd (fst s), snd s) else Ret (d, files));
  Database_delete (fst r) (snd r) (env_destructor env).

(** [main]; [None] when it only printed how to use it. *)
Definition main (args : list string) (files : Files) (env : Environment) : outcome (option (list Socket * Files)) :=
  options ← parse_args 1 args default_options;
  match options with
  | None => Ret None
  | Some o =>
      s ← main_start o files env;
      r ← main_serve o (fst s) env;
      files ← main_stop (fst r) (snd s) env;
      Ret (Some (snd r, files))
  end.
End server.

(** ** The command line means what it says *)

(** An option as one types it. *)
Inductive flag :=
  | Data_dir (path : string)
  | Port (n : Z)
  | Threads (n : Z).

Definition flag_args (f : flag) : list string :=
  match f with
  | Data_dir path => ["--data-dir"; path]
  | Port n => ["--port"; to_string_Z n]
  | Threads n => ["--threads"; to_string_Z n]
  end.
Definition flag_ok (f : flag) : Prop := match f with Data_dir _ => True | Port n => 0 <= n < 2 ^ 16 | Threads n => 0 <= n < 2 ^ 31 end.
Definition set_flag (o : Options) (f : flag) : Options :=
  match f with Data_dir path => set_data_dir path o | Port n => set_port n o | Threads n => set_threads n o end.

Lemma atoi_to_string z : is_s32 z -> atoi (to_string_Z z) = Ret z.
Proof. intros Hz. unfold atoi. rewrite strtol_to_string, (proj2 (Z.leb_le _ _)), (proj2 (Z.leb_le _ _)) by width_lia. done. Qed.

(** The command line: options given in any order, any number of times, set
    what they name, the last one of a kind counting; what is not given keeps
    its default. *)
Theorem options_parse flags o : Forall flag_ok flags ->
  parse_args 1 (flags ≫= flag_args) o = Ret (Some (foldl set_flag o flags)).
Proof.
  intros Hok. revert o. generalize 1%nat as i. induction Hok as [|f flags Hf _ IH]; intros i o; [done|].
  destruct f as [path|n|n]; cbn [mbind list_bind flag_args app parse_args foldl set_flag flag_ok] in *.
  - change (String.eqb "--data-dir" "--data-dir") with true. cbv iota. apply IH.
  - change (String.eqb "--port" "--data-dir") with false. change (String.eqb "--port" "--port") with true. cbv iota.
    rewrite atoi_to_string by width_lia. cbn [mbind outcome_bind]. rewrite u16_small by width_lia. apply IH.
  - change (String.eqb "--threads" "--data-dir") with false. change (String.eqb "--threads" "--port") with false.
    change (String.eqb "--threads" "--threads") with true. cbv iota.
    rewrite atoi_to_string by width_lia. cbn [mbind outcome_bind]. rewrite u64_small by width_lia. apply IH.
Qed.

Lemma options_parse_witness :
  parse_args 1 ["--port"; "8000"; "--data-dir"; "data"; "--port"; "9000"] default_options = Ret (Some (mkOptions 9000 8 "data")).
Proof. apply (options_parse [Port 8000; Data_dir "data"; Port 9000] default_options). repeat constructor; lia. Defined.

(** A flag without its value is taken for a port. *)
Example dangling_flag : parse_args 1 ["--port"] default_options = Ret (Some (mkOptions 0 8 "")).
Proof. reflexivity. Qed.

(** ** What a run leaves on disk *)

Section runs.
Context `{malloc : Malloc, std_hash : !StdHash, !StdHashLaws, can_open_ : CanOpen, can_rename_ : CanRename, order : !TableOrder, !TableOrderLaws,
  kernel : !Kernel, !KernelAccepts}.
Context (dir : string) (Hdir : dir <> "") (Hopen : can_open (wal_path dir) = true).
Context (Htmp : can_open (tmp_path dir) = true) (Hrename : can_rename (tmp_path dir) (snapshot_path dir) = true).

(** The snapshot holds [db], and there is nothing in the log. *)
Definition holds (files : Files) (db : gmap string atable) : Prop :=
  exists slsn, snapshot_state dir files db slsn /\ log_state dir files (slsn + 1) [].

(** A start that finds the rows of [db]. *)
Definition restores (files : Files) (db : gmap string atable) : Prop := forall rk t1,
  load_clocks_ok t1 (rk_load rk) -> (forall l, in_ttl t1 (rk_replay rk l) /\ clocks_bounded (rk_replay rk l)) ->
  Database_new dir files rk = Throw bad_alloc \/
  exists d files' db', Database_new dir files rk = Ret (d, files') /\ ex_rep (executor_ d) db' /\ fresh_db t1 db' /\ same_content db' db /\
    data_dir_ d = dir /\ wal_writer_ d = Some (mkWriter (wal_path dir) true 1) /\ holds files' db.

Lemma holds_restores files db : holds files db -> restores files db.
Proof.
  intros (slsn & Hs & Hl) rk t1 Hlc Hrc.
  assert (Hredo : slsn + 1 = slsn + 1 /\ @nil string = [] /\ log_ok db [] \/ slsn + 1 + Z.of_nat (length (A:=string) []) <= slsn + 1 /\ @nil string = []) by (right; split; [cbn; lia|done]).
  destruct (startup dir Hdir Hopen files db slsn (slsn + 1) [] [] rk t1 Hs Hl (Forall_nil_2 _) Hredo Hlc Hrc)
    as [?|(d & db' & next & E & Ed & Ew & Hn & R & F & C)]; [by left|right]. rewrite (Hn eq_refl) in Ew.
  exists d, (open_append files (wal_path dir)), db'. do 6 (split; [done|]). exists slsn.
  unfold log_state, open_append in *. destruct (files !! wal_path dir) as [bytes|] eqn:Ef; [split; [done|by rewrite Ef]|].
  split; [by apply snapshot_state_wal|]. rewrite lookup_insert_eq. by exists [].
Qed.

Lemma empty_holds : holds ∅ ∅.
Proof. exists 0. unfold snapshot_state, log_state. by rewrite !lookup_empty. Qed.

(** ** What the clients do to the tables *)

(** A query of a connection, [db] being what the tables hold: it runs, and what
    it answers can be printed. *)
Definition query_ok (t0 : Z) (db : gmap string atable) (ck : Clocks) (query : string) : Prop :=
  sql_ok db ck query /\ in_ttl t0 ck /\ clocks_bounded ck /\
  forall ex db' res ex', same_content db' db -> ex_rep ex db' -> execute_sql ex ck query = Ret (res, ex') -> exists text, format_result res = Ret text.

Fixpoint queries_ok (t0 : Z) (clocks : nat -> Clocks) (i : nat) (db : gmap string atable) (queries : list string) : Prop :=
  match queries with
  | [] => True
  | query :: queries =>
      let query := trim_end query_end query in
      if String.eqb query "" then queries_ok t0 clocks i db queries
      else if is_exit query then True
      else query_ok t0 db (clocks i) query /\ queries_ok t0 clocks (S i) (abs_sql db (clocks i) query) queries
  end.

Fixpoint after_queries (clocks : nat -> Clocks) (i : nat) (db : gmap string atable) (queries : list string) : gmap string atable :=
  match queries with
  | [] => db
  | query :: queries =>
      let query := trim_end query_end query in
      if String.eqb query "" then after_queries clocks i db queries
      else if is_exit query then db
      else after_queries clocks (S i) (abs_sql db (clocks i) query) queries
  end.

Fixpoint connections_ok (t0 : Z) (clocks : nat -> nat -> Clocks) (k : nat) (db : gmap string atable) (accepted : list (option Socket)) : Prop :=
  match accepted with
  | [] => True
  | None :: accepted => connections_ok t0 clocks k db accepted
  | Some s :: accepted => no_failed_read s /\ queries_ok t0 (clocks k) 0 db (messages (stream s)) /\
      connections_ok t0 clocks (S k) (after_queries (clocks k) 0 db (messages (stream s))) accepted
  end.

Fixpoint after_connections (clocks : nat -> nat -> Clocks) (k : nat) (db : gmap string atable) (accepted : list (option Socket)) : gmap string atable :=
  match accepted with
  | [] => db
  | None :: accepted => after_connections clocks k db accepted
  | Some s :: accepted => after_connections clocks (S k) (after_queries (clocks k) 0 db (messages (stream s))) accepted
  end.

Lemma same_content_trans db1 db2 db3 : same_content db1 db2 -> same_content db2 db3 -> same_content db1 db3.
Proof. unfold same_content. congruence. Qed.

Lemma responses_effect t0 clocks queries : forall i ex db1 db, ex_rep ex db1 -> fresh_db t0 db1 -> same_content db1 db -> queries_ok t0 clocks i db queries ->
  responses clocks i ex queries = Throw bad_alloc \/
  exists rs ex' db1', responses clocks i ex queries = Ret (rs, ex') /\ ex_rep ex' db1' /\ fresh_db t0 db1' /\ same_content db1' (after_queries clocks i db queries).
Proof.
  induction queries as [|query queries IH]; intros i ex db1 db R F C Hok; cbn [responses queries_ok after_queries] in *.
  { right. by exists [], ex, db1. }
  cbv zeta in *. destruct (String.eqb _ ""); [by eapply IH|]. destruct (is_exit _); [right; by eexists _, ex, db1|].
  destruct Hok as [(Hsql & Hck & Hb & Hfmt) Hok].
  assert (Hsql1 : sql_ok db1 (clocks i) (trim_end query_end query)) by (eapply sql_ok_content; [symmetry; exact C|exact Hb|exact Hsql]).
  unfold respond. destruct (execute_sql_any ex db1 (clocks i) (trim_end query_end query) R Hsql1) as [->|(res & ex1 & E & R1)]; [by left|].
  destruct (Hfmt ex db1 res ex1 C R E) as [text Et]. rewrite E. outcome_simpl. cbn [fst snd]. rewrite Et. outcome_simpl. cbn [fst snd].
  destruct (IH (S i) ex1 _ (abs_sql db (clocks i) (trim_end query_end query)) R1 (fresh_sql t0 _ _ _ F Hck) (abs_sql_content _ _ _ _ _ C) Hok)
    as [->|(rs & ex' & db1' & -> & R' & F' & C')]; [by left|right]. outcome_simpl. eexists _, ex', db1'. done.
Qed.

Lemma accept_effect t0 clocks accepted : forall k ex db1 db, ex_rep ex db1 -> fresh_db t0 db1 -> same_content db1 db -> connections_ok t0 clocks k db accepted ->
  accept_loop clocks k ex accepted = Throw bad_alloc \/
  exists ex' ss db1', accept_loop clocks k ex accepted = Ret (ex', ss) /\ ex_rep ex' db1' /\ fresh_db t0 db1' /\
    same_content db1' (after_connections clocks k db accepted).
Proof.
  induction accepted as [|[s|] accepted IH]; intros k ex db1 db R F C Hok; cbn [accept_loop connections_ok after_connections] in *.
  - right. by exists ex, [], db1.
  - destruct Hok as (Hn & Hq & Hok). pose proof (handle_client_serves (clocks k) ex s Hn) as Hs.
    destruct (responses_effect t0 (clocks k) (messages (stream s)) 0 ex db1 db R F C Hq) as [E|(rs & ex1 & db1' & E & R1 & F1 & C1)];
      rewrite E in Hs; [left; by rewrite Hs|]. destruct Hs as (s' & -> & _ & _). outcome_simpl. cbn [fst snd].
    destruct (IH (S k) ex1 db1' _ R1 F1 C1 Hok) as [->|(ex' & ss & db2 & -> & ?)]; [by left|right]. outcome_simpl. by eexists _, _, db2.
  - by eapply IH.
Qed.

(** ** A whole run *)

(** What the clients of a run leave in the tables. *)
Definition after_run (o : Options) (env : Environment) (db : gmap string atable) : gmap string atable :=
  if env_listening env && negb (num_threads o =? 0) then after_connections (env_clocks env) 0 db (env_accepted env) else db.

(** All of it within one time to live from [t0], and what it leaves can be saved. *)
Definition env_ok (t0 : Z) (o : Options) (env : Environment) (db : gmap string atable) : Prop :=
  load_clocks_ok t0 (rk_load (env_recovery env)) /\
  (forall l, in_ttl t0 (rk_replay (env_recovery env) l) /\ clocks_bounded (rk_replay (env_recovery env) l)) /\
  connections_ok t0 (env_clocks env) 0 db (env_accepted env) /\
  snapshot_ok t0 (after_run o env db) (env_last_snapshot env) /\ snapshot_ok t0 (after_run o env db) (env_destructor env).

Lemma snapshot_ok_content t0 db db' clock : same_content db' db -> snapshot_ok t0 db clock -> snapshot_ok t0 db' clock.
Proof.
  intros C (Hsv & Hsize & Hc). split; [|split; [|done]].
  - intros n a Ea. pose proof (same_content_lookup _ _ n C) as Hn. rewrite Ea in Hn. inversion Hn as [x y Hxy Ex Ey|]. subst x.
    symmetry in Ey. apply Hsv in Ey. unfold content in Hxy. injection Hxy as Es _. unfold saveable in *. by rewrite Es.
  - assert (E : size (content_db db') = size (content_db db)) by by rewrite C. unfold content_db in E. rewrite !map_size_fmap in E. lia.
Qed.

Lemma run_effect t0 o env ex db1 db : ex_rep ex db1 -> fresh_db t0 db1 -> same_content db1 db -> connections_ok t0 (env_clocks env) 0 db (env_accepted env) ->
  TCPServer_run (env_listening env) (num_threads o) (env_clocks env) ex (env_accepted env) = Throw bad_alloc \/
  exists ex' ss db2, TCPServer_run (env_listening env) (num_threads o) (env_clocks env) ex (env_accepted env) = Ret (ex', ss) /\
    ex_rep ex' db2 /\ fresh_db t0 db2 /\ same_content db2 (after_run o env db).
Proof.
  intros R F C Hok. unfold TCPServer_run, after_run. destruct (env_listening env); cbn [negb andb]; [|right; by eexists ex, _, db1].
  destruct (num_threads o =? 0); cbn [negb]; [right; by eexists ex, _, db1|]. by eapply accept_effect.
Qed.

(** The two snapshots at the end. *)
Lemma stop_saves t0 d files db env : data_dir_ d = dir -> wal_writer_ d = Some (mkWriter (wal_path dir) true 1) -> ex_rep (executor_ d) db ->
  fresh_db t0 db -> snapshot_ok t0 db (env_last_snapshot env) -> snapshot_ok t0 db (env_destructor env) ->
  exists files', main_stop d files env = Ret files' /\ holds files' db.
Proof using Hdir Hopen Htmp Hrename H0.
  intros Hd Hw R F H1' H2'. unfold main_stop, Database_delete. rewrite (persistent_dir dir Hdir d Hd).
  destruct (take_snapshot_saves dir Hdir Hopen t0 Htmp Hrename table_order_perm d files db (env_last_snapshot env) 1 Hd Hw ltac:(lia) R F H1')
    as (d1 & f1 & -> & Ed1 & Ew1 & Eex1 & _ & _). outcome_simpl. cbn [fst snd]. rewrite (persistent_dir dir Hdir d1 Ed1).
  destruct (take_snapshot_saves dir Hdir Hopen t0 Htmp Hrename table_order_perm d1 f1 db (env_destructor env) 1 Ed1) as (d2 & f2 & -> & _ & _ & _ & El & Es);
    [by rewrite Ew1|lia|by rewrite Eex1|done|done|]. outcome_simpl. cbn [fst snd]. exists f2. split; [done|]. exists 0. split; [exact Es|].
  unfold log_state. rewrite El. by exists [].
Qed.

Lemma main_run t0 args o files db env : parse_args 1 args default_options = Ret (Some o) -> data_dir o = dir -> holds files db -> env_ok t0 o env db ->
  main args files env = Throw bad_alloc \/
  exists d fs ss files', main_start o files env = Ret (d, fs) /\ holds fs db /\
    main args files env = Ret (Some (ss, files')) /\ holds files' (after_run o env db).
Proof.
  intros Hargs Ho Hh (Hlc & Hrc & Hconn & Hs1 & Hs2). unfold main. rewrite Hargs. outcome_simpl.
  assert (Estart : main_start o files env = Database_new dir files (env_recovery env)) by (unfold main_start; by rewrite Ho). rewrite Estart.
  destruct (holds_restores files db Hh (env_recovery env) t0 Hlc Hrc) as [->|(d & fs & db1 & -> & R1 & F1 & C1 & Ed & Ew & Hh1)]; [by left|].
  outcome_simpl. cbn [fst snd]. unfold main_serve.
  destruct (run_effect t0 o env (executor_ d) db1 db R1 F1 C1 Hconn) as [->|(ex' & ss & db2 & -> & R2 & F2 & C2)]; [by left|]. outcome_simpl. cbn [fst snd].
  destruct (stop_saves t0 (with_executor d ex') fs db2 env) as (files' & -> & slsn & Hsnap & Hl); [done|done|done|done|by eapply snapshot_ok_content..|].
  outcome_simpl. right. exists d, fs, ss, files'. split; [done|]. split; [done|]. split; [done|]. exists slsn. split; [|done].
  unfold snapshot_state in *. destruct (files' !! snapshot_path dir) as [bytes|].
  - intros t1 lc Hlc1. intros s. destruct (Hsnap t1 lc Hlc1 s) as [?|(p & (E1 & db3 & R3 & F3 & C3) & E)]; [by left|right].
    exists p. split; [|done]. split; [done|]. exists db3. split; [done|]. split; [done|]. by eapply same_content_trans.
  - destruct Hsnap as [-> ->]. split; [done|]. symmetry in C2. unfold same_content, content_db in C2. rewrite fmap_empty in C2.
    by apply fmap_empty_inv in C2.
Qed.
End runs.

(** The files after any number of runs of the server on [dir] that each ended
    with a shutdown, and what the clients have left in the tables. *)
Inductive clean_runs `{malloc : Malloc, StdHash, CanOpen, CanRename, TableOrder, Kernel} (dir : string) : Files -> gmap string atable -> Prop :=
  | no_run : clean_runs dir ∅ ∅
  | another_run t0 args o env files db ss files' : clean_runs dir files db -> parse_args 1 args default_options = Ret (Some o) -> data_dir o = dir ->
      env_ok t0 o env db -> main args files env = Ret (Some (ss, files')) -> clean_runs dir files' (after_run o env db).

(** C11: The server keeps what clients wrote only if it is shut down: after any
    clean runs on a directory, the next one again ends with its files saved,
    unless memory runs out, and a start finds every row that the statements of
    all the runs left. But while a run serves its clients the files do not
    change: a start from them, as after a crash, finds the rows of the runs
    before, and none of this one. (The server runs statements on the executor,
    past the log of [Database::execute].) *)
Theorem clean_shutdown_persists `{malloc : Malloc, std_hash : !StdHash, !StdHashLaws, CanOpen, CanRename, order : !TableOrder, !TableOrderLaws, kernel : !Kernel, !KernelAccepts}
    dir files db t0 args o env : dir <> "" -> can_open (wal_path dir) = true -> can_open (tmp_path dir) = true -> can_rename (tmp_path dir) (snapshot_path dir) = true ->
  clean_runs dir files db -> parse_args 1 args default_options = Ret (Some o) -> data_dir o = dir -> env_ok t0 o env db ->
  restores dir files db /\
  (main args files env = Throw bad_alloc \/ exists d fs ss files', main_start o files env = Ret (d, fs) /\ restores dir fs db /\
     main args files env = Ret (Some (ss, files')) /\ restores dir files' (after_run o env db)).
Proof.
  intros Hdir Hopen Htmp Hren Hruns Hargs Ho Henv.
  assert (Hh : holds dir files db).
  { clear Hargs Ho Henv t0 args o env. induction Hruns as [|t0 args o env files db ss files' _ IH Hargs Ho Henv Hm]; [apply empty_holds|].
    destruct (main_run dir Hdir Hopen Htmp Hren t0 args o files db env Hargs Ho IH Henv) as [E|(d & fs & ss' & f' & _ & _ & E & Hh)]; rewrite E in Hm; [done|].
    by injection Hm as <- <-. }
  split; [by apply holds_restores|].
  destruct (main_run dir Hdir Hopen Htmp Hren t0 args o files db env Hargs Ho Hh Henv) as [?|(d & fs & ss & files' & E1 & Hf & E2 & Hf')]; [by left|right].
  exists d, fs, ss, files'. split; [done|]. split; [by apply holds_restores|]. split; [done|by apply holds_restores].
Qed.

(** *** A run whose client creates and fills two tables *)

(** CREATE and INSERT answer with a message, which is always printed. *)
Lemma change_formats ex ck stmt raw res ex' `{malloc : Malloc, StdHash} : (forall s, stmt <> SELECT s) -> execute ex ck stmt raw = Ret (res, ex') ->
  exists text, format_result res = Ret text.
Proof.
  intros Hns E. assert (Hn : column_names res = []).
  { destruct stmt as [stmt|stmt|stmt]; [| |by destruct (Hns stmt)]; cbn [execute] in E.
    - unfold exec_create_table in E. destruct (tables_ ex !! _); [by injection E as <- <-|]. destruct (create_columns _ _); [by injection E as <- <-|].
      apply bind_Ret_inv in E as (t & _ & E). by injection E as <- <-.
    - unfold exec_insert in E. destruct (tables_ ex !! _); [|by injection E as <- <-]. apply bind_Ret_inv in E as ([[err n] t'] & _ & E). cbn [fst snd] in E.
      destruct err; [by injection E as <- <-|]. apply bind_Ret_inv in E as (c & _ & E). by injection E as <- <-. }
  unfold format_result. rewrite Hn. destruct (negb _); by eexists.
Qed.

Definition is_change (sql : string) : bool := match parse_sql sql with Ret (inr (SELECT _)) | Ret (inl _) => false | Ret (inr _) => true | _ => false end.

Lemma session_queries_ok `{malloc : Malloc, StdHashLaws} t0 now sqls : t0 <= now <= t0 + DEFAULT_TTL_SECONDS -> is_s64 (now + DEFAULT_TTL_SECONDS) ->
  Forall (fun sql => is_change sql = true /\ trim_end query_end sql = sql /\ is_exit sql = false /\ sql <> "") sqls ->
  forall i db, session_ok db (uncached now <$> sqls) ->
  queries_ok t0 (fun _ => at_time now) i db sqls /\ after_queries (fun _ => at_time now) i db sqls = abs_final db (uncached now <$> sqls).
Proof.
  intros Hnow Hs. induction 1 as [|sql sqls (Hc & Ht & He & Hne) _ IH]; intros i db Hok; [done|].
  cbn [queries_ok after_queries fmap list_fmap session_ok sp_clocks sp_stmt uncached] in *. rewrite Ht, He. destruct (String.eqb_spec sql ""); [done|].
  destruct Hok as [Hok1 Hok]. unfold is_change in Hc. destruct (parse_sql sql) as [[err|stmt]| | |] eqn:Ep; try done.
  assert (Es : stmt_of sql = stmt) by (unfold stmt_of; by rewrite Ep). unfold uncached in Hok at 1. cbn [sp_clocks sp_stmt] in *. rewrite Es in *.
  assert (Ea : abs_sql db (at_time now) sql = (abs_execute db (at_time now) stmt).2) by (unfold abs_sql; by rewrite Ep).
  rewrite Ea. destruct (IH (S i) _ Hok) as [Hq Hafter]. split; [|rewrite Hafter; unfold abs_final; cbn [foldl]; unfold uncached at 2; cbn; by rewrite Es].
  split; [|exact Hq]. split; [unfold sql_ok; by rewrite Ep|]. split; [intros j; cbn; lia|]. split; [intros j; cbn; exact Hs|].
  intros ex db' res ex' _ _ E. unfold execute_sql in E. rewrite Ep in E. cbn [mbind outcome_bind] in E. eapply change_formats, E. by destruct stmt.
Qed.

Definition setup_client : Socket := mkSocket [sample_setup ≫= frame] [] 0 false.
Definition setup_environment : Environment :=
  mkEnvironment (at_recovery 100) true [None; Some setup_client] (fun _ _ => at_time 100) (fun _ _ => 150) (fun _ _ => 150).
Definition data_options : Options := mkOptions DEFAULT_PORT THREAD_POOL_SIZE "data".

Lemma setup_messages : messages (stream setup_client) = sample_setup.
Proof. unfold stream. cbn [inbox setup_client concat]. rewrite app_nil_r. apply messages_frames. repeat constructor; vm_compute; discriminate. Qed.

Lemma setup_run : connections_ok 100 (env_clocks setup_environment) 0 ∅ (env_accepted setup_environment) /\
  after_run data_options setup_environment ∅ = setup_db.
Proof.
  destruct (session_queries_ok 100 100 sample_setup) with (i := 0%nat) (db := ∅ : gmap string atable) as [Hq Ha].
  - unfold DEFAULT_TTL_SECONDS. lia.
  - unfold is_s64, DEFAULT_TTL_SECONDS. lia.
  - repeat (apply Forall_cons_2; [split; [vm_compute; reflexivity|split; [vm_compute; reflexivity|split; [vm_compute; reflexivity|discriminate]]]|]). apply Forall_nil_2.
  - solve_session_ok (uncached 100 <$> sample_setup).
  - unfold after_run. cbn [setup_environment env_listening env_clocks env_accepted num_threads data_options].
    change (true && negb (THREAD_POOL_SIZE =? 0)) with true. cbv iota. cbn [connections_ok after_connections]. rewrite setup_messages.
    split; [|rewrite Ha; vm_compute; reflexivity]. split; [|split; [exact Hq|exact I]].
    unfold no_failed_read. cbn [inbox setup_client]. apply Forall_cons_2; [vm_compute; discriminate|apply Forall_nil_2].
Qed.

Lemma setup_env_ok : env_ok 100 data_options setup_environment ∅.
Proof.
  destruct setup_run as [Hc Ha]. unfold env_ok. rewrite Ha.
  assert (Hs : snapshot_ok 100 setup_db (fun _ _ => 150)).
  { split; [exact setup_saveable|]. split; [vm_compute; reflexivity|]. intros _ _. unfold DEFAULT_TTL_SECONDS. lia. }
  split; [|split; [|split; [exact Hc|split; [exact Hs|exact Hs]]]].
  - intros n i. unfold is_s64, DEFAULT_TTL_SECONDS. cbn. lia.
  - intros l. split; intros i; unfold is_s64, DEFAULT_TTL_SECONDS; cbn; lia.
Qed.

Lemma clean_shutdown_persists_witness : main ["--data-dir"; "data"] ∅ setup_environment = Throw bad_alloc \/
  exists ss files', main ["--data-dir"; "data"] ∅ setup_environment = Ret (Some (ss, files')) /\ restores "data" files' setup_db.
Proof.
  destruct (clean_shutdown_persists "data" ∅ ∅ 100 ["--data-dir"; "data"] data_options setup_environment) as [_ H].
  - discriminate.
  - reflexivity.
  - reflexivity.
  - reflexivity.
  - apply no_run.
  - reflexivity.
  - reflexivity.
  - exact setup_env_ok.
  - destruct H as [H|(d & fs & ss & files' & _ & _ & E & Hr)]; [left; exact H|right]. exists ss, files'. split; [exact E|].
    rewrite (proj2 setup_run) in Hr. exact Hr.
Defined.

(** The client is told that its rows are inserted; the process is killed; the
    next start finds no table. *)
Example served_rows_lost :
  (s ← main_start data_options ∅ setup_environment;
   r ← main_serve data_options (fst s) setup_environment;
   d ← main_start data_options (snd s) setup_environment;
   Ret (map (fun c => outbox c) (snd r), size (tables_ (executor_ (fst d))))) =
  Ret ([["Table USERS created" +:+ nl; "2 rows inserted" +:+ nl; "Table LOGS created" +:+ nl; "3 rows inserted" +:+ nl] ≫= frame], 0%nat).
Proof. vm_compute. reflexivity. Qed.
