(* ===== verification/Process.v ===== *)
(** * A run of the process that serves its clients at the same time

    [main] from startup, over the pool and the connections interleaved (Serving),
    to the return of [shutdown] and the last snapshots; and that the next start
    finds what the clients inserted. Main has the same with the connections one
    after the other, byte by byte. *)

From Stdlib Require Import ZArith Lia.
From stdpp Require Import base strings gmap numbers list list_numbers.
From S2P Require Import Prelude Cpp Common Schema Arena BPTree BPTreeRep BPTreeInsert Index Table TableRep TableSpec Lexer Parser ParserSpec Cache CacheSpec Executor JoinSpec ExecutorSpec SessionSpec Crc Wal Snapshot SnapshotSpec Database Wire Network NetworkSpec DatabaseSpec LockManager Concurrency ConcurrencySpec Sessions SessionsSpec ThreadPool Serving ServingSpec Main.
Open Scope string_scope.
Open Scope list_scope.
Open Scope Z_scope.

(** ** The process *)

(** [None]: the schedule names a step that cannot be taken, or ends before
    [shutdown] has returned. *)
Definition process `{malloc : Malloc, StdHash, CanOpen, CanRename, TableOrder} (o : Options) (files : Files) (env : Environment)
    (clients : list client) (events : list event) : outcome (option (TCPServer * Files)) :=
  s ← main_start o files env;
  r ← run_tcp events (TCPServer_new (executor_ (fst s)) (Z.to_nat (num_threads o)) clients);
  match r with
  | Some srv =>
      if decide (shutdown_ (pool_ srv) = ThreadPool.Returned) then
        files ← main_stop (with_executor (fst s) (executor (common (server srv)))) (snd s) env;
        Ret (Some (srv, files))
      else Ret None
  | None => Ret None
  end.

(** ** What the tables hold *)

(** The times of a run that begins at [t0]. *)
Definition timely (t0 : Z) (ck : Clocks) : Prop := clock_fits ck /\ forall i, t0 <= ck_insert ck i.
Definition lasting (t0 : Z) (r : stored) : Prop := st_alive r = true /\ t0 + DEFAULT_TTL_SECONDS <= st_expiry r.

Lemma timely_ok t0 ck : timely t0 ck -> clock_ok (lasting t0) ck.
Proof. intros [Hf Ht]. split; [exact Hf|]. intros row i. split; [done|]. cbn. specialize (Ht i). lia. Qed.

Lemma content_at db db' n a : same_content db db' -> db !! n = Some a ->
  exists a', db' !! n = Some a' /\ at_schema a' = at_schema a /\ st_vals <$> at_rows a' = st_vals <$> at_rows a.
Proof.
  intros C E. pose proof (same_content_lookup _ _ n C) as H. rewrite E in H. inversion H as [x y Hxy Ex Ey|]. subst x.
  unfold content in Hxy. injection Hxy as E1 E2. by exists y.
Qed.

Lemma schemas_content Γ db db' : same_content db' db -> has_schemas Γ db -> has_schemas Γ db'.
Proof. intros C H n a E. destruct (content_at _ _ n a C E) as (a' & E' & <- & _). by apply H. Qed.

Lemma no_more_content k db db' : same_content db' db -> no_more db k -> no_more db' k.
Proof.
  intros C H n a E. destruct (content_at _ _ n a C E) as (a' & E' & _ & Ev). apply H in E'. apply (f_equal length) in Ev. rewrite !length_fmap in Ev. lia.
Qed.

Lemma extends_content db db' db1 L : same_content db db' -> extends db' db1 L -> extends db db1 L.
Proof.
  intros C H n. specialize (H n). pose proof (same_content_lookup _ _ n C) as Hn.
  inversion Hn as [x y Hxy Ex Ey|Ex Ey]; rewrite <- Ey in H; [|done]. unfold content in Hxy. injection Hxy as E1 E2. by rewrite E1, E2.
Qed.

(** Tables with schemas of [Γ] can be saved when those of [Γ] can. *)
Definition savable_schemas (Γ : gmap string Schema) : Prop :=
  (forall n s, Γ !! n = Some s -> saveable n (mkATable s [])) /\ Z.of_nat (size Γ) < 2 ^ 32.

Lemma schemas_savable Γ t0 db clock : savable_schemas Γ -> has_schemas Γ db -> (forall m i, clock m i <= t0 + DEFAULT_TTL_SECONDS) -> snapshot_ok t0 db clock.
Proof.
  intros [Hs Hsize] Hg Hc. split; [|split; [|done]].
  - intros n a E. exact (Hs n _ (Hg n a E)).
  - assert (Hsub : dom db ⊆ dom Γ) by (intros n [a E]%elem_of_dom; apply elem_of_dom; by exists (at_schema a); apply Hg).
    apply subseteq_size in Hsub. rewrite !size_dom in Hsub. lia.
Qed.

(** ** Theorem *)

(** The files of the directory open and can be renamed. *)
Definition disk_ok `{CanOpen, CanRename} (dir : string) : Prop :=
  dir <> "" /\ can_open (wal_path dir) = true /\ can_open (tmp_path dir) = true /\ can_rename (tmp_path dir) (snapshot_path dir) = true.

(** All of the run lies within one time to live. *)
Definition times_ok (t0 : Z) (env : Environment) : Prop :=
  load_clocks_ok t0 (rk_load (env_recovery env)) /\
  (forall l, in_ttl t0 (rk_replay (env_recovery env) l) /\ clocks_bounded (rk_replay (env_recovery env) l)) /\
  (forall m i, env_last_snapshot env m i <= t0 + DEFAULT_TTL_SECONDS) /\ forall m i, env_destructor env m i <= t0 + DEFAULT_TTL_SECONDS.

Definition clients_ok `{StdHash} (Γ : gmap string Schema) (db0 : gmap string atable) (clients : list client) : Prop :=
  savable_schemas Γ /\ has_schemas Γ db0 /\ no_more db0 (2 ^ 62 - 2) /\
  Forall (fun cl => Forall (message_allowed Γ) (messages cl)) clients /\ Z.of_nat (server_work (serving Executor_new clients)) < 2 ^ 62.

(** C7: Concurrent clients lose nothing in a clean shutdown. The clients send no
    one-table SELECT with a WHERE on the primary key (it reads the index without
    a lock and races with INSERTs), no NaN keys and no rows over 4 GiB, and
    create a table with one schema; the only memory refused is a chunk of an
    arena; and all lies within one time to live. When a server on saved files
    has served such clients at the same time, in any interleaving, and
    [shutdown] has returned, all accepted connections are over, the last
    snapshots are written, and a start from them finds the rows that were there
    and, interleaved, those the connections inserted. Until then the files are
    those of the start: a start from them, as after a crash, finds the old rows. *)
Theorem served_rows_persist `{malloc : Malloc, std_hash : !StdHash, laws : !StdHashLaws, can_open_ : CanOpen, can_rename_ : CanRename, order : !TableOrder, !TableOrderLaws}
    Γ dir t0 o files env db0 clients :
  disk_ok dir -> data_dir o = dir -> 0 < num_threads o -> holds dir files db0 -> times_ok t0 env -> clients_ok Γ db0 clients ->
  main_start o files env = Throw bad_alloc \/
  exists d fs, main_start o files env = Ret (d, fs) /\ restores dir fs db0 /\
    forall events srv, Forall (event_fits (timely t0)) events ->
      run_tcp events (TCPServer_new (executor_ d) (Z.to_nat (num_threads o)) clients) = Ret (Some srv) -> shutdown_ (pool_ srv) = ThreadPool.Returned ->
      Forall over (connections (server srv)) /\
      exists files' db L css, process o files env clients events = Ret (Some (srv, files')) /\ holds dir files' db /\ restores dir files' db /\
        extends db0 db L /\ interleaves css L /\ Forall2 (contributed Γ) (connections (whole srv)) css.
Proof.
  intros (Hdir & Hopen & Htmp & Hren) Ho Hn Hh (Hlc & Hrc & Hs1 & Hs2) (HΓs & HΓ & Hm & Hq & Hw).
  assert (Estart : main_start o files env = Database_new dir files (env_recovery env)) by (unfold main_start; by rewrite Ho).
  destruct (holds_restores dir Hdir Hopen files db0 Hh (env_recovery env) t0 Hlc Hrc) as [E|(d & fs & db1 & E & [R1 (cs & C1 & Hcap)] & F1 & Cnt & Ed & Ew & Hh1)];
    [left; by rewrite Estart|right]. rewrite E in Estart. exists d, fs. split; [exact Estart|]. split; [by apply holds_restores|].
  intros events srv Hev Erun Hret.
  assert (Hreach : tcp_reached (timely t0) (TCPServer_new (executor_ d) (Z.to_nat (num_threads o)) clients) srv) by (eapply run_tcp_reached; [apply tcp_start|exact Hev|exact Erun]).
  pose proof (tcp_reached_inv _ _ _ _ _ Hreach) as Hi. split; [by eapply returned_over; [exact Hi|lia|]|].
  destruct (served_ledger Γ (lasting t0) (timely t0) (executor_ d) db1 cs clients (whole srv)) as (db & L & css & Hled).
  - exact R1.
  - by eapply schemas_content.
  - intros n a Ea. exact (F1 n a Ea).
  - exact C1.
  - exact Hcap.
  - exact Hq.
  - by eapply no_more_content.
  - exact Hw.
  - apply timely_ok.
  - exact (ti_whole _ _ _ _ _ Hi).
  - pose proof Hled as ((R & Hs & HF & cs' & C' & Hcap') & Hx & Hl & Hc & _).
    destruct (stop_saves dir Hdir Hopen Htmp Hren t0 (with_executor d (executor (common (server srv)))) fs db env) as (files' & Estop & Hh');
      [exact Ed|exact Ew|split; [exact R|by exists cs']|exact HF|by eapply schemas_savable|by eapply schemas_savable|].
    exists files', db, L, css. split.
    { unfold process. rewrite Estart. outcome_simpl. cbn [fst snd]. rewrite Erun. outcome_simpl. rewrite decide_True by done. by rewrite Estop. }
    split; [exact Hh'|]. split; [by apply holds_restores|]. split; [eapply extends_content; [symmetry; exact Cnt|exact Hx]|]. split; [exact Hl|].
    eapply Forall2_impl; [exact Hc|]. intros c rows. by apply connection_ok_contributed.
Qed.

(** *** Two clients that insert into one table *)

Lemma process_inv `{malloc : Malloc, StdHash, CanOpen, CanRename, TableOrder} o files env clients events srv files' :
  process o files env clients events = Ret (Some (srv, files')) -> exists d fs, main_start o files env = Ret (d, fs) /\
    run_tcp events (TCPServer_new (executor_ d) (Z.to_nat (num_threads o)) clients) = Ret (Some srv) /\ shutdown_ (pool_ srv) = ThreadPool.Returned.
Proof.
  unfold process. intros E. apply bind_Ret_inv in E as ([d fs] & Es & E). apply bind_Ret_inv in E as (r & Er & E).
  destruct r as [srv'|]; [|done]. case_decide as Hd; [|done]. apply bind_Ret_inv in E as (f & _ & [= <- _]). by exists d, fs.
Qed.

Definition two_clients : list client :=
  [mkClient ["CREATE TABLE t (id INT, v INT)"; "INSERT INTO t VALUES (1, 10), (2, 20)"] false; mkClient ["INSERT INTO t VALUES (3, 30)"; "EXIT"] false].

(** The second inserts between the two rows of the first. *)
Definition two_clients_events : list event :=
  accepting ++ accepting ++ [Work (Check 0); Work (Check 1)] ++ replicate 10 (serve 0) ++ replicate 9 (serve 1) ++ replicate 6 (serve 0) ++
  [Work (Finish 0); Work (Finish 1); Work Shutdown_call; Work Set_stop; Work Notify_all; Work (Check 0); Work (Check 1); Work Join; Work Join; Work Join].

Definition two_options : Options := mkOptions DEFAULT_PORT 2 "data".
Definition run_two : outcome (option (TCPServer * Files)) := process two_options ∅ setup_environment two_clients two_clients_events.

Definition restarted : outcome (list (list string * string) * list Row) :=
  r ← run_two; p ← deref r;
  s ← main_start two_options (snd p) setup_environment;
  t ← deref (tables_ (executor_ (fst s)) !! "T"); rs ← scan_all t (fun _ => 100); Ret (seen (server (fst p)), rs).

Example two_clients_outcome : restarted =
  Ret ([(["Table T created" +:+ nl; "2 rows inserted" +:+ nl], "closed"); (["1 rows inserted" +:+ nl; BYE], "closed")],
       [[VInt 1; VInt 10]; [VInt 3; VInt 30]; [VInt 2; VInt 20]]).
Proof. vm_compute. reflexivity. Qed.

Lemma two_clients_fit : Forall (event_fits (timely 100)) two_clients_events.
Proof.
  assert (Hf : forall i, event_fits (timely 100) (serve i)).
  { intros i. split; intros j; unfold is_s64, DEFAULT_TTL_SECONDS; cbn; lia. }
  unfold two_clients_events, accepting. cbn [app replicate]. repeat (apply Forall_cons_2; [first [exact I | apply Hf]|]). apply Forall_nil_2.
Qed.

Lemma sample_schemas_savable : savable_schemas sample_schemas.
Proof. split; [solve_saveable sample_schemas|vm_compute; reflexivity]. Qed.

Lemma two_clients_ok : clients_ok sample_schemas ∅ two_clients.
Proof.
  split; [exact sample_schemas_savable|]. split; [intros n a; by rewrite lookup_empty|]. split; [intros n a; by rewrite lookup_empty|].
  split; [|vm_compute; reflexivity]. unfold two_clients. repeat apply Forall_cons_2; cbn [messages]; repeat apply Forall_cons_2; try apply Forall_nil_2; solve_message_allowed.
Qed.

Lemma setup_times_ok : times_ok 100 setup_environment.
Proof.
  split; [intros n i; unfold is_s64, DEFAULT_TTL_SECONDS; cbn; lia|]. split; [intros l; split; intros i; unfold is_s64, DEFAULT_TTL_SECONDS; cbn; lia|].
  split; intros m i; unfold DEFAULT_TTL_SECONDS; cbn; lia.
Qed.

Lemma served_rows_persist_witness : exists srv files' db L css, run_two = Ret (Some (srv, files')) /\ restores "data" files' db /\
  extends ∅ db L /\ interleaves css L /\ Forall2 (contributed sample_schemas) (connections (whole srv)) css.
Proof.
  pose proof two_clients_outcome as E. unfold restarted in E. apply bind_Ret_inv in E as (r & Erun & E).
  destruct r as [[srv files']|]; [clear E|discriminate E]. pose proof Erun as Einv. unfold run_two in Einv.
  apply process_inv in Einv as (d & fs & Es & Er & Hret).
  destruct (served_rows_persist sample_schemas "data" 100 two_options ∅ setup_environment ∅ two_clients) as [E|(d' & fs' & Es' & _ & H)].
  - split; [discriminate|]. by repeat split.
  - reflexivity.
  - reflexivity.
  - apply empty_holds.
  - exact setup_times_ok.
  - exact two_clients_ok.
  - rewrite Es in E. discriminate E.
  - rewrite Es in Es'. injection Es' as <- <-. destruct (H two_clients_events srv two_clients_fit Er Hret) as (_ & f & db & L & css & E & _ & Hrest).
    exists srv, f, db, L, css. split; [exact E|exact Hrest].
Defined.
